(* ===== verification/_CoqProject ===== *)
-Q . S2P
Prelude.v
GoStrings.v
Encodings.v
Urls.v
Regex.v
Sha256.v
Domain.v
Authorization.v
AuthorizationProps.v
Memstore.v
Libs.v
Tenancy.v
Tables.v
Database.v
DatabaseProps.v
World.v
Effects.v
Demo.v
Ports.v
Postgres.v
PostgresProps.v
FlagsProvider.v
Relay.v
Migrations.v
Token.v
Jwks.v
RemoteVerifier.v
Exec.v
Returns.v
OrgSpec.v
OrgRefinement.v
Scenario.v
OrgProps.v
InviteSpec.v
Interleaving.v
Service.v
Adapters.v
Grpc.v
KeyFiles.v
ServeMux.v
HttpApi.v
Startup.v
Shutdown.v
TestDatabase.v
Writers.v
ServiceInv.v
Credentials.v
AuthFlows.v
Guesses.v
Races.v
Sessions.v
Rotations.v
SignupFlows.v
Verified.v
GrpcProps.v
ApiTokens.v
InviteFlows.v
Completes.v
InviteCompletes.v
SignupCompletes.v
Findings.v
