(* ===== verification/Prelude.v ===== *)
(** * Orbit Auth: a verification development

    Orbit Auth (src/) is the identity service of a platform: one-time codes and
    passwords, refresh and access tokens, API tokens, organizations with their
    members and invitations, and self-serve sign-up; next to it are three library
    packages for other services: [authorization] (roles and permissions),
    [tenancy] (the active organization of a request) and [token] (access tokens).
    The service is layered: [internal/domain] (data, ports), [internal/application]
    (use cases over the ports), [internal/infrastructure] (Postgres store, gRPC
    handlers, credentials, notifications), wired in [cmd/auth].

    ** Files

    Shared: [Prelude] (tactics, hint databases, list lemmas), [GoStrings] (the
    strings and path packages on byte strings: TrimSpace, ToLower, EqualFold, SplitN,
    Base, Ext), [Encodings] (base64url and big-endian numbers, with their round
    trips), [Urls] (the query strings of net/url, with theirs), [Regex] (matching with
    derivatives, for the three patterns), [Sha256] (crypto/sha256, constants computed
    from prime roots), [Libs] (google/uuid and contexts as classes, with a concrete
    instance), [Domain] (internal/domain).

    Library packages: [Authorization] and [AuthorizationProps] (policy.go,
    catalog.go, rbac.go), [Memstore] (memstore.go), [Tenancy] (tenancy/), and
    token/access.go in four files: [Token] (claims, signing, parsing; also the signer
    of internal/infrastructure/jwt), [Jwks] (the key document), [RemoteVerifier] (the
    cached verifier of other services), [KeyFiles] (the key files, the signer they
    give and the interceptor main installs with its keys).

    The store: [Tables] (rows of a keyed table), [Database] (the tables of the
    migrations and one definition per sqlc statement), [DatabaseProps] (the schema
    constraints as an invariant every statement keeps), [World] (the state-and-error
    monad of effectful code: a database through a pool or a transaction, clocks,
    identifiers, randomness, bus, notifications), [Effects] (properties closed under
    the monad), [Demo] (a concrete environment), [Ports] (internal/domain/ports.go:
    a record of operations per interface), [Postgres]
    (internal/infrastructure/postgres: store.go, organizations.go, signup.go,
    invites.go, events.go, flags.go), [PostgresProps], [Exec] (weakest
    preconditions), [Returns] (partial correctness), [OrgSpec] (the abstract
    organizations and the contract of an organization store), [OrgRefinement]
    (Postgres implements it), [Scenario] (worlds reached by calls), [OrgProps],
    [InviteSpec] (accepting and revoking invitations as atomic transitions, and that
    Postgres implements them), [Interleaving] (the membership and invitation calls
    statement by statement, interleaved, with the locks of organizations and
    invitations), [Writers] (what the other methods of the store leave alone, so that
    they are among the other writers of [Interleaving]), [Migrations]
    (internal/infrastructure/postgres/migrations and the migrate subcommand).

    The service: [Service] (internal/application, every use case), [Adapters]
    (credentials, clock, ids, notifications client and the wiring of cmd/auth),
    [Grpc] (internal/infrastructure/grpc), [ServiceInv] (invariants of all use
    cases), [Credentials], [AuthFlows], [Guesses], [Sessions], [GrpcProps],
    [ApiTokens], [InviteFlows], [SignupFlows] (theorems about single flows), [Races]
    (code logins statement by statement, interleaved), [Rotations] (the calls that
    exchange a refresh token, interleaved), [Verified] (no session before verification),
    [Completes] (a whole sign-in),
    [InviteCompletes] (a whole invitation), [SignupCompletes] (a whole sign-up),
    [Findings] (runs that show divergent behaviour).

    Around it: [FlagsProvider] (internal/infrastructure/featureflags: a transition
    system over the steps of its goroutines), [ServeMux] (the router of net/http),
    [HttpApi] (internal/infrastructure/httpapi: the server, its routes and the flag
    listing), [Relay] (the outbox relay of cmd/auth), [Startup]
    (application.NewService and main, step by step from the environment to the service,
    with the migrations it runs, the relay it starts and its seeding), [Shutdown]
    (the shutdown hooks of main against the relay goroutine) and [TestDatabase]
    (internal/testutil: the disposable schemas of the integration tests).

    ** How code is modelled

    A Go method is a computation [M A]: it takes a [World] and returns a value, an
    error or a panic, with the world after it.  What the outside decides (times,
    new identifiers, random bytes, bcrypt hashes, scan order, which calls fail) is
    an [Env] of oracles indexed by a counter that every effect advances; theorems
    hold for every such environment, and the documented behaviour a theorem relies
    on is a class ([EnvLaws], [UUIDLaws], [CredentialLaws], [JWTLaws], [Fair] for
    runs in which no dependency fails).  [Demo], [Libs], [ApiTokens] and [Token]
    give instances in which all of them hold, and the witnesses compute there.
    Errors are values with [errors.Is]; a nil port is [None] and calling it panics.

    Times are microseconds since the Go zero time, which is what Postgres stores.
    Counters of the schema keep their 32-bit bound.  A payload of the outbox is kept
    as a value; the JSON encoder is modelled by its only failure, a year outside
    0..9999.  Text values are valid for Postgres (no NUL byte).

    The clocks are oracles like the others: no reading is assumed to be later than another.
    A theorem that speaks of the time of a call therefore names the reading the call
    made, by its index: [go_now (S (w_tick w))] is the clock read by the second effect
    after [w], [db_now n] what NOW() was in the n-th.

    In [Postgres] the statements of a call run one after the other: row locks are
    modelled as reads, and two transactions are not interleaved.  [Interleaving] takes
    the membership calls and the acceptance of invitations apart: a transaction reads
    what is committed, keeps its writes until it commits and holds the locks of its
    organization and invitation until it ends.  Every other writer is a step [outside],
    which respects those locks, deletes no organization and leaves settled invitations
    as they are: so does every other method of the store, on any world
    ([store_call_outside] in [Writers]), except the purge of unverified sign-ups, which
    deletes the pending accounts and the organizations they leave empty and is not among
    the writers admitted.  That an organization keeps an active member moreover needs
    that the other writers do not take its last ([others_keep]), which the same theorem
    shows of those methods.

    Idealised: a commit or a statement on the pool that reports an error has written
    nothing, although the driver cannot tell when the connection is lost while the
    answer is on its way.  After a failing statement the code never continues its
    transaction except on "no rows", which does not abort it.

    ** What the theorems show

    - Invariants over every sequence of calls and all failures: no session before
      verification ([no_session_before_verification]), the schema constraints ([use_cases_keep_schema], [store_calls_keep_schema]), an active
      member in every organization ([org_ops_keep_active_member], against the
      contract), accounts nobody can overwrite ([settled_accounts_stable]).
    - Refinement: the Postgres store implements the abstract organizations, with
      errors and events ([postgres_implements_OrgContract]), and the two calls that use
      an invitation up ([postgres_implements_InviteContract]).
    - Concurrency: every interleaving of membership and invitation calls commits what
      the calls do one after the other and keeps an active member
      ([interleavings_serializable]), uses an invitation at most once and never undoes a
      suspension ([invitations_used_once]), and ends, without deadlock
      ([interleavings_terminate]); concurrent code logins still have a bound on their
      guesses ([concurrent_guesses_bounded]), and a refresh token on how often it is
      exchanged ([concurrent_rotations_bounded]); a call nothing interleaves with is the
      use case itself ([lone_VerifyOTP], [alone_Refresh], [alone_SelectOrg]).
    - Atomicity: a store call that fails changed nothing
      ([store_call_all_or_nothing]).
    - What success proves: for each way to get tokens, which credentials were
      presented and what changed ([VerifyOTP_sound], [LoginWithPassword_sound],
      [Refresh_sound], [SelectOrg_sound], [VerifySignup_sound]); guesses that follow each
      other and are counted are bounded by five ([OTP_guesses_bounded]).
    - Total correctness: when no dependency fails, a code login by email completes, from
      the request to the refreshed session ([sign_in_completes]), an invitation, from the
      member who sends it to the recipient who joins ([invitation_completes]), and a
      sign-up, from the registration to the active account ([sign_up_completes]).
    - Invitations: sender, recipient, single use ([InviteMember_sound],
      [AcceptInvite_sound], [AcceptInvite_once]).
    - Tokens: API tokens round trip, validate soundly and are revoked by their owner;
      access tokens round trip and are accepted only when verified; a started service
      honours what it issues ([issued_tokens_honoured]).
    - The remote verifier: it accepts only under keys published within the hour
      ([RemoteVerifier_sound]), fetches them at a bounded rate
      ([refresh_rate_bounded]) and recovers from outages and rotations
      ([RemoteVerifier_recovers]); key documents are validated ([KeySet_valid]) and
      round trip ([Document_KeySet_roundtrip]).
    - Feature flags: a check answers from the last document fetched
      ([flag_check_last_fetched]), which is the table ([flags_end_to_end]); a shutdown
      terminates ([Shutdown_terminates]).  The HTTP server answers everything and only
      reads ([http_surface_read_only]).
    - Operations: legacy databases are adopted exactly and their migrations never run
      again ([adoptLegacy_exact], [legacy_never_rerun]), the relay drains the outbox
      with bounded pauses and stops on cancellation ([relay_drains],
      [relay_waits_bounded], [relay_stops]), start-up fails closed and
      writes nothing outside dev but its migrations ([startup_fails_closed]), the process shuts down in order ([shutdown_orderly]), and
      the integration tests touch only a disposable database and leave it as it was
      ([OpenPostgres_isolated]).
    - The gRPC surface: the caller comes from a verified token, organization calls
      are for members, failures answer classified statuses.
    - Authorization: Check is exactly the stated rule, AllowedScopes is its bulk form,
      CanGrant never escalates, organizations are isolated, policies and catalogues
      are validated as documented; the tenancy middleware and interceptor agree.

    Recursion is structural except the decimal digits of [Adapters], with fuel 19,
    the digits of a 64-bit number, SHA-256, whose rounds are counted lists, and the
    redirects of [RemoteVerifier], with fuel 2, since the third request is never
    redirected ([client_Do_enough]).  The endless loops of the relay and the provider
    are runs of any length.

    ** Not modelled, and the plan

    Left for later: interleavings of the sign-up statements, and the JSON of the flag
    listing and of key documents.  Not modelled: generated protobuf code, and what is code of
    others: the gRPC server and Fiber with their listeners (Fiber is taken to hand every
    request to the router mounted in it; what it answers itself, such as 501 for a
    method it does not know, is left out), the delivery of signals, logging, the SQL of
    the migrations (what it does to rows is a parameter of [Startup]), the text of errors,
    of JSON and of RFC 3339 timestamps, the parser of URLs. *)
From Stdlib Require Export Ascii Wf_nat.
From stdpp Require Export prelude gmap strings list fin_maps sorting.
From Stdlib Require Export ZArith Lia.

(** ** Tactics *)

(** [split_and_or] breaks boolean connectives that guards of the code leave in
    the context. *)
Ltac bool_hyps :=
  repeat match goal with
  | H : _ && _ = true |- _ => apply andb_true_iff in H; destruct H
  | H : _ || _ = false |- _ => apply orb_false_iff in H; destruct H
  | H : negb _ = true |- _ => apply negb_true_iff in H
  | H : negb _ = false |- _ => apply negb_false_iff in H
  | H : bool_decide _ = true |- _ => apply bool_decide_eq_true_1 in H
  | H : bool_decide _ = false |- _ => apply bool_decide_eq_false_1 in H
  | H : String.eqb _ _ = true |- _ => apply String.eqb_eq in H
  | H : String.eqb _ _ = false |- _ => apply String.eqb_neq in H
  end.

(** [step_match] splits the outermost blocked [match] or [if] of the goal or of
    a hypothesis and simplifies; [run] repeats it.  This is symbolic execution
    of a definition translated from straight-line Go code. *)
Ltac step_match :=
  first [ case_match | case_decide ]; simplify_eq/=; try done.

Ltac run := repeat step_match.

(** ** Hint databases *)

Create HintDb orbit.
Create HintDb inv.
Create Rewrite HintDb orbit.
Create Rewrite HintDb lang_inv.

(** ** Booleans and options *)

Lemma bool_decide_String_eqb (s t : string) :
  String.eqb s t = bool_decide (s = t).
Proof.
  destruct (String.eqb_spec s t); [by rewrite bool_decide_eq_true_2
    | by rewrite bool_decide_eq_false_2].
Qed.

(** ** Lists *)

Section lists.
Context {A : Type}.
Implicit Types (l : list A) (f : A → bool).

Lemma existsb_iff f l : existsb f l = true ↔ ∃ x, x ∈ l ∧ f x = true.
Proof.
  rewrite existsb_exists. split; intros (x & Hx & Hf); exists x;
    [rewrite list_elem_of_In | rewrite <- list_elem_of_In]; auto.
Qed.

Lemma forallb_iff f l : forallb f l = true ↔ ∀ x, x ∈ l → f x = true.
Proof.
  rewrite forallb_forall. by setoid_rewrite list_elem_of_In.
Qed.

Lemma ex_elem_cons (P : A → Prop) x l :
  (∃ a, a ∈ x :: l ∧ P a) ↔ P x ∨ ∃ a, a ∈ l ∧ P a.
Proof.
  setoid_rewrite elem_of_cons. split.
  - intros (a & [->|?] & ?); eauto.
  - intros [?|(a & ? & ?)]; eauto.
Qed.

Lemma ex_elem_nil (P : A → Prop) : (∃ a, a ∈ @nil A ∧ P a) ↔ False.
Proof. split; [|done]. by intros (? & ?%elem_of_nil & _). Qed.
End lists.

Lemma NoDup_fmap_same {A B} (f : A → B) l x y :
  NoDup (f <$> l) → x ∈ l → y ∈ l → f x = f y → x = y.
Proof.
  induction l as [|z l IH]; [by intros _ ?%elem_of_nil|].
  rewrite fmap_cons, NoDup_cons, !elem_of_cons. intros [Hz Hnd] [->|Hx] [->|Hy] E; auto.
  - destruct Hz. rewrite E. by apply list_elem_of_fmap_2.
  - destruct Hz. rewrite <- E. by apply list_elem_of_fmap_2.
Qed.

(** ** Sorted, duplicate-free enumerations of a finite set of strings, the
    meaning of [sort.Strings] applied to the keys of a Go map. *)

Definition sorted_elements (s : gset string) : list string :=
  merge_sort String.le (elements s).

Lemma elem_of_sorted_elements (s : gset string) x :
  x ∈ sorted_elements s ↔ x ∈ s.
Proof. unfold sorted_elements. by rewrite merge_sort_Permutation, elem_of_elements. Qed.

Lemma NoDup_sorted_elements (s : gset string) : NoDup (sorted_elements s).
Proof. unfold sorted_elements. rewrite merge_sort_Permutation. apply NoDup_elements. Qed.

Lemma StronglySorted_sorted_elements (s : gset string) :
  StronglySorted String.le (sorted_elements s).
Proof. apply (StronglySorted_merge_sort String.le). Qed.

#[export] Hint Resolve NoDup_sorted_elements StronglySorted_sorted_elements : orbit.
