(* ===== verification/GoStrings.v ===== *)
(** Go byte strings: the functions of the [strings] package the program calls.

    A Go [string] is a sequence of bytes; [string] of the Standard Library is
    one too.  [TrimSpace] is exact on every byte string: Unicode white space is
    a fixed table of one-, two- and three-byte UTF-8 sequences, and both
    [utf8.DecodeRune] and [utf8.DecodeLastRune] recognise such a sequence from
    its bytes alone.  [ToLower] and [EqualFold] are exact on ASCII strings; the
    Unicode case tables they consult for the others are the parameters of the
    class [UnicodeCase]. *)
From S2P Require Import Prelude.

Abbreviation bytes := (list ascii).

Definition to_bytes (s : string) : bytes := String.list_ascii_of_string s.
Definition of_bytes (l : bytes) : string := String.string_of_list_ascii l.

Lemma of_to_bytes s : of_bytes (to_bytes s) = s.
Proof. apply String.string_of_list_ascii_of_string. Qed.

Lemma to_of_bytes l : to_bytes (of_bytes l) = l.
Proof. apply String.list_ascii_of_string_of_list_ascii. Qed.

#[export] Hint Rewrite of_to_bytes to_of_bytes : orbit.

Lemma to_bytes_inj s t : to_bytes s = to_bytes t → s = t.
Proof. intros H. by rewrite <- (of_to_bytes s), H, of_to_bytes. Qed.

Lemma to_bytes_app s t : to_bytes (s +:+ t) = to_bytes s ++ to_bytes t.
Proof. induction s as [|c s IH]; simpl; [done | by f_equal]. Qed.

Lemma to_bytes_nil s : to_bytes s = [] ↔ s = "".
Proof. by destruct s. Qed.

Lemma string_app_assoc (s t u : string) : (s +:+ t) +:+ u = s +:+ (t +:+ u).
Proof. apply to_bytes_inj. by rewrite !to_bytes_app, app_assoc. Qed.

Lemma string_app_nil_r (s : string) : s +:+ "" = s.
Proof. apply to_bytes_inj. by rewrite to_bytes_app, app_nil_r. Qed.

(** [len(s)], the slices [s[:n]] and [s[n:]]; the callers check the bounds,
    since Go panics when [n] exceeds the length. *)
Definition len (s : string) : nat := length (to_bytes s).
Definition slice_to (n : nat) (s : string) : string := of_bytes (take n (to_bytes s)).
Definition slice_from (n : nat) (s : string) : string := of_bytes (drop n (to_bytes s)).

Lemma slice_join n s : slice_to n s +:+ slice_from n s = s.
Proof.
  apply to_bytes_inj. unfold slice_to, slice_from.
  by rewrite to_bytes_app, !to_of_bytes, take_drop.
Qed.

Lemma len_slice_to n s : n ≤ len s → len (slice_to n s) = n.
Proof. unfold len, slice_to. rewrite to_of_bytes, length_take. lia. Qed.

(** ** White space *)

Definition byte_eq (a : ascii) (n : nat) : bool := Nat.eqb (nat_of_ascii a) n.

(** '\t', '\n', '\v', '\f', '\r' and ' '. *)
Definition space1 (a : ascii) : bool :=
  let n := nat_of_ascii a in (Nat.leb 9 n && Nat.leb n 13) || Nat.eqb n 32.

(** U+0085 and U+00A0. *)
Definition space2 (a b : ascii) : bool :=
  byte_eq a 194 && (byte_eq b 133 || byte_eq b 160).

(** U+1680, U+2000 to U+200A, U+2028, U+2029, U+202F, U+205F and U+3000. *)
Definition space3 (a b c : ascii) : bool :=
  (byte_eq a 225 && byte_eq b 154 && byte_eq c 128)
  || (byte_eq a 226 && byte_eq b 128
      && (let n := nat_of_ascii c in
          (Nat.leb 128 n && Nat.leb n 138) || Nat.eqb n 168 || Nat.eqb n 169 || Nat.eqb n 175))
  || (byte_eq a 226 && byte_eq b 129 && byte_eq c 159)
  || (byte_eq a 227 && byte_eq b 128 && byte_eq c 128).

Section trim.
Context (sp2 : ascii → ascii → bool) (sp3 : ascii → ascii → ascii → bool).

(** Whether a white-space sequence starts the list. *)
Definition starts_space (l : bytes) : bool :=
  match l with
  | [] => false
  | a :: l1 =>
      space1 a ||
      match l1 with
      | [] => false
      | b :: l2 => sp2 a b || match l2 with [] => false | c :: _ => sp3 a b c end
      end
  end.

Fixpoint trim_front (l : bytes) : bytes :=
  match l with
  | [] => []
  | a :: l1 =>
      if space1 a then trim_front l1
      else match l1 with
           | [] => l
           | b :: l2 =>
               if sp2 a b then trim_front l2
               else match l2 with
                    | [] => l
                    | c :: l3 => if sp3 a b c then trim_front l3 else l
                    end
           end
  end.

Lemma trim_front_id l : starts_space l = false → trim_front l = l.
Proof.
  destruct l as [|a [|b [|c l]]]; simpl; intros H; bool_hyps;
    repeat match goal with H : _ = false |- _ => rewrite H end; done.
Qed.

Lemma trim_front_spec l :
  starts_space (trim_front l) = false ∧ trim_front l `suffix_of` l.
Proof.
  induction l as [l IH] using (induction_ltof1 _ (@length ascii)).
  unfold ltof in IH.
  assert (∀ p k, l = p ++ k → p ≠ [] →
      starts_space (trim_front k) = false ∧ trim_front k `suffix_of` l) as Hrec.
  { intros p k -> Hp. destruct (IH k) as [H1 H2].
    - rewrite length_app. destruct p; simpl; [done | lia].
    - split; [done|]. by apply suffix_app_r. }
  destruct l as [|a [|b [|c l]]]; simpl in *.
  - done.
  - destruct (space1 a) eqn:E1; simpl; [by apply (Hrec [a] []) | by rewrite E1].
  - destruct (space1 a) eqn:E1; [by apply (Hrec [a] [b])|].
    destruct (sp2 a b) eqn:E2; [by apply (Hrec [a; b] [])|].
    simpl. by rewrite E1, E2.
  - destruct (space1 a) eqn:E1; [by apply (Hrec [a] (b :: c :: l))|].
    destruct (sp2 a b) eqn:E2; [by apply (Hrec [a; b] (c :: l))|].
    destruct (sp3 a b c) eqn:E3; [by apply (Hrec [a; b; c] l)|].
    simpl. by rewrite E1, E2, E3.
Qed.

Lemma starts_space_app l k : starts_space l = true → starts_space (l ++ k) = true.
Proof.
  destruct l as [|a [|b [|c l]]], k as [|d [|e k]]; simpl; intros H; bool_hyps;
    rewrite ?orb_true_iff in *; intuition congruence.
Qed.

Lemma starts_space_prefix l k :
  l `prefix_of` k → starts_space k = false → starts_space l = false.
Proof.
  intros [k' ->] H. destruct (starts_space l) eqn:E; [|done].
  by rewrite (starts_space_app _ k' E) in H.
Qed.
End trim.

Definition TrimLeft (l : bytes) : bytes := trim_front space2 space3 l.
Definition TrimRight (l : bytes) : bytes :=
  rev (trim_front (λ a b, space2 b a) (λ a b c, space3 c b a) (rev l)).

(** [strings.TrimSpace]. *)
Definition TrimSpace (s : string) : string :=
  of_bytes (TrimRight (TrimLeft (to_bytes s))).

Lemma TrimRight_prefix l : TrimRight l `prefix_of` l.
Proof.
  destruct (trim_front_spec (λ a b, space2 b a) (λ a b c, space3 c b a) (rev l))
    as [_ [k Hk]].
  exists (rev k). unfold TrimRight. rewrite <- rev_app_distr, <- Hk.
  by rewrite rev_involutive.
Qed.

Lemma TrimRight_idemp l : TrimRight (TrimRight l) = TrimRight l.
Proof.
  unfold TrimRight. rewrite rev_involutive. f_equal. apply trim_front_id.
  apply trim_front_spec.
Qed.

Lemma TrimLeft_TrimRight l :
  TrimLeft l = l → TrimLeft (TrimRight l) = TrimRight l.
Proof.
  intros H. apply trim_front_id. eapply starts_space_prefix; [apply TrimRight_prefix|].
  rewrite <- H. apply trim_front_spec.
Qed.

(** Trimming twice is trimming once: handlers trim, and the service calls they
    make trim again. *)
Lemma TrimSpace_idemp s : TrimSpace (TrimSpace s) = TrimSpace s.
Proof.
  unfold TrimSpace. rewrite to_of_bytes. f_equal.
  assert (TrimLeft (TrimLeft (to_bytes s)) = TrimLeft (to_bytes s)) as HL.
  { apply trim_front_id, trim_front_spec. }
  rewrite TrimLeft_TrimRight by done. apply TrimRight_idemp.
Qed.

#[export] Hint Rewrite TrimSpace_idemp : orbit.

(** A string in which no byte is white space or above ASCII is left alone. *)
Definition plain_byte (a : ascii) : bool :=
  negb (space1 a) && Nat.ltb (nat_of_ascii a) 128.

Lemma plain_starts_space sp2 sp3 l :
  (∀ a b, sp2 a b = true → plain_byte a = false) →
  (∀ a b c, sp3 a b c = true → plain_byte a = false) →
  forallb plain_byte l = true → starts_space sp2 sp3 l = false.
Proof.
  intros H2 H3 Hl. destruct (starts_space sp2 sp3 l) eqn:E; [exfalso|done].
  destruct l as [|a l]; [done|].
  simpl in Hl. apply andb_true_iff in Hl as [Ha _].
  assert (space1 a = true → plain_byte a = false) as H1.
  { unfold plain_byte. by intros ->. }
  assert (plain_byte a = false) as Hf; [|congruence].
  destruct l as [|b [|c l]]; simpl in E; rewrite ?orb_true_iff in E;
    destruct_or? E; try done; eauto.
Qed.

Lemma forallb_rev {A} (f : A → bool) l : forallb f (rev l) = forallb f l.
Proof.
  induction l as [|a l IH]; simpl; [done|].
  rewrite forallb_app, IH. simpl. rewrite andb_true_r. apply andb_comm.
Qed.

Lemma TrimSpace_plain s : forallb plain_byte (to_bytes s) = true → TrimSpace s = s.
Proof.
  intros H. unfold TrimSpace, TrimLeft, TrimRight.
  assert (∀ a, Nat.ltb (nat_of_ascii a) 128 = false → plain_byte a = false) as Hhi.
  { intros a Ha. unfold plain_byte. by rewrite Ha, andb_false_r. }
  assert (∀ a n, byte_eq a n = true → nat_of_ascii a = n) as Heq.
  { intros a n Ha. by apply Nat.eqb_eq in Ha. }
  assert (∀ a, 128 ≤ nat_of_ascii a → plain_byte a = false) as Hp.
  { intros a Ha. apply Hhi, Nat.ltb_ge, Ha. }
  rewrite (trim_front_id space2 space3 (to_bytes s)),
    trim_front_id, rev_involutive, of_to_bytes; [done|..].
  - apply plain_starts_space; [..|by rewrite forallb_rev].
    + unfold space2. intros a b E. bool_hyps. apply Hp.
      apply orb_true_iff in H1 as [E|E]; apply Heq in E; lia.
    + unfold space3. intros a b c E. apply Hp. rewrite !orb_true_iff, !andb_true_iff in E.
      destruct E as [[[E|E]|E]|E]; destruct_and!;
        repeat match goal with H : byte_eq _ _ = true |- _ => apply Heq in H end; try lia.
      rewrite !orb_true_iff, !andb_true_iff, !Nat.leb_le, !Nat.eqb_eq in *. lia.
  - apply plain_starts_space; [..|done].
    + unfold space2. intros a b E. bool_hyps. apply Hp. apply Heq in H0. lia.
    + unfold space3. intros a b c E. apply Hp. rewrite !orb_true_iff, !andb_true_iff in E.
      destruct E as [[[E|E]|E]|E]; destruct_and!;
        repeat match goal with H : byte_eq _ _ = true |- _ => apply Heq in H end; lia.
Qed.

(** ** Case *)

(** The Unicode case tables behind [strings.ToLower] and [strings.EqualFold],
    consulted only for a string with a byte above ASCII. *)
Class UnicodeCase := {
  lower_unicode : string → string;
  fold_unicode : string → string → bool;
}.

(** What the documentation of [strings.EqualFold] says: it is equality under
    case folding, an equivalence. *)
Class UnicodeCaseLaws (U : UnicodeCase) : Prop := {
  fold_unicode_refl : ∀ s, fold_unicode s s = true;
}.

Definition lower_byte (a : ascii) : ascii :=
  let n := nat_of_ascii a in
  if Nat.leb 65 n && Nat.leb n 90 then ascii_of_nat (n + 32) else a.

Definition is_ascii (s : string) : bool :=
  forallb (λ a, Nat.ltb (nat_of_ascii a) 128) (to_bytes s).

Definition lower_ascii (s : string) : string := of_bytes (lower_byte <$> to_bytes s).

Section case.
Context `{U : UnicodeCase}.

(** [strings.ToLower]. *)
Definition ToLower (s : string) : string :=
  if is_ascii s then lower_ascii s else lower_unicode s.

(** [strings.EqualFold]. *)
Definition EqualFold (s t : string) : bool :=
  if is_ascii s && is_ascii t then String.eqb (lower_ascii s) (lower_ascii t)
  else fold_unicode s t.

Lemma EqualFold_refl `{!UnicodeCaseLaws U} s : EqualFold s s = true.
Proof.
  unfold EqualFold. destruct (is_ascii s); simpl;
    [apply String.eqb_refl | apply fold_unicode_refl].
Qed.
End case.

Lemma lower_byte_idemp a : lower_byte (lower_byte a) = lower_byte a.
Proof. by destruct a as [[] [] [] [] [] [] [] []]. Qed.

Lemma lower_byte_ascii a :
  Nat.ltb (nat_of_ascii (lower_byte a)) 128 = Nat.ltb (nat_of_ascii a) 128.
Proof. by destruct a as [[] [] [] [] [] [] [] []]. Qed.

Lemma is_ascii_lower s : is_ascii (lower_ascii s) = is_ascii s.
Proof.
  unfold is_ascii, lower_ascii. rewrite to_of_bytes.
  induction (to_bytes s) as [|a l IH]; [done|].
  rewrite fmap_cons. cbn [forallb]. by rewrite lower_byte_ascii, IH.
Qed.

Lemma lower_ascii_idemp s : lower_ascii (lower_ascii s) = lower_ascii s.
Proof.
  unfold lower_ascii. rewrite to_of_bytes, <- list_fmap_compose. f_equal.
  apply list_fmap_ext. intros _ a _. apply lower_byte_idemp.
Qed.

(** ** Searching and splitting *)

(** [strings.HasPrefix]. *)
Definition HasPrefix (s prefix : string) : bool := String.prefix prefix s.

(** [strings.TrimPrefix]. *)
Definition TrimPrefix (s prefix : string) : string :=
  if HasPrefix s prefix then slice_from (len prefix) s else s.

(** [strings.SplitN(s, sep, 2)] for a one-byte separator: one part when the
    separator is absent, otherwise what precedes and what follows its first
    occurrence. *)
Fixpoint cut (sep : ascii) (s : string) : option (string * string) :=
  match s with
  | "" => None
  | String c r =>
      if bool_decide (c = sep) then Some ("", r)
      else match cut sep r with
           | Some (before, after) => Some (String c before, after)
           | None => None
           end
  end.

Definition SplitN2 (sep : ascii) (s : string) : list string :=
  match cut sep s with
  | Some (before, after) => [before; after]
  | None => [s]
  end.

(** [strings.Contains] for a one-byte substring. *)
Definition contains_byte (c : ascii) (s : string) : bool :=
  bool_decide (c ∈ to_bytes s).

Lemma cut_app sep before after :
  sep ∉ to_bytes before → cut sep (before +:+ String sep after) = Some (before, after).
Proof.
  induction before as [|c s IH]; simpl; intros Hn.
  - by rewrite bool_decide_eq_true_2.
  - apply not_elem_of_cons in Hn as [Hc Hs].
    rewrite bool_decide_eq_false_2 by congruence. by rewrite IH.
Qed.

Lemma cut_Some sep s before after :
  cut sep s = Some (before, after) →
  s = before +:+ String sep after ∧ sep ∉ to_bytes before.
Proof.
  revert before after. induction s as [|c s IH]; simpl; intros before after H; [done|].
  case_bool_decide as Hc; simplify_eq.
  - split; [done | apply not_elem_of_nil].
  - destruct (cut sep s) as [[b a]|] eqn:E; simplify_eq.
    destruct (IH _ _ eq_refl) as [-> Hn]. split; [done|].
    simpl. rewrite not_elem_of_cons. split; congruence.
Qed.

Lemma prefix_app s t : String.prefix s (s +:+ t) = true.
Proof.
  induction s as [|c s IH]; simpl; [by destruct t|].
  destruct (ascii_dec c c); [apply IH | done].
Qed.

Lemma TrimPrefix_app p s : TrimPrefix (p +:+ s) p = s.
Proof.
  unfold TrimPrefix, HasPrefix. rewrite prefix_app. unfold slice_from, len.
  rewrite to_bytes_app, drop_app_length. apply of_to_bytes.
Qed.

(** ** path and path/filepath on Unix *)

Definition slash (a : ascii) : bool := byte_eq a 47.

(** What precedes the first byte that satisfies [stop]. *)
Fixpoint until (stop : ascii → bool) (l : bytes) : bytes :=
  match l with
  | [] => []
  | a :: l => if stop a then [] else a :: until stop l
  end.

Fixpoint drop_slashes (l : bytes) : bytes :=
  match l with
  | a :: r => if slash a then drop_slashes r else l
  | [] => []
  end.

(** filepath.Base: the last element, without trailing slashes. *)
Definition Base (path : string) : string :=
  if String.eqb path "" then "." else
  match rev (until slash (drop_slashes (rev (to_bytes path)))) with
  | [] => "/"
  | l => of_bytes l
  end.

(** The extension, read from the end. *)
Fixpoint ext (l suffix : bytes) : bytes :=
  match l with
  | [] => []
  | a :: l => if slash a then [] else if byte_eq a 46 then a :: suffix else ext l (a :: suffix)
  end.

(** filepath.Ext. *)
Definition Ext (path : string) : string := of_bytes (ext (rev (to_bytes path)) []).

(** strings.TrimSuffix. *)
Definition TrimSuffix (s suffix : string) : string :=
  if bool_decide (to_bytes suffix `suffix_of` to_bytes s) then slice_to (len s - len suffix) s else s.
