(* ===== verification/Encodings.v ===== *)
(** Text and byte encodings of the Go standard library: unpadded URL-safe base64
    (encoding/base64, [RawURLEncoding]) and big-endian numbers (math/big, [Bytes],
    [SetBytes] and [BitLen]). *)
From S2P Require Import Prelude GoStrings.
Local Open Scope Z_scope.

(** ** encoding/base64 RawURLEncoding *)

(** The URL-safe alphabet: A-Z, a-z, 0-9, dash, underscore. *)
Definition base64url_char (n : Z) : ascii :=
  ascii_of_nat (Z.to_nat
    (if n <? 26 then 65 + n else if n <? 52 then 71 + n
     else if n <? 62 then n - 4 else if n =? 62 then 45 else 95)).

Definition byte_value (b : ascii) : Z := Z.of_nat (nat_of_ascii b).

(** The sextet of [n] that starts at bit [k]. *)
Definition sextet (n k : Z) : ascii := base64url_char (Z.land (Z.shiftr n k) 63).

Fixpoint RawURLEncode (b : list ascii) : list ascii :=
  match b with
  | b1 :: b2 :: b3 :: b =>
      let n := Z.lor (Z.lor (Z.shiftl (byte_value b1) 16) (Z.shiftl (byte_value b2) 8)) (byte_value b3) in
      sextet n 18 :: sextet n 12 :: sextet n 6 :: sextet n 0 :: RawURLEncode b
  | [b1; b2] =>
      let n := Z.lor (Z.shiftl (byte_value b1) 16) (Z.shiftl (byte_value b2) 8) in
      [sextet n 18; sextet n 12; sextet n 6]
  | [b1] =>
      let n := Z.shiftl (byte_value b1) 16 in [sextet n 18; sextet n 12]
  | [] => []
  end.

(** The value of a letter of the alphabet. *)
Definition base64url_value (a : ascii) : option Z :=
  let n := byte_value a in
  if (65 <=? n) && (n <=? 90) then Some (n - 65)
  else if (97 <=? n) && (n <=? 122) then Some (n - 71)
  else if (48 <=? n) && (n <=? 57) then Some (n + 4)
  else if n =? 45 then Some 62 else if n =? 95 then Some 63 else None.

Definition byte_of (n : Z) : ascii := ascii_of_nat (Z.to_nat n).

(** The octet of [n] that starts at bit [k]. *)
Definition octet (n k : Z) : ascii := byte_of (Z.land (Z.shiftr n k) 255).

(** Quanta of four letters; without padding the last may have two or three, and
    the bits it has in excess are dropped. *)
Fixpoint decode_quanta (l : list Z) : option (list ascii) :=
  match l with
  | [] => Some []
  | [_] => None
  | [a; b] =>
      let n := Z.lor (Z.shiftl a 18) (Z.shiftl b 12) in Some [octet n 16]
  | [a; b; c] =>
      let n := Z.lor (Z.lor (Z.shiftl a 18) (Z.shiftl b 12)) (Z.shiftl c 6) in Some [octet n 16; octet n 8]
  | a :: b :: c :: d :: l =>
      let n := Z.lor (Z.lor (Z.lor (Z.shiftl a 18) (Z.shiftl b 12)) (Z.shiftl c 6)) d in
      match decode_quanta l with
      | Some r => Some (octet n 16 :: octet n 8 :: octet n 0 :: r)
      | None => None
      end
  end.

(** The decoder skips carriage returns and line feeds. *)
Definition newline (a : ascii) : bool := (byte_value a =? 10) || (byte_value a =? 13).

Definition RawURLDecode (b : list ascii) : option (list ascii) :=
  match mapM base64url_value (filter (λ a, newline a = false) b) with
  | Some l => decode_quanta l
  | None => None
  end.

(** ** math/big *)

(** [SetBytes] of a big-endian sequence. *)
Definition SetBytes (b : list ascii) : Z := foldl (λ n a, 256 * n + byte_value a) 0 b.

(** The length of the absolute value in bits. *)
Definition BitLen (n : Z) : Z := if n =? 0 then 0 else Z.log2 (Z.abs n) + 1.

(** The [k] low bytes of [n], the most significant first. *)
Fixpoint low_bytes (k : nat) (n : Z) : list ascii :=
  match k with
  | O => []
  | S k => low_bytes k (n / 256) ++ [byte_of (n mod 256)]
  end.

(** The absolute value as a big-endian sequence without leading zeros. *)
Definition Bytes (n : Z) : list ascii := low_bytes (Z.to_nat ((BitLen n + 7) / 8)) (Z.abs n).

(** ** The alphabet and the length *)

Definition base64url (a : ascii) : bool :=
  let n := nat_of_ascii a in
  (Nat.leb 65 n && Nat.leb n 90) || (Nat.leb 97 n && Nat.leb n 122) || (Nat.leb 48 n && Nat.leb n 57) ||
  Nat.eqb n 45 || Nat.eqb n 95.

Lemma base64url_char_ok n : 0 ≤ n < 64 → base64url (base64url_char n) = true.
Proof.
  assert (Forall (λ n, base64url (base64url_char n) = true) (seqZ 0 64)) as H.
  { refine (bool_decide_unpack (Forall _ _) _). vm_compute. exact I. }
  rewrite Forall_forall in H. intros Hn. apply H, elem_of_seqZ. lia.
Qed.

Lemma sextet_ok n k : base64url (sextet n k) = true.
Proof.
  apply base64url_char_ok. change 63 with (Z.ones 6). rewrite Z.land_ones by lia.
  apply Z.mod_pos_bound. lia.
Qed.

Lemma RawURLEncode_ok b : forallb base64url (RawURLEncode b) = true.
Proof.
  induction b as [b IH] using (induction_ltof1 _ length).
  destruct b as [|b1 [|b2 [|b3 b]]]; cbn [RawURLEncode forallb]; cbv zeta; rewrite ?sextet_ok; [reflexivity..|].
  rewrite IH; [reflexivity|]. unfold ltof. cbn. lia.
Qed.

Lemma length_RawURLEncode b : length (RawURLEncode b) = ((4 * length b + 2) / 3)%nat.
Proof.
  induction b as [b IH] using (induction_ltof1 _ length). destruct b as [|b1 [|b2 [|b3 b]]]; [reflexivity..|].
  cbn [RawURLEncode length]. rewrite IH by (unfold ltof; cbn; lia).
  replace (4 * S (S (S (length b))) + 2)%nat with (4 * length b + 2 + 4 * 3)%nat by lia.
  rewrite Nat.div_add by lia. lia.
Qed.

(** ** Round trips *)

Lemma byte_value_range a : 0 ≤ byte_value a < 256.
Proof. unfold byte_value. pose proof (nat_ascii_bounded a). lia. Qed.

Lemma byte_of_value a : byte_of (byte_value a) = a.
Proof. unfold byte_of, byte_value. rewrite Nat2Z.id. apply ascii_nat_embedding. Qed.

Lemma byte_value_of n : 0 ≤ n < 256 → byte_value (byte_of n) = n.
Proof. intros H. unfold byte_of, byte_value. rewrite nat_ascii_embedding by lia. lia. Qed.

Lemma lor_shiftl a b k : 0 ≤ k → 0 ≤ b < 2 ^ k → Z.lor (Z.shiftl a k) b = a * 2 ^ k + b.
Proof.
  intros Hk Hb. rewrite <- Z.shiftl_mul_pow2 by done. rewrite <- Z.add_lor_land.
  replace (Z.land (Z.shiftl a k) b) with 0; [lia|]. symmetry. apply Z.bits_inj'. intros i Hi.
  rewrite Z.land_spec, Z.bits_0, Z.shiftl_spec by done. destruct (decide (i < k)).
  - by rewrite (Z.testbit_neg_r a) by lia.
  - rewrite <- (Z.mod_small b (2 ^ k)), Z.mod_pow2_bits_high by lia. apply andb_false_r.
Qed.

(** The fields of a 24-bit group as quotients. *)
Lemma sextet_div n k : 0 ≤ k → sextet n k = base64url_char ((n / 2 ^ k) mod 64).
Proof. intros. unfold sextet. change 63 with (Z.ones 6). by rewrite Z.land_ones, Z.shiftr_div_pow2. Qed.

Lemma octet_div n k : 0 ≤ k → octet n k = byte_of ((n / 2 ^ k) mod 256).
Proof. intros. unfold octet. change 255 with (Z.ones 8). by rewrite Z.land_ones, Z.shiftr_div_pow2. Qed.

Lemma base64url_value_char n : 0 ≤ n < 64 →
  base64url_value (base64url_char n) = Some n ∧ newline (base64url_char n) = false.
Proof.
  assert (Forall (λ n, base64url_value (base64url_char n) = Some n ∧ newline (base64url_char n) = false) (seqZ 0 64)) as H.
  { refine (bool_decide_unpack (Forall _ _) _). vm_compute. exact I. }
  rewrite Forall_forall in H. intros Hn. apply H, elem_of_seqZ. lia.
Qed.

Lemma octet_byte n k a : 0 ≤ k → (n / 2 ^ k) mod 256 = byte_value a → octet n k = a.
Proof. intros ? H. by rewrite octet_div, H, byte_of_value. Qed.

Lemma RawURLDecode_cons n l :
  0 ≤ n < 64 → mapM base64url_value (filter (λ a, newline a = false) (base64url_char n :: l)) =
    cons n <$> mapM base64url_value (filter (λ a, newline a = false) l).
Proof.
  intros Hn. destruct (base64url_value_char n Hn) as [Hv Hl]. rewrite filter_cons_True by done.
  cbn [mapM mapM]. rewrite Hv. simpl. by destruct (mapM _ _).
Qed.

(** The letters of an encoding read as the values they stand for. *)
Definition sextets : list ascii → list Z := fix go b :=
  match b with
  | b1 :: b2 :: b3 :: b =>
      let n := 65536 * byte_value b1 + 256 * byte_value b2 + byte_value b3 in
      (n / 2 ^ 18) mod 64 :: (n / 2 ^ 12) mod 64 :: (n / 2 ^ 6) mod 64 :: (n / 2 ^ 0) mod 64 :: go b
  | [b1; b2] =>
      let n := 65536 * byte_value b1 + 256 * byte_value b2 in
      [(n / 2 ^ 18) mod 64; (n / 2 ^ 12) mod 64; (n / 2 ^ 6) mod 64]
  | [b1] =>
      let n := 65536 * byte_value b1 in [(n / 2 ^ 18) mod 64; (n / 2 ^ 12) mod 64]
  | [] => []
  end.

(** Concatenated fields are sums. *)
Lemma lor_fields a b j k : 0 ≤ k ≤ j → 0 ≤ b < 2 ^ (j - k) →
  Z.lor (Z.shiftl a j) (Z.shiftl b k) = Z.shiftl (a * 2 ^ (j - k) + b) k.
Proof.
  intros Hk Hb. replace j with ((j - k) + k) at 1 by lia. rewrite <- Z.shiftl_shiftl, <- Z.shiftl_lor by lia.
  by rewrite lor_shiftl by lia.
Qed.

Lemma lor_bytes2 a b : 0 ≤ b < 256 → Z.lor (Z.shiftl a 16) (Z.shiftl b 8) = Z.shiftl (256 * a + b) 8.
Proof. intros. rewrite lor_fields by (change (2 ^ (16 - 8)) with 256; lia). f_equal. change (2 ^ (16 - 8)) with 256. lia. Qed.

Lemma lor_sextets2 a b : 0 ≤ b < 64 → Z.lor (Z.shiftl a 18) (Z.shiftl b 12) = Z.shiftl (64 * a + b) 12.
Proof. intros. rewrite lor_fields by (change (2 ^ (18 - 12)) with 64; lia). f_equal. change (2 ^ (18 - 12)) with 64. lia. Qed.

Lemma lor_sextets3 a b : 0 ≤ b < 64 → Z.lor (Z.shiftl a 12) (Z.shiftl b 6) = Z.shiftl (64 * a + b) 6.
Proof. intros. rewrite lor_fields by (change (2 ^ (12 - 6)) with 64; lia). f_equal. change (2 ^ (12 - 6)) with 64. lia. Qed.

Lemma RawURLEncode_sextets b : RawURLEncode b = base64url_char <$> sextets b.
Proof.
  induction b as [b IH] using (induction_ltof1 _ length). unfold ltof in IH.
  destruct b as [|b1 [|b2 [|b3 b]]]; [done|..]; cbn [RawURLEncode sextets fmap list_fmap]; cbv zeta.
  - rewrite Z.shiftl_mul_pow2, !sextet_div by lia. change (2 ^ 16) with 65536. by rewrite Z.mul_comm.
  - rewrite lor_bytes2, Z.shiftl_mul_pow2, !sextet_div by (lia || apply byte_value_range).
    change (2 ^ 8) with 256.
    by replace ((256 * byte_value b1 + byte_value b2) * 256) with (65536 * byte_value b1 + 256 * byte_value b2) by lia.
  - rewrite IH by (simpl; lia). rewrite lor_bytes2, lor_shiftl, !sextet_div by (lia || apply byte_value_range).
    change (2 ^ 8) with 256.
    by replace ((256 * byte_value b1 + byte_value b2) * 256 + byte_value b3)
      with (65536 * byte_value b1 + 256 * byte_value b2 + byte_value b3) by lia.
Qed.

Lemma sextets_range b : Forall (λ n, 0 ≤ n < 64) (sextets b).
Proof.
  induction b as [b IH] using (induction_ltof1 _ length). unfold ltof in IH.
  destruct b as [|b1 [|b2 [|b3 b]]]; cbn [sextets]; repeat constructor; try (apply Z.mod_pos_bound; lia).
  apply IH. simpl. lia.
Qed.

Lemma mapM_sextets l :
  Forall (λ n, 0 ≤ n < 64) l →
  mapM base64url_value (filter (λ a, newline a = false) (base64url_char <$> l)) = Some l.
Proof. induction 1 as [|n l Hn Hl IH]; [done|]. rewrite fmap_cons, RawURLDecode_cons, IH by done. done. Qed.

Lemma decode_sextets b : decode_quanta (sextets b) = Some b.
Proof.
  induction b as [b IH] using (induction_ltof1 _ length). unfold ltof in IH.
  assert (∀ n k, 0 ≤ (n / 2 ^ k) mod 64 < 64) as Hs by (intros; apply Z.mod_pos_bound; lia).
  destruct b as [|b1 [|b2 [|b3 b]]]; [done|..]; cbn [sextets decode_quanta]; cbv zeta;
    rewrite lor_sextets2, ?lor_sextets3, ?lor_shiftl by (apply Hs || lia).
  - rewrite (octet_byte _ _ b1); [done|lia|]. rewrite Z.shiftl_mul_pow2 by lia. pose proof (byte_value_range b1).
    Z.div_mod_to_equations. lia.
  - rewrite (octet_byte _ 16 b1), (octet_byte _ 8 b2); [done|lia|..|lia|]; rewrite Z.shiftl_mul_pow2 by lia;
      pose proof (byte_value_range b1); pose proof (byte_value_range b2); Z.div_mod_to_equations; lia.
  - rewrite IH by (simpl; lia).
    rewrite (octet_byte _ 16 b1), (octet_byte _ 8 b2), (octet_byte _ 0 b3); [done|lia|..|lia| |lia|];
      pose proof (byte_value_range b1); pose proof (byte_value_range b2); pose proof (byte_value_range b3);
      Z.div_mod_to_equations; lia.
Qed.

(** Decoding inverts encoding. *)
Lemma RawURLDecode_Encode b : RawURLDecode (RawURLEncode b) = Some b.
Proof.
  unfold RawURLDecode. rewrite RawURLEncode_sextets, mapM_sextets by apply sextets_range. apply decode_sextets.
Qed.

(** ** Big-endian numbers *)

Lemma SetBytes_snoc b a : SetBytes (b ++ [a]) = 256 * SetBytes b + byte_value a.
Proof. unfold SetBytes. by rewrite foldl_app. Qed.

Lemma SetBytes_low_bytes k n : SetBytes (low_bytes k n) = n mod 256 ^ Z.of_nat k.
Proof.
  revert n. induction k as [|k IH]; intros n; [symmetry; apply Z.mod_1_r|].
  cbn [low_bytes]. rewrite SetBytes_snoc, IH, byte_value_of by (apply Z.mod_pos_bound; lia).
  rewrite Nat2Z.inj_succ, Z.pow_succ_r, Z.rem_mul_r by lia. lia.
Qed.

Lemma length_low_bytes k n : length (low_bytes k n) = k.
Proof. revert n. induction k as [|k IH]; intros n; [done|]. cbn [low_bytes]. rewrite length_app, IH. simpl. lia. Qed.

Lemma BitLen_bound n : 0 ≤ n → n < 2 ^ BitLen n.
Proof.
  intros Hn. unfold BitLen. destruct (Z.eqb_spec n 0) as [->|]; [done|].
  rewrite Z.abs_eq by done. apply Z.log2_spec. lia.
Qed.

Lemma BitLen_nonneg n : 0 ≤ BitLen n.
Proof. unfold BitLen. destruct (n =? 0); [done|]. pose proof (Z.log2_nonneg (Z.abs n)). lia. Qed.

Lemma BitLen_le n k : 0 ≤ k → 0 ≤ n → n < 2 ^ k → BitLen n ≤ k.
Proof.
  intros Hk Hn H. unfold BitLen. destruct (Z.eqb_spec n 0); [done|]. rewrite Z.abs_eq by done.
  apply Z.log2_lt_pow2 in H; lia.
Qed.

Lemma SetBytes_Bytes n : 0 ≤ n → SetBytes (Bytes n) = n.
Proof.
  intros Hn. unfold Bytes. rewrite SetBytes_low_bytes, Z.abs_eq by done. apply Z.mod_small. split; [done|].
  pose proof (BitLen_nonneg n). change 256 with (2 ^ 8). rewrite <- Z.pow_mul_r by lia.
  rewrite Z2Nat.id by (apply Z.div_pos; lia). eapply Z.lt_le_trans; [by apply BitLen_bound|].
  apply Z.pow_le_mono_r; [lia|]. Z.div_mod_to_equations. lia.
Qed.

Lemma length_Bytes n k : 0 ≤ n < 256 ^ Z.of_nat k → (length (Bytes n) ≤ k)%nat.
Proof.
  intros [Hn H]. unfold Bytes. rewrite length_low_bytes. change 256 with (2 ^ 8) in H.
  rewrite <- Z.pow_mul_r in H by lia. apply BitLen_le in H; [|lia..]. pose proof (BitLen_nonneg n).
  Z.div_mod_to_equations. lia.
Qed.

Lemma Bytes_nonempty n : 0 < n → Bytes n ≠ [].
Proof.
  intros Hn E. pose proof (SetBytes_Bytes n ltac:(lia)) as H. rewrite E in H. cbn in H. lia.
Qed.

Lemma SetBytes_nonneg b : 0 ≤ SetBytes b.
Proof.
  induction b as [|a b IH] using rev_ind; [done|]. rewrite SetBytes_snoc. pose proof (byte_value_range a). lia.
Qed.

Lemma SetBytes_bound b : SetBytes b < 256 ^ Z.of_nat (length b).
Proof.
  induction b as [|a b IH] using rev_ind; [done|]. rewrite SetBytes_snoc, length_app, Nat2Z.inj_add, Z.pow_add_r by lia.
  change (256 ^ Z.of_nat (length [a])) with 256. pose proof (byte_value_range a). lia.
Qed.
