(* ===== verification/Urls.v ===== *)
(** The query strings of net/url: [QueryEscape], [QueryUnescape], [Values] with [Set] and
    [Encode], and [URL.Query], with the round trip between them. *)
From S2P Require Import Prelude GoStrings Encodings.
Local Open Scope Z_scope.

(** ** Escaping *)

(** The bytes a query component keeps: letters, digits and the marks - _ . ~ *)
Definition unreserved (a : ascii) : bool :=
  let n := byte_value a in
  ((97 <=? n) && (n <=? 122)) || ((65 <=? n) && (n <=? 90)) || ((48 <=? n) && (n <=? 57)) ||
  bool_decide (a ∈ ["-"; "_"; "."; "~"]%char).

Definition upper_hex (n : Z) : ascii := byte_of (if n <? 10 then 48 + n else 55 + n).

Definition escape_byte (a : ascii) : bytes :=
  if unreserved a then [a] else
  if bool_decide (a = " "%char) then ["+"%char] else
  ["%"%char; upper_hex (Z.shiftr (byte_value a) 4); upper_hex (Z.land (byte_value a) 15)].

Definition escape (l : bytes) : bytes := mjoin (escape_byte <$> l).

Definition unhex (a : ascii) : option Z :=
  let n := byte_value a in
  if (48 <=? n) && (n <=? 57) then Some (n - 48) else
  if (97 <=? n) && (n <=? 102) then Some (n - 87) else
  if (65 <=? n) && (n <=? 70) then Some (n - 55) else None.

(** [None] for a percent sign without two hexadecimal digits. *)
Fixpoint unescape (l : bytes) : option bytes :=
  match l with
  | [] => Some []
  | a :: l' =>
      if bool_decide (a = "%"%char) then
        match l' with
        | h1 :: h2 :: l'' =>
            match unhex h1, unhex h2 with
            | Some n1, Some n2 => cons (byte_of (Z.lor (Z.shiftl n1 4) n2)) <$> unescape l''
            | _, _ => None
            end
        | _ => None
        end
      else cons (if bool_decide (a = "+"%char) then " "%char else a) <$> unescape l'
  end.

Definition QueryEscape (s : string) : string := of_bytes (escape (to_bytes s)).
Definition QueryUnescape (s : string) : option string := of_bytes <$> unescape (to_bytes s).

(** ** Values *)

Abbreviation Values := (gmap string (list string)).

Definition Values_Set (key value : string) (v : Values) : Values := <[key := [value]]> v.

(** strings.Split on one byte; it always gives at least one piece. *)
Fixpoint split (sep : ascii) (l : bytes) : list bytes :=
  match l with
  | [] => [[]]
  | a :: l =>
      if bool_decide (a = sep) then [] :: split sep l
      else match split sep l with p :: ps => (a :: p) :: ps | [] => [[a]] end
  end.

Fixpoint join (sep : ascii) (l : list bytes) : bytes :=
  match l with
  | [] => []
  | [p] => p
  | p :: ps => p ++ sep :: join sep ps
  end.

(** strings.Cut on one byte: what precedes it, and what follows or nothing. *)
Fixpoint cut_bytes (sep : ascii) (l : bytes) : bytes * bytes :=
  match l with
  | [] => ([], [])
  | a :: l => if bool_decide (a = sep) then ([], l) else let '(p, q) := cut_bytes sep l in (a :: p, q)
  end.

(** One setting of a query string; a malformed one is skipped. *)
Definition parse_setting (m : Values) (piece : bytes) : Values :=
  if bool_decide (";"%char ∈ piece) || bool_decide (piece = []) then m else
  let '(key, value) := cut_bytes "=" piece in
  match unescape key, unescape value with
  | Some key, Some value => <[of_bytes key := default [] (m !! of_bytes key) ++ [of_bytes value]]> m
  | _, _ => m
  end.

(** [URL.Query]: the settings between the ampersands. *)
Definition Query (rawQuery : string) : Values := foldl parse_setting ∅ (split "&" (to_bytes rawQuery)).

Definition encode_settings (key : string) (values : list string) : list bytes :=
  (λ value, escape (to_bytes key) ++ "="%char :: escape (to_bytes value)) <$> values.

(** [Values.Encode]: the settings ordered by key. *)
Definition Encode (v : Values) : string :=
  of_bytes (join "&" (mjoin ((λ key, encode_settings key (default [] (v !! key))) <$> sorted_elements (dom v)))).

(** ** Round trips *)

Lemma unescape_byte a l : unescape (escape_byte a ++ l) = cons a <$> unescape l.
Proof. destruct a as [[] [] [] [] [] [] [] []]; reflexivity. Qed.

Lemma unescape_escape l : unescape (escape l) = Some l.
Proof.
  induction l as [|a l IH]; [done|]. change (escape (a :: l)) with (escape_byte a ++ escape l).
  by rewrite unescape_byte, IH.
Qed.

(** What [escape] writes has none of the bytes that separate settings. *)
Definition separator (a : ascii) : bool := bool_decide (a ∈ ["&"; "="; ";"]%char).

Lemma escape_byte_clean a : forallb (λ b, negb (separator b)) (escape_byte a) = true.
Proof. destruct a as [[] [] [] [] [] [] [] []]; reflexivity. Qed.

Lemma escape_clean l b : b ∈ escape l → separator b = false.
Proof.
  unfold escape. intros (x & Hx & (a & -> & _)%list_elem_of_fmap)%list_elem_of_join.
  pose proof (escape_byte_clean a) as H. rewrite forallb_iff in H. apply negb_true_iff. by apply H.
Qed.

Lemma split_no_sep sep p : sep ∉ p → split sep p = [p].
Proof.
  induction p as [|a p IH]; [done|]. rewrite not_elem_of_cons. intros [Ha Hp]. simpl.
  rewrite bool_decide_eq_false_2 by congruence. by rewrite IH.
Qed.

Lemma split_app_sep sep p l : sep ∉ p → split sep (p ++ sep :: l) = p :: split sep l.
Proof.
  induction p as [|a p IH]; simpl; [by rewrite bool_decide_eq_true_2|]. rewrite not_elem_of_cons. intros [Ha Hp].
  rewrite bool_decide_eq_false_2 by congruence. by rewrite IH.
Qed.

Lemma split_join sep l : l ≠ [] → Forall (λ p, sep ∉ p) l → split sep (join sep l) = l.
Proof.
  induction l as [|p [|p' l] IH]; [done| |]; intros _ H; inversion_clear H as [|? ? Hp Hl].
  - by apply split_no_sep.
  - change (join sep (p :: p' :: l)) with (p ++ sep :: join sep (p' :: l)). by rewrite split_app_sep, IH.
Qed.

Lemma cut_bytes_app sep p q : sep ∉ p → cut_bytes sep (p ++ sep :: q) = (p, q).
Proof.
  induction p as [|a p IH]; simpl; [by rewrite bool_decide_eq_true_2|]. rewrite not_elem_of_cons. intros [Ha Hp].
  rewrite bool_decide_eq_false_2 by congruence. by rewrite IH.
Qed.

Lemma escape_no c l : separator c = true → c ∉ escape l.
Proof. intros Hc Hin%escape_clean. congruence. Qed.

Lemma setting_no c key value :
  separator c = true → c ≠ "="%char → c ∉ escape (to_bytes key) ++ "="%char :: escape (to_bytes value).
Proof. intros Hc Hne. rewrite elem_of_app, elem_of_cons. pose proof (escape_no c). naive_solver. Qed.

Lemma parse_encoded m key value :
  parse_setting m (escape (to_bytes key) ++ "="%char :: escape (to_bytes value)) =
  <[key := default [] (m !! key) ++ [value]]> m.
Proof.
  unfold parse_setting. rewrite bool_decide_eq_false_2 by by apply setting_no.
  rewrite bool_decide_eq_false_2 by (by destruct (escape _)). cbn [orb].
  rewrite cut_bytes_app by by apply escape_no. by rewrite !unescape_escape, !of_to_bytes.
Qed.

(** Reading the settings of one key back appends its values. *)
Lemma parse_encode_settings m key values :
  values ≠ [] → foldl parse_setting m (encode_settings key values) = <[key := default [] (m !! key) ++ values]> m.
Proof.
  revert m. induction values as [|v [|v' values] IH]; intros m; [done| |]; intros _.
  - apply parse_encoded.
  - change (encode_settings key (v :: v' :: values)) with
      ((escape (to_bytes key) ++ "="%char :: escape (to_bytes v)) :: encode_settings key (v' :: values)).
    cbn [foldl]. rewrite parse_encoded, IH by done. rewrite lookup_insert_eq, insert_insert_eq. simpl. by rewrite <- (assoc_L (++)).
Qed.

Definition well_formed (v : Values) : Prop := map_Forall (λ _ values, values ≠ []) v.

(** Reading the settings of several keys back adds their values. *)
Lemma parse_settings_of (v : Values) keys m :
  NoDup keys → (∀ k, k ∈ keys → m !! k = None ∧ is_Some (v !! k)) → well_formed v →
  ∀ k, foldl parse_setting m (mjoin ((λ key, encode_settings key (default [] (v !! key))) <$> keys)) !! k =
    if decide (k ∈ keys) then v !! k else m !! k.
Proof.
  intros Hnd. revert m. induction Hnd as [|k0 keys Hk0 Hnd IH]; intros m Hm Hw k; [by rewrite decide_False by apply not_elem_of_nil|].
  destruct (Hm k0) as [Hm0 [values Hv]]; [left|]. rewrite fmap_cons. cbn [mjoin list_join]. rewrite foldl_app, Hv. simpl.
  rewrite parse_encode_settings by by eapply Hw. rewrite Hm0, IH; [|intros j Hj; rewrite lookup_insert_ne by set_solver|done].
  - destruct (decide (k = k0)) as [->|Hne].
    + rewrite decide_False by done. rewrite decide_True by left. by rewrite lookup_insert_eq, Hv.
    + rewrite lookup_insert_ne by done. by destruct (decide (k ∈ keys)), (decide (k ∈ k0 :: keys)); try set_solver.
  - apply Hm. by right.
Qed.

Lemma settings_shape (v : Values) p :
  p ∈ mjoin ((λ key, encode_settings key (default [] (v !! key))) <$> sorted_elements (dom v)) →
  ∃ key value, p = escape (to_bytes key) ++ "="%char :: escape (to_bytes value).
Proof. intros (l & Hp & (key & -> & _)%list_elem_of_fmap)%list_elem_of_join. apply list_elem_of_fmap in Hp as (value & -> & _). eauto. Qed.

(** A query string is read back as the values it was written from. *)
Lemma Query_Encode (v : Values) : well_formed v → Query (Encode v) = v.
Proof.
  intros Hw. apply map_eq. intros k. unfold Query, Encode. rewrite to_of_bytes.
  set (l := mjoin _). assert (∀ p, p ∈ l → ∃ key value, p = escape (to_bytes key) ++ "="%char :: escape (to_bytes value)) as Hl
    by apply settings_shape.
  assert (foldl parse_setting ∅ (split "&" (join "&" l)) = foldl parse_setting ∅ l) as ->.
  { destruct l as [|p l'] eqn:E; [done|]. rewrite split_join; [done|done|]. apply Forall_forall. intros q Hq.
    destruct (Hl q Hq) as (key & value & ->). by apply setting_no. }
  unfold l. rewrite parse_settings_of; [|apply NoDup_sorted_elements| |done].
  - case_decide as Hk; [done|]. rewrite elem_of_sorted_elements, not_elem_of_dom in Hk. by rewrite Hk, lookup_empty.
  - intros j Hj%elem_of_sorted_elements%elem_of_dom. by rewrite lookup_empty.
Qed.

Lemma parse_setting_well_formed m p : well_formed m → well_formed (parse_setting m p).
Proof.
  intros Hm. unfold parse_setting. destruct (_ || _); [done|]. destruct (cut_bytes _ _) as [key value].
  destruct (unescape key), (unescape value); try done. apply map_Forall_insert_2; [by destruct (default _ _)|done].
Qed.

Lemma Query_well_formed rawQuery : well_formed (Query rawQuery).
Proof.
  unfold Query. assert (well_formed ∅) as H by apply map_Forall_empty. revert H. generalize (∅ : Values) as m.
  induction (split _ _) as [|p l IH]; intros m Hm; [done|]. apply IH, parse_setting_well_formed, Hm.
Qed.
