(* ===== verification/Regex.v ===== *)
(** Regular expressions over bytes: the meaning of the anchored patterns the
    program compiles with [regexp.MustCompile] and tests with [MatchString].

    The three patterns of the program are of the form [^...$], so a match is a
    match of the whole text.  Every character class they use is an ASCII set or
    the complement of one, so matching runes and matching bytes coincide.
    [matches] decides a pattern by derivatives; [lang] is its meaning as a
    language, and [matches_lang] relates the two. *)
From S2P Require Import Prelude GoStrings.

Inductive re :=
  | RNone
  | REps
  | RSet (p : ascii → bool)
  | RAlt (r1 r2 : re)
  | RCat (r1 r2 : re)
  | RStar (r : re).

(** [r+], [r?], [r{n}] and [r{lo,hi}]. *)
Definition RPlus (r : re) : re := RCat r (RStar r).
Definition ROpt (r : re) : re := RAlt REps r.
Fixpoint RRep (n : nat) (r : re) (k : re) : re :=
  match n with 0 => k | S n => RCat r (RRep n r k) end.
Definition RRange (lo hi : nat) (r : re) : re :=
  RRep lo r (RRep (hi - lo) (ROpt r) REps).
Definition RChar (c : ascii) : re := RSet (λ a, bool_decide (a = c)).

Inductive lang : re → bytes → Prop :=
  | lang_eps : lang REps []
  | lang_set p a : p a = true → lang (RSet p) [a]
  | lang_alt_l r1 r2 l : lang r1 l → lang (RAlt r1 r2) l
  | lang_alt_r r1 r2 l : lang r2 l → lang (RAlt r1 r2) l
  | lang_cat r1 r2 l1 l2 : lang r1 l1 → lang r2 l2 → lang (RCat r1 r2) (l1 ++ l2)
  | lang_star_nil r : lang (RStar r) []
  | lang_star_app r l1 l2 : lang r l1 → lang (RStar r) l2 → lang (RStar r) (l1 ++ l2).
#[export] Hint Constructors lang : orbit.

(** Smart constructors keep derivatives small. *)
Definition ralt (r1 r2 : re) : re :=
  match r1, r2 with
  | RNone, _ => r2
  | _, RNone => r1
  | _, _ => RAlt r1 r2
  end.

Definition rcat (r1 r2 : re) : re :=
  match r1 with
  | RNone => RNone
  | REps => r2
  | _ => RCat r1 r2
  end.

Fixpoint nullable (r : re) : bool :=
  match r with
  | RNone | RSet _ => false
  | REps | RStar _ => true
  | RAlt r1 r2 => nullable r1 || nullable r2
  | RCat r1 r2 => nullable r1 && nullable r2
  end.

Fixpoint deriv (a : ascii) (r : re) : re :=
  match r with
  | RNone | REps => RNone
  | RSet p => if p a then REps else RNone
  | RAlt r1 r2 => ralt (deriv a r1) (deriv a r2)
  | RCat r1 r2 =>
      if nullable r1 then ralt (rcat (deriv a r1) r2) (deriv a r2)
      else rcat (deriv a r1) r2
  | RStar r => rcat (deriv a r) (RStar r)
  end.

Fixpoint matches (r : re) (l : bytes) : bool :=
  match l with
  | [] => nullable r
  | a :: l => matches (deriv a r) l
  end.

(** [Regexp.MatchString] for a pattern anchored at both ends. *)
Definition MatchString (r : re) (s : string) : bool := matches r (to_bytes s).

(** ** Inversion *)

Lemma lang_none_inv l : lang RNone l ↔ False.
Proof. split; [inversion 1 | done]. Qed.

Lemma lang_eps_inv l : lang REps l ↔ l = [].
Proof. split; [by inversion 1 | intros ->; constructor]. Qed.

Lemma lang_set_inv p l : lang (RSet p) l ↔ ∃ a, l = [a] ∧ p a = true.
Proof. split; [inversion 1; eauto | intros (a & -> & ?); by constructor]. Qed.

Lemma lang_alt_inv r1 r2 l : lang (RAlt r1 r2) l ↔ lang r1 l ∨ lang r2 l.
Proof. split; [inversion 1; auto | intros [?|?]; auto with orbit]. Qed.

Lemma lang_cat_inv r1 r2 l :
  lang (RCat r1 r2) l ↔ ∃ l1 l2, l = l1 ++ l2 ∧ lang r1 l1 ∧ lang r2 l2.
Proof. split; [inversion 1; eauto | intros (l1 & l2 & -> & ? & ?); auto with orbit]. Qed.

Lemma lang_ralt r1 r2 l : lang (ralt r1 r2) l ↔ lang (RAlt r1 r2) l.
Proof.
  rewrite lang_alt_inv.
  destruct r1, r2; simpl; rewrite ?lang_alt_inv, ?lang_none_inv; tauto.
Qed.

Lemma lang_rcat r1 r2 l : lang (rcat r1 r2) l ↔ lang (RCat r1 r2) l.
Proof.
  destruct r1; simpl; rewrite ?lang_none_inv; try done; rewrite lang_cat_inv.
  - split; [done|]. intros (? & ? & _ & []%lang_none_inv & _).
  - split.
    + intros H. exists [], l. by split_and!; [|constructor|].
    + by intros (l1 & l2 & -> & ->%lang_eps_inv & H).
Qed.

#[export] Hint Rewrite lang_none_inv lang_eps_inv lang_set_inv lang_alt_inv
  lang_cat_inv lang_ralt lang_rcat : lang_inv.

(** ** Correctness of the matcher *)

Lemma nullable_lang r : nullable r = true ↔ lang r [].
Proof.
  induction r as [| |p|r1 IH1 r2 IH2|r1 IH1 r2 IH2|r IH]; simpl.
  - by rewrite lang_none_inv.
  - by rewrite lang_eps_inv.
  - rewrite lang_set_inv. split; [done | by intros (? & ? & _)].
  - by rewrite orb_true_iff, lang_alt_inv, IH1, IH2.
  - rewrite andb_true_iff, lang_cat_inv, IH1, IH2. split.
    + intros [? ?]. exists [], []. auto.
    + intros (l1 & l2 & E & ? & ?). by apply eq_sym, app_nil in E as [-> ->].
  - split; [constructor | done].
Qed.

Lemma lang_star_cons r a l :
  lang (RStar r) (a :: l) ↔
  ∃ l1 l2, l = l1 ++ l2 ∧ lang r (a :: l1) ∧ lang (RStar r) l2.
Proof.
  split.
  - intros H. remember (RStar r) as q eqn:Eq. remember (a :: l) as k eqn:Ek.
    revert l Ek. induction H as [| | | | | |q l1 l2 H1 _ H2 IH2]; intros l' Ek; simplify_eq.
    destruct l1 as [|b l1]; simplify_eq/=; [by apply IH2 | by exists l1, l2].
  - intros (l1 & l2 & -> & ? & ?). by apply (lang_star_app r (a :: l1) l2).
Qed.

Lemma lang_cat_cons r1 r2 a l :
  lang (RCat r1 r2) (a :: l) ↔
  (∃ l1 l2, l = l1 ++ l2 ∧ lang r1 (a :: l1) ∧ lang r2 l2) ∨
  (lang r1 [] ∧ lang r2 (a :: l)).
Proof.
  rewrite lang_cat_inv. split.
  - intros ([|b l1] & l2 & E & ? & ?); simplify_eq/=; [by right | left; eauto].
  - intros [(l1 & l2 & -> & ? & ?)|[? ?]]; [by exists (a :: l1), l2 | by exists [], (a :: l)].
Qed.

Lemma deriv_lang r a l : lang (deriv a r) l ↔ lang r (a :: l).
Proof.
  revert l. induction r as [| |p|r1 IH1 r2 IH2|r1 IH1 r2 IH2|r IH]; intros l; simpl.
  - by rewrite !lang_none_inv.
  - by rewrite lang_none_inv, lang_eps_inv.
  - rewrite lang_set_inv. destruct (p a) eqn:E.
    + rewrite lang_eps_inv. split; [intros ->; eauto | intros (? & ? & _); by simplify_eq].
    + rewrite lang_none_inv. split; [done|]. intros (? & ? & ?). congruence.
  - by rewrite lang_ralt, !lang_alt_inv, IH1, IH2.
  - rewrite lang_cat_cons. pose proof (nullable_lang r1) as Hn.
    assert (lang (rcat (deriv a r1) r2) l ↔
            ∃ l1 l2, l = l1 ++ l2 ∧ lang r1 (a :: l1) ∧ lang r2 l2) as Hc.
    { rewrite lang_rcat, lang_cat_inv. by setoid_rewrite IH1. }
    destruct (nullable r1).
    + rewrite lang_ralt, lang_alt_inv, Hc, IH2. tauto.
    + rewrite Hc. split; [by left|]. intros [?|[Hf _]]; [done|].
      apply Hn in Hf. done.
  - rewrite lang_rcat, lang_cat_inv, lang_star_cons. by setoid_rewrite IH.
Qed.

Lemma matches_lang r l : matches r l = true ↔ lang r l.
Proof.
  revert r. induction l as [|a l IH]; intros r; simpl.
  - apply nullable_lang.
  - by rewrite IH, deriv_lang.
Qed.

Lemma MatchString_lang r s : MatchString r s = true ↔ lang r (to_bytes s).
Proof. apply matches_lang. Qed.

(** ** Languages of the derived forms *)

Lemma lang_star_set p l : lang (RStar (RSet p)) l ↔ forallb p l = true.
Proof.
  induction l as [|a l IH].
  - split; [done | constructor].
  - rewrite lang_star_cons. simpl. rewrite andb_true_iff. split.
    + intros (l1 & l2 & -> & (b & [= -> ->] & ?)%lang_set_inv & ?).
      simpl in *. by rewrite <- IH.
    + intros [? ?]. exists [], l. rewrite IH. auto with orbit.
Qed.

Lemma lang_plus_set p l :
  lang (RPlus (RSet p)) l ↔ l ≠ [] ∧ forallb p l = true.
Proof.
  unfold RPlus. rewrite lang_cat_inv. split.
  - intros (l1 & l2 & -> & (a & -> & Ha)%lang_set_inv & H%lang_star_set).
    split; [done|]. simpl. by rewrite Ha.
  - intros [Hn H]. destruct l as [|a l]; [done|]. simpl in H. bool_hyps.
    exists [a], l. rewrite lang_star_set. auto with orbit.
Qed.

Lemma lang_rep_set n p k l :
  lang (RRep n (RSet p) k) l ↔
  ∃ l1 l2, l = l1 ++ l2 ∧ length l1 = n ∧ forallb p l1 = true ∧ lang k l2.
Proof.
  revert l. induction n as [|n IH]; intros l; simpl.
  - split; [by intros ?; exists [], l|]. by intros ([|] & l2 & -> & ? & _ & ?).
  - rewrite lang_cat_inv. setoid_rewrite IH. split.
    + intros (? & ? & -> & (a & -> & Ha)%lang_set_inv & l1 & l2 & -> & <- & ? & ?).
      exists (a :: l1), l2. simpl. rewrite Ha. auto.
    + intros ([|a l1] & l2 & -> & Hl & H & ?); simplify_eq/=. bool_hyps.
      exists [a], (l1 ++ l2). split_and!; [done | by constructor | eauto 10].
Qed.

Lemma lang_rep_opt n p l :
  lang (RRep n (ROpt (RSet p)) REps) l ↔ length l ≤ n ∧ forallb p l = true.
Proof.
  revert l. induction n as [|n IH]; intros l; simpl.
  - rewrite lang_eps_inv. destruct l; simpl; split; naive_solver lia.
  - unfold ROpt at 1. rewrite lang_cat_inv. setoid_rewrite lang_alt_inv.
    setoid_rewrite IH. split.
    + intros (l1 & l2 & -> & [->%lang_eps_inv|(a & -> & Ha)%lang_set_inv] & ? & ?);
        simpl; [split; [lia | done] | rewrite Ha; split; [lia | done]].
    + destruct l as [|a l]; simpl; intros [? H].
      * exists [], []. rewrite lang_eps_inv. simpl. split_and!; auto; lia.
      * bool_hyps. exists [a], l. split_and!; auto with orbit; lia.
Qed.

(** [p{lo,hi}] is a run of between [lo] and [hi] bytes of the class [p]. *)
Lemma lang_range_set lo hi p l :
  lo ≤ hi →
  lang (RRange lo hi (RSet p)) l ↔ lo ≤ length l ≤ hi ∧ forallb p l = true.
Proof.
  intros Hle. unfold RRange. rewrite lang_rep_set. setoid_rewrite lang_rep_opt. split.
  - intros (l1 & l2 & -> & <- & H1 & ? & H2). rewrite length_app, forallb_app, H1, H2.
    split; [lia | done].
  - intros [? H]. exists (take lo l), (drop lo l).
    rewrite length_take, length_drop, take_drop.
    rewrite <- (take_drop lo l), forallb_app in H. bool_hyps. split_and!; auto; lia.
Qed.
