(* ===== verification/Sha256.v ===== *)
(** SHA-256 ([crypto/sha256]) and lower-case hexadecimal ([encoding/hex]) on
    byte strings, on 32-bit words kept as [Z] with the wrap-around written out. *)
From S2P Require Import Prelude GoStrings.
Local Open Scope Z_scope.

Definition w32 (x : Z) : Z := x mod 2 ^ 32.
Definition add32 (x y : Z) : Z := w32 (x + y).
Definition rotr (n x : Z) : Z := Z.lor (Z.shiftr x n) (w32 (Z.shiftl x (32 - n))).
Definition not32 (x : Z) : Z := Z.lxor x (2 ^ 32 - 1).

Definition Ch (x y z : Z) : Z := Z.lxor (Z.land x y) (Z.land (not32 x) z).
Definition Maj (x y z : Z) : Z := Z.lxor (Z.lxor (Z.land x y) (Z.land x z)) (Z.land y z).
Definition Sigma0 (x : Z) : Z := Z.lxor (Z.lxor (rotr 2 x) (rotr 13 x)) (rotr 22 x).
Definition Sigma1 (x : Z) : Z := Z.lxor (Z.lxor (rotr 6 x) (rotr 11 x)) (rotr 25 x).
Definition sigma0 (x : Z) : Z := Z.lxor (Z.lxor (rotr 7 x) (rotr 18 x)) (Z.shiftr x 3).
Definition sigma1 (x : Z) : Z := Z.lxor (Z.lxor (rotr 17 x) (rotr 19 x)) (Z.shiftr x 10).

(** FIPS 180-4 defines the constants: the first thirty-two bits of the fractional
    parts of the cube roots of the first sixty-four primes, and of the square
    roots of the first eight. *)
Definition is_prime (n : nat) : bool := forallb (λ d, negb (Nat.eqb (n mod d) 0)) (seq 2 (n - 2)).
Definition primes : list Z := Eval vm_compute in Z.of_nat <$> filter (λ n, is_prime n = true) (seq 2 310).

(** The largest [r] below [2 ^ bits] with [r ^ 3] at most [x], bit by bit. *)
Fixpoint cube_root (bits : nat) (r x : Z) : Z :=
  match bits with
  | O => r
  | S b => let r' := r + 2 ^ Z.of_nat b in cube_root b (if r' * r' * r' <=? x then r' else r) x
  end.

Definition K256 : list Z := Eval vm_compute in (λ p, w32 (cube_root 36 0 (p * 2 ^ 96))) <$> primes.

Record H256 := mkH { h0 : Z; h1 : Z; h2 : Z; h3 : Z; h4 : Z; h5 : Z; h6 : Z; h7 : Z }.

Definition root_fraction (i : nat) : Z := w32 (Z.sqrt (nth i primes 0 * 2 ^ 64)).

Definition H_init : H256 := Eval vm_compute in
  mkH (root_fraction 0) (root_fraction 1) (root_fraction 2) (root_fraction 3)
    (root_fraction 4) (root_fraction 5) (root_fraction 6) (root_fraction 7).

(** The message schedule, newest word first: each step appends one word. *)
Fixpoint schedule (n : nat) (w : list Z) : list Z :=
  match n with
  | O => w
  | S n =>
      let at_ i := nth i w 0 in
      schedule n
        (add32 (add32 (sigma1 (at_ 1%nat)) (at_ 6%nat)) (add32 (sigma0 (at_ 14%nat)) (at_ 15%nat)) :: w)
  end.

Definition round (s : H256) (kw : Z * Z) : H256 :=
  let '(k, w) := kw in
  let t1 := add32 (add32 (add32 (h7 s) (Sigma1 (h4 s))) (Ch (h4 s) (h5 s) (h6 s))) (add32 k w) in
  let t2 := add32 (Sigma0 (h0 s)) (Maj (h0 s) (h1 s) (h2 s)) in
  mkH (add32 t1 t2) (h0 s) (h1 s) (h2 s) (add32 (h3 s) t1) (h4 s) (h5 s) (h6 s).

Definition compress (s : H256) (block : list Z) : H256 :=
  let ws := rev (schedule 48 (rev block)) in
  let r := fold_left round (combine K256 ws) s in
  mkH (add32 (h0 s) (h0 r)) (add32 (h1 s) (h1 r)) (add32 (h2 s) (h2 r)) (add32 (h3 s) (h3 r))
      (add32 (h4 s) (h4 r)) (add32 (h5 s) (h5 r)) (add32 (h6 s) (h6 r)) (add32 (h7 s) (h7 r)).

(** Padding: 0x80, zeros up to 56 bytes modulo 64, the bit length on 8 bytes. *)
Definition be_bytes (n : nat) (x : Z) : list Z :=
  (λ i, Z.land (Z.shiftr x (8 * Z.of_nat i)) 255) <$> rev (seq 0 n).

Definition pad (msg : list Z) : list Z :=
  let n := length msg in
  let zeros := Z.to_nat ((55 - Z.of_nat n) mod 64) in
  msg ++ [128] ++ replicate zeros 0 ++ be_bytes 8 (8 * Z.of_nat n).

Fixpoint words (l : list Z) : list Z :=
  match l with
  | a :: b :: c :: d :: l => (a * 2 ^ 24 + b * 2 ^ 16 + c * 2 ^ 8 + d) :: words l
  | _ => []
  end.

Fixpoint blocks (fuel : nat) (s : H256) (ws : list Z) : H256 :=
  match fuel, ws with
  | S fuel, _ :: _ => blocks fuel (compress s (take 16 ws)) (drop 16 ws)
  | _, _ => s
  end.

(** [sha256.Sum256].  The number of 512-bit blocks is below the number of
    words, so the fuel is never exhausted. *)
Definition Sum256 (s : string) : list Z :=
  let ws := words (pad ((λ a, Z.of_nat (nat_of_ascii a)) <$> to_bytes s)) in
  let h := blocks (length ws) H_init ws in
  mjoin (be_bytes 4 <$> [h0 h; h1 h; h2 h; h3 h; h4 h; h5 h; h6 h; h7 h]).

Definition hex_digit (d : Z) : ascii :=
  ascii_of_nat (Z.to_nat (if d <? 10 then 48 + d else 87 + d)).

(** [hex.EncodeToString]. *)
Definition EncodeToString (l : list Z) : string :=
  of_bytes (l ≫= λ b, [hex_digit (Z.shiftr b 4); hex_digit (Z.land b 15)]).

Lemma length_be_bytes n x : length (be_bytes n x) = n.
Proof. unfold be_bytes. by rewrite length_fmap, length_rev, length_seq. Qed.

Lemma length_Sum256 s : length (Sum256 s) = 32%nat.
Proof. unfold Sum256. cbv zeta. 
  generalize (words (pad ((λ a, Z.of_nat (nat_of_ascii a)) <$> to_bytes s))).
  intros ws. by destruct (blocks (length ws) H_init ws).
 Qed.

Lemma len_EncodeToString l : len (EncodeToString l) = (2 * length l)%nat.
Proof.
  unfold len, EncodeToString. rewrite to_of_bytes.
  induction l as [|b l IH]; [done|]. rewrite bind_cons, length_app, IH. simpl. lia.
Qed.

Example sha256_abc :
  EncodeToString (Sum256 "abc") =
  "ba7816bf8f01cfea414140de5dae2223b00361a396177a9cb410ff61f20015ad".
Proof. vm_compute. reflexivity. Qed.
