(* ===== verification/Domain.v ===== *)
(** Package [internal/domain]: entities, pinned rules, lifecycle events and the
    error values every layer tests with [errors.Is].

    A [time.Time] is a number of microseconds since Go's zero time, the
    resolution of the [timestamptz] columns; a [time.Duration] is a number of
    microseconds. *)
From S2P Require Import Prelude GoStrings Regex Sha256.
Local Open Scope Z_scope.

(** ** Time *)

Abbreviation time := Z.
Abbreviation duration := Z.

Definition Millisecond : duration := 1000.
Definition Second : duration := 1000 * Millisecond.
Definition Minute : duration := 60 * Second.
Definition Hour : duration := 60 * Minute.

Definition IsZero (t : time) : bool := t =? 0.
Definition After (t u : time) : bool := u <? t.
Definition Before (t u : time) : bool := t <? u.
Definition Add (t : time) (d : duration) : time := t + d.

(** [Time.Sub] saturates at the range of a 64-bit count of nanoseconds. *)
Definition maxDuration : duration := 9223372036854775.
Definition Sub (t u : time) : duration := Z.max (- maxDuration) (Z.min maxDuration (t - u)).

Lemma Sub_lt t u d : - maxDuration < d ≤ maxDuration → (Sub t u <? d) = (t - u <? d).
Proof. unfold Sub. intros ?. apply eq_true_iff_eq. rewrite !Z.ltb_lt. lia. Qed.

(** ** Constants of auth.go, organization.go and invite.go *)

Definition ChannelEmail : string := "email".
Definition ChannelSMS : string := "sms".

Definition UserActive : string := "active".
Definition UserDisabled : string := "disabled".
Definition UserSignupPending : string := "signup_pending".

Definition OTPTTL : duration := 10 * Minute.
Definition MaxOTPAttempts : Z := 5.
Definition AccessTokenTTL : duration := 15 * Minute.
Definition RefreshTokenTTL : duration := 30 * 24 * Hour.
Definition APITokenPrefixLength : nat := 8.
Definition APITokenScheme : string := "oat_".
Definition InviteTTL : duration := 7 * 24 * Hour.

(** [MembershipStatus] and [InviteStatus] are string types whose values the
    CHECK constraints of migrations 004 and 006 restrict to these. *)
Inductive MembershipStatus := MembershipActive | MembershipInvited | MembershipSuspended.
Inductive InviteStatus := InvitePending | InviteAccepted | InviteRevoked.

#[export] Instance MembershipStatus_eq_dec : EqDecision MembershipStatus.
Proof. solve_decision. Defined.
#[export] Instance InviteStatus_eq_dec : EqDecision InviteStatus.
Proof. solve_decision. Defined.

Definition membership_string (s : MembershipStatus) : string :=
  match s with
  | MembershipActive => "active"
  | MembershipInvited => "invited"
  | MembershipSuspended => "suspended"
  end.

Definition invite_string (s : InviteStatus) : string :=
  match s with
  | InvitePending => "pending"
  | InviteAccepted => "accepted"
  | InviteRevoked => "revoked"
  end.

(** ** Errors *)

(** The sentinel errors of the domain and the application, the errors of the
    database driver, and errors built by [fmt.Errorf], kept as their format and
    arguments.  [Errorw] is a format with a [%w] verb: it wraps its error. *)
Inductive error :=
  | ErrOrgNotFound
  | ErrNotMember
  | ErrUserNotFound
  | ErrLastActiveMember
  | ErrInvalidOrgName
  | ErrInviteNotFound
  | ErrInvalidInvite
  | ErrInvalidEmail
  | ErrEmailOTPDisabled
  | ErrMobileOTPDisabled
  | ErrSignupDisabled
  | ErrPasswordRequired
  | ErrInvalidOTPCode
  | ErrTooManyOTPAttempts
  | ErrInvalidCredentials
  | ErrUserDisabled
  | ErrInvalidToken
  | ErrInvalidRefresh
  | ErrNoRows
  | ErrUniqueViolation
  | ErrForeignKeyViolation
  | ErrNotNullViolation
  | ErrNumericOutOfRange
  | ErrTxClosed
  | ErrUnavailable (what : string)
  | ErrParseUUID (s : string)
  | Errorf (format : string) (args : list string)
  | Errorw (format : string) (args : list string) (wrapped : error).

#[export] Instance error_eq_dec : EqDecision error.
Proof. solve_decision. Defined.

(** [errors.Is]: the error or one it wraps is the target. *)
Fixpoint errors_Is (err target : error) : bool :=
  bool_decide (err = target) ||
  match err with
  | Errorw _ _ e => errors_Is e target
  | _ => false
  end.

Lemma errors_Is_refl e : errors_Is e e = true.
Proof. destruct e; simpl; try done; by rewrite bool_decide_eq_true_2. Qed.

(** ** Validation and hashing *)

Definition digit (a : ascii) : bool :=
  let n := nat_of_ascii a in Nat.leb 48 n && Nat.leb n 57.

Definition nonzero_digit (a : ascii) : bool :=
  let n := nat_of_ascii a in Nat.leb 49 n && Nat.leb n 57.

(** [^\+[1-9]\d{6,14}$] *)
Definition e164Pattern : re :=
  RCat (RChar "+") (RCat (RSet nonzero_digit) (RRange 6 14 (RSet digit))).

Definition IsE164 (value : string) : bool := MatchString e164Pattern value.

(** The class [[^@\s]]: [\s] is tab, newline, form feed, return and space. *)
Definition email_char (a : ascii) : bool :=
  let n := nat_of_ascii a in
  negb (Nat.eqb n 64 || Nat.eqb n 9 || Nat.eqb n 10 || Nat.eqb n 12 || Nat.eqb n 13 || Nat.eqb n 32).

(** [^[^@\s]+@[^@\s]+\.[^@\s]+$] *)
Definition inviteEmailPattern : re :=
  RCat (RPlus (RSet email_char)) (RCat (RChar "@")
    (RCat (RPlus (RSet email_char)) (RCat (RChar ".") (RPlus (RSet email_char))))).

Definition IsEmail (value : string) : bool := MatchString inviteEmailPattern value.

Definition NormalizeEmail `{UnicodeCase} (email : string) : string :=
  ToLower (TrimSpace email).

Definition HashRefreshToken (token : string) : string := EncodeToString (Sum256 token).

Definition HashIdentifier (identifier : string) : string :=
  EncodeToString (take 8 (Sum256 identifier)).

Definition HashInviteToken (token : string) : string := HashRefreshToken token.

(** ** Entities *)

Record User := mkUser {
  u_ID : string;
  u_Email : string;
  u_Mobile : string;
  u_PasswordHash : string;
  u_DisplayName : string;
  u_Status : string;
  u_EmailVerified : bool;
}.

Record OTPChallenge := mkOTPChallenge {
  ch_ID : string;
  ch_Identifier : string;
  ch_Channel : string;
  ch_CodeHash : string;
  ch_ExpiresAt : time;
  ch_CreatedAt : time;
  ch_Attempts : Z;
}.

(** The scopes are a Go slice, which can be nil: [None]. *)
Record APIToken := mkAPIToken {
  at_ID : string;
  at_UserID : string;
  at_Name : string;
  at_Prefix : string;
  at_TokenHash : string;
  at_Scopes : option (list string);
  at_ExpiresAt : option time;
  at_RevokedAt : option time;
  at_CreatedAt : time;
}.

Record APITokenInfo := mkAPITokenInfo {
  ati_ID : string;
  ati_Name : string;
  ati_Prefix : string;
  ati_Scopes : option (list string);
  ati_ExpiresAt : option time;
  ati_CreatedAt : time;
}.

Record DemoUser := mkDemoUser {
  du_Email : string;
  du_Mobile : string;
  du_Password : string;
  du_DisplayName : string;
}.

Record Organization := mkOrganization {
  o_ID : string;
  o_Name : string;
  o_CreatedAt : time;
  o_UpdatedAt : time;
}.

Record Membership := mkMembership {
  m_OrgID : string;
  m_UserID : string;
  m_Status : MembershipStatus;
  m_CreatedAt : time;
  m_UpdatedAt : time;
}.

Record Invite := mkInvite {
  i_ID : string;
  i_OrgID : string;
  i_Email : string;
  i_TokenHash : string;
  i_InviterID : string;
  i_Status : InviteStatus;
  i_ExpiresAt : time;
  i_AcceptedAt : option time;
  i_CreatedAt : time;
}.

Record InviteNotification := mkInviteNotification {
  in_Recipient : string;
  in_OrgName : string;
  in_InviterName : string;
  in_AcceptToken : string;
  in_ExpiresAt : time;
  in_Locale : string;
  in_CorrelationID : string;
}.

Record FeatureFlag := mkFeatureFlag {
  ff_Name : string;
  ff_Enabled : bool;
  ff_Description : string;
  ff_UpdatedAt : time;
}.

(** ** Lifecycle events *)

Definition SubjectUserCreated : string := "auth.user.created".
Definition SubjectOrgCreated : string := "auth.org.created".
Definition SubjectMembershipAdded : string := "auth.membership.added".
Definition SubjectMembershipRemoved : string := "auth.membership.removed".
Definition SubjectMembershipSuspended : string := "auth.membership.suspended".
Definition EventSource : string := "orbit-auth".
Definition EventVersion : string := "1".

Inductive Payload :=
  | UserCreatedPayload (UserID : string) (OccurredAt : time)
  | OrgCreatedPayload (OrgID Name : string) (OccurredAt : time)
  | MembershipAddedPayload (OrgID UserID : string) (Status : MembershipStatus) (OccurredAt : time)
  | MembershipRemovedPayload (OrgID UserID : string) (Status : MembershipStatus) (OccurredAt : time)
  | MembershipSuspendedPayload (OrgID UserID : string) (Status : MembershipStatus) (OccurredAt : time).

Record Event := mkEvent {
  e_Subject : string;
  e_Payload : Payload;
  e_OccurredAt : time;
}.

#[export] Instance Payload_eq_dec : EqDecision Payload.
Proof. solve_decision. Defined.
#[export] Instance Event_eq_dec : EqDecision Event.
Proof. solve_decision. Defined.

Definition NewUserCreatedEvent (userID : string) (at_ : time) : Event :=
  mkEvent SubjectUserCreated (UserCreatedPayload userID at_) at_.

Definition NewOrgCreatedEvent (orgID name : string) (at_ : time) : Event :=
  mkEvent SubjectOrgCreated (OrgCreatedPayload orgID name at_) at_.

Definition NewMembershipAddedEvent (orgID userID : string) (status : MembershipStatus) (at_ : time) : Event :=
  mkEvent SubjectMembershipAdded (MembershipAddedPayload orgID userID status at_) at_.

Definition NewMembershipRemovedEvent (orgID userID : string) (status : MembershipStatus) (at_ : time) : Event :=
  mkEvent SubjectMembershipRemoved (MembershipRemovedPayload orgID userID status at_) at_.

Definition NewMembershipSuspendedEvent (orgID userID : string) (status : MembershipStatus) (at_ : time) : Event :=
  mkEvent SubjectMembershipSuspended (MembershipSuspendedPayload orgID userID status at_) at_.

(** ** Properties *)

Lemma lang_char c l : lang (RChar c) l ↔ l = [c].
Proof.
  unfold RChar. rewrite lang_set_inv. split.
  - intros (a & -> & H). by apply bool_decide_eq_true_1 in H as ->.
  - intros ->. exists c. by rewrite bool_decide_eq_true_2.
Qed.

(** [IsE164] accepts exactly a plus sign, a digit from 1 to 9 and between 6
    and 14 further digits. *)
Theorem IsE164_spec value :
  IsE164 value = true ↔
  ∃ d ds, to_bytes value = "+"%char :: d :: ds ∧ nonzero_digit d = true ∧
          (6 ≤ length ds ≤ 14)%nat ∧ forallb digit ds = true.
Proof.
  unfold IsE164, e164Pattern. rewrite MatchString_lang, lang_cat_inv.
  setoid_rewrite lang_char. setoid_rewrite lang_cat_inv. setoid_rewrite lang_set_inv.
  setoid_rewrite lang_range_set; [|lia]. split.
  - intros (? & ? & -> & -> & ? & ds & -> & (d & -> & ?) & ? & ?). exists d, ds. auto.
  - intros (d & ds & -> & ? & ? & ?).
    exists ["+"%char], (d :: ds). split_and!; [done..|]. exists [d], ds. eauto 10.
Qed.

(** [IsEmail] accepts exactly the strings [local@domain.tld] whose three
    parts are non-empty and free of white space and of a second at sign. *)
Theorem IsEmail_spec value :
  IsEmail value = true ↔
  ∃ local domain tld,
    value = local +:+ "@" +:+ domain +:+ "." +:+ tld ∧
    local ≠ "" ∧ domain ≠ "" ∧ tld ≠ "" ∧
    forallb email_char (to_bytes local ++ to_bytes domain ++ to_bytes tld) = true.
Proof.
  unfold IsEmail, inviteEmailPattern.
  rewrite MatchString_lang. split.
  - intros (a & k1 & E & [Ha Ha']%lang_plus_set & H)%lang_cat_inv.
    apply lang_cat_inv in H as (k2 & k3 & -> & ->%lang_char & H).
    apply lang_cat_inv in H as (b & k4 & -> & [Hb Hb']%lang_plus_set & H).
    apply lang_cat_inv in H as (k5 & c & -> & ->%lang_char & [Hc Hc']%lang_plus_set).
    exists (of_bytes a), (of_bytes b), (of_bytes c).
    rewrite !to_of_bytes, !forallb_app, Ha', Hb', Hc'.
    split_and!; [|by intros ?%to_bytes_nil; rewrite to_of_bytes in *..|done].
    apply to_bytes_inj. by rewrite E, !to_bytes_app, !to_of_bytes.
  - intros (a & b & c & -> & Ha & Hb & Hc & H). rewrite !forallb_app in H.
    apply andb_true_iff in H as [Ha' [Hb' Hc']%andb_true_iff].
    rewrite !to_bytes_app.
    repeat apply lang_cat; try (apply lang_plus_set; rewrite to_bytes_nil; done);
      by apply lang_char.
Qed.

Lemma len_HashRefreshToken token : len (HashRefreshToken token) = 64%nat.
Proof. unfold HashRefreshToken. by rewrite len_EncodeToString, length_Sum256. Qed.

(** The digests pinned by the tests of the package. *)
Example HashRefreshToken_pinned :
  HashRefreshToken "char-refresh-token" =
  "6a9c19bc50ab57612a3cf34b2db5243c36eb61071570c43161bf0d365cf63ece".
Proof. vm_compute. reflexivity. Qed.

Example HashIdentifier_pinned : HashIdentifier "person@example.com" = "542d240129883c01".
Proof. vm_compute. reflexivity. Qed.

Example IsE164_pinned :
  (IsE164 <$> ["+989121234567"; "+1234567"; "+123456789012345"; "+0123456789"; "+123456";
               "+1234567890123456"; "+98 912 123 4567"; ""])
  = [true; true; true; false; false; false; false; false].
Proof. vm_compute. reflexivity. Qed.

(** A normalised ASCII address is a fixed point of normalisation. *)
Lemma NormalizeEmail_idemp_ascii `{UnicodeCase} email :
  is_ascii (TrimSpace email) = true →
  TrimSpace (lower_ascii (TrimSpace email)) = lower_ascii (TrimSpace email) →
  NormalizeEmail (NormalizeEmail email) = NormalizeEmail email.
Proof.
  intros Ha Ht. unfold NormalizeEmail, ToLower. rewrite Ha, Ht, is_ascii_lower, Ha.
  apply lower_ascii_idemp.
Qed.
