(* ===== verification/Authorization.v ===== *)
(** Package [authorization]: the deprecated static [Evaluator], the permission
    [Catalog], and the organization-scoped RBAC [Authorizer].

    A Go map is a [gmap]; a nil pointer is [None]; the role and permission
    identifier types are strings.  The [Store] port a product implements is the
    record [Store] of its two read operations, and [StoreScoped] is what the
    port's documentation promises. *)
From S2P Require Import Prelude GoStrings Regex Domain.

(** ** policy.go *)

Definition ident_first (a : ascii) : bool :=
  let n := nat_of_ascii a in Nat.leb 97 n && Nat.leb n 122.

(** The class [[a-z0-9_.-]]. *)
Definition ident_char (a : ascii) : bool :=
  ident_first a || digit a || bool_decide (a = "_"%char) || bool_decide (a = "."%char)
  || bool_decide (a = "-"%char).

(** [^[a-z][a-z0-9_.-]*$] *)
Definition identifierPattern : re := RCat (RSet ident_first) (RStar (RSet ident_char)).

Definition validateIdentifier (kind value : string) : option error :=
  if negb (String.eqb value (TrimSpace value)) || negb (MatchString identifierPattern value)
  then Some (Errorf "invalid %s identifier %q" [kind; value])
  else None.

Record Evaluator := mkEvaluator { permissions : gmap string (gset string) }.

Fixpoint grants_loop (grants : list string) (acc : gset string) : error + gset string :=
  match grants with
  | [] => inr acc
  | permission :: rest =>
      match validateIdentifier "permission" permission with
      | Some err => inl err
      | None => grants_loop rest ({[permission]} ∪ acc)
      end
  end.

Fixpoint policy_loop (entries : list (string * list string)) (acc : gmap string (gset string))
  : error + gmap string (gset string) :=
  match entries with
  | [] => inr acc
  | (role, grants) :: rest =>
      match validateIdentifier "role" role with
      | Some err => inl err
      | None =>
          match grants with
          | [] => inl (Errorf "role %q must grant at least one permission" [role])
          | _ =>
              match grants_loop grants ∅ with
              | inl err => inl err
              | inr rolePermissions => policy_loop rest (<[role := rolePermissions]> acc)
              end
          end
      end
  end.

(** [NewEvaluator].  Go visits a map in an unspecified order: [order] is the
    order of this run, an enumeration of the policy's entries. *)
Definition NewEvaluator (order : list (string * list string)) : error + Evaluator :=
  match order with
  | [] => inl (Errorf "authorization policy must define at least one role" [])
  | _ =>
      match policy_loop order ∅ with
      | inl err => inl err
      | inr ps => inr (mkEvaluator ps)
      end
  end.

Definition role_permissions (e : Evaluator) (role : string) : gset string :=
  default ∅ (permissions e !! role).

Definition Allows (e : option Evaluator) (roles : list string) (permission : string) : bool :=
  match e with
  | None => false
  | Some e =>
      if String.eqb permission "" then false
      else existsb (λ role, bool_decide (permission ∈ role_permissions e role)) roles
  end.

Definition Permissions (e : option Evaluator) (roles : list string) : list string :=
  match e with
  | None => []
  | Some e => sorted_elements (⋃ (role_permissions e <$> roles))
  end.

(** ** catalog.go *)

Record PermissionSpec := mkPermissionSpec { ps_Key : string; ps_Description : string }.

Record Catalog := mkCatalog { specs : gmap string PermissionSpec }.

Fixpoint catalog_loop (perms : list PermissionSpec) (acc : gmap string PermissionSpec)
  : error + gmap string PermissionSpec :=
  match perms with
  | [] => inr acc
  | spec :: rest =>
      match validateIdentifier "permission" (ps_Key spec) with
      | Some err => inl err
      | None =>
          match acc !! ps_Key spec with
          | Some _ => inl (Errorf "duplicate permission %q" [ps_Key spec])
          | None => catalog_loop rest (<[ps_Key spec := spec]> acc)
          end
      end
  end.

Definition NewCatalog (perms : list PermissionSpec) : error + Catalog :=
  match catalog_loop perms ∅ with
  | inl err => inl err
  | inr m => inr (mkCatalog m)
  end.

Definition Has (c : option Catalog) (permission : string) : bool :=
  match c with
  | None => false
  | Some c => bool_decide (is_Some (specs c !! permission))
  end.

Definition spec_le (x y : PermissionSpec) : Prop := String.le (ps_Key x) (ps_Key y).
#[export] Instance spec_le_dec : RelDecision spec_le.
Proof. intros x y. unfold spec_le. apply _. Defined.

Definition All (c : option Catalog) : list PermissionSpec :=
  match c with
  | None => []
  | Some c => merge_sort spec_le (map_to_list (specs c)).*2
  end.

(** ** rbac.go *)

Definition reasonNoOrg : string := "no_org".
Definition reasonOrgMismatch : string := "org_mismatch".
Definition reasonUnknownPermission : string := "unknown_permission".
Definition reasonNoGrant : string := "no_grant".
Definition reasonGranted : string := "granted".

Record Scope := mkScope { sc_Type : string; sc_ID : string }.
#[export] Instance Scope_eq_dec : EqDecision Scope.
Proof. solve_decision. Defined.

Record Resource := mkResource { r_OrgID : string; r_Scopes : list Scope }.

Record RoleDef := mkRoleDef {
  rd_Key : string;
  rd_Permissions : list string;
  rd_System : bool;
}.

Record Assignment := mkAssignment {
  as_OrgID : string;
  as_Subject : string;
  as_RoleKey : string;
  as_Scope : Scope;
}.
#[export] Instance Assignment_eq_dec : EqDecision Assignment.
Proof. solve_decision. Defined.

Record Principal := mkPrincipal { p_Subject : string; p_OrgID : string }.
Record AuthzDecision := mkDecision { Allowed : bool; Reason : string }.

Record Store := mkStore {
  Roles : string → error + list RoleDef;
  Assignments : string → string → error + list Assignment;
}.

Record rbac := mkrbac { catalog : option Catalog; store : option Store }.

Definition NewRBAC (catalog : option Catalog) (store : option Store) : option rbac :=
  Some (mkrbac catalog store).

Definition deny (reason : string) : AuthzDecision := mkDecision false reason.

Definition assignmentApplies (scope : Scope) (scopes : list Scope) : bool :=
  if String.eqb (sc_Type scope) "" then true
  else existsb (λ resourceScope, bool_decide (resourceScope = scope)) scopes.

Definition add_role (byRole : gmap string (gset string)) (role : RoleDef) : gmap string (gset string) :=
  let permissions := default ∅ (byRole !! rd_Key role) in
  <[rd_Key role := list_to_set (rd_Permissions role) ∪ permissions]> byRole.

Definition permissionsByRole (roles : list RoleDef) : gmap string (gset string) :=
  foldl add_role ∅ roles.

Definition hasPermission (r : option rbac) (permission : string) : bool :=
  match r with
  | None => false
  | Some r => match catalog r with None => false | Some c => Has (Some c) permission end
  end.

(** The role of an assignment grants a permission: the two map lookups that
    every loop of the file makes. *)
Definition role_grants (byRole : gmap string (gset string)) (roleKey permission : string) : bool :=
  match byRole !! roleKey with
  | None => false
  | Some permissions => bool_decide (permission ∈ permissions)
  end.

Fixpoint check_loop (byRole : gmap string (gset string)) (p : Principal) (permission : string)
    (scopes : list Scope) (assignments : list Assignment) : AuthzDecision :=
  match assignments with
  | [] => deny reasonNoGrant
  | a :: rest =>
      let continue := check_loop byRole p permission scopes rest in
      if negb (String.eqb (as_OrgID a) (p_OrgID p)) || negb (String.eqb (as_Subject a) (p_Subject p))
      then continue
      else if negb (role_grants byRole (as_RoleKey a) permission) then continue
      else if assignmentApplies (as_Scope a) scopes then mkDecision true reasonGranted
      else continue
  end.

Definition rbac_Check (r : option rbac) (p : Principal) (permission : string) (resource : Resource)
  : AuthzDecision * option error :=
  if String.eqb (p_OrgID p) "" then (deny reasonNoOrg, None)
  else if negb (String.eqb (r_OrgID resource) (p_OrgID p)) then (deny reasonOrgMismatch, None)
  else if String.eqb (p_Subject p) "" then (deny reasonNoGrant, None)
  else if negb (hasPermission r permission) then (deny reasonUnknownPermission, None)
  else
    match r with
    | None | Some (mkrbac _ None) => (deny reasonNoGrant, None)
    | Some (mkrbac _ (Some st)) =>
        match Roles st (p_OrgID p) with
        | inl err =>
            (deny reasonNoGrant, Some (Errorw "authorization: list roles for org %q: %w" [p_OrgID p] err))
        | inr roles =>
            match Assignments st (p_OrgID p) (p_Subject p) with
            | inl err =>
                (deny reasonNoGrant,
                 Some (Errorw "authorization: list assignments for subject %q in org %q: %w"
                         [p_Subject p; p_OrgID p] err))
            | inr assignments =>
                (check_loop (permissionsByRole roles) p permission (r_Scopes resource) assignments, None)
            end
        end
    end.

(** The loop of [AllowedScopes]: [None] is the early return of an
    organization-wide grant. *)
Fixpoint scopes_loop (byRole : gmap string (gset string)) (p : Principal) (permission scopeType : string)
    (assignments : list Assignment) (ids : gset string) : option (gset string) :=
  match assignments with
  | [] => Some ids
  | a :: rest =>
      let continue := scopes_loop byRole p permission scopeType rest in
      if negb (String.eqb (as_OrgID a) (p_OrgID p)) || negb (String.eqb (as_Subject a) (p_Subject p))
      then continue ids
      else if negb (role_grants byRole (as_RoleKey a) permission) then continue ids
      else if String.eqb (sc_Type (as_Scope a)) "" then None
      else if String.eqb (sc_Type (as_Scope a)) scopeType && negb (String.eqb (sc_ID (as_Scope a)) "")
      then continue ({[sc_ID (as_Scope a)]} ∪ ids)
      else continue ids
  end.

Definition AllowedScopes (r : option rbac) (p : Principal) (permission scopeType : string)
  : bool * list string * option error :=
  if String.eqb (p_OrgID p) "" || String.eqb (p_Subject p) "" then (false, [], None)
  else if negb (hasPermission r permission) then (false, [], None)
  else
    match r with
    | None | Some (mkrbac _ None) => (false, [], None)
    | Some (mkrbac _ (Some st)) =>
        match Roles st (p_OrgID p) with
        | inl err =>
            (false, [], Some (Errorw "authorization: list roles for org %q: %w" [p_OrgID p] err))
        | inr roles =>
            match Assignments st (p_OrgID p) (p_Subject p) with
            | inl err =>
                (false, [],
                 Some (Errorw "authorization: list assignments for subject %q in org %q: %w"
                         [p_Subject p; p_OrgID p] err))
            | inr assignments =>
                match scopes_loop (permissionsByRole roles) p permission scopeType assignments ∅ with
                | None => (true, [], None)
                | Some ids => (false, sorted_elements ids, None)
                end
            end
        end
    end.

Definition CanGrant (granter : list Assignment) (roles : list RoleDef) (target : Assignment) : bool :=
  if String.eqb (as_OrgID target) "" then false
  else
    let byRole := permissionsByRole roles in
    match byRole !! as_RoleKey target with
    | None => false
    | Some targetPermissions =>
        forallb (λ permission,
          existsb (λ a,
            String.eqb (as_OrgID a) (as_OrgID target)
            && role_grants byRole (as_RoleKey a) permission
            && (String.eqb (sc_Type (as_Scope a)) "" || bool_decide (as_Scope a = as_Scope target)))
            granter)
          (elements targetPermissions)
    end.

Fixpoint role_perms_loop (c : Catalog) (key : string) (perms : list string) : option error :=
  match perms with
  | [] => None
  | permission :: rest =>
      match validateIdentifier "permission" permission with
      | Some err => Some err
      | None =>
          if negb (Has (Some c) permission)
          then Some (Errorf "role %q references unknown permission %q" [key; permission])
          else role_perms_loop c key rest
      end
  end.

Fixpoint roles_loop (c : Catalog) (roles : list RoleDef) (seen : gset string) : option error :=
  match roles with
  | [] => None
  | role :: rest =>
      match validateIdentifier "role" (rd_Key role) with
      | Some err => Some err
      | None =>
          if bool_decide (rd_Key role ∈ seen) then Some (Errorf "duplicate role %q" [rd_Key role])
          else
            match role_perms_loop c (rd_Key role) (rd_Permissions role) with
            | Some err => Some err
            | None => roles_loop c rest ({[rd_Key role]} ∪ seen)
            end
      end
  end.

Definition ValidateRoles (c : option Catalog) (roles : list RoleDef) : option error :=
  match c with
  | None => Some (Errorf "authorization catalog is required" [])
  | Some c => roles_loop c roles ∅
  end.
