(* ===== verification/AuthorizationProps.v ===== *)
(** Package [authorization]: what the catalog, the static evaluator and the RBAC
    authorizer guarantee. *)
From S2P Require Import Prelude GoStrings Regex Domain Authorization.

(** ** Identifiers *)

Lemma ident_char_plain a : ident_char a = true → plain_byte a = true.
Proof. destruct a as [[] [] [] [] [] [] [] []]; by vm_compute. Qed.

Lemma ident_first_char a : ident_first a = true → ident_char a = true.
Proof. unfold ident_char. by intros ->. Qed.

Definition valid_identifier (value : string) : Prop :=
  ∃ a l, to_bytes value = a :: l ∧ ident_first a = true ∧ forallb ident_char l = true.

Lemma validateIdentifier_None kind value :
  validateIdentifier kind value = None ↔ valid_identifier value.
Proof.
  unfold validateIdentifier, valid_identifier.
  destruct (MatchString identifierPattern value) eqn:E.
  - apply MatchString_lang, lang_cat_inv in E
      as (l1 & l & E & (a & -> & Ha)%lang_set_inv & Hl%lang_star_set).
    rewrite TrimSpace_plain, String.eqb_refl; simpl.
    + split; [eauto | done].
    + rewrite E. apply forallb_iff. intros x Hx. apply ident_char_plain.
      apply elem_of_cons in Hx as [->|Hx]; [by apply ident_first_char|].
      by eapply forallb_iff.
  - rewrite orb_true_r. split; [done|]. intros (a & l & Ev & Ha & Hl).
    assert (MatchString identifierPattern value = true); [|congruence].
    apply MatchString_lang. rewrite Ev. apply (lang_cat _ _ [a] l); [by constructor|].
    by apply lang_star_set.
Qed.

(** ** The role table *)

Lemma role_grants_default m k permission :
  role_grants m k permission = bool_decide (permission ∈ default ∅ (m !! k)).
Proof. unfold role_grants. destruct (m !! k); simpl; [done|]. by rewrite bool_decide_eq_false_2 by set_solver. Qed.

Lemma permissionsByRole_acc roles m k permission :
  permission ∈ default ∅ (foldl add_role m roles !! k) ↔
  permission ∈ default ∅ (m !! k) ∨
  ∃ rd, rd ∈ roles ∧ rd_Key rd = k ∧ permission ∈ rd_Permissions rd.
Proof.
  revert m. induction roles as [|rd roles IH]; intros m; simpl.
  - rewrite ex_elem_nil. tauto.
  - rewrite IH, ex_elem_cons. unfold add_role at 1.
    destruct (decide (rd_Key rd = k)) as [<-|Hne].
    + rewrite lookup_insert_eq. simpl. rewrite elem_of_union, elem_of_list_to_set. tauto.
    + rewrite lookup_insert_ne by done. tauto.
Qed.

(** A role key grants what the role definitions with that key list. *)
Lemma role_grants_iff roles k permission :
  role_grants (permissionsByRole roles) k permission = true ↔
  ∃ rd, rd ∈ roles ∧ rd_Key rd = k ∧ permission ∈ rd_Permissions rd.
Proof.
  rewrite role_grants_default, bool_decide_eq_true. unfold permissionsByRole.
  rewrite permissionsByRole_acc, lookup_empty. simpl. set_solver.
Qed.

(** ** What an assignment grants *)

(** Declaratively: the role of [a] lists the permission, and [a] is
    organization-wide or names one of the resource's scopes. *)
Definition grants (roles : list RoleDef) (a : Assignment) (permission : string) (scopes : list Scope) : Prop :=
  (∃ rd, rd ∈ roles ∧ rd_Key rd = as_RoleKey a ∧ permission ∈ rd_Permissions rd) ∧
  (sc_Type (as_Scope a) = "" ∨ as_Scope a ∈ scopes).

Lemma assignmentApplies_iff scope scopes :
  assignmentApplies scope scopes = true ↔ sc_Type scope = "" ∨ scope ∈ scopes.
Proof.
  unfold assignmentApplies. destruct (String.eqb_spec (sc_Type scope) "") as [E|E].
  - split; auto.
  - rewrite existsb_iff. split.
    + intros (s & Hs & ->%bool_decide_eq_true_1). auto.
    + intros [?|?]; [done|]. exists scope. by rewrite bool_decide_eq_true_2.
Qed.

Lemma check_loop_cases byRole p permission scopes l :
  check_loop byRole p permission scopes l = mkDecision true reasonGranted ∨
  check_loop byRole p permission scopes l = deny reasonNoGrant.
Proof. induction l as [|a l IH]; simpl; [auto|]. repeat case_match; auto. Qed.

Lemma check_loop_Allowed roles p permission scopes l :
  Allowed (check_loop (permissionsByRole roles) p permission scopes l) = true ↔
  ∃ a, a ∈ l ∧ as_OrgID a = p_OrgID p ∧ as_Subject a = p_Subject p ∧
       grants roles a permission scopes.
Proof.
  induction l as [|a l IH]; simpl; [by rewrite ex_elem_nil|].
  rewrite ex_elem_cons. unfold grants at 1.
  destruct (String.eqb_spec (as_OrgID a) (p_OrgID p)),
    (String.eqb_spec (as_Subject a) (p_Subject p)); simpl; try (rewrite IH; tauto).
  rewrite <- role_grants_iff, <- assignmentApplies_iff.
  destruct (role_grants _ _ _); simpl; [|rewrite IH; intuition congruence].
  destruct (assignmentApplies _ _); simpl; [tauto | rewrite IH; intuition congruence].
Qed.

(** The store could be read for this principal. *)
Definition reads (st : Store) (p : Principal) (roles : list RoleDef) (l : list Assignment) : Prop :=
  Roles st (p_OrgID p) = inr roles ∧ Assignments st (p_OrgID p) (p_Subject p) = inr l.

Lemma Check_intro c st p permission resource roles l :
  p_OrgID p ≠ "" → r_OrgID resource = p_OrgID p → p_Subject p ≠ "" →
  is_Some (specs c !! permission) → reads st p roles l →
  rbac_Check (Some (mkrbac (Some c) (Some st))) p permission resource =
  (check_loop (permissionsByRole roles) p permission (r_Scopes resource) l, None).
Proof.
  intros Hp Hr Hs Hc [ER EA]. unfold rbac_Check.
  rewrite (proj2 (String.eqb_neq _ _) Hp), Hr, String.eqb_refl, (proj2 (String.eqb_neq _ _) Hs).
  simpl. by rewrite bool_decide_eq_true_2, ER, EA by done.
Qed.

(** What allows a request, in terms of the request and of what the store returns: the
    principal has an organization and a subject, the resource belongs to that
    organization, the permission is in the catalog, the store was read, and one of its
    assignments to this subject in this organization grants the permission. *)
Definition entitled (r : option rbac) (p : Principal) (permission : string) (resource : Resource) : Prop :=
  p_OrgID p ≠ "" ∧ r_OrgID resource = p_OrgID p ∧ p_Subject p ≠ "" ∧
  ∃ c st roles l, r = Some (mkrbac (Some c) (Some st)) ∧ is_Some (specs c !! permission) ∧ reads st p roles l ∧
    ∃ a, a ∈ l ∧ as_OrgID a = p_OrgID p ∧ as_Subject a = p_Subject p ∧ grants roles a permission (r_Scopes resource).

Lemma entitled_Check r p permission resource :
  entitled r p permission resource → rbac_Check r p permission resource = (mkDecision true reasonGranted, None).
Proof.
  intros (H1 & H2 & H3 & c & st & roles & l & -> & Hc & Hrd & Ha). rewrite (Check_intro c st p permission resource roles l) by done.
  apply check_loop_Allowed in Ha.
  by destruct (check_loop_cases (permissionsByRole roles) p permission (r_Scopes resource) l) as [E|E]; rewrite E in Ha |- *.
Qed.

Lemma Check_iff r p permission resource :
  Allowed (rbac_Check r p permission resource).1 = true ↔ entitled r p permission resource.
Proof.
  split; [|by intros ->%entitled_Check].
  unfold rbac_Check, entitled, reads. intros H.
  destruct (String.eqb_spec (p_OrgID p) ""); [done|].
  destruct (String.eqb_spec (r_OrgID resource) (p_OrgID p)); simpl in H; [|done].
  destruct (String.eqb_spec (p_Subject p) ""); [done|].
  destruct r as [[[c|] [st|]]|]; simpl in H; try done; [|by case_match].
  destruct (bool_decide (is_Some (specs c !! permission))) eqn:Hc; simpl in H; [|done].
  destruct (Roles st (p_OrgID p)) as [?|roles] eqn:ER; [done|].
  destruct (Assignments st (p_OrgID p) (p_Subject p)) as [?|l] eqn:EA; [done|].
  simpl in H. split_and!; [done..|]. exists c, st, roles, l. bool_hyps. split_and!; auto. by apply check_loop_Allowed.
Qed.

(** ** Listing and checking agree *)

Lemma scopes_loop_None roles p permission ty l ids :
  scopes_loop (permissionsByRole roles) p permission ty l ids = None ↔
  ∃ a, a ∈ l ∧ as_OrgID a = p_OrgID p ∧ as_Subject a = p_Subject p ∧
       sc_Type (as_Scope a) = "" ∧ grants roles a permission [].
Proof.
  revert ids. induction l as [|a l IH]; intros ids; simpl; [by rewrite ex_elem_nil|].
  rewrite ex_elem_cons. unfold grants at 1.
  destruct (String.eqb_spec (as_OrgID a) (p_OrgID p)),
    (String.eqb_spec (as_Subject a) (p_Subject p)); simpl; try (rewrite IH; tauto).
  rewrite <- role_grants_iff.
  destruct (role_grants _ _ _); simpl; [|rewrite IH; intuition congruence].
  destruct (String.eqb_spec (sc_Type (as_Scope a)) ""); [tauto|].
  case_match; rewrite IH; tauto.
Qed.

Lemma scopes_loop_Some roles p permission ty l ids ids' id :
  scopes_loop (permissionsByRole roles) p permission ty l ids = Some ids' →
  id ≠ "" →
  id ∈ ids' ↔ id ∈ ids ∨
  ∃ a, a ∈ l ∧ as_OrgID a = p_OrgID p ∧ as_Subject a = p_Subject p ∧
       grants roles a permission [mkScope ty id].
Proof.
  intros H Hid. revert ids H. induction l as [|a l IH]; intros ids H; simpl in *.
  { simplify_eq. rewrite ex_elem_nil. tauto. }
  rewrite ex_elem_cons. unfold grants at 1. rewrite list_elem_of_singleton.
  destruct (String.eqb_spec (as_OrgID a) (p_OrgID p)),
    (String.eqb_spec (as_Subject a) (p_Subject p)); simpl in H;
    try (rewrite (IH _ H); tauto).
  rewrite <- role_grants_iff.
  destruct (role_grants _ _ _); simpl in H; [|rewrite (IH _ H); intuition congruence].
  destruct (String.eqb_spec (sc_Type (as_Scope a)) ""); [done|].
  destruct (as_Scope a) as [aty aid]; simpl in *.
  assert (mkScope aty aid = mkScope ty id ↔ aty = ty ∧ aid = id) as ->
    by (split; [by intros [= -> ->] | by intros [-> ->]]).
  destruct (String.eqb_spec aty ty), (String.eqb_spec aid ""); simpl in H;
    rewrite (IH _ H), ?elem_of_union, ?elem_of_singleton; intuition congruence.
Qed.

(** C34: [AllowedScopes] is the bulk form of [Check].  When it reads the store
    without error, the permission is held on the scope [id] of the requested
    type exactly when the answer is organization-wide or lists [id]; an
    organization-wide answer means [Check] allows every resource of the
    organization; and the listed ids are sorted without duplicates. *)
Theorem AllowedScopes_agrees_with_Check r p permission ty all ids :
  AllowedScopes r p permission ty = (all, ids, None) →
  (∀ id, id ≠ "" →
     Allowed (rbac_Check r p permission (mkResource (p_OrgID p) [mkScope ty id])).1 = true ↔
     all = true ∨ id ∈ ids) ∧
  (all = true → ∀ scopes, Allowed (rbac_Check r p permission (mkResource (p_OrgID p) scopes)).1 = true) ∧
  StronglySorted String.le ids ∧ NoDup ids.
Proof.
  unfold AllowedScopes. intros H.
  assert (∀ scopes, (p_OrgID p = "" ∨ p_Subject p = "" ∨ hasPermission r permission = false ∨
     (∃ c, r = Some (mkrbac c None))) →
     Allowed (rbac_Check r p permission (mkResource (p_OrgID p) scopes)).1 = true → False) as Hdeny.
  { intros scopes Hd (?&?&?&c&st&roles&l&->&?&?)%Check_iff. simpl in Hd.
    rewrite bool_decide_eq_true_2 in Hd by done. by destruct Hd as [?|[?|[?|[? ?]]]]. }
  assert ((all, ids) = (false, []) →
     (∀ scopes, Allowed (rbac_Check r p permission (mkResource (p_OrgID p) scopes)).1 = true → False) →
     (∀ id, id ≠ "" →
       Allowed (rbac_Check r p permission (mkResource (p_OrgID p) [mkScope ty id])).1 = true ↔
       all = true ∨ id ∈ ids) ∧
     (all = true → ∀ scopes, Allowed (rbac_Check r p permission (mkResource (p_OrgID p) scopes)).1 = true) ∧
     StronglySorted String.le ids ∧ NoDup ids) as Hnone.
  { intros [= -> ->] Hd. split_and!; [|done|constructor|constructor].
    intros id _. split; [by intros ?%Hd|]. by intros [?|?%elem_of_nil]. }
  destruct (String.eqb_spec (p_OrgID p) "") as [E1|E1]; [simpl in H; simplify_eq; apply Hnone; eauto|].
  destruct (String.eqb_spec (p_Subject p) "") as [E2|E2]; [simpl in H; simplify_eq; apply Hnone; eauto|].
  simpl in H. destruct (hasPermission r permission) eqn:E3; simpl in H; [|simplify_eq; apply Hnone; eauto].
  destruct r as [[[c|] [st|]]|]; simplify_eq/=; [|apply Hnone; eauto 10].
  destruct (Roles st (p_OrgID p)) as [?|roles] eqn:ER; [done|].
  destruct (Assignments st (p_OrgID p) (p_Subject p)) as [?|l] eqn:EA; [done|].
  clear Hdeny Hnone. bool_hyps.
  assert (∀ scopes, Allowed (rbac_Check (Some (mkrbac (Some c) (Some st))) p permission
            (mkResource (p_OrgID p) scopes)).1 = true ↔
          ∃ a, a ∈ l ∧ as_OrgID a = p_OrgID p ∧ as_Subject a = p_Subject p ∧
            grants roles a permission scopes) as HC.
  { intros scopes. rewrite (Check_intro c st p permission _ roles l) by done.
    apply check_loop_Allowed. }
  destruct (scopes_loop _ _ _ _ _ _) as [ids'|] eqn:EL; simplify_eq.
  - split_and!; [|done|auto with orbit..].
    intros id Hid. rewrite HC, elem_of_sorted_elements, (scopes_loop_Some _ _ _ _ _ _ _ _ EL) by done.
    set_solver.
  - apply scopes_loop_None in EL as (a & ? & ? & ? & ? & [? ?]).
    assert (∀ scopes, grants roles a permission scopes) by (intros; split; auto).
    split_and!; [|intros _ scopes; apply HC; eauto|constructor|constructor].
    intros id _. rewrite HC. split; eauto.
Qed.

(** ** Delegation *)

Lemma CanGrant_grants granter roles target :
  CanGrant granter roles target = true →
  as_OrgID target ≠ "" ∧
  ∀ permission scopes, grants roles target permission scopes →
    ∃ a, a ∈ granter ∧ as_OrgID a = as_OrgID target ∧ grants roles a permission scopes.
Proof.
  unfold CanGrant. destruct (String.eqb_spec (as_OrgID target) "") as [|Ho]; [done|].
  destruct (permissionsByRole roles !! as_RoleKey target) as [ps|] eqn:E; [|done].
  intros H. split; [done|]. intros permission scopes [Hrole Happ].
  apply role_grants_iff in Hrole. rewrite role_grants_default, E in Hrole. bool_hyps. simpl in Hrole.
  rewrite forallb_iff in H. specialize (H permission).
  rewrite elem_of_elements in H. specialize (H Hrole).
  apply existsb_iff in H as (a & Ha & H). bool_hyps. exists a. split_and!; [done..|].
  split; [by apply role_grants_iff|].
  apply orb_true_iff in H0 as [H0|H0]; bool_hyps; [auto | by rewrite H0].
Qed.

(** C35: no privilege escalation through [CanGrant].  If it lets a granter hand
    out a role, then whatever the new assignment lets its subject do, on any
    resource and for any permission, the granter's own assignments already let
    the granter do. *)
Theorem CanGrant_no_escalation c st st' granter_subject roles granter target permission resource :
  CanGrant granter roles target = true →
  Forall (λ a, as_Subject a = granter_subject) granter →
  granter_subject ≠ "" →
  reads st (mkPrincipal granter_subject (as_OrgID target)) roles granter →
  reads st' (mkPrincipal (as_Subject target) (as_OrgID target)) roles [target] →
  Allowed (rbac_Check (Some (mkrbac (Some c) (Some st')))
             (mkPrincipal (as_Subject target) (as_OrgID target)) permission resource).1 = true →
  Allowed (rbac_Check (Some (mkrbac (Some c) (Some st)))
             (mkPrincipal granter_subject (as_OrgID target)) permission resource).1 = true.
Proof.
  intros HG Hall Hg Hr [Hr1 Hr2].
  intros (Ho & Hres & Hs & c' & st'' & roles' & l & [= <- <-] & Hc & [E1 E2] &
          a & Ha & _ & _ & Hgr)%Check_iff.
  simpl in *. rewrite E1 in Hr1. rewrite E2 in Hr2. simplify_eq.
  apply list_elem_of_singleton in Ha as ->.
  apply CanGrant_grants in HG as [_ HG]. destruct (HG _ _ Hgr) as (b & Hb & Hbo & Hbg).
  rewrite (Check_intro _ _ _ _ _ roles granter) by done. apply check_loop_Allowed.
  exists b. rewrite Forall_forall in Hall. auto.
Qed.

(** ** The catalog *)

Lemma catalog_loop_inr perms acc m :
  catalog_loop perms acc = inr m →
  Forall (λ spec, valid_identifier (ps_Key spec) ∧ acc !! ps_Key spec = None) perms ∧
  NoDup (ps_Key <$> perms) ∧
  ∀ k spec, m !! k = Some spec ↔ acc !! k = Some spec ∨ (spec ∈ perms ∧ ps_Key spec = k).
Proof.
  revert acc. induction perms as [|s perms IH]; intros acc; simpl.
  - intros [= ->]. split_and!; [constructor..|]. intros k spec. rewrite elem_of_nil. tauto.
  - destruct (validateIdentifier _ _) eqn:Ev; [done|]. apply validateIdentifier_None in Ev.
    destruct (acc !! ps_Key s) eqn:E; [done|].
    intros (Hall & Hnd & Hm)%IH. rewrite Forall_cons, NoDup_cons.
    rewrite Forall_forall in Hall. split_and!; [done|done|..|done|].
    + apply Forall_forall. intros x Hx. destruct (Hall x Hx) as [? Hx'].
      rewrite lookup_insert in Hx'. by case_decide.
    + intros (x & Hk & Hx)%list_elem_of_fmap. destruct (Hall x Hx) as [_ Hx'].
      by rewrite Hk, lookup_insert_eq in Hx'.
    + intros k spec. rewrite Hm, lookup_insert, elem_of_cons. case_decide as Hk; [subst k|].
      * split; [intros [[= <-]|[? ?]]; auto|].
        intros [?|[[->|?] ?]]; [congruence|auto|auto].
      * split; [tauto|]. intros [?|[[->|?] ?]]; [auto|done|auto].
Qed.

Lemma catalog_loop_ok perms acc :
  Forall (λ spec, valid_identifier (ps_Key spec) ∧ acc !! ps_Key spec = None) perms →
  NoDup (ps_Key <$> perms) → ∃ m, catalog_loop perms acc = inr m.
Proof.
  revert acc. induction perms as [|s perms IH]; intros acc; simpl; [eauto|].
  rewrite Forall_cons, NoDup_cons. intros [[Hv Hn] Hall] [Hs Hnd].
  apply (validateIdentifier_None "permission") in Hv. rewrite Hv, Hn. apply IH; [|done].
  rewrite Forall_forall in Hall |- *. intros x Hx. destruct (Hall x Hx) as [? ?].
  rewrite lookup_insert_ne; [done|]. intros E. apply Hs. rewrite E.
  by apply list_elem_of_fmap_2.
Qed.

#[local] Instance spec_le_trans : Transitive spec_le.
Proof. intros x y z. unfold spec_le. apply transitivity. Qed.
#[local] Instance spec_le_total : Total spec_le.
Proof. intros x y. unfold spec_le. apply total, _. Qed.

(** [NewCatalog] succeeds exactly on distinct well-formed keys; the catalog
    then has exactly the declared permissions, and [All] lists the declared
    specs sorted by key. *)
Theorem NewCatalog_correct perms :
  ((∃ c, NewCatalog perms = inr c) ↔
     Forall (λ spec, valid_identifier (ps_Key spec)) perms ∧ NoDup (ps_Key <$> perms)) ∧
  ∀ c, NewCatalog perms = inr c →
    (∀ k, Has (Some c) k = true ↔ k ∈ ps_Key <$> perms) ∧
    All (Some c) ≡ₚ perms ∧ StronglySorted spec_le (All (Some c)).
Proof.
  unfold NewCatalog. split.
  - split.
    + intros [c H]. destruct (catalog_loop perms ∅) eqn:E; [done|].
      apply catalog_loop_inr in E as (Hall & ? & _). split; [|done].
      eapply Forall_impl; [exact Hall|]. by intros ? [? _].
    + intros [Hv Hnd]. destruct (catalog_loop_ok perms ∅) as [m ->]; [|done|eauto].
      eapply Forall_impl; [exact Hv|]. intros x ?. by rewrite lookup_empty.
  - intros c H. destruct (catalog_loop perms ∅) as [|m] eqn:E; simplify_eq.
    apply catalog_loop_inr in E as (_ & Hnd & Hm). setoid_rewrite lookup_empty in Hm.
    assert (∀ k spec, m !! k = Some spec ↔ spec ∈ perms ∧ ps_Key spec = k) as Hm'.
    { intros k spec. rewrite Hm. naive_solver. }
    split_and!; simpl.
    + intros k. rewrite bool_decide_eq_true, list_elem_of_fmap. unfold is_Some.
      setoid_rewrite Hm'. naive_solver.
    + rewrite merge_sort_Permutation. apply NoDup_Permutation.
      * apply NoDup_fmap_2_strong; [|apply NoDup_map_to_list].
        intros [k1 s1] [k2 s2] [_ E1]%elem_of_map_to_list%Hm' [_ E2]%elem_of_map_to_list%Hm'.
        simpl. by intros ->; subst.
      * by eapply NoDup_fmap_1.
      * intros spec. rewrite list_elem_of_fmap. split.
        -- intros ([k s] & -> & [? _]%elem_of_map_to_list%Hm'). done.
        -- intros Hs. exists (ps_Key spec, spec). split; [done|].
           by apply elem_of_map_to_list, Hm'.
    + apply (StronglySorted_merge_sort spec_le).
Qed.

Lemma role_perms_loop_None c key perms :
  role_perms_loop c key perms = None ↔
  Forall (λ k, valid_identifier k ∧ Has (Some c) k = true) perms.
Proof.
  induction perms as [|k perms IH]; [split; [constructor | done]|].
  cbn [role_perms_loop]. rewrite Forall_cons.
  pose proof (validateIdentifier_None "permission" k) as Hv.
  destruct (validateIdentifier _ _); [split; [done|]; intros [[H _] _]; by apply Hv in H|].
  destruct (Has (Some c) k); cbn [negb]; [rewrite IH; tauto|].
  split; [done | by intros [[_ ?] _]].
Qed.

Lemma roles_loop_None c roles seen :
  roles_loop c roles seen = None ↔
  Forall (λ r, valid_identifier (rd_Key r) ∧ (rd_Key r ∉ seen) ∧
     Forall (λ k, valid_identifier k ∧ Has (Some c) k = true) (rd_Permissions r)) roles ∧
  NoDup (rd_Key <$> roles).
Proof.
  revert seen. induction roles as [|r roles IH]; intros seen.
  { split; [|done]. intros _. split; constructor. }
  cbn [roles_loop]. rewrite fmap_cons, Forall_cons, NoDup_cons.
  pose proof (validateIdentifier_None "role" (rd_Key r)) as Hv.
  destruct (validateIdentifier _ _); [split; [done|]; intros [[[H _] _] _]; by apply Hv in H|].
  case_bool_decide as Hseen; [split; [done|]; by intros [[(_ & ? & _) _] _]|].
  pose proof (role_perms_loop_None c (rd_Key r) (rd_Permissions r)) as Hp.
  destruct (role_perms_loop _ _ _); [split; [done|]; intros [[(_ & _ & H) _] _]; by apply Hp in H|].
  rewrite IH, !(Forall_forall _ roles), list_elem_of_fmap. split.
  - intros [Hall ?]. split_and!; [by apply Hv|done|by apply Hp| | |done].
    + intros x Hx. destruct (Hall x Hx) as (? & ? & ?). split_and!; [done|set_solver|done].
    + intros (x & E & Hx). destruct (Hall x Hx) as (_ & ? & _). set_solver.
  - intros [[_ Hall] [Hn ?]]. split; [|done]. intros x Hx.
    destruct (Hall x Hx) as (? & ? & ?). split_and!; [done| |done].
    rewrite elem_of_union, elem_of_singleton. intros [?|?]; [eauto | done].
Qed.

(** [ValidateRoles] accepts exactly the role sets with distinct well-formed
    keys whose permissions are all well-formed and in the catalog, so a role
    that passed it grants nothing outside the catalog. *)
Theorem ValidateRoles_spec c roles :
  ValidateRoles (Some c) roles = None ↔
  Forall (λ r, valid_identifier (rd_Key r)) roles ∧ NoDup (rd_Key <$> roles) ∧
  Forall (λ r, Forall (λ k, valid_identifier k ∧ Has (Some c) k = true) (rd_Permissions r)) roles.
Proof.
  unfold ValidateRoles. rewrite roles_loop_None, !(Forall_forall _ roles). set_solver.
Qed.

(** ** The static evaluator *)

Lemma grants_loop_inr grants acc s :
  grants_loop grants acc = inr s ↔
  Forall valid_identifier grants ∧ s = list_to_set grants ∪ acc.
Proof.
  revert acc. induction grants as [|k grants IH]; intros acc; cbn [grants_loop].
  - rewrite list_to_set_nil, (left_id_L ∅ (∪)). split; [intros [= ->]; split; [constructor|done]|].
    by intros [_ ->].
  - rewrite Forall_cons, list_to_set_cons.
    pose proof (validateIdentifier_None "permission" k) as Hv.
    destruct (validateIdentifier _ _); [split; [done|]; intros [[H _] _]; by apply Hv in H|].
    rewrite IH. replace (list_to_set grants ∪ ({[k]} ∪ acc))
      with ({[k]} ∪ list_to_set grants ∪ acc : gset string) by set_solver. tauto.
Qed.

Definition valid_entry (entry : string * list string) : Prop :=
  valid_identifier entry.1 ∧ entry.2 ≠ [] ∧ Forall valid_identifier entry.2.

Lemma policy_loop_inr order acc m :
  NoDup order.*1 → policy_loop order acc = inr m →
  Forall valid_entry order ∧
  ∀ k s, m !! k = Some s ↔
    (∃ g, (k, g) ∈ order ∧ s = list_to_set g) ∨ ((k ∉ order.*1) ∧ acc !! k = Some s).
Proof.
  revert acc. induction order as [|[role grants] order IH]; intros acc; cbn [policy_loop].
  - intros _ [= ->]. split; [constructor|]. intros k s. setoid_rewrite elem_of_nil. naive_solver.
  - rewrite fmap_cons, NoDup_cons. simpl. intros [Hn Hnd].
    pose proof (validateIdentifier_None "role" role) as Hv.
    destruct (validateIdentifier _ _); [done|].
    destruct grants as [|g0 grants]; [done|]. set (gs := g0 :: grants).
    destruct (grants_loop gs ∅) as [|s0] eqn:Eg; [done|].
    apply grants_loop_inr in Eg as [Hgs ->]. rewrite (right_id_L ∅ (∪)).
    intros [Hall Hm]%IH; [|done]. split.
    { constructor; [|done]. split_and!; [by apply Hv | done | done]. }
    intros k s. rewrite Hm. setoid_rewrite elem_of_cons. rewrite lookup_insert.
    split.
    + intros [(g & ? & ->)|[Hk Hs]]; [left; eauto|]. case_decide; simplify_eq; [left; eauto|].
      right. split; [|done]. intros [?|?]; congruence.
    + intros [(g & [[= -> ->]|?] & ->)|[Hk Hs]]; [|left; eauto|].
      * right. split; [done|]. by case_decide.
      * right. split; [tauto|]. case_decide; [|done]. subst. tauto.
Qed.

Lemma policy_loop_ok order acc :
  Forall valid_entry order → ∃ m, policy_loop order acc = inr m.
Proof.
  revert acc. induction order as [|[role grants] order IH]; intros acc; cbn [policy_loop]; [eauto|].
  rewrite Forall_cons. intros [(Hv & Hg & Hgs) Hall]. simpl in *.
  apply (validateIdentifier_None "role") in Hv. rewrite Hv.
  destruct grants as [|g0 grants]; [done|].
  assert (grants_loop (g0 :: grants) ∅ = inr (list_to_set (g0 :: grants) ∪ ∅)) as ->
    by (by apply grants_loop_inr).
  by apply IH.
Qed.

(** What an accepted policy leaves in the evaluator. *)
Lemma NewEvaluator_entries order e :
  NoDup order.*1 → NewEvaluator order = inr e →
  (∀ k s, permissions e !! k = Some s ↔ ∃ g, (k, g) ∈ order ∧ s = list_to_set g) ∧
  (∀ role g, (role, g) ∈ order → "" ∉ g) ∧ Forall valid_entry order.
Proof.
  intros Hnd H. unfold NewEvaluator in H.
  assert (policy_loop order ∅ = inr (permissions e)) as Hp.
  { destruct order; [done|]. destruct (policy_loop _ _); by simplify_eq. }
  pose proof Hp as [Hall Hm]%policy_loop_inr; [|done]. split_and!; [| |done].
  - intros k s. rewrite Hm, lookup_empty. naive_solver.
  - intros role g Hg Hin. rewrite Forall_forall in Hall.
    destruct (Hall _ Hg) as (_ & _ & Hv). rewrite Forall_forall in Hv. by destruct (Hv _ Hin) as (? & ? & ? & _).
Qed.

Lemma NewEvaluator_role_permissions order e role permission :
  NoDup order.*1 → NewEvaluator order = inr e →
  permission ∈ role_permissions e role ↔ ∃ g, (role, g) ∈ order ∧ permission ∈ g.
Proof.
  intros Hnd H. destruct (NewEvaluator_entries _ _ Hnd H) as [Hm _]. unfold role_permissions. split.
  - destruct (permissions e !! role) as [s|] eqn:E; simpl; [|set_solver].
    apply Hm in E as (g & ? & ->). rewrite elem_of_list_to_set. eauto.
  - intros (g & Hg & Hpg). assert (permissions e !! role = Some (list_to_set g)) as -> by (apply Hm; eauto).
    simpl. by apply elem_of_list_to_set.
Qed.

Lemma NewEvaluator_order order order' e :
  NoDup order.*1 → NewEvaluator order = inr e → order' ≡ₚ order → NewEvaluator order' = inr e.
Proof.
  intros Hnd H Hperm. destruct (NewEvaluator_entries _ _ Hnd H) as (Hm & _ & Hall).
  assert (order' ≠ []) as Hne'.
  { intros ->. apply Permutation_nil_l in Hperm as <-. done. }
  destruct (policy_loop_ok order' ∅) as [m' E']; [by rewrite Hperm|].
  assert (NewEvaluator order' = inr (mkEvaluator m')) as ->
    by (unfold NewEvaluator; destruct order'; [done|by rewrite E']).
  apply policy_loop_inr in E' as [_ Hm2]; [|by rewrite Hperm].
  destruct e as [m]; simpl in *. do 2 f_equal. apply map_eq. intros k.
  apply option_eq. intros s. rewrite Hm, Hm2, lookup_empty. setoid_rewrite Hperm. naive_solver.
Qed.

(** A policy without repeated roles that [NewEvaluator] accepts is evaluated
    as written: [Allows] holds exactly when one of the subject's roles lists the
    permission, [Permissions] lists exactly the allowed permissions, sorted and
    without duplicates, and the order in which Go visits the policy map does not
    change the evaluator. *)
Theorem Evaluator_correct order e :
  NoDup order.*1 → NewEvaluator order = inr e →
  (∀ roles permission,
     (Allows (Some e) roles permission = true ↔
        ∃ role g, role ∈ roles ∧ (role, g) ∈ order ∧ permission ∈ g) ∧
     (permission ∈ Permissions (Some e) roles ↔ Allows (Some e) roles permission = true)) ∧
  (∀ roles, StronglySorted String.le (Permissions (Some e) roles) ∧ NoDup (Permissions (Some e) roles)) ∧
  (∀ order', order' ≡ₚ order → NewEvaluator order' = inr e).
Proof.
  intros Hnd H.
  assert (∀ role permission, permission ∈ role_permissions e role ↔ ∃ g, (role, g) ∈ order ∧ permission ∈ g) as Hrp
    by (intros; by apply NewEvaluator_role_permissions).
  destruct (NewEvaluator_entries _ _ Hnd H) as (_ & Hempty & _).
  assert (∀ roles permission, Allows (Some e) roles permission = true ↔
     ∃ role g, role ∈ roles ∧ (role, g) ∈ order ∧ permission ∈ g) as HA.
  { intros roles permission. simpl. destruct (String.eqb_spec permission "") as [->|].
    - split; [done|]. intros (role & g & _ & Hg & Hin). by destruct (Hempty _ _ Hg).
    - rewrite existsb_iff. setoid_rewrite bool_decide_eq_true. setoid_rewrite Hrp. naive_solver. }
  split_and!; [|intros roles; simpl; auto with orbit|intros order'; by apply NewEvaluator_order].
  intros roles permission. split; [apply HA|]. rewrite HA. simpl.
  rewrite elem_of_sorted_elements, elem_of_union_list. setoid_rewrite list_elem_of_fmap. split.
  - intros (? & (role & -> & ?) & (g & ? & ?)%Hrp). eauto.
  - intros (role & g & ? & ? & ?). exists (role_permissions e role). split; [eauto|]. apply Hrp. eauto.
Qed.

(** C33: [Check] denies by default.  It allows exactly when the principal has an
    organization and a subject, the resource belongs to that organization, the
    permission is in the catalog, the store could be read, and one of the
    assignments it returned for this subject in this organization grants the
    permission on the resource's scopes, a condition on the request and the store
    alone; and whenever it allows, the reason is the grant and there is no error. *)
Theorem Check_allowed_iff r p permission resource :
  (Allowed (rbac_Check r p permission resource).1 = true ↔
   p_OrgID p ≠ "" ∧ r_OrgID resource = p_OrgID p ∧ p_Subject p ≠ "" ∧
   ∃ c st roles l, r = Some (mkrbac (Some c) (Some st)) ∧ is_Some (specs c !! permission) ∧ reads st p roles l ∧
     ∃ a, a ∈ l ∧ as_OrgID a = p_OrgID p ∧ as_Subject a = p_Subject p ∧ grants roles a permission (r_Scopes resource)) ∧
  (Allowed (rbac_Check r p permission resource).1 = true ↔
   rbac_Check r p permission resource = (mkDecision true reasonGranted, None)).
Proof. split; [apply Check_iff|]. split; [by intros ?%Check_iff%entitled_Check|by intros ->]. Qed.

(** ** Examples *)

Definition demo_store (roles : list RoleDef) (l : list Assignment) : Store :=
  mkStore (λ _, inr roles) (λ _ _, inr l).
Definition demo_roles : list RoleDef :=
  [mkRoleDef "admin" ["stock.read"; "stock.write"] true; mkRoleDef "clerk" ["stock.read"] false].
Definition demo_catalog : Catalog :=
  mkCatalog {["stock.read" := mkPermissionSpec "stock.read" ""; "stock.write" := mkPermissionSpec "stock.write" ""]}.

Lemma AllowedScopes_agrees_with_Check_witness :
  let r := Some (mkrbac (Some demo_catalog) (Some (demo_store demo_roles
             [mkAssignment "o" "u" "clerk" (mkScope "site" "7")]))) in
  Allowed (rbac_Check r (mkPrincipal "u" "o") "stock.read" (mkResource "o" [mkScope "site" "7"])).1 = true.
Proof.
  intros r.
  destruct (AllowedScopes_agrees_with_Check r (mkPrincipal "u" "o") "stock.read" "site" false ["7"]) as [H _];
    [vm_compute; reflexivity|].
  apply H; [discriminate|right; left].
Defined.

Lemma CanGrant_no_escalation_witness :
  let granter := [mkAssignment "o" "boss" "admin" (mkScope "" "")] in
  let target := mkAssignment "o" "u" "clerk" (mkScope "site" "7") in
  Allowed (rbac_Check (Some (mkrbac (Some demo_catalog) (Some (demo_store demo_roles granter))))
    (mkPrincipal "boss" "o") "stock.read" (mkResource "o" [mkScope "site" "7"])).1 = true.
Proof.
  intros granter target.
  apply (CanGrant_no_escalation demo_catalog (demo_store demo_roles granter) (demo_store demo_roles [target])
    "boss" demo_roles granter target); try (vm_compute; reflexivity); try discriminate; try (split; reflexivity).
  repeat constructor.
Defined.

Lemma Evaluator_correct_witness :
  ∃ e, NewEvaluator [("admin", ["stock.read"])] = inr e ∧
  (Allows (Some e) ["admin"] "stock.read" = true ↔
   ∃ role g, role ∈ ["admin"] ∧ (role, g) ∈ [("admin", ["stock.read"])] ∧ "stock.read" ∈ g).
Proof.
  eexists. split; [vm_compute; reflexivity|].
  apply (Evaluator_correct [("admin", ["stock.read"])]); [|vm_compute; reflexivity].
  apply NoDup_singleton.
Defined.
