(* ===== verification/Memstore.v ===== *)
(** Package [authorization/memstore]: the in-memory [authorization.Store].

    A nil Go map reads as empty and is created before the first write, so both
    maps are plain [gmap]s.  The mutex serialises the operations: each one is a
    function on the state, and a run of the store is a sequence of them. *)
From S2P Require Import Prelude GoStrings Regex Domain Authorization AuthorizationProps.

Record MemStore := mkMemStore {
  ms_roles : gmap string (list RoleDef);
  ms_assignments : gmap string (gmap string (list Assignment));
}.

Definition New : MemStore := mkMemStore ∅ ∅.

(** A role is copied with its permission slice. *)
Definition cloneRole (role : RoleDef) : RoleDef :=
  mkRoleDef (rd_Key role) ([] ++ rd_Permissions role) (rd_System role).

Definition cloneRoles (roles : list RoleDef) : list RoleDef := cloneRole <$> roles.

Definition SetRoles (s : MemStore) (orgID : string) (roles : list RoleDef) : MemStore :=
  mkMemStore (<[orgID := cloneRoles roles]> (ms_roles s)) (ms_assignments s).

(** The loop of [AddRole]: the first role with the key is replaced; [None] when
    there is none. *)
Fixpoint replace_role (roles : list RoleDef) (role : RoleDef) : option (list RoleDef) :=
  match roles with
  | [] => None
  | r :: rest =>
      if String.eqb (rd_Key r) (rd_Key role) then Some (cloneRole role :: rest)
      else match replace_role rest role with
           | Some rest' => Some (r :: rest')
           | None => None
           end
  end.

Definition AddRole (s : MemStore) (orgID : string) (role : RoleDef) : MemStore :=
  let roles := default [] (ms_roles s !! orgID) in
  let roles' := default (roles ++ [cloneRole role]) (replace_role roles role) in
  mkMemStore (<[orgID := roles']> (ms_roles s)) (ms_assignments s).

Definition org_assignments (s : MemStore) (orgID : string) : gmap string (list Assignment) :=
  default ∅ (ms_assignments s !! orgID).

Definition SetAssignments (s : MemStore) (orgID subject : string) (assignments : list Assignment) : MemStore :=
  let copied := (λ a, mkAssignment orgID subject (as_RoleKey a) (as_Scope a)) <$> assignments in
  mkMemStore (ms_roles s)
    (<[orgID := <[subject := copied]> (org_assignments s orgID)]> (ms_assignments s)).

Definition AddAssignment (s : MemStore) (a : Assignment) : MemStore :=
  let subjects := org_assignments s (as_OrgID a) in
  let old := default [] (subjects !! as_Subject a) in
  mkMemStore (ms_roles s)
    (<[as_OrgID a := <[as_Subject a := old ++ [a]]> subjects]> (ms_assignments s)).

(** The two reads; [ctxErr] is what [ctx.Err()] returns. *)
Definition Store_Roles (ctxErr : option error) (s : MemStore) (orgID : string) : error + list RoleDef :=
  match ctxErr with
  | Some err => inl err
  | None => inr (cloneRoles (default [] (ms_roles s !! orgID)))
  end.

Definition Store_Assignments (ctxErr : option error) (s : MemStore) (orgID subject : string)
  : error + list Assignment :=
  match ctxErr with
  | Some err => inl err
  | None => inr (default [] (org_assignments s orgID !! subject))
  end.

(** The memory store as the [authorization.Store] of an authorizer. *)
Definition as_Store (ctxErr : option error) (s : MemStore) : Store :=
  mkStore (Store_Roles ctxErr s) (Store_Assignments ctxErr s).

(** ** The port's contract *)

(** "Both methods must already be scoped by orgID": what a [Store] promises to
    the authorizer. *)
Class StoreScoped (st : Store) : Prop := {
  assignments_scoped : ∀ orgID subject l,
    Assignments st orgID subject = inr l →
    Forall (λ a, as_OrgID a = orgID ∧ as_Subject a = subject) l;
}.

(** A store that keeps its contract makes the loop's re-check of organization
    and subject redundant: an assignment it returns is decisive. *)
Lemma Check_scoped c st `{!StoreScoped st} p permission resource roles l :
  p_OrgID p ≠ "" → r_OrgID resource = p_OrgID p → p_Subject p ≠ "" →
  is_Some (specs c !! permission) → reads st p roles l →
  Allowed (rbac_Check (Some (mkrbac (Some c) (Some st))) p permission resource).1 = true ↔
  ∃ a, a ∈ l ∧ grants roles a permission (r_Scopes resource).
Proof.
  intros ? ? ? ? Hr. rewrite (Check_intro _ _ _ _ _ roles l) by done. simpl.
  rewrite check_loop_Allowed. destruct Hr as [_ Hl].
  apply assignments_scoped in Hl. rewrite Forall_forall in Hl. split; [naive_solver|].
  intros (a & Ha & ?). destruct (Hl a Ha). eauto.
Qed.

(** ** Runs *)

Inductive op :=
  | OpSetRoles (orgID : string) (roles : list RoleDef)
  | OpAddRole (orgID : string) (role : RoleDef)
  | OpSetAssignments (orgID subject : string) (assignments : list Assignment)
  | OpAddAssignment (a : Assignment).

Definition apply_op (s : MemStore) (o : op) : MemStore :=
  match o with
  | OpSetRoles orgID roles => SetRoles s orgID roles
  | OpAddRole orgID role => AddRole s orgID role
  | OpSetAssignments orgID subject l => SetAssignments s orgID subject l
  | OpAddAssignment a => AddAssignment s a
  end.

Definition run_ops (s : MemStore) (ops : list op) : MemStore := foldl apply_op s ops.

Definition op_org (o : op) : string :=
  match o with
  | OpSetRoles orgID _ | OpAddRole orgID _ | OpSetAssignments orgID _ _ => orgID
  | OpAddAssignment a => as_OrgID a
  end.

(** ** Invariant: every assignment is filed under its own organization and
    subject. *)
Definition filed (s : MemStore) : Prop :=
  ∀ orgID subject a, a ∈ default [] (org_assignments s orgID !! subject) →
    as_OrgID a = orgID ∧ as_Subject a = subject.

Lemma org_assignments_insert roles m orgID orgID' subjects :
  org_assignments (mkMemStore roles (<[orgID := subjects]> m)) orgID' =
  if decide (orgID = orgID') then subjects else org_assignments (mkMemStore roles m) orgID'.
Proof. unfold org_assignments. simpl. rewrite lookup_insert. by case_decide. Qed.

Lemma filed_New : filed New.
Proof. intros o s a. unfold org_assignments. simpl. rewrite !lookup_empty. simpl. by intros ?%elem_of_nil. Qed.

Lemma filed_insert s orgID subject l :
  filed s → Forall (λ a, as_OrgID a = orgID ∧ as_Subject a = subject) l →
  filed (mkMemStore (ms_roles s) (<[orgID := <[subject := l]> (org_assignments s orgID)]> (ms_assignments s))).
Proof.
  intros Hf Hl o sub a. rewrite org_assignments_insert. rewrite Forall_forall in Hl.
  case_decide as Ho; [subst o|by apply Hf].
  rewrite lookup_insert. case_decide; [subst; apply Hl | apply Hf].
Qed.

Lemma filed_apply_op s o : filed s → filed (apply_op s o).
Proof.
  intros Hf. destruct o as [orgID roles|orgID role|orgID subject l|a]; simpl; [exact Hf|exact Hf|..].
  - apply filed_insert; [done|]. apply Forall_fmap, Forall_true. done.
  - apply filed_insert; [done|]. apply Forall_app. split; [|by constructor].
    apply Forall_forall. intros x Hx. by apply (Hf _ _ x).
Qed.

Lemma filed_run_ops ops s : filed s → filed (run_ops s ops).
Proof. revert s. induction ops as [|o ops IH]; simpl; auto using filed_apply_op. Qed.

(** The memory store keeps the port's contract in every state its operations
    reach. *)
#[export] Instance memstore_scoped ctxErr ops : StoreScoped (as_Store ctxErr (run_ops New ops)).
Proof.
  constructor. intros orgID subject l. simpl. unfold Store_Assignments.
  destruct ctxErr; [done|]. intros [= <-]. apply Forall_forall. intros a Ha.
  by apply (filed_run_ops ops New filed_New).
Qed.

(** ** Tenant isolation *)

Lemma apply_op_other s o orgID :
  op_org o ≠ orgID →
  ms_roles (apply_op s o) !! orgID = ms_roles s !! orgID ∧
  org_assignments (apply_op s o) orgID = org_assignments s orgID.
Proof.
  intros Hne. unfold org_assignments.
  destruct o; simpl in *; by rewrite ?lookup_insert_ne by done.
Qed.

(** Tenant isolation of the memory store.  Whatever sequence of writes is
    made to other organizations, every [Check] for a principal of [orgID]
    answers as before. *)
Theorem memstore_tenant_isolation ctxErr c s ops p permission resource :
  Forall (λ o, op_org o ≠ p_OrgID p) ops →
  rbac_Check (Some (mkrbac c (Some (as_Store ctxErr (run_ops s ops))))) p permission resource =
  rbac_Check (Some (mkrbac c (Some (as_Store ctxErr s)))) p permission resource.
Proof.
  intros Hops.
  assert (ms_roles (run_ops s ops) !! p_OrgID p = ms_roles s !! p_OrgID p ∧
          org_assignments (run_ops s ops) (p_OrgID p) = org_assignments s (p_OrgID p)) as [E1 E2].
  { revert s. induction Hops as [|o ops Ho _ IH]; intros s; simpl; [done|].
    destruct (IH (apply_op s o)) as [-> ->]. by apply apply_op_other. }
  unfold rbac_Check, as_Store, Store_Roles, Store_Assignments. simpl. by rewrite E1, E2.
Qed.

Lemma memstore_tenant_isolation_witness :
  let a := mkAssignment "org-1" "u-1" "admin" (mkScope "" "") in
  let s := run_ops New [OpSetRoles "org-1" [mkRoleDef "admin" ["stock.read"] true]; OpAddAssignment a] in
  rbac_Check (Some (mkrbac (Some (mkCatalog {["stock.read" := mkPermissionSpec "stock.read" ""]}))
     (Some (as_Store None (run_ops s [OpSetRoles "org-2" []])))))
    (mkPrincipal "u-1" "org-1") "stock.read" (mkResource "org-1" []) = (mkDecision true reasonGranted, None).
Proof.
  cbv zeta. rewrite memstore_tenant_isolation; [vm_compute; reflexivity|].
  constructor; [|constructor]. vm_compute. discriminate.
Defined.

(** ** Adding a role *)

Lemma replace_role_spec roles role :
  match replace_role roles role with
  | Some roles' =>
      rd_Key <$> roles' = rd_Key <$> roles ∧ role ∈ roles' ∧ rd_Key role ∈ rd_Key <$> roles ∧
      ∀ r, rd_Key r ≠ rd_Key role → r ∈ roles' ↔ r ∈ roles
  | None => rd_Key role ∉ rd_Key <$> roles
  end.
Proof.
  assert (cloneRole role = role) as Hc by (by destruct role).
  induction roles as [|r roles IH]; cbn [replace_role]; [apply not_elem_of_nil|].
  destruct (String.eqb_spec (rd_Key r) (rd_Key role)) as [E|E]; rewrite ?Hc.
  - rewrite !fmap_cons, !elem_of_cons, E. split_and!; auto.
    intros x Hx. rewrite !elem_of_cons. naive_solver.
  - destruct (replace_role roles role) as [roles'|]; rewrite !fmap_cons.
    + destruct IH as (-> & ? & ? & H4). rewrite !elem_of_cons. split_and!; auto.
      intros x Hx. by rewrite !elem_of_cons, H4.
    + rewrite not_elem_of_cons. auto.
Qed.

(** [AddRole] replaces.  With distinct role keys, after adding a role its key
    grants exactly the new role's permissions, every other key grants what it
    did before, and the keys stay distinct. *)
Theorem AddRole_replaces s orgID role roles :
  default [] (ms_roles s !! orgID) = roles → NoDup (rd_Key <$> roles) →
  ∃ roles', ms_roles (AddRole s orgID role) !! orgID = Some roles' ∧ NoDup (rd_Key <$> roles') ∧
    ∀ k permission, role_grants (permissionsByRole roles') k permission = true ↔
      if decide (k = rd_Key role) then permission ∈ rd_Permissions role
      else role_grants (permissionsByRole roles) k permission = true.
Proof.
  intros E Hnd. unfold AddRole. rewrite E. simpl. rewrite lookup_insert_eq.
  eexists. split; [reflexivity|].
  assert (cloneRole role = role) as Hc by (by destruct role). rewrite Hc.
  pose proof (replace_role_spec roles role) as Hs.
  set (roles' := default _ _).
  assert (NoDup (rd_Key <$> roles') ∧ role ∈ roles' ∧
          ∀ r, rd_Key r ≠ rd_Key role → r ∈ roles' ↔ r ∈ roles) as (Hnd' & Hin & Hother).
  { unfold roles'. destruct (replace_role roles role) as [l|]; simpl.
    - destruct Hs as (-> & ? & _ & ?). auto.
    - rewrite fmap_app, NoDup_app. split_and!; [done| |apply NoDup_singleton| |].
      + intros k Hk Hk'. by apply list_elem_of_singleton in Hk' as ->.
      + apply elem_of_app. right. by apply list_elem_of_singleton.
      + intros r Hr. rewrite elem_of_app, list_elem_of_singleton. naive_solver. }
  clearbody roles'. split; [done|]. intros k permission. rewrite role_grants_iff.
  case_decide as Hk; [subst k|].
  - split; [|eauto]. intros (r & Hr & Hk & ?).
    assert (r = role) as ->; [|done].
    by eapply (NoDup_fmap_same rd_Key).
  - rewrite role_grants_iff. split; intros (r & Hr & <- & ?); exists r; (split; [by apply Hother | done]).
Qed.

Lemma AddRole_replaces_witness :
  ∃ roles', ms_roles (AddRole (run_ops New [OpSetRoles "o" [mkRoleDef "clerk" ["stock.read"] false]]) "o"
      (mkRoleDef "clerk" ["stock.write"] false)) !! "o" = Some roles' ∧
    role_grants (permissionsByRole roles') "clerk" "stock.read" = false.
Proof.
  destruct (AddRole_replaces (run_ops New [OpSetRoles "o" [mkRoleDef "clerk" ["stock.read"] false]]) "o"
    (mkRoleDef "clerk" ["stock.write"] false) [mkRoleDef "clerk" ["stock.read"] false]) as (roles' & E & _ & H).
  - vm_compute. reflexivity.
  - apply NoDup_singleton.
  - exists roles'. split; [exact E|]. apply not_true_iff_false. rewrite H. simpl.
    rewrite list_elem_of_singleton. discriminate.
Defined.
