(* ===== verification/Libs.v ===== *)
(** Third-party code the program calls, as parameters with the documented
    behaviour the program relies on, and concrete instances that show the
    assumptions can hold. *)
From S2P Require Import Prelude GoStrings Domain.

(** ** github.com/google/uuid *)

(** An identifier is sixteen bytes; [uuid_value] is their big-endian value, by
    which Postgres orders the [uuid] type. *)
Class UUIDLib := {
  uuid : Type;
  uuid_eq_dec :: EqDecision uuid;
  uuid_countable :: Countable uuid;
  uuid_Nil : uuid;
  uuid_Parse : string → option uuid;
  uuid_String : uuid → string;
  uuid_value : uuid → Z;
}.

(** The empty text is not an identifier; the canonical form parses back, and it is a non-empty run of hexadecimal
    digits and dashes, so trimming leaves it alone. *)
Class UUIDLaws (L : UUIDLib) : Prop := {
  uuid_Parse_String : ∀ u, uuid_Parse (uuid_String u) = Some u;
  uuid_String_nonempty : ∀ u, uuid_String u ≠ "";
  uuid_Parse_empty : uuid_Parse "" = None;
  uuid_String_plain : ∀ u, forallb plain_byte (to_bytes (uuid_String u)) = true;
  uuid_value_inj :: Inj (=) (=) uuid_value;
}.

Section uuid.
Context `{L : UUIDLib} `{!UUIDLaws L}.

Lemma uuid_String_inj u v : uuid_String u = uuid_String v → u = v.
Proof.
  intros H. assert (Some u = Some v) as [= ->]; [|done].
  by rewrite <- !uuid_Parse_String, H.
Qed.

Lemma TrimSpace_uuid_String u : TrimSpace (uuid_String u) = uuid_String u.
Proof. apply TrimSpace_plain, uuid_String_plain. Qed.
End uuid.

#[export] Hint Rewrite @uuid_Parse_String @TrimSpace_uuid_String using typeclasses eauto : orbit.

(** A concrete library: identifiers are bit strings written with a leading
    letter. *)
Fixpoint bits_text (u : list bool) : string :=
  match u with
  | [] => ""
  | b :: u => String (if b then "1"%char else "0"%char) (bits_text u)
  end.

Fixpoint bits_of (s : string) : option (list bool) :=
  match s with
  | "" => Some []
  | String c s =>
      match bits_of s with
      | None => None
      | Some u =>
          if bool_decide (c = "1"%char) then Some (true :: u)
          else if bool_decide (c = "0"%char) then Some (false :: u) else None
      end
  end.

Definition bits_uuid : UUIDLib := {|
  uuid := list bool;
  uuid_Nil := [];
  uuid_Parse s := match s with String "u" s => bits_of s | _ => None end;
  uuid_String u := String "u" (bits_text u);
  uuid_value u := Zpos (encode u);
|}.

Lemma bits_uuid_laws : UUIDLaws bits_uuid.
Proof.
  split.
  - intros u. simpl. induction u as [|[] u IH]; simpl; [done|by rewrite IH..].
  - done.
  - done.
  - intros u. simpl. by induction u as [|[] u IH].
  - intros u v [= H]. by apply (inj encode) in H.
Qed.

(** Unicode case tables restricted to identity, enough for ASCII examples. *)
Definition ascii_case : UnicodeCase := {|
  lower_unicode s := s;
  fold_unicode s t := String.eqb s t;
|}.

Lemma ascii_case_laws : UnicodeCaseLaws ascii_case.
Proof. split. apply String.eqb_refl. Qed.

(** ** context.Context values *)

(** The values this program stores in a context, by the private key type they
    are stored under. *)
Record Ctx `{UUIDLib} := mkCtx {
  ctx_org : option uuid;
  ctx_callerID : option string;
}.
Arguments mkCtx {_} _ _.
Arguments ctx_org {_} _.
Arguments ctx_callerID {_} _.
