(* ===== verification/Tenancy.v ===== *)
(** Package [tenancy]: the active organization in a context, the HTTP middleware
    and the gRPC interceptor that require it, and the Postgres setting.

    Contexts carry the value stored under [orgContextKey] in [ctx_org].  The
    claims the middleware reads are [token.AccessClaims]. *)
From S2P Require Import Prelude GoStrings Domain Libs.
Local Open Scope Z_scope.

(** [token.AccessClaims]: the registered claims the program sets, and [org]. *)
Record AccessClaims := mkAccessClaims {
  Issuer_ : string;
  Subject : string;
  ExpiresAt : option time;
  IssuedAt : option time;
  OrgID : string;
}.

Section tenancy.
Context `{L : UUIDLib}.

(** [AccessClaims.OrganizationID]. *)
Definition OrganizationID (c : AccessClaims) : uuid * bool :=
  let orgID := TrimSpace (OrgID c) in
  if String.eqb orgID "" then (uuid_Nil, false)
  else match uuid_Parse orgID with
       | None => (uuid_Nil, false)
       | Some parsed => (parsed, true)
       end.

(** ** tenancy.go *)

Inductive tenancy_error := ErrOrgRequired | errOrgMalformed.

Definition WithOrg (ctx : Ctx) (orgID : uuid) : Ctx :=
  if bool_decide (orgID = uuid_Nil) then mkCtx (Some uuid_Nil) (ctx_callerID ctx)
  else mkCtx (Some orgID) (ctx_callerID ctx).

Definition OrgFrom (ctx : Ctx) : uuid * bool :=
  match ctx_org ctx with
  | None => (uuid_Nil, false)
  | Some orgID =>
      if bool_decide (orgID = uuid_Nil) then (uuid_Nil, false) else (orgID, true)
  end.

(** [MustOrg] panics without an organization: [None]. *)
Definition MustOrg (ctx : Ctx) : option uuid :=
  let '(orgID, ok) := OrgFrom ctx in if ok then Some orgID else None.

Record options := mkOptions { fallbackOrg : uuid }.

Definition WithFallbackOrg (orgID : uuid) : options → options := λ _, mkOptions orgID.

(** A nil option is skipped. *)
Definition newOptions (opts : list (option (options → options))) : options :=
  foldl (λ cfg option, match option with Some f => f cfg | None => cfg end) (mkOptions uuid_Nil) opts.

Definition resolveOrg (claims : AccessClaims) (fallback : uuid) : tenancy_error + uuid :=
  let raw := TrimSpace (OrgID claims) in
  if String.eqb raw "" then
    if bool_decide (fallback ≠ uuid_Nil) then inr fallback else inl ErrOrgRequired
  else
    match uuid_Parse raw with
    | None => inl errOrgMalformed
    | Some orgID => if bool_decide (orgID = uuid_Nil) then inl errOrgMalformed else inr orgID
    end.

(** ** http.go *)

Record http_response := mkResponse {
  StatusCode : Z;
  ContentType : string;
  Body : string;
}.

Definition dquote : string := String (ascii_of_nat 34) "".

Definition writeJSONError (status : Z) (code : string) : http_response :=
  mkResponse status "application/json"
    ("{" +:+ dquote +:+ "error" +:+ dquote +:+ ":" +:+ dquote +:+ code +:+ dquote +:+ "}").

Definition StatusUnauthorized : Z := 401.
Definition StatusForbidden : Z := 403.

(** The middleware.  A request is its context and the rest, [R]; [claims] is nil
    or reads the verified claims of a request. *)
Definition RequireOrg {R : Type} (claims : option (Ctx * R → option AccessClaims))
    (opts : list (option (options → options)))
    (next : Ctx * R → http_response) (r : Ctx * R) : http_response :=
  let cfg := newOptions opts in
  match claims with
  | None => writeJSONError StatusUnauthorized "unauthenticated"
  | Some claims =>
      match claims r with
      | None => writeJSONError StatusUnauthorized "unauthenticated"
      | Some verified =>
          match resolveOrg verified (fallbackOrg cfg) with
          | inl ErrOrgRequired => writeJSONError StatusForbidden "org_required"
          | inl errOrgMalformed => writeJSONError StatusUnauthorized "invalid_org"
          | inr orgID => next (WithOrg r.1 orgID, r.2)
          end
      end
  end.

(** ** grpc.go *)

Inductive grpc_code :=
  | InvalidArgument | NotFound | PermissionDenied | FailedPrecondition | Internal | Unauthenticated.
#[global] Instance grpc_code_eq_dec : EqDecision grpc_code.
Proof. solve_decision. Defined.

Definition UnaryServerInterceptor {R A : Type} (claims : option (Ctx → option AccessClaims))
    (opts : list (option (options → options)))
    (ctx : Ctx) (req : R) (handler : Ctx → R → (grpc_code * string) + A) : (grpc_code * string) + A :=
  let cfg := newOptions opts in
  match claims with
  | None => inl (Unauthenticated, "unauthenticated")
  | Some claims =>
      match claims ctx with
      | None => inl (Unauthenticated, "unauthenticated")
      | Some verified =>
          match resolveOrg verified (fallbackOrg cfg) with
          | inl ErrOrgRequired => inl (PermissionDenied, "org_required")
          | inl errOrgMalformed => inl (Unauthenticated, "invalid_org")
          | inr orgID => handler (WithOrg ctx orgID) req
          end
      end
  end.

(** ** log.go and postgres.go *)

Definition LogAttrs (ctx : Ctx) : list (string * string) :=
  let '(orgID, ok) := OrgFrom ctx in
  if ok then [("org_id", uuid_String orgID)] else [].

(** [SetLocalOrg]: the statement and bind arguments it executes through the
    driver [exec], or [ErrOrgRequired] without running anything. *)
Definition SetLocalOrg {E : Type} (ctx : Ctx) (exec : string → list string → option E)
  : option (tenancy_error + E) :=
  let '(orgID, ok) := OrgFrom ctx in
  if ok then inr <$> exec "SELECT set_config('app.org_id', $1, true)" [uuid_String orgID]
  else Some (inl ErrOrgRequired).

(** ** Properties *)

Lemma OrgFrom_WithOrg ctx u : u ≠ uuid_Nil → OrgFrom (WithOrg ctx u) = (u, true).
Proof. intros H. unfold WithOrg, OrgFrom. rewrite bool_decide_eq_false_2 by done. simpl. by rewrite bool_decide_eq_false_2. Qed.

Lemma resolveOrg_inr claims fallback u :
  resolveOrg claims fallback = inr u ↔
  u ≠ uuid_Nil ∧
  (TrimSpace (OrgID claims) ≠ "" ∧ uuid_Parse (TrimSpace (OrgID claims)) = Some u ∨
   TrimSpace (OrgID claims) = "" ∧ fallback = u).
Proof.
  unfold resolveOrg. destruct (String.eqb_spec (TrimSpace (OrgID claims)) "") as [E|E].
  - case_bool_decide; split; naive_solver.
  - destruct (uuid_Parse _) as [v|]; [case_bool_decide|]; split; naive_solver.
Qed.

Lemma resolveOrg_inl claims fallback :
  (resolveOrg claims fallback = inl ErrOrgRequired ↔
     TrimSpace (OrgID claims) = "" ∧ fallback = uuid_Nil) ∧
  (resolveOrg claims fallback = inl errOrgMalformed ↔
     TrimSpace (OrgID claims) ≠ "" ∧
     ∀ u, uuid_Parse (TrimSpace (OrgID claims)) = Some u → u = uuid_Nil).
Proof.
  unfold resolveOrg. destruct (String.eqb_spec (TrimSpace (OrgID claims)) "") as [E|E].
  - case_bool_decide as Hf; split; split; try naive_solver; intros _; split; try done; by apply dec_stable.
  - destruct (uuid_Parse _) as [v|]; [case_bool_decide|]; split; split; naive_solver.
Qed.

(** [RequireOrg] runs the next handler only with an organization, and never
    substitutes the fallback for a malformed claim.  With verified claims, the
    handler sees a context whose [OrgFrom] is the organization the claim names,
    or the configured fallback when the claim is blank; a blank claim without a
    fallback is 403 org_required; a claim that is not a non-nil UUID is 401
    invalid_org whatever the fallback; without verified claims the answer is
    401 unauthenticated. *)
Theorem RequireOrg_spec {R} claims opts (next : Ctx * R → http_response) (r : Ctx * R) :
  match match claims with Some f => f r | None => None end with
  | None => RequireOrg claims opts next r = writeJSONError 401 "unauthenticated"
  | Some c =>
      let raw := TrimSpace (OrgID c) in
      let fallback := fallbackOrg (newOptions opts) in
      if decide (raw = "") then
        if decide (fallback = uuid_Nil)
        then RequireOrg claims opts next r = writeJSONError 403 "org_required"
        else ∃ ctx, RequireOrg claims opts next r = next (ctx, r.2) ∧ OrgFrom ctx = (fallback, true)
      else
        match uuid_Parse raw with
        | Some u =>
            if decide (u = uuid_Nil)
            then RequireOrg claims opts next r = writeJSONError 401 "invalid_org"
            else ∃ ctx, RequireOrg claims opts next r = next (ctx, r.2) ∧ OrgFrom ctx = (u, true)
        | None => RequireOrg claims opts next r = writeJSONError 401 "invalid_org"
        end
  end.
Proof.
  unfold RequireOrg. destruct claims as [f|]; [|done]. destruct (f r) as [c|]; [|done].
  cbv zeta. unfold resolveOrg.
  destruct (String.eqb_spec (TrimSpace (OrgID c)) "") as [E|E].
  - rewrite decide_True by done. destruct (decide (fallbackOrg (newOptions opts) = uuid_Nil)).
    + by rewrite bool_decide_eq_false_2 by tauto.
    + rewrite bool_decide_eq_true_2 by done. eauto using OrgFrom_WithOrg.
  - rewrite decide_False by done. destruct (uuid_Parse _) as [u|]; [|done].
    destruct (decide (u = uuid_Nil)).
    + by rewrite bool_decide_eq_true_2.
    + rewrite bool_decide_eq_false_2 by done. eauto using OrgFrom_WithOrg.
Qed.

(** The interceptor and the middleware take the same decision: the
    interceptor calls its handler exactly when the middleware would, with the
    same context, and its three refusals correspond to the middleware's. *)
Theorem interceptor_matches_middleware {R} (claims : option (Ctx → option AccessClaims)) opts ctx (req : R)
    (handler : Ctx → R → (grpc_code * string) + http_response) :
  let render e :=
    match e with
    | inr resp => resp
    | inl (PermissionDenied, m) => writeJSONError StatusForbidden m
    | inl (_, m) => writeJSONError StatusUnauthorized m
    end in
  RequireOrg ((λ f r, f r.1) <$> claims) opts (λ r, render (handler r.1 r.2)) (ctx, req) =
  render (UnaryServerInterceptor claims opts ctx req handler).
Proof.
  cbv zeta. unfold RequireOrg, UnaryServerInterceptor. destruct claims as [f|]; [|done]. simpl.
  destruct (f ctx) as [c|]; [|done]. by destruct (resolveOrg _ _) as [[]|].
Qed.

(** The tenant setting is never executed for a context without an organization,
    and its value is a bind argument. *)
Lemma SetLocalOrg_spec {E} ctx (exec : string → list string → option E) :
  SetLocalOrg ctx exec =
  if (OrgFrom ctx).2 then inr <$> exec "SELECT set_config('app.org_id', $1, true)" [uuid_String (OrgFrom ctx).1]
  else Some (inl ErrOrgRequired).
Proof. unfold SetLocalOrg. by destruct (OrgFrom ctx). Qed.
End tenancy.
