(* ===== verification/Tables.v ===== *)
(** Relational tables as finite maps from primary keys to rows: selection,
    conditional update and deletion, and the lemmas the queries share. *)
From S2P Require Import Prelude.

Create Rewrite HintDb tables.

(** A boolean comparison as a decidable relation. *)
Definition rel_of {A : Type} (le : A → A → bool) : relation A := λ a b, le a b = true.
#[global] Instance rel_of_dec {A} (le : A → A → bool) : RelDecision (rel_of le).
Proof. intros a b. unfold rel_of. apply _. Defined.

Section tables.
Context `{Countable K} {V : Type}.
Implicit Types (m : gmap K V) (p : K → V → bool).

(** The rows a WHERE clause selects, in key order. *)
Definition rows_where (p : K → V → bool) (m : gmap K V) : list (K * V) :=
  filter (λ kv, p kv.1 kv.2 = true) (map_to_list m).

Definition first_where (p : K → V → bool) (m : gmap K V) : option (K * V) :=
  head (rows_where p m).

(** UPDATE ... SET f WHERE p. *)
Definition update_where (p : K → V → bool) (f : V → V) (m : gmap K V) : gmap K V :=
  map_imap (λ k v, Some (if p k v then f v else v)) m.

(** DELETE WHERE p. *)
Definition delete_where (p : K → V → bool) (m : gmap K V) : gmap K V :=
  filter (λ kv, p kv.1 kv.2 = false) m.

Lemma elem_of_rows_where p m k v :
  (k, v) ∈ rows_where p m ↔ m !! k = Some v ∧ p k v = true.
Proof. unfold rows_where. rewrite list_elem_of_filter, elem_of_map_to_list. simpl. tauto. Qed.

Lemma NoDup_filter_fst p (l : list (K * V)) :
  NoDup l.*1 → NoDup (filter (λ kv, p kv.1 kv.2 = true) l).*1.
Proof.
  induction l as [|[k v] l IH]; csimpl; [done|]. rewrite NoDup_cons. intros [Hx Hl].
  rewrite filter_cons. case_decide; [|auto]. csimpl. apply NoDup_cons. split; [|auto].
  intros ([k' v'] & -> & [_ Hin]%list_elem_of_filter)%list_elem_of_fmap. apply Hx.
  apply list_elem_of_fmap. by exists (k', v').
Qed.

Lemma NoDup_rows_where p m : NoDup (rows_where p m).*1.
Proof. apply NoDup_filter_fst, NoDup_fst_map_to_list. Qed.

Lemma rows_where_ext p q m :
  (∀ k v, m !! k = Some v → p k v = q k v) → rows_where p m = rows_where q m.
Proof.
  intros Hpq. unfold rows_where.
  assert (∀ kv, kv ∈ map_to_list m → p kv.1 kv.2 = q kv.1 kv.2) as Hl.
  { intros [k v] ?%elem_of_map_to_list. by apply Hpq. }
  revert Hl. generalize (map_to_list m). intros l. induction l as [|kv l IH]; intros Hl; [done|].
  rewrite !filter_cons, IH by (intros; apply Hl; by right).
  by rewrite (Hl kv) by left.
Qed.

Lemma first_where_Some p m k v : first_where p m = Some (k, v) → m !! k = Some v ∧ p k v = true.
Proof.
  unfold first_where. intros Hh. apply elem_of_rows_where.
  destruct (rows_where p m); simplify_eq/=. left.
Qed.

Lemma first_where_None p m :
  first_where p m = None ↔ ∀ k v, m !! k = Some v → p k v = false.
Proof.
  unfold first_where. rewrite head_None. split.
  - intros E k v Hk. apply not_true_iff_false. intros Hp.
    assert ((k, v) ∈ rows_where p m) as Hin by by apply elem_of_rows_where.
    rewrite E in Hin. by apply elem_of_nil in Hin.
  - intros Hall. apply elem_of_nil_inv. intros [k v] [Hk Hp]%elem_of_rows_where.
    rewrite (Hall k v Hk) in Hp. done.
Qed.

Lemma first_where_unique p m k v :
  m !! k = Some v → p k v = true →
  (∀ k' v', m !! k' = Some v' → p k' v' = true → k' = k) →
  first_where p m = Some (k, v).
Proof.
  intros Hk Hp Hu. destruct (first_where p m) as [[k' v']|] eqn:E.
  - apply first_where_Some in E as [Hk' Hp']. assert (k' = k) as -> by eauto. congruence.
  - rewrite first_where_None in E. rewrite (E k v Hk) in Hp. done.
Qed.

Lemma lookup_update_where p f m k :
  update_where p f m !! k = (λ v, if p k v then f v else v) <$> m !! k.
Proof. unfold update_where. rewrite map_lookup_imap. by destruct (m !! k). Qed.

Lemma lookup_delete_where_Some p m k v :
  delete_where p m !! k = Some v ↔ m !! k = Some v ∧ p k v = false.
Proof. unfold delete_where. by rewrite map_lookup_filter_Some. Qed.

Lemma lookup_delete_where p m k :
  delete_where p m !! k = match m !! k with Some v => if p k v then None else Some v | None => None end.
Proof.
  apply option_eq. intros v. rewrite lookup_delete_where_Some.
  destruct (m !! k) as [v'|]; [destruct (p k v') eqn:?|]; naive_solver congruence.
Qed.

Lemma update_where_none p f m :
  (∀ k v, m !! k = Some v → p k v = false) → update_where p f m = m.
Proof.
  intros Hp. apply map_eq. intros k. rewrite lookup_update_where.
  destruct (m !! k) as [v|] eqn:E; simpl; [by rewrite (Hp k v E)|done].
Qed.

Lemma delete_where_none p m :
  (∀ k v, m !! k = Some v → p k v = false) → delete_where p m = m.
Proof.
  intros Hp. apply map_eq. intros k. rewrite lookup_delete_where.
  destruct (m !! k) as [v|] eqn:E; [by rewrite (Hp k v E)|done].
Qed.

(** Keys are left alone by an update. *)
Lemma update_where_is_Some p f m k : is_Some (update_where p f m !! k) ↔ is_Some (m !! k).
Proof. rewrite lookup_update_where. by rewrite fmap_is_Some. Qed.

(** Counting rows. *)
Lemma length_rows_where_insert p m k v :
  m !! k = None → length (rows_where p (<[k:=v]> m)) = ((if p k v then 1 else 0) + length (rows_where p m))%nat.
Proof.
  intros Hk. unfold rows_where.
  assert (∀ l l' : list (K * V), l ≡ₚ l' → length (filter (λ kv, p kv.1 kv.2 = true) l) = length (filter (λ kv, p kv.1 kv.2 = true) l')) as Hp
    by (intros l l' Hl; by rewrite Hl).
  rewrite (Hp _ _ (map_to_list_insert m k v Hk)), filter_cons. simpl. case_decide as E; simpl.
  - by rewrite E.
  - by rewrite (not_true_is_false _ E).
Qed.

Lemma length_rows_where_delete p m k v :
  m !! k = Some v → length (rows_where p m) = ((if p k v then 1 else 0) + length (rows_where p (delete k m)))%nat.
Proof.
  intros Hk. rewrite <- (length_rows_where_insert p (delete k m) k v) by apply lookup_delete_eq.
  by rewrite insert_delete_id.
Qed.

Lemma length_rows_where_update p m k v v' :
  m !! k = Some v →
  (length (rows_where p (<[k:=v']> m)) + (if p k v then 1 else 0) =
   length (rows_where p m) + (if p k v' then 1 else 0))%nat.
Proof.
  intros Hk. rewrite <- insert_delete_eq, length_rows_where_insert by apply lookup_delete_eq.
  rewrite (length_rows_where_delete p m k v Hk). lia.
Qed.
End tables.

#[export] Hint Rewrite @lookup_update_where @lookup_delete_where_Some : tables.
