(* ===== verification/Database.v ===== *)
(** The Postgres schema of migrations 001 to 009 and the statements of
    [sqlcgen], one definition per statement.

    A table is a finite map from primary keys to rows.  A statement reads the
    time [NOW()] returns and, where its result order is not fixed by an ORDER BY,
    the scan order the server chose; it returns its result with the new tables, or
    the error the server reports, in which case nothing is written.  Constraints
    are checked as the schema declares them: NOT NULL, then unique indexes, then
    foreign keys. *)
From S2P Require Import Prelude GoStrings Domain Libs Tables.
Local Open Scope Z_scope.

Section database.
Context `{L : UUIDLib}.

(** ** Tables *)

Record UserRow := mkUserRow {
  ur_email : option string;
  ur_created_at : time;
  ur_mobile : option string;
  ur_password_hash : option string;
  ur_display_name : option string;
  ur_status : string;
  ur_updated_at : time;
  ur_last_login_at : option time;
  ur_email_verified_at : option time;
}.

Record ChallengeRow := mkChallengeRow {
  cr_identifier : string;
  cr_code_hash : string;
  cr_expires_at : time;
  cr_attempts : Z;
  cr_created_at : time;
  cr_channel : string;
}.

Record RefreshRow := mkRefreshRow {
  rr_user_id : uuid;
  rr_token_hash : string;
  rr_expires_at : time;
  rr_revoked_at : option time;
  rr_created_at : time;
  rr_org_id : option uuid;
}.

Record ApiTokenRow := mkApiTokenRow {
  ar_user_id : uuid;
  ar_name : string;
  ar_prefix : string;
  ar_token_hash : string;
  ar_scopes : list string;
  ar_expires_at : option time;
  ar_revoked_at : option time;
  ar_created_at : time;
}.

Record OrganizationRow := mkOrganizationRow {
  or_name : string;
  or_created_at : time;
  or_updated_at : time;
}.

(** The CHECK constraint on [status] is the type of the column. *)
Record MembershipRow := mkMembershipRow {
  mr_status : MembershipStatus;
  mr_created_at : time;
  mr_updated_at : time;
}.

Record InviteRow := mkInviteRow {
  ir_org_id : uuid;
  ir_email : string;
  ir_token_hash : string;
  ir_inviter_id : uuid;
  ir_status : InviteStatus;
  ir_expires_at : time;
  ir_accepted_at : option time;
  ir_created_at : time;
}.

Record FlagRow := mkFlagRow {
  fr_enabled : bool;
  fr_description : string;
  fr_updated_at : time;
}.

(** A row of [outbox_events]: the envelope as the message bus builds it, [E]. *)
Record OutboxRow (E : Type) := mkOutboxRow {
  ob_subject : string;
  ob_envelope : E;
}.
Arguments mkOutboxRow {E} _ _.
Arguments ob_subject {E} _.
Arguments ob_envelope {E} _.

Record DB (E : Type) := mkDB {
  users : gmap uuid UserRow;
  otp_challenges : gmap uuid ChallengeRow;
  refresh_tokens : gmap uuid RefreshRow;
  api_tokens : gmap uuid ApiTokenRow;
  organizations : gmap uuid OrganizationRow;
  organization_memberships : gmap (uuid * uuid) MembershipRow;
  organization_invites : gmap uuid InviteRow;
  outbox_events : list (OutboxRow E);
  feature_flags : gmap string FlagRow;
}.
Arguments mkDB {E} _ _ _ _ _ _ _ _ _.
Arguments users {E} _.
Arguments otp_challenges {E} _.
Arguments refresh_tokens {E} _.
Arguments api_tokens {E} _.
Arguments organizations {E} _.
Arguments organization_memberships {E} _.
Arguments organization_invites {E} _.
Arguments outbox_events {E} _.
Arguments feature_flags {E} _.

Section statements.
Context {E : Type}.
Abbreviation DB := (DB E).

Definition set_users (f : gmap uuid UserRow → gmap uuid UserRow) (db : DB) : DB :=
  mkDB (f (users db)) (otp_challenges db) (refresh_tokens db) (api_tokens db) (organizations db)
    (organization_memberships db) (organization_invites db) (outbox_events db) (feature_flags db).
Definition set_challenges (f : gmap uuid ChallengeRow → gmap uuid ChallengeRow) (db : DB) : DB :=
  mkDB (users db) (f (otp_challenges db)) (refresh_tokens db) (api_tokens db) (organizations db)
    (organization_memberships db) (organization_invites db) (outbox_events db) (feature_flags db).
Definition set_refresh (f : gmap uuid RefreshRow → gmap uuid RefreshRow) (db : DB) : DB :=
  mkDB (users db) (otp_challenges db) (f (refresh_tokens db)) (api_tokens db) (organizations db)
    (organization_memberships db) (organization_invites db) (outbox_events db) (feature_flags db).
Definition set_api_tokens (f : gmap uuid ApiTokenRow → gmap uuid ApiTokenRow) (db : DB) : DB :=
  mkDB (users db) (otp_challenges db) (refresh_tokens db) (f (api_tokens db)) (organizations db)
    (organization_memberships db) (organization_invites db) (outbox_events db) (feature_flags db).
Definition set_organizations (f : gmap uuid OrganizationRow → gmap uuid OrganizationRow) (db : DB) : DB :=
  mkDB (users db) (otp_challenges db) (refresh_tokens db) (api_tokens db) (f (organizations db))
    (organization_memberships db) (organization_invites db) (outbox_events db) (feature_flags db).
Definition set_memberships (f : gmap (uuid * uuid) MembershipRow → gmap (uuid * uuid) MembershipRow) (db : DB) : DB :=
  mkDB (users db) (otp_challenges db) (refresh_tokens db) (api_tokens db) (organizations db)
    (f (organization_memberships db)) (organization_invites db) (outbox_events db) (feature_flags db).
Definition set_invites (f : gmap uuid InviteRow → gmap uuid InviteRow) (db : DB) : DB :=
  mkDB (users db) (otp_challenges db) (refresh_tokens db) (api_tokens db) (organizations db)
    (organization_memberships db) (f (organization_invites db)) (outbox_events db) (feature_flags db).
Definition set_outbox (f : list (OutboxRow E) → list (OutboxRow E)) (db : DB) : DB :=
  mkDB (users db) (otp_challenges db) (refresh_tokens db) (api_tokens db) (organizations db)
    (organization_memberships db) (organization_invites db) (f (outbox_events db)) (feature_flags db).

(** ** Statements *)

(** The order in which a scan returns rows that no ORDER BY separates. *)
Record Scan := mkScan { scan : ∀ A : Type, list A → list A }.

(** What the server decides when a statement runs: [NOW()], the scan order, and
    the database's [lower] function, which depends on its locale. *)
Record Server := mkServer {
  NOW : time;
  order : Scan;
  pg_lower : string → string;
}.

Definition statement (A : Type) : Type := Server → DB → error + (A * DB).

Definition COALESCE (v : option string) (d : string) : string := default d v.

(** A NULL for a NOT NULL column. *)
Definition not_null {A B : Type} (v : option A) (k : A → error + B) : error + B :=
  match v with Some a => k a | None => inl ErrNotNullViolation end.

(** *** users.sql *)

Definition has_email (email : string) (_ : uuid) (r : UserRow) : bool := bool_decide (ur_email r = Some email).
Definition has_mobile (mobile : string) (_ : uuid) (r : UserRow) : bool := bool_decide (ur_mobile r = Some mobile).

(** Another row than [id] holds one of the unique values of [r]. *)
Definition user_conflict (id : uuid) (r : UserRow) (k : uuid) (r' : UserRow) : bool :=
  bool_decide (k ≠ id) &&
  (match ur_email r with Some e => has_email e k r' | None => false end ||
   match ur_mobile r with Some m => has_mobile m k r' | None => false end).

(** INSERT INTO users: the primary key and the unique email and mobile. *)
Definition insert_user (id : uuid) (r : UserRow) (db : DB) : error + DB :=
  match users db !! id, first_where (user_conflict id r) (users db) with
  | None, None => inr (set_users <[id := r]> db)
  | _, _ => inl ErrUniqueViolation
  end.

(** UPDATE of one row to values that may collide with another row. *)
Definition replace_user (id : uuid) (r : UserRow) (db : DB) : error + DB :=
  match first_where (user_conflict id r) (users db) with
  | None => inr (set_users <[id := r]> db)
  | Some _ => inl ErrUniqueViolation
  end.

Definition sql_CreateSignupUser (id : uuid) (email password_hash display_name status : string)
    (email_verified_at : option time) : statement Z := λ s db,
  match first_where (has_email email) (users db) with
  | Some _ => inr (0, db)
  | None =>
      match insert_user id (mkUserRow (Some email) (NOW s) None (Some password_hash) (Some display_name)
              status (NOW s) None email_verified_at) db with
      | inl e => inl e
      | inr db => inr (1, db)
      end
  end.

Definition sql_CreateUserWithEmail (id : uuid) (email status : string) : statement unit := λ s db,
  match insert_user id (mkUserRow (Some email) (NOW s) None None None status (NOW s) None (Some (NOW s))) db with
  | inl e => inl e
  | inr db => inr ((), db)
  end.

Definition sql_CreateUserWithMobile (id : uuid) (mobile : string) : statement unit := λ s db,
  match insert_user id (mkUserRow None (NOW s) (Some mobile) None None "active" (NOW s) None None) db with
  | inl e => inl e
  | inr db => inr ((), db)
  end.

(** The columns FindUserByEmail, FindUserByID and FindUserByMobile select. *)
Definition user_columns (id : uuid) (r : UserRow) : User :=
  mkUser (uuid_String id) (COALESCE (ur_email r) "") (COALESCE (ur_mobile r) "")
    (COALESCE (ur_password_hash r) "") (COALESCE (ur_display_name r) "") (ur_status r)
    (bool_decide (is_Some (ur_email_verified_at r))).

Definition sql_FindUserByEmail (email : string) : statement User := λ _ db,
  match first_where (has_email email) (users db) with
  | Some (id, r) => inr (user_columns id r, db)
  | None => inl ErrNoRows
  end.

Definition sql_FindUserByID (id : uuid) : statement User := λ _ db,
  match users db !! id with
  | Some r => inr (user_columns id r, db)
  | None => inl ErrNoRows
  end.

Definition sql_FindUserByMobile (mobile : string) : statement User := λ _ db,
  match first_where (has_mobile mobile) (users db) with
  | Some (id, r) => inr (user_columns id r, db)
  | None => inl ErrNoRows
  end.

Definition pending_row (r : UserRow) : bool :=
  String.eqb (ur_status r) UserSignupPending && bool_decide (ur_email_verified_at r = None).

(** Deleting users: api_tokens.user_id restricts, the memberships and the
    invitations sent by the user cascade. *)
Definition delete_users (p : uuid → UserRow → bool) (db : DB) : error + DB :=
  let gone id := match users db !! id with Some r => p id r | None => false end in
  match first_where (λ _ t, gone (ar_user_id t)) (api_tokens db) with
  | Some _ => inl ErrForeignKeyViolation
  | None =>
      inr (set_users (delete_where p)
             (set_memberships (delete_where (λ k _, gone k.2))
                (set_invites (delete_where (λ _ i, gone (ir_inviter_id i))) db)))
  end.

(** [created_at < NULL] holds for no row. *)
Definition purgeable (before : option time) (_ : uuid) (r : UserRow) : bool :=
  pending_row r && match before with Some b => ur_created_at r <? b | None => false end.

Definition sql_PurgeUnverifiedSignups (before : option time) : statement Z := λ _ db,
  match delete_users (purgeable before) db with
  | inl e => inl e
  | inr db' => inr (Z.of_nat (length (rows_where (purgeable before) (users db))), db')
  end.

Definition sql_ReissueSignupUser (password_hash display_name email : string) : statement string := λ s db,
  match first_where (λ k r, has_email email k r && pending_row r) (users db) with
  | None => inl ErrNoRows
  | Some (id, r) =>
      inr (uuid_String id,
           set_users <[id := mkUserRow (ur_email r) (ur_created_at r) (ur_mobile r) (Some password_hash)
             (Some display_name) (ur_status r) (NOW s) (ur_last_login_at r) (ur_email_verified_at r)]> db)
  end.

Definition sql_UpdateLastLogin (id : uuid) : statement unit := λ s db,
  inr ((), set_users (alter (λ r, mkUserRow (ur_email r) (ur_created_at r) (ur_mobile r) (ur_password_hash r)
             (ur_display_name r) (ur_status r) (NOW s) (Some (NOW s)) (ur_email_verified_at r)) id) db).

(** The row an upsert writes over an existing row on conflict. *)
Definition demo_update (email mobile : option string) (password_hash display_name : string) (now : time)
    (r : UserRow) : UserRow :=
  mkUserRow (match email with Some _ => email | None => ur_email r end) (ur_created_at r)
    (match mobile with Some _ => mobile | None => ur_mobile r end)
    (Some password_hash) (Some display_name) "active" now (ur_last_login_at r)
    (match email with
     | Some _ => Some (default now (ur_email_verified_at r))
     | None => ur_email_verified_at r
     end).

Definition demo_insert (email mobile : option string) (password_hash display_name : string) (now : time) : UserRow :=
  mkUserRow email now mobile (Some password_hash) (Some display_name) "active" now None
    (match email with Some _ => Some now | None => None end).

Definition sql_UpsertDemoUserByEmail (id : uuid) (email mobile : option string)
    (password_hash display_name : string) : statement unit := λ s db,
  match match match email with
              | Some e => first_where (has_email e) (users db)
              | None => None
              end with
        | Some (k, r) => replace_user k (demo_update email mobile password_hash display_name (NOW s) r) db
        | None => insert_user id (demo_insert email mobile password_hash display_name (NOW s)) db
        end with
  | inl e => inl e
  | inr db => inr ((), db)
  end.

Definition sql_UpsertDemoUserByMobile (id : uuid) (email mobile : option string)
    (password_hash display_name : string) : statement unit := λ s db,
  match match match mobile with
              | Some m => first_where (has_mobile m) (users db)
              | None => None
              end with
        | Some (k, r) => replace_user k (demo_update email mobile password_hash display_name (NOW s) r) db
        | None => insert_user id (demo_insert email mobile password_hash display_name (NOW s)) db
        end with
  | inl e => inl e
  | inr db => inr ((), db)
  end.

Definition sql_VerifySignupUser (email_verified_at : option time) (id : uuid) : statement Z := λ s db,
  match users db !! id with
  | Some r =>
      if pending_row r then
        inr (1, set_users <[id := mkUserRow (ur_email r) (ur_created_at r) (ur_mobile r) (ur_password_hash r)
                  (ur_display_name r) "active" (NOW s) (ur_last_login_at r) email_verified_at]> db)
      else inr (0, db)
  | None => inr (0, db)
  end.

(** *** otp_challenges.sql *)

Definition for_identifier (identifier channel : string) (_ : uuid) (r : ChallengeRow) : bool :=
  String.eqb (cr_identifier r) identifier && String.eqb (cr_channel r) channel.

Definition sql_ConsumeChallenge (id : uuid) : statement unit := λ _ db,
  inr ((), set_challenges (delete id) db).

Definition sql_DeleteChallengesForIdentifier (identifier channel : string) : statement unit := λ _ db,
  inr ((), set_challenges (delete_where (for_identifier identifier channel)) db).

Definition sql_DeleteExpiredChallenges : statement unit := λ s db,
  inr ((), set_challenges (delete_where (λ _ r, cr_expires_at r <? NOW s)) db).

Definition challenge_columns (id : uuid) (r : ChallengeRow) : OTPChallenge :=
  mkOTPChallenge (uuid_String id) (cr_identifier r) (cr_channel r) (cr_code_hash r)
    (cr_expires_at r) (cr_created_at r) (cr_attempts r).

(** The rows in scan order, then sorted by the ORDER BY keys. *)
Definition order_by {A} (s : Server) (le : A → A → bool) (l : list A) : list A :=
  merge_sort (rel_of le) (scan (order s) A l).

Definition sql_GetLatestChallenge (identifier channel : string) : statement OTPChallenge := λ s db,
  match order_by s (λ a b, cr_created_at b.2 <=? cr_created_at a.2)
          (rows_where (for_identifier identifier channel) (otp_challenges db)) with
  | (id, r) :: _ => inr (challenge_columns id r, db)
  | [] => inl ErrNoRows
  end.

Definition maxInt32 : Z := 2147483647.

Definition sql_IncrementChallengeAttempts (id : uuid) : statement unit := λ _ db,
  match otp_challenges db !! id with
  | None => inr ((), db)
  | Some r =>
      if cr_attempts r + 1 <=? maxInt32 then
        inr ((), set_challenges <[id := mkChallengeRow (cr_identifier r) (cr_code_hash r) (cr_expires_at r)
                   (cr_attempts r + 1) (cr_created_at r) (cr_channel r)]> db)
      else inl ErrNumericOutOfRange
  end.

Definition sql_UpsertChallenge (id : uuid) (identifier channel code_hash : string)
    (expires_at created_at : option time) : statement unit := λ _ db,
  not_null expires_at (λ expires_at, not_null created_at (λ created_at,
    match otp_challenges db !! id with
    | Some _ => inl ErrUniqueViolation
    | None => inr ((), set_challenges <[id := mkChallengeRow identifier code_hash expires_at 0 created_at channel]> db)
    end)).

(** *** refresh_tokens.sql *)

Definition live_refresh (token_hash : string) (now : time) (_ : uuid) (r : RefreshRow) : bool :=
  String.eqb (rr_token_hash r) token_hash && (now <? rr_expires_at r) && bool_decide (rr_revoked_at r = None).

Definition sql_FindValidRefreshToken (token_hash : string) : statement (string * string) := λ s db,
  match scan (order s) _ (rows_where (live_refresh token_hash (NOW s)) (refresh_tokens db)) with
  | (_, r) :: _ => inr ((uuid_String (rr_user_id r), COALESCE (uuid_String <$> rr_org_id r) ""), db)
  | [] => inl ErrNoRows
  end.

Definition sql_RevokeRefreshToken (token_hash : string) : statement unit := λ s db,
  inr ((), set_refresh (update_where (λ _ r, String.eqb (rr_token_hash r) token_hash)
             (λ r, mkRefreshRow (rr_user_id r) (rr_token_hash r) (rr_expires_at r) (Some (NOW s))
                     (rr_created_at r) (rr_org_id r))) db).

Definition sql_StoreRefreshToken (id user_id : uuid) (org_id : option uuid) (token_hash : string)
    (expires_at : option time) : statement unit := λ s db,
  not_null expires_at (λ expires_at,
    match refresh_tokens db !! id with
    | Some _ => inl ErrUniqueViolation
    | None => inr ((), set_refresh <[id := mkRefreshRow user_id token_hash expires_at None (NOW s) org_id]> db)
    end).

(** *** api_tokens.sql *)

(** [scopes] is the encoded slice: a nil slice is NULL. *)
Definition sql_CreateAPIToken (id user_id : uuid) (name prefix token_hash : string)
    (scopes : option (list string)) (expires_at : option time) : statement unit := λ s db,
  not_null scopes (λ scopes,
    match api_tokens db !! id, users db !! user_id with
    | Some _, _ => inl ErrUniqueViolation
    | None, None => inl ErrForeignKeyViolation
    | None, Some _ =>
        inr ((), set_api_tokens <[id := mkApiTokenRow user_id name prefix token_hash scopes expires_at None (NOW s)]> db)
    end).

Definition api_token_columns (id : uuid) (r : ApiTokenRow) : APIToken :=
  mkAPIToken (uuid_String id) (uuid_String (ar_user_id r)) (ar_name r) (ar_prefix r) (ar_token_hash r)
    (Some (ar_scopes r)) (ar_expires_at r) (ar_revoked_at r) (ar_created_at r).

Definition live_prefix (prefix : string) (_ : uuid) (r : ApiTokenRow) : bool :=
  String.eqb (ar_prefix r) prefix && bool_decide (ar_revoked_at r = None).

Definition sql_FindAPITokenByPrefix (prefix : string) : statement APIToken := λ s db,
  match order_by s (λ a b, ar_created_at b.2 <=? ar_created_at a.2)
          (rows_where (live_prefix prefix) (api_tokens db)) with
  | (id, r) :: _ => inr (api_token_columns id r, db)
  | [] => inl ErrNoRows
  end.

Definition sql_ListAPITokensByUser (user_id : uuid) : statement (list APITokenInfo) := λ s db,
  inr ((λ kr, mkAPITokenInfo (uuid_String kr.1) (ar_name kr.2) (ar_prefix kr.2) (Some (ar_scopes kr.2))
                (ar_expires_at kr.2) (ar_created_at kr.2)) <$>
       order_by s (λ a b, ar_created_at b.2 <=? ar_created_at a.2)
         (rows_where (λ _ r, bool_decide (ar_user_id r = user_id) && bool_decide (ar_revoked_at r = None))
            (api_tokens db)), db).

Definition sql_RevokeAPIToken (id user_id : uuid) : statement unit := λ s db,
  inr ((), set_api_tokens (update_where
             (λ k r, bool_decide (k = id) && bool_decide (ar_user_id r = user_id) && bool_decide (ar_revoked_at r = None))
             (λ r, mkApiTokenRow (ar_user_id r) (ar_name r) (ar_prefix r) (ar_token_hash r) (ar_scopes r)
                     (ar_expires_at r) (Some (NOW s)) (ar_created_at r))) db).

(** *** organizations.sql *)

(** INSERT INTO organization_memberships, for a pair without a row. *)
Definition insert_membership (org_id user_id : uuid) (status : MembershipStatus) (now : time) (db : DB) : error + DB :=
  match organizations db !! org_id, users db !! user_id with
  | Some _, Some _ => inr (set_memberships <[(org_id, user_id) := mkMembershipRow status now now]> db)
  | _, _ => inl ErrForeignKeyViolation
  end.

Definition sql_AddOrganizationMembership (org_id user_id : uuid) (status : MembershipStatus) : statement unit := λ s db,
  match organization_memberships db !! (org_id, user_id) with
  | Some _ => inr ((), db)
  | None =>
      match insert_membership org_id user_id status (NOW s) db with
      | inl e => inl e
      | inr db => inr ((), db)
      end
  end.

Definition active_in (org_id : uuid) (k : uuid * uuid) (r : MembershipRow) : bool :=
  bool_decide (k.1 = org_id) && bool_decide (mr_status r = MembershipActive).

Definition sql_CountActiveOrganizationMembers (org_id : uuid) : statement Z := λ _ db,
  inr (Z.of_nat (length (rows_where (active_in org_id) (organization_memberships db))), db).

Definition sql_CreateOrganization (id : uuid) (name : string) (created_at updated_at : option time) : statement unit := λ _ db,
  not_null created_at (λ created_at, not_null updated_at (λ updated_at,
    match organizations db !! id with
    | Some _ => inl ErrUniqueViolation
    | None => inr ((), set_organizations <[id := mkOrganizationRow name created_at updated_at]> db)
    end)).

(** Deleting organizations cascades to memberships and invitations. *)
Definition delete_organizations (p : uuid → OrganizationRow → bool) (db : DB) : DB :=
  let gone id := match organizations db !! id with Some r => p id r | None => false end in
  set_organizations (delete_where p)
    (set_memberships (delete_where (λ k _, gone k.1))
       (set_invites (delete_where (λ _ i, gone (ir_org_id i))) db)).

Definition memberless (db : DB) (id : uuid) (_ : OrganizationRow) : bool :=
  bool_decide (first_where (λ k _, bool_decide (k.1 = id)) (organization_memberships db) = None).

Definition sql_DeleteEmptyOrganizations : statement Z := λ _ db,
  inr (Z.of_nat (length (rows_where (memberless db) (organizations db))), delete_organizations (memberless db) db).

Definition sql_DeleteOrganizationMembership (org_id user_id : uuid) : statement unit := λ _ db,
  inr ((), set_memberships (delete (org_id, user_id)) db).

Definition organization_columns (id : uuid) (r : OrganizationRow) : Organization :=
  mkOrganization (uuid_String id) (or_name r) (or_created_at r) (or_updated_at r).

Definition sql_GetOrganization (id : uuid) : statement Organization := λ _ db,
  match organizations db !! id with
  | Some r => inr (organization_columns id r, db)
  | None => inl ErrNoRows
  end.

Definition membership_columns (k : uuid * uuid) (r : MembershipRow) : Membership :=
  mkMembership (uuid_String k.1) (uuid_String k.2) (mr_status r) (mr_created_at r) (mr_updated_at r).

Definition sql_GetOrganizationMembership (org_id user_id : uuid) : statement Membership := λ _ db,
  match organization_memberships db !! (org_id, user_id) with
  | Some r => inr (membership_columns (org_id, user_id) r, db)
  | None => inl ErrNoRows
  end.

(** ORDER BY created_at, id. *)
Definition oldest_first {A} (created : A → time) (id : A → uuid) (a b : A) : bool :=
  (created a <? created b) || ((created a =? created b) && (uuid_value (id a) <=? uuid_value (id b))).

(** ORDER BY created_at DESC, id. *)
Definition newest_first {A} (created : A → time) (id : A → uuid) (a b : A) : bool :=
  (created b <? created a) || ((created a =? created b) && (uuid_value (id a) <=? uuid_value (id b))).

Definition sql_ListOrganizationMembers (org_id : uuid) : statement (list Membership) := λ s db,
  inr ((λ kr, membership_columns kr.1 kr.2) <$>
       order_by s (oldest_first (λ kr, mr_created_at kr.2) (λ kr, kr.1.2))
         (rows_where (λ k _, bool_decide (k.1 = org_id)) (organization_memberships db)), db).

Definition sql_ListOrganizationsForUser (user_id : uuid) : statement (list Organization) := λ s db,
  inr ((λ kr, organization_columns kr.1 kr.2) <$>
       order_by s (oldest_first (λ kr, or_created_at kr.2) fst)
         (rows_where (λ org_id _,
            match organization_memberships db !! (org_id, user_id) with
            | Some m => bool_decide (mr_status m = MembershipActive)
            | None => false
            end) (organizations db)), db).

(** SELECT ... FOR UPDATE: the row lock excludes other transactions, which this
    sequential model does not interleave. *)
Definition sql_LockOrganization (id : uuid) : statement uuid := λ _ db,
  match organizations db !! id with
  | Some _ => inr (id, db)
  | None => inl ErrNoRows
  end.

Definition sql_UpdateOrganizationMembershipStatus (status : MembershipStatus) (org_id user_id : uuid) : statement unit := λ s db,
  inr ((), set_memberships (alter (λ r, mkMembershipRow status (mr_created_at r) (NOW s)) (org_id, user_id)) db).

(** *** invites.sql *)

Definition pending_invite (id org_id k : uuid) (r : InviteRow) : bool :=
  bool_decide (k = id) && bool_decide (ir_org_id r = org_id) && bool_decide (ir_status r = InvitePending).

Definition with_status (status : InviteStatus) (accepted_at : option time) (r : InviteRow) : InviteRow :=
  mkInviteRow (ir_org_id r) (ir_email r) (ir_token_hash r) (ir_inviter_id r) status
    (ir_expires_at r) accepted_at (ir_created_at r).

Definition sql_AcceptOrganizationInvite (accepted_at : option time) (id org_id : uuid) : statement Z := λ _ db,
  inr (Z.of_nat (length (rows_where (pending_invite id org_id) (organization_invites db))),
       set_invites (update_where (pending_invite id org_id) (with_status InviteAccepted accepted_at)) db).

Definition sql_AddActiveOrganizationMembership (org_id user_id : uuid) : statement unit := λ s db,
  match organization_memberships db !! (org_id, user_id) with
  | Some r =>
      if decide (mr_status r = MembershipInvited) then
        inr ((), set_memberships <[(org_id, user_id) := mkMembershipRow MembershipActive (mr_created_at r) (NOW s)]> db)
      else inr ((), db)
  | None =>
      match insert_membership org_id user_id MembershipActive (NOW s) db with
      | inl e => inl e
      | inr db => inr ((), db)
      end
  end.

Definition pending_for (s : Server) (org_id : uuid) (email : string) (_ : uuid) (r : InviteRow) : bool :=
  bool_decide (ir_org_id r = org_id) && String.eqb (pg_lower s (ir_email r)) (pg_lower s email) &&
  bool_decide (ir_status r = InvitePending).

Definition sql_CreateOrganizationInvite (id org_id : uuid) (email token_hash : string) (inviter_id : uuid)
    (status : InviteStatus) (expires_at created_at : option time) : statement unit := λ s db,
  not_null expires_at (λ expires_at, not_null created_at (λ created_at,
    let clash := first_where (λ k r,
      bool_decide (k = id) || String.eqb (ir_token_hash r) token_hash ||
      (bool_decide (status = InvitePending) && pending_for s org_id email k r)) (organization_invites db) in
    match clash, organizations db !! org_id, users db !! inviter_id with
    | Some _, _, _ => inl ErrUniqueViolation
    | None, Some _, Some _ =>
        inr ((), set_invites <[id := mkInviteRow org_id email token_hash inviter_id status expires_at None created_at]> db)
    | None, _, _ => inl ErrForeignKeyViolation
    end)).

Definition invite_columns (id : uuid) (r : InviteRow) : Invite :=
  mkInvite (uuid_String id) (uuid_String (ir_org_id r)) (ir_email r) (ir_token_hash r)
    (uuid_String (ir_inviter_id r)) (ir_status r) (ir_expires_at r) (ir_accepted_at r) (ir_created_at r).

Definition sql_FindOrganizationInviteByTokenHash (token_hash : string) : statement Invite := λ _ db,
  match first_where (λ _ r, String.eqb (ir_token_hash r) token_hash) (organization_invites db) with
  | Some (id, r) => inr (invite_columns id r, db)
  | None => inl ErrNoRows
  end.

(** The token hash is not selected. *)
Definition sql_ListOrganizationInvites (org_id : uuid) : statement (list Invite) := λ s db,
  inr ((λ kr, let i := invite_columns kr.1 kr.2 in
              mkInvite (i_ID i) (i_OrgID i) (i_Email i) "" (i_InviterID i) (i_Status i)
                (i_ExpiresAt i) (i_AcceptedAt i) (i_CreatedAt i)) <$>
       order_by s (newest_first (λ kr, ir_created_at kr.2) fst)
         (rows_where (λ _ r, bool_decide (ir_org_id r = org_id)) (organization_invites db)), db).

Definition sql_RevokeOrganizationInvite (id org_id : uuid) : statement Z := λ _ db,
  inr (Z.of_nat (length (rows_where (pending_invite id org_id) (organization_invites db))),
       set_invites (update_where (pending_invite id org_id) (λ r, with_status InviteRevoked (ir_accepted_at r) r)) db).

Definition sql_RevokePendingOrganizationInvitesForEmail (org_id : uuid) (email : string) : statement unit := λ s db,
  inr ((), set_invites (update_where (pending_for s org_id email) (λ r, with_status InviteRevoked (ir_accepted_at r) r)) db).

(** *** feature_flags and outbox_events *)

(** SELECT ... FROM feature_flags ORDER BY name, for the collation order [le]. *)
Definition sql_ListFeatureFlags (le : string → string → bool) : statement (list FeatureFlag) := λ s db,
  inr ((λ kr, mkFeatureFlag kr.1 (fr_enabled kr.2) (fr_description kr.2) (fr_updated_at kr.2)) <$>
       order_by s (λ a b, le a.1 b.1) (map_to_list (feature_flags db)), db).

Definition sql_InsertOutbox (subject : string) (envelope : E) : statement unit := λ _ db,
  inr ((), set_outbox (λ l, l ++ [mkOutboxRow subject envelope]) db).
End statements.
End database.

Arguments mkOutboxRow {E} _ _.
Arguments ob_subject {E} _.
Arguments ob_envelope {E} _.
Arguments DB {L} E.
Arguments mkDB {L E} _ _ _ _ _ _ _ _ _.
Arguments users {L E} _.
Arguments otp_challenges {L E} _.
Arguments refresh_tokens {L E} _.
Arguments api_tokens {L E} _.
Arguments organizations {L E} _.
Arguments organization_memberships {L E} _.
Arguments organization_invites {L E} _.
Arguments outbox_events {L E} _.
Arguments feature_flags {L E} _.
Arguments statement {L E} A.
