(* ===== verification/DatabaseProps.v ===== *)
(** The constraints of the schema as an invariant, and that every statement
    keeps it. *)
From S2P Require Import Prelude GoStrings Domain Libs Tables Database.
Local Open Scope Z_scope.

Create HintDb sql.

Section props.
Context `{L : UUIDLib} {E : Type} (lower : string → string).
Implicit Types (db : DB E).

Definition users_unique (U : gmap uuid UserRow) : Prop :=
  (∀ i j r s e, U !! i = Some r → U !! j = Some s → ur_email r = Some e → ur_email s = Some e → i = j) ∧
  (∀ i j r s m, U !! i = Some r → U !! j = Some s → ur_mobile r = Some m → ur_mobile s = Some m → i = j).

Definition tokens_owned (U : gmap uuid UserRow) (T : gmap uuid ApiTokenRow) : Prop :=
  ∀ i t, T !! i = Some t → is_Some (U !! ar_user_id t).

Definition members_exist (U : gmap uuid UserRow) (O : gmap uuid OrganizationRow)
    (R : gmap (uuid * uuid) MembershipRow) : Prop :=
  ∀ o u m, R !! (o, u) = Some m → is_Some (O !! o) ∧ is_Some (U !! u).

Definition invites_exist (U : gmap uuid UserRow) (O : gmap uuid OrganizationRow)
    (I : gmap uuid InviteRow) : Prop :=
  ∀ i r, I !! i = Some r → is_Some (O !! ir_org_id r) ∧ is_Some (U !! ir_inviter_id r).

(** At most one invitation per token hash, and at most one pending invitation
    per organization and lower-cased address. *)
Definition invites_unique (I : gmap uuid InviteRow) : Prop :=
  (∀ i j r s, I !! i = Some r → I !! j = Some s → ir_token_hash r = ir_token_hash s → i = j) ∧
  (∀ i j r s, I !! i = Some r → I !! j = Some s → ir_status r = InvitePending → ir_status s = InvitePending →
     ir_org_id r = ir_org_id s → lower (ir_email r) = lower (ir_email s) → i = j).

Definition attempts_int4 (C : gmap uuid ChallengeRow) : Prop :=
  ∀ i r, C !! i = Some r → 0 ≤ cr_attempts r ≤ maxInt32.

Record schema (db : DB E) : Prop := mkSchema {
  sch_users : users_unique (users db);
  sch_tokens : tokens_owned (users db) (api_tokens db);
  sch_members : members_exist (users db) (organizations db) (organization_memberships db);
  sch_invites : invites_exist (users db) (organizations db) (organization_invites db);
  sch_invites_unique : invites_unique (organization_invites db);
  sch_attempts : attempts_int4 (otp_challenges db);
}.

(** A statement keeps [P] when it runs on a server with this [lower]. *)
Definition sound {A} (P : DB E → Prop) (q : statement (E:=E) A) : Prop :=
  ∀ s db a db', pg_lower s = lower → P db → q s db = inr (a, db') → P db'.

(** A statement that only reads. *)
Definition readonly {A} (q : statement (E:=E) A) : Prop :=
  ∀ s db a db', q s db = inr (a, db') → db' = db.

Lemma readonly_sound {A} (P : DB E → Prop) (q : statement A) : readonly q → sound P q.
Proof. intros Hq s db a db' _ HP H. by rewrite (Hq _ _ _ _ H). Qed.

(** *** Users *)

(** A table of users in which every key and every unique value of [U] keeps its
    place. *)
Definition same_users (U U' : gmap uuid UserRow) : Prop :=
  ∀ i, match U !! i, U' !! i with
       | Some r, Some r' => ur_email r' = ur_email r ∧ ur_mobile r' = ur_mobile r
       | None, None => True
       | _, _ => False
       end.

Lemma same_users_is_Some U U' i : same_users U U' → is_Some (U !! i) ↔ is_Some (U' !! i).
Proof. intros Hs. specialize (Hs i). destruct (U !! i), (U' !! i); naive_solver. Qed.

Lemma same_users_unique U U' : same_users U U' → users_unique U → users_unique U'.
Proof.
  intros Hs [He Hm].
  assert (∀ i r', U' !! i = Some r' → ∃ r, U !! i = Some r ∧ ur_email r' = ur_email r ∧ ur_mobile r' = ur_mobile r) as Hb.
  { intros i r' Hi. specialize (Hs i). rewrite Hi in Hs. destruct (U !! i); naive_solver. }
  split; intros i j r s x (r0 & ? & Er & Er')%Hb (s0 & ? & Es & Es')%Hb;
    [rewrite Er, Es|rewrite Er', Es']; eauto.
Qed.

Lemma schema_same_users db f :
  same_users (users db) (f (users db)) → schema db → schema (set_users f db).
Proof.
  intros Hs [HU HT HM HI HIU HA]. split; simpl; try done.
  - by eapply same_users_unique.
  - intros i t Hi. rewrite <- same_users_is_Some; eauto.
  - intros o u m Hm. destruct (HM o u m Hm). by rewrite <- same_users_is_Some.
  - intros i r Hi. destruct (HI i r Hi). by rewrite <- same_users_is_Some.
Qed.

Lemma same_users_insert U i r r' :
  U !! i = Some r → ur_email r' = ur_email r → ur_mobile r' = ur_mobile r → same_users U (<[i:=r']> U).
Proof.
  intros Hi He Hm j. destruct (decide (i = j)) as [<-|].
  - by rewrite Hi, lookup_insert_eq.
  - rewrite lookup_insert_ne by done. by destruct (U !! j).
Qed.

Lemma same_users_alter U i f :
  (∀ r, ur_email (f r) = ur_email r ∧ ur_mobile (f r) = ur_mobile r) → same_users U (alter f i U).
Proof.
  intros Hf j. destruct (decide (i = j)) as [<-|].
  - rewrite lookup_alter_eq. destruct (U !! i); simpl; auto.
  - rewrite lookup_alter_ne by done. by destruct (U !! j).
Qed.

Lemma no_conflict id r U :
  first_where (user_conflict id r) U = None →
  ∀ k r', U !! k = Some r' → k ≠ id →
    (∀ e, ur_email r = Some e → ur_email r' ≠ Some e) ∧ (∀ m, ur_mobile r = Some m → ur_mobile r' ≠ Some m).
Proof.
  rewrite first_where_None. intros Hc k r' Hk Hne. specialize (Hc k r' Hk). unfold user_conflict in Hc.
  rewrite bool_decide_eq_true_2 in Hc by done. simpl in Hc. apply orb_false_iff in Hc as [He Hm].
  unfold has_email, has_mobile in *.
  split; intros x Hx Hx'; rewrite Hx in *; [rewrite Hx' in He|rewrite Hx' in Hm];
    by rewrite bool_decide_eq_true_2 in *.
Qed.

Lemma users_unique_insert U id r :
  users_unique U → first_where (user_conflict id r) U = None → users_unique (<[id:=r]> U).
Proof.
  intros [He Hm] Hc. pose proof (no_conflict _ _ _ Hc) as Hn.
  split; intros i j r1 r2 x; rewrite !lookup_insert_Some; intros [[<- <-]|[? Hi]] [[<- <-]|[? Hj]] H1 H2;
    try done; try (by eauto); exfalso;
    match goal with
    | H : U !! ?k = Some _, Hk : id ≠ ?k |- _ => destruct (Hn k _ H (not_eq_sym Hk)) as [??]
    end; naive_solver.
Qed.

(** A table of users that only gained rows, or changed rows under kept keys. *)
Lemma schema_grow_users db U' :
  users_unique U' → (∀ i, is_Some (users db !! i) → is_Some (U' !! i)) →
  schema db → schema (set_users (λ _, U') db).
Proof.
  intros HU' Hg [HU HT HM HI HIU HA]. split; simpl; try done.
  - intros i t Hi. apply Hg. eauto.
  - intros o u m Hm. destruct (HM o u m Hm). auto.
  - intros i r Hi. destruct (HI i r Hi). auto.
Qed.

Lemma is_Some_insert_mono `{Countable K} {A} (m : gmap K A) k a i :
  is_Some (m !! i) → is_Some (<[k:=a]> m !! i).
Proof. destruct (decide (k = i)) as [<-|]; [rewrite lookup_insert_eq|rewrite lookup_insert_ne]; eauto. Qed.

Lemma insert_user_schema id r db db' : schema db → insert_user id r db = inr db' → schema db'.
Proof.
  unfold insert_user. intros Hs H. repeat case_match; simplify_eq.
  apply (schema_grow_users db (<[id:=r]> (users db))); [|eauto using is_Some_insert_mono|done].
  apply users_unique_insert; [apply Hs|done].
Qed.

Lemma replace_user_schema id r db db' : schema db → replace_user id r db = inr db' → schema db'.
Proof.
  unfold replace_user. intros Hs H. case_match; simplify_eq.
  apply (schema_grow_users db (<[id:=r]> (users db))); [|eauto using is_Some_insert_mono|done].
  apply users_unique_insert; [apply Hs|done].
Qed.

(** *** One table at a time *)

Lemma schema_challenges db f :
  attempts_int4 (f (otp_challenges db)) → schema db → schema (set_challenges f db).
Proof. intros Hf []. by split. Qed.

Lemma schema_refresh db f : schema db → schema (set_refresh f db).
Proof. intros []. by split. Qed.

Lemma schema_outbox db f : schema db → schema (set_outbox f db).
Proof. intros []. by split. Qed.

Lemma schema_api_tokens db f :
  tokens_owned (users db) (f (api_tokens db)) → schema db → schema (set_api_tokens f db).
Proof. intros Hf []. by split. Qed.

Lemma schema_memberships db f :
  members_exist (users db) (organizations db) (f (organization_memberships db)) →
  schema db → schema (set_memberships f db).
Proof. intros Hf []. by split. Qed.

Lemma schema_invites db f :
  invites_exist (users db) (organizations db) (f (organization_invites db)) →
  invites_unique (f (organization_invites db)) →
  schema db → schema (set_invites f db).
Proof. intros Hf Hu []. by split. Qed.

Lemma schema_insert_organization db id r : schema db → schema (set_organizations <[id:=r]> db).
Proof.
  intros [HU HT HM HI HIU HA]. split; simpl; try done.
  - intros o u m Hm. destruct (HM o u m Hm). eauto using is_Some_insert_mono.
  - intros i t Hi. destruct (HI i t Hi). eauto using is_Some_insert_mono.
Qed.

Lemma attempts_delete_where p C : attempts_int4 C → attempts_int4 (delete_where p C).
Proof. intros HC i r [Hi _]%lookup_delete_where_Some. eauto. Qed.

Lemma insert_membership_schema o u st now db db' :
  schema db → insert_membership o u st now db = inr db' → schema db'.
Proof.
  unfold insert_membership. intros Hs H. repeat case_match; simplify_eq. apply schema_memberships; [|done].
  intros o' u' m. rewrite lookup_insert_Some. intros [[[= <- <-] <-]|[_ Hm]]; [by split; eauto|].
  by apply (sch_members _ Hs) in Hm.
Qed.

(** Updating the status of rows with [with_status], to a status other than
    pending. *)
Lemma invites_unique_update p st acc I :
  st ≠ InvitePending → invites_unique I →
  invites_unique (update_where p (λ r, with_status st (acc r) r) I).
Proof.
  intros Hst [Ht Hp]. split; intros i j r s; rewrite !lookup_update_where, !fmap_Some.
  - intros (r0 & Hi & ->) (s0 & Hj & ->) E1. apply (Ht i j r0 s0); [done..|].
    by destruct (p i r0), (p j s0).
  - intros (r0 & Hi & ->) (s0 & Hj & ->). destruct (p i r0), (p j s0); simpl; try done. eauto.
Qed.

Lemma invites_exist_update p st acc U O I :
  invites_exist U O I → invites_exist U O (update_where p (λ r, with_status st (acc r) r) I).
Proof.
  intros HI i r. rewrite lookup_update_where, fmap_Some. intros (r0 & Hi & ->).
  destruct (HI i r0 Hi). by destruct (p i r0).
Qed.

Lemma schema_update_invites p st acc db :
  st ≠ InvitePending → schema db → schema (set_invites (update_where p (λ r, with_status st (acc r) r)) db).
Proof.
  intros Hst Hs. apply schema_invites; [apply invites_exist_update, Hs| |done].
  apply invites_unique_update; [done|apply Hs].
Qed.

Lemma invites_unique_delete p I : invites_unique I → invites_unique (delete_where p I).
Proof.
  intros [Ht Hp]. split; intros i j r s [Hi _]%lookup_delete_where_Some [Hj _]%lookup_delete_where_Some; eauto.
Qed.

(** *** Cascading deletes *)

Lemma delete_users_schema p db db' : schema db → delete_users p db = inr db' → schema db'.
Proof.
  unfold delete_users. intros [HU HT HM HI HIU HA] H. case_match eqn:Hft; simplify_eq.
  rewrite first_where_None in Hft.
  assert (∀ u, is_Some (users db !! u) →
    match users db !! u with Some r => p u r | None => false end = false → is_Some (delete_where p (users db) !! u)) as Hk.
  { intros u [r Hr] Hp. rewrite lookup_delete_where, Hr in *. rewrite Hp. eauto. }
  split; simpl; try done.
  - destruct HU as [He Hm].
    split; intros i j r s x [Hi _]%lookup_delete_where_Some [Hj _]%lookup_delete_where_Some; eauto.
  - intros i t Hi. apply Hk; eauto.
  - intros o u m [Hm Hg]%lookup_delete_where_Some. simpl in Hg. destruct (HM o u m Hm). eauto.
  - intros i r [Hi Hg]%lookup_delete_where_Some. destruct (HI i r Hi). eauto.
  - by apply invites_unique_delete.
Qed.

Lemma delete_organizations_schema p db : schema db → schema (delete_organizations p db).
Proof.
  unfold delete_organizations. intros [HU HT HM HI HIU HA].
  assert (∀ o, is_Some (organizations db !! o) →
    match organizations db !! o with Some r => p o r | None => false end = false →
    is_Some (delete_where p (organizations db) !! o)) as Hk.
  { intros o [r Hr] Hp. rewrite lookup_delete_where, Hr in *. rewrite Hp. eauto. }
  split; simpl; try done.
  - intros o u m [Hm Hg]%lookup_delete_where_Some. simpl in Hg. destruct (HM o u m Hm). eauto.
  - intros i r [Hi Hg]%lookup_delete_where_Some. destruct (HI i r Hi). eauto.
  - by apply invites_unique_delete.
Qed.

(** *** Every statement keeps the schema *)

Ltac sql_cases :=
  unfold sound, not_null; intros s db a db' Hlow Hs Hq;
  repeat case_match; simplify_eq; try done.

Lemma sql_CreateSignupUser_sound id e ph dn st v : sound schema (sql_CreateSignupUser id e ph dn st v).
Proof. unfold sql_CreateSignupUser. sql_cases. eauto using insert_user_schema. Qed.

Lemma sql_CreateUserWithEmail_sound id e st : sound schema (sql_CreateUserWithEmail id e st).
Proof. unfold sql_CreateUserWithEmail. sql_cases. eauto using insert_user_schema. Qed.

Lemma sql_CreateUserWithMobile_sound id m : sound schema (sql_CreateUserWithMobile id m).
Proof. unfold sql_CreateUserWithMobile. sql_cases. eauto using insert_user_schema. Qed.

Lemma sql_PurgeUnverifiedSignups_sound b : sound schema (sql_PurgeUnverifiedSignups b).
Proof. unfold sql_PurgeUnverifiedSignups. sql_cases. eauto using delete_users_schema. Qed.

Lemma sql_ReissueSignupUser_sound ph dn e : sound schema (sql_ReissueSignupUser ph dn e).
Proof.
  unfold sql_ReissueSignupUser. sql_cases. apply schema_same_users; [|done].
  match goal with H : first_where _ _ = Some _ |- _ => apply first_where_Some in H as [H _] end.
  by eapply same_users_insert.
Qed.

Lemma sql_UpdateLastLogin_sound id : sound schema (sql_UpdateLastLogin id).
Proof. unfold sql_UpdateLastLogin. sql_cases. apply schema_same_users; [by apply same_users_alter|done]. Qed.

Lemma sql_UpsertDemoUserByEmail_sound id e m ph dn : sound schema (sql_UpsertDemoUserByEmail id e m ph dn).
Proof.
  unfold sql_UpsertDemoUserByEmail. sql_cases; eauto using insert_user_schema, replace_user_schema.
Qed.

Lemma sql_UpsertDemoUserByMobile_sound id e m ph dn : sound schema (sql_UpsertDemoUserByMobile id e m ph dn).
Proof.
  unfold sql_UpsertDemoUserByMobile. sql_cases; eauto using insert_user_schema, replace_user_schema.
Qed.

Lemma sql_VerifySignupUser_sound t id : sound schema (sql_VerifySignupUser t id).
Proof.
  unfold sql_VerifySignupUser. sql_cases. apply schema_same_users; [by eapply same_users_insert|done].
Qed.

Lemma sql_ConsumeChallenge_sound id : sound schema (sql_ConsumeChallenge id).
Proof.
  unfold sql_ConsumeChallenge. sql_cases. apply schema_challenges; [|done].
  intros i r [_ Hi]%lookup_delete_Some. by eapply sch_attempts.
Qed.

Lemma sql_DeleteChallengesForIdentifier_sound i c : sound schema (sql_DeleteChallengesForIdentifier i c).
Proof.
  unfold sql_DeleteChallengesForIdentifier. sql_cases.
  apply schema_challenges; [apply attempts_delete_where, Hs|done].
Qed.

Lemma sql_DeleteExpiredChallenges_sound : sound schema sql_DeleteExpiredChallenges.
Proof.
  unfold sql_DeleteExpiredChallenges. sql_cases.
  apply schema_challenges; [apply attempts_delete_where, Hs|done].
Qed.

Lemma sql_IncrementChallengeAttempts_sound id : sound schema (sql_IncrementChallengeAttempts id).
Proof.
  unfold sql_IncrementChallengeAttempts. sql_cases. apply schema_challenges; [|done].
  intros i r. rewrite lookup_insert_Some. intros [[<- <-]|[_ Hi]]; [|by eapply sch_attempts].
  match goal with H : otp_challenges _ !! _ = Some _ |- _ => apply (sch_attempts _ Hs) in H end. simpl. lia.
Qed.

Lemma sql_UpsertChallenge_sound id i c h t1 t2 : sound schema (sql_UpsertChallenge id i c h t1 t2).
Proof.
  unfold sql_UpsertChallenge. sql_cases. apply schema_challenges; [|done].
  intros j r. rewrite lookup_insert_Some. intros [[<- <-]|[_ Hi]]; [unfold maxInt32; simpl; lia|by eapply sch_attempts].
Qed.

Lemma sql_RevokeRefreshToken_sound h : sound schema (sql_RevokeRefreshToken h).
Proof. unfold sql_RevokeRefreshToken. sql_cases. by apply schema_refresh. Qed.

Lemma sql_StoreRefreshToken_sound id u o h t : sound schema (sql_StoreRefreshToken id u o h t).
Proof. unfold sql_StoreRefreshToken. sql_cases. by apply schema_refresh. Qed.

Lemma sql_CreateAPIToken_sound id u n p h sc t : sound schema (sql_CreateAPIToken id u n p h sc t).
Proof.
  unfold sql_CreateAPIToken. sql_cases. apply schema_api_tokens; [|done].
  intros j r. rewrite lookup_insert_Some. intros [[<- <-]|[_ Hi]]; [simpl; eauto|by eapply sch_tokens].
Qed.

Lemma sql_RevokeAPIToken_sound id u : sound schema (sql_RevokeAPIToken id u).
Proof.
  unfold sql_RevokeAPIToken. sql_cases. apply schema_api_tokens; [|done].
  intros j r. rewrite lookup_update_where, fmap_Some. intros (r0 & Hj & ->).
  apply (sch_tokens _ Hs) in Hj. by case_match.
Qed.

Lemma sql_AddOrganizationMembership_sound o u st : sound schema (sql_AddOrganizationMembership o u st).
Proof. unfold sql_AddOrganizationMembership. sql_cases. eauto using insert_membership_schema. Qed.

Lemma sql_CreateOrganization_sound id n t1 t2 : sound schema (sql_CreateOrganization id n t1 t2).
Proof. unfold sql_CreateOrganization. sql_cases. by apply schema_insert_organization. Qed.

Lemma sql_DeleteEmptyOrganizations_sound : sound schema sql_DeleteEmptyOrganizations.
Proof. unfold sql_DeleteEmptyOrganizations. sql_cases. by apply delete_organizations_schema. Qed.

Lemma sql_DeleteOrganizationMembership_sound o u : sound schema (sql_DeleteOrganizationMembership o u).
Proof.
  unfold sql_DeleteOrganizationMembership. sql_cases. apply schema_memberships; [|done].
  intros o' u' m [_ Hm]%lookup_delete_Some. by eapply sch_members.
Qed.

Lemma sql_UpdateOrganizationMembershipStatus_sound st o u : sound schema (sql_UpdateOrganizationMembershipStatus st o u).
Proof.
  unfold sql_UpdateOrganizationMembershipStatus. sql_cases. apply schema_memberships; [|done].
  intros o' u' m. rewrite lookup_alter_Some. intros [([= <- <-] & m0 & Hm & ->)|[_ Hm]];
    by eapply sch_members.
Qed.

Lemma sql_AcceptOrganizationInvite_sound t id o : sound schema (sql_AcceptOrganizationInvite t id o).
Proof. unfold sql_AcceptOrganizationInvite. sql_cases. by apply (schema_update_invites _ _ (λ _, t)). Qed.

Lemma sql_AddActiveOrganizationMembership_sound o u : sound schema (sql_AddActiveOrganizationMembership o u).
Proof.
  unfold sql_AddActiveOrganizationMembership. sql_cases; [|eauto using insert_membership_schema].
  apply schema_memberships; [|done].
  intros o' u' mm. rewrite lookup_insert_Some. intros [[[= <- <-] <-]|[_ Hm]]; by eapply sch_members.
Qed.

Lemma sql_CreateOrganizationInvite_sound id o e h inv st t1 t2 :
  sound schema (sql_CreateOrganizationInvite id o e h inv st t1 t2).
Proof.
  unfold sql_CreateOrganizationInvite. sql_cases.
  match goal with H : first_where _ _ = None |- _ => rewrite first_where_None in H; rename H into Hc end.
  apply schema_invites; [| |done].
  - intros i r. rewrite lookup_insert_Some. intros [[<- <-]|[_ Hi]]; [simpl; eauto|by eapply sch_invites].
  - destruct (sch_invites_unique _ Hs) as [Ht Hp].
    assert (∀ i r, organization_invites db !! i = Some r →
      i ≠ id ∧ ir_token_hash r ≠ h ∧
      ¬ (st = InvitePending ∧ ir_org_id r = o ∧ lower (ir_email r) = lower e ∧ ir_status r = InvitePending)) as Hn.
    { intros i r Hi. specialize (Hc i r Hi). rewrite !orb_false_iff in Hc. destruct Hc as [[Hc1 Hc2] Hc3].
      apply bool_decide_eq_false in Hc1. apply String.eqb_neq in Hc2. split_and!; [done..|].
      intros (-> & <- & El & Est). unfold pending_for in Hc3. rewrite Hlow, El, Est, String.eqb_refl in Hc3.
      by rewrite !bool_decide_eq_true_2 in Hc3. }
    split; intros i j r q; rewrite !lookup_insert_Some; intros [[<- <-]|[? Hi]] [[<- <-]|[? Hj]]; simpl; try done; eauto;
      intros; exfalso; [destruct (Hn j q Hj)|destruct (Hn i r Hi)|destruct (Hn j q Hj)|destruct (Hn i r Hi)]; naive_solver.
Qed.

Lemma sql_RevokeOrganizationInvite_sound id o : sound schema (sql_RevokeOrganizationInvite id o).
Proof. unfold sql_RevokeOrganizationInvite. sql_cases. by apply schema_update_invites. Qed.

Lemma sql_RevokePending_sound o e : sound schema (sql_RevokePendingOrganizationInvitesForEmail o e).
Proof. unfold sql_RevokePendingOrganizationInvitesForEmail. sql_cases. by apply schema_update_invites. Qed.

Lemma sql_InsertOutbox_sound sub env : sound schema (sql_InsertOutbox sub env).
Proof. unfold sql_InsertOutbox. sql_cases. by apply schema_outbox. Qed.

(** *** Statements that only read *)

Ltac sql_reads := intros s db a db' Hq; repeat case_match; simplify_eq; done.

Lemma sql_FindUserByEmail_reads e : readonly (sql_FindUserByEmail e).
Proof. unfold sql_FindUserByEmail. sql_reads. Qed.
Lemma sql_FindUserByID_reads i : readonly (sql_FindUserByID i).
Proof. unfold sql_FindUserByID. sql_reads. Qed.
Lemma sql_FindUserByMobile_reads m : readonly (sql_FindUserByMobile m).
Proof. unfold sql_FindUserByMobile. sql_reads. Qed.
Lemma sql_GetLatestChallenge_reads i c : readonly (sql_GetLatestChallenge i c).
Proof. unfold sql_GetLatestChallenge. sql_reads. Qed.
Lemma sql_FindValidRefreshToken_reads h : readonly (sql_FindValidRefreshToken h).
Proof. unfold sql_FindValidRefreshToken. sql_reads. Qed.
Lemma sql_FindAPITokenByPrefix_reads p : readonly (sql_FindAPITokenByPrefix p).
Proof. unfold sql_FindAPITokenByPrefix. sql_reads. Qed.
Lemma sql_ListAPITokensByUser_reads u : readonly (sql_ListAPITokensByUser u).
Proof. unfold sql_ListAPITokensByUser. sql_reads. Qed.
Lemma sql_CountActiveOrganizationMembers_reads o : readonly (sql_CountActiveOrganizationMembers o).
Proof. unfold sql_CountActiveOrganizationMembers. sql_reads. Qed.
Lemma sql_GetOrganization_reads o : readonly (sql_GetOrganization o).
Proof. unfold sql_GetOrganization. sql_reads. Qed.
Lemma sql_GetOrganizationMembership_reads o u : readonly (sql_GetOrganizationMembership o u).
Proof. unfold sql_GetOrganizationMembership. sql_reads. Qed.
Lemma sql_ListOrganizationMembers_reads o : readonly (sql_ListOrganizationMembers o).
Proof. unfold sql_ListOrganizationMembers. sql_reads. Qed.
Lemma sql_ListOrganizationsForUser_reads u : readonly (sql_ListOrganizationsForUser u).
Proof. unfold sql_ListOrganizationsForUser. sql_reads. Qed.
Lemma sql_LockOrganization_reads o : readonly (sql_LockOrganization o).
Proof. unfold sql_LockOrganization. sql_reads. Qed.
Lemma sql_FindOrganizationInviteByTokenHash_reads h : readonly (sql_FindOrganizationInviteByTokenHash h).
Proof. unfold sql_FindOrganizationInviteByTokenHash. sql_reads. Qed.
Lemma sql_ListOrganizationInvites_reads o : readonly (sql_ListOrganizationInvites o).
Proof. unfold sql_ListOrganizationInvites. sql_reads. Qed.
Lemma sql_ListFeatureFlags_reads le : readonly (sql_ListFeatureFlags le).
Proof. unfold sql_ListFeatureFlags. sql_reads. Qed.
End props.

#[export] Hint Resolve readonly_sound : sql.
#[export] Hint Resolve sql_FindUserByEmail_reads sql_FindUserByID_reads sql_FindUserByMobile_reads
  sql_GetLatestChallenge_reads sql_FindValidRefreshToken_reads sql_FindAPITokenByPrefix_reads
  sql_ListAPITokensByUser_reads sql_CountActiveOrganizationMembers_reads sql_GetOrganization_reads
  sql_GetOrganizationMembership_reads sql_ListOrganizationMembers_reads sql_ListOrganizationsForUser_reads
  sql_LockOrganization_reads sql_FindOrganizationInviteByTokenHash_reads sql_ListOrganizationInvites_reads
  sql_ListFeatureFlags_reads : sql.
#[export] Hint Resolve sql_CreateSignupUser_sound sql_CreateUserWithEmail_sound sql_CreateUserWithMobile_sound
  sql_PurgeUnverifiedSignups_sound sql_ReissueSignupUser_sound sql_UpdateLastLogin_sound
  sql_UpsertDemoUserByEmail_sound sql_UpsertDemoUserByMobile_sound sql_VerifySignupUser_sound
  sql_ConsumeChallenge_sound sql_DeleteChallengesForIdentifier_sound sql_DeleteExpiredChallenges_sound
  sql_IncrementChallengeAttempts_sound sql_UpsertChallenge_sound sql_RevokeRefreshToken_sound
  sql_StoreRefreshToken_sound sql_CreateAPIToken_sound sql_RevokeAPIToken_sound
  sql_AddOrganizationMembership_sound sql_CreateOrganization_sound sql_DeleteEmptyOrganizations_sound
  sql_DeleteOrganizationMembership_sound sql_UpdateOrganizationMembershipStatus_sound
  sql_AcceptOrganizationInvite_sound sql_AddActiveOrganizationMembership_sound
  sql_CreateOrganizationInvite_sound sql_RevokeOrganizationInvite_sound sql_RevokePending_sound
  sql_InsertOutbox_sound : sql.
