(* ===== verification/World.v ===== *)
(** The effects of the program: the database through a pool or a transaction,
    the clocks, randomness, the message bus and notifications.

    A computation [M A] passes a [World] and returns a value, a Go error, or a
    panic.  What the outside decides is an [Env] of oracles indexed by a counter
    that every effect advances, so that two calls may see different times,
    identifiers and failures, and every theorem quantifies over all of them. *)
From S2P Require Import Prelude GoStrings Domain Libs Tables Database.
Local Open Scope Z_scope.

(** A request the notifications adapter sends to orbit-notifications. *)
Record SendRequest := mkSendRequest {
  Template : string;
  Channel : string;
  Recipient : string;
  CorrelationId : string;
  Vars : list (string * string);
}.

(** ** The environment *)

(** [bus_*] is orbit-message-bus, [bcrypt_*] golang.org/x/crypto/bcrypt,
    [rand_*] crypto/rand, [db_*] the server and the driver, [api_Send] the
    orbit-notifications client. *)
Class Env `{L : UUIDLib} := {
  Envelope : Type;
  bus_NewEnvelope : nat → string → Payload → string → string → error + Envelope;
  bus_setTimestamp : Envelope → time → Envelope;
  bus_Validate : Envelope → option error;
  bus_Payload : Envelope → Payload;
  go_now : nat → time;
  db_now : nat → time;
  db_order : nat → Scan;
  db_lower : string → string;
  db_collate : string → string → bool;
  db_fault : nat → option string;
  uuid_New : nat → uuid;
  bcrypt_Generate : nat → string → error + string;
  bcrypt_Compare : string → string → bool;
  rand_Int : nat → Z → error + Z;
  rand_Read : nat → nat → error + list ascii;
  api_Send : nat → SendRequest → option error;
}.

(** The encoding/json text of a timestamp exists for the years 0 to 9999. *)
Definition marshalable (t : time) : Prop := -31622400000000 ≤ t < 315537897600000000.
#[global] Instance marshalable_dec t : Decision (marshalable t).
Proof. unfold marshalable. apply _. Defined.

(** The documented behaviour of the bus: an envelope carries the payload it was
    built from.  A scan returns the rows it was given, in some order. *)
Class EnvLaws `{L : UUIDLib} (V : Env) : Prop := {
  bus_Payload_New : ∀ n subject p source version e,
    bus_NewEnvelope n subject p source version = inr e → bus_Payload e = p;
  bus_Payload_setTimestamp : ∀ e t, bus_Payload (bus_setTimestamp e t) = bus_Payload e;
  db_order_perm : ∀ n A (l : list A), scan (db_order n) A l ≡ₚ l;
}.

(** Runs in which no dependency fails. *)
Class Fair `{L : UUIDLib} (V : Env) : Prop := {
  fair_db : ∀ n, db_fault n = None;
  fair_bus : ∀ n subject p, ∃ e, bus_NewEnvelope n subject p EventSource EventVersion = inr e ∧
    ∀ t, bus_Validate (bus_setTimestamp e t) = None;
  fair_clock : ∀ n, marshalable (go_now n) ∧ go_now n ≠ 0;
}.

Inductive outcome (A : Type) :=
  | Ret (a : A)
  | Fail (err : error)
  | Panic (msg : string).
Arguments Ret {A} _.
Arguments Fail {A} _.
Arguments Panic {A} _.

Section world.
Context `{V : Env}.

Record World := mkWorld {
  w_db : DB Envelope;
  w_tx : option (time * DB Envelope);
  w_tick : nat;
  w_sent : list SendRequest;
}.

Definition M (A : Type) : Type := World → outcome A * World.

Definition ret {A} (a : A) : M A := λ w, (Ret a, w).
Definition fail {A} (e : error) : M A := λ w, (Fail e, w).
Definition panic {A} (msg : string) : M A := λ w, (Panic msg, w).

Definition bind {A B} (m : M A) (k : A → M B) : M B := λ w,
  match m w with
  | (Ret a, w) => k a w
  | (Fail e, w) => (Fail e, w)
  | (Panic p, w) => (Panic p, w)
  end.

(** [x, err := m]: the error is a value the continuation inspects. *)
Definition try {A} (m : M A) : M (error + A) := λ w,
  match m w with
  | (Ret a, w) => (Ret (inr a), w)
  | (Fail e, w) => (Ret (inl e), w)
  | (Panic p, w) => (Panic p, w)
  end.

(** [if err := m; err != nil { return f err }]. *)
Definition wrap {A} (f : error → error) (m : M A) : M A := λ w,
  match m w with
  | (Fail e, w) => (Fail (f e), w)
  | r => r
  end.

(** [_ = m]. *)
Definition ignore {A} (m : M A) : M unit := λ w,
  match m w with
  | (Panic p, w) => (Panic p, w)
  | (_, w) => (Ret (), w)
  end.

Definition of_sum {A} (r : error + A) : M A :=
  match r with inr a => ret a | inl e => fail e end.

(** The counter the oracles are indexed by. *)
Definition tick : M nat := λ w,
  (Ret (w_tick w), mkWorld (w_db w) (w_tx w) (S (w_tick w)) (w_sent w)).
End world.

Declare Scope orbit_scope.
Delimit Scope orbit_scope with orbit.
Notation "x <- m ;; k" := (bind m (λ x, k)) (at level 100, m at next level, right associativity) : orbit_scope.
Notation "'let*' p := m 'in' k" := (bind m (λ x, match x with p => k end))
  (at level 100, p pattern, m at level 99, k at level 100, right associativity) : orbit_scope.
Notation "m ;; k" := (bind m (λ _, k)) (at level 100, right associativity) : orbit_scope.
Local Open Scope orbit_scope.

Section effects.
Context `{V : Env}.

Definition Now : M time := n <- tick ;; ret (go_now n).
Definition NewUUID : M uuid := n <- tick ;; ret (uuid_New n).

(** uuid.Parse. *)
Definition Parse (s : string) : error + uuid :=
  match uuid_Parse s with Some u => inr u | None => inl (ErrParseUUID s) end.

(** ** The database *)

(** A statement runs on the pool, in a transaction of its own, or in the open
    transaction. *)
Inductive handle := Pool | Tx.

Definition run_query {A} (h : handle) (q : statement A) : M A := λ w,
  let n := w_tick w in
  match db_fault n with
  | Some what => (Fail (ErrUnavailable what), mkWorld (w_db w) (w_tx w) (S n) (w_sent w))
  | None =>
      match h with
      | Pool =>
          match q (mkServer (db_now n) (db_order n) db_lower) (w_db w) with
          | inl e => (Fail e, mkWorld (w_db w) (w_tx w) (S n) (w_sent w))
          | inr (a, db) => (Ret a, mkWorld db (w_tx w) (S n) (w_sent w))
          end
      | Tx =>
          match w_tx w with
          | None => (Fail ErrTxClosed, mkWorld (w_db w) (w_tx w) (S n) (w_sent w))
          | Some (started, db) =>
              match q (mkServer started (db_order n) db_lower) db with
              | inl e => (Fail e, mkWorld (w_db w) (w_tx w) (S n) (w_sent w))
              | inr (a, db) => (Ret a, mkWorld (w_db w) (Some (started, db)) (S n) (w_sent w))
              end
          end
      end
  end.

(** [pool.Begin]: the transaction works on a snapshot, and [NOW()] in it is its
    start. *)
Definition Begin : M unit := λ w,
  let n := w_tick w in
  match db_fault n with
  | Some what => (Fail (ErrUnavailable what), mkWorld (w_db w) (w_tx w) (S n) (w_sent w))
  | None => (Ret (), mkWorld (w_db w) (Some (db_now n, w_db w)) (S n) (w_sent w))
  end.

(** [tx.Commit]: a commit that reports an error wrote nothing. *)
Definition Commit : M unit := λ w,
  let n := w_tick w in
  match db_fault n, w_tx w with
  | Some what, _ => (Fail (ErrUnavailable what), mkWorld (w_db w) None (S n) (w_sent w))
  | None, None => (Fail ErrTxClosed, mkWorld (w_db w) None (S n) (w_sent w))
  | None, Some (_, db) => (Ret (), mkWorld db None (S n) (w_sent w))
  end.

(** [defer func() { _ = tx.Rollback(ctx) }()] around the rest of the function,
    which runs on every exit; after a commit it does nothing. *)
Definition deferRollback {A} (m : M A) : M A := λ w,
  let '(r, w) := m w in (r, mkWorld (w_db w) None (w_tick w) (w_sent w)).
End effects.
