(* ===== verification/Effects.v ===== *)
(** Reasoning about effectful code: properties of how a computation changes the
    world that are closed under the monad's operations, so that a program has
    them when its statements do. *)
From S2P Require Import Prelude GoStrings Domain Libs Tables Database DatabaseProps World.
Local Open Scope orbit_scope.

Section effects.
Context `{V : Env}.

(** ** Relations between the worlds before and after *)

Class Steps {A} (R : relation World) (m : M A) : Prop := steps : ∀ w, R w (m w).2.

Section closure.
Context (R : relation World) `{!PreOrder R}.

Lemma steps_ret {A} (a : A) : Steps R (ret a).
Proof. intros w. reflexivity. Qed.
Lemma steps_fail {A} e : Steps R (fail (A:=A) e).
Proof. intros w. reflexivity. Qed.
Lemma steps_panic {A} p : Steps R (panic (A:=A) p).
Proof. intros w. reflexivity. Qed.
Lemma steps_of_sum {A} (r : error + A) : Steps R (of_sum r).
Proof. destruct r; [apply steps_fail|apply steps_ret]. Qed.

Lemma steps_bind {A B} (m : M A) (k : A → M B) : Steps R m → (∀ a, Steps R (k a)) → Steps R (bind m k).
Proof.
  intros Hm Hk w. specialize (Hm w). unfold bind. destruct (m w) as [[a|e|p] w']; simpl in *; [|done..].
  etrans; [exact Hm|apply Hk].
Qed.

Lemma steps_try {A} (m : M A) : Steps R m → Steps R (try m).
Proof. intros Hm w. specialize (Hm w). unfold try. by destruct (m w) as [[] ?]. Qed.
Lemma steps_wrap {A} f (m : M A) : Steps R m → Steps R (wrap f m).
Proof. intros Hm w. specialize (Hm w). unfold wrap. by destruct (m w) as [[] ?]. Qed.
Lemma steps_ignore {A} (m : M A) : Steps R m → Steps R (ignore m).
Proof. intros Hm w. specialize (Hm w). unfold ignore. by destruct (m w) as [[] ?]. Qed.
End closure.

(** *** Work inside a transaction *)

(** The committed tables and the sent notifications are left alone. *)
Definition uncommitted (w w' : World) : Prop := w_db w' = w_db w ∧ w_sent w' = w_sent w.
#[global] Instance uncommitted_preorder : PreOrder uncommitted.
Proof. split; [by split|]. intros w1 w2 w3 [??] [??]. split; congruence. Qed.

Lemma uncommitted_tick : Steps uncommitted tick.
Proof. by intros w. Qed.
Lemma uncommitted_Now : Steps uncommitted Now.
Proof. by intros w. Qed.
Lemma uncommitted_NewUUID : Steps uncommitted NewUUID.
Proof. by intros w. Qed.
Lemma uncommitted_Tx {A} (q : statement A) : Steps uncommitted (run_query Tx q).
Proof. intros w. unfold run_query. repeat case_match; by simplify_eq/=. Qed.
Lemma uncommitted_reads {A} h (q : statement A) : readonly q → Steps uncommitted (run_query h q).
Proof.
  intros Hq. destruct h; [|apply uncommitted_Tx]. intros w. unfold run_query.
  repeat case_match; simplify_eq/=; try done.
  match goal with H : q _ _ = inr _ |- _ => by apply Hq in H as -> end.
Qed.
Lemma uncommitted_Begin : Steps uncommitted Begin.
Proof. intros w. unfold Begin. by case_match. Qed.
Lemma uncommitted_deferRollback {A} (m : M A) : Steps uncommitted m → Steps uncommitted (deferRollback m).
Proof. intros Hm w. specialize (Hm w). unfold deferRollback. by destruct (m w). Qed.

(** ** Atomicity *)

Definition failed {A} (r : outcome A) : Prop := match r with Ret _ => False | _ => True end.

(** A call that fails has changed no committed row. *)
Class Atomic {A} (m : M A) : Prop :=
  atomic : ∀ w, failed (m w).1 → w_db (m w).2 = w_db w.

Lemma atomic_ext {A} (m m' : M A) : (∀ w, m w = m' w) → Atomic m' → Atomic m.
Proof. intros He Hm w. rewrite He. apply Hm. Qed.

Lemma atomic_uncommitted {A} (m : M A) : Steps uncommitted m → Atomic m.
Proof. intros Hm w _. by destruct (Hm w). Qed.

Lemma atomic_bind {A B} (m : M A) (k : A → M B) :
  Steps uncommitted m → (∀ a, Atomic (k a)) → Atomic (bind m k).
Proof.
  intros Hm Hk w. destruct (Hm w) as [Hdb _]. unfold bind. destruct (m w) as [[a|e|p] w']; simpl in *; [|done..].
  intros Hf. rewrite <- Hdb. by apply Hk.
Qed.

(** After the commit only the result is built. *)
Lemma atomic_then_ret {A B} (m : M A) (f : A → B) : Atomic m → Atomic (bind m (λ a, ret (f a))).
Proof. intros Hm w. specialize (Hm w). unfold bind. by destruct (m w) as [[a|e|p] w']. Qed.

Lemma atomic_wrap {A} f (m : M A) : Atomic m → Atomic (wrap f m).
Proof. intros Hm w. specialize (Hm w). unfold wrap. by destruct (m w) as [[] ?]. Qed.

Lemma atomic_deferRollback {A} (m : M A) : Atomic m → Atomic (deferRollback m).
Proof. intros Hm w. specialize (Hm w). unfold deferRollback. by destruct (m w) as [[] ?]. Qed.

Lemma atomic_Commit : Atomic Commit.
Proof. intros w. unfold Commit. repeat case_match; by simplify_eq/=. Qed.

Lemma atomic_Pool {A} (q : statement A) : Atomic (run_query Pool q).
Proof. intros w. unfold run_query. repeat case_match; by simplify_eq/=. Qed.

(** A statement on the pool whose result decides an error only when it wrote
    nothing. *)
Lemma atomic_Pool_guard {A B} (q : statement A) (k : A → M B) f :
  (∀ s db a db', q s db = inr (a, db') → (∃ b, k a = ret b) ∨ (∃ e, k a = fail e) ∧ db' = db) →
  Atomic (bind (wrap f (run_query Pool q)) k).
Proof.
  intros Hq w. unfold bind, wrap, run_query. destruct (db_fault _); [done|].
  destruct (q _ (w_db w)) as [e|[a db']] eqn:E; [done|].
  destruct (Hq _ _ _ _ E) as [[b ->]|[[e ->] ->]]; simpl; done.
Qed.

(** ** No transaction is left open, nothing is sent *)

Definition closes (w w' : World) : Prop := (w_tx w = None → w_tx w' = None) ∧ w_sent w' = w_sent w.
#[global] Instance closes_preorder : PreOrder closes.
Proof. split; [by split|]. intros w1 w2 w3 [??] [??]. split; [auto|congruence]. Qed.

Lemma closes_tick : Steps closes tick.
Proof. by intros w. Qed.
Lemma closes_Now : Steps closes Now.
Proof. by intros w. Qed.
Lemma closes_NewUUID : Steps closes NewUUID.
Proof. by intros w. Qed.
Lemma closes_Pool {A} (q : statement A) : Steps closes (run_query Pool q).
Proof. intros w. unfold run_query. repeat case_match; by simplify_eq/=. Qed.

Definition silent (w w' : World) : Prop := w_sent w' = w_sent w.
#[global] Instance silent_preorder : PreOrder silent.
Proof. split; [done|]. intros w1 w2 w3 ??. unfold silent in *. congruence. Qed.

Lemma silent_tick : Steps silent tick.
Proof. by intros w. Qed.
Lemma silent_Now : Steps silent Now.
Proof. by intros w. Qed.
Lemma silent_NewUUID : Steps silent NewUUID.
Proof. by intros w. Qed.
Lemma silent_query {A} h (q : statement A) : Steps silent (run_query h q).
Proof. intros w. unfold run_query, silent. repeat case_match; by simplify_eq/=. Qed.
Lemma silent_Commit : Steps silent Commit.
Proof. intros w. unfold Commit, silent. repeat case_match; by simplify_eq/=. Qed.

Lemma closes_transaction {A} f (m : M A) : Steps silent m → Steps closes (wrap f Begin ;; deferRollback m).
Proof.
  intros Hm w. unfold bind, wrap, Begin. destruct (db_fault (w_tick w)); [by split|].
  set (w1 := mkWorld _ _ _ _). specialize (Hm w1). unfold deferRollback.
  destruct (m w1) as [r w2]. split; [done|exact Hm].
Qed.

(** ** Invariants of the tables *)

Definition good (P : DB Envelope → Prop) (w : World) : Prop :=
  P (w_db w) ∧ (∀ t db, w_tx w = Some (t, db) → P db).

Definition keeping (P : DB Envelope → Prop) (w w' : World) : Prop := good P w → good P w'.
#[global] Instance keeping_preorder P : PreOrder (keeping P).
Proof. split; [by intros w H|]. intros w1 w2 w3 H1 H2 H. auto. Qed.

Section keeping.
Context (P : DB Envelope → Prop).

Lemma keeping_tick : Steps (keeping P) tick.
Proof. intros w H. exact H. Qed.
Lemma keeping_Now : Steps (keeping P) Now.
Proof. intros w H. exact H. Qed.
Lemma keeping_NewUUID : Steps (keeping P) NewUUID.
Proof. intros w H. exact H. Qed.

Lemma keeping_query {A} h (q : statement A) : sound db_lower P q → Steps (keeping P) (run_query h q).
Proof.
  intros Hq w [Hdb Htx]. unfold run_query. destruct (db_fault _); [done|]. destruct h.
  - destruct (q _ (w_db w)) as [e|[a db']] eqn:E; split; simpl; try done.
    eapply Hq; [|done|exact E]. done.
  - destruct (w_tx w) as [[t db]|] eqn:Et; [|by split; simpl; rewrite ?Et].
    destruct (q _ db) as [e|[a db']] eqn:E; split; simpl; rewrite ?Et; try done.
    intros t' db'' [= <- <-]. eapply Hq; [|by eapply Htx|exact E]. done.
Qed.

Lemma keeping_Begin : Steps (keeping P) Begin.
Proof. intros w [Hdb Htx]. unfold Begin. destruct (db_fault _); split; simpl; try done. by intros ?? [= <- <-]. Qed.

Lemma keeping_Commit : Steps (keeping P) Commit.
Proof.
  intros w [Hdb Htx]. unfold Commit. destruct (db_fault _); [by split|].
  destruct (w_tx w) as [[t db]|] eqn:E; split; simpl; try done. by eapply Htx.
Qed.

Lemma keeping_deferRollback {A} (m : M A) : Steps (keeping P) m → Steps (keeping P) (deferRollback m).
Proof.
  intros Hm w Hw. specialize (Hm w Hw). unfold deferRollback. destruct (m w) as [r w']. by destruct Hm.
Qed.
End keeping.

(** *** Work that writes last *)

(** The tables and the open transaction are left alone. *)
Definition still (w w' : World) : Prop := w_db w' = w_db w ∧ w_tx w' = w_tx w.
#[global] Instance still_preorder : PreOrder still.
Proof. split; [by split|]. intros w1 w2 w3 [??] [??]. split; congruence. Qed.

Lemma still_tick : Steps still tick.
Proof. by intros w. Qed.

Lemma still_keeping P w w' : still w w' → keeping P w w'.
Proof. intros [E1 E2] [Hd Ht]. split; [by rewrite E1|by rewrite E2]. Qed.

(** When it fails nothing was written. *)
Definition writes_last {A} (m : M A) : Prop := ∀ w, failed (m w).1 → still w (m w).2.

Lemma writes_last_bind {A B} (m : M A) (k : A → M B) : Steps still m → (∀ a, writes_last (k a)) → writes_last (bind m k).
Proof.
  intros Hm Hk w. specialize (Hm w). unfold bind. destruct (m w) as [[a|e|p] w']; simpl in *; [|done..].
  intros Hf. etrans; [exact Hm|by apply Hk].
Qed.

Lemma writes_last_then_ret {A B} (m : M A) (f : A → B) : writes_last m → writes_last (bind m (λ a, ret (f a))).
Proof. intros Hm w. specialize (Hm w). unfold bind. by destruct (m w) as [[a|e|p] w']. Qed.

Lemma writes_last_Pool {A} (q : statement A) : writes_last (run_query Pool q).
Proof. intros w. unfold run_query. repeat case_match; by simplify_eq/=. Qed.

(** *** What a computation that fails leaves *)

Definition fails_steps {A} (R : relation World) (m : M A) : Prop := ∀ w, failed (m w).1 → R w (m w).2.

Lemma steps_fails_steps {A} R (m : M A) : Steps R m → fails_steps R m.
Proof. intros Hm w _. apply Hm. Qed.

Lemma fails_bind {A B} R `{!PreOrder R} (m : M A) (k : A → M B) :
  Steps R m → (∀ a, fails_steps R (k a)) → fails_steps R (bind m k).
Proof.
  intros Hm Hk w. specialize (Hm w). unfold bind. destruct (m w) as [[a|e|p] w']; simpl in *; [|done..].
  intros Hf. etrans; [exact Hm|by apply Hk].
Qed.

Lemma fails_then_ret {A B} R (m : M A) (f : A → B) : fails_steps R m → fails_steps R (bind m (λ a, ret (f a))).
Proof. intros Hm w. specialize (Hm w). unfold bind. by destruct (m w) as [[a|e|p] w']. Qed.

(** No transaction is left open. *)
Definition unlocked (w w' : World) : Prop := w_tx w = None → w_tx w' = None.
#[global] Instance unlocked_preorder : PreOrder unlocked.
Proof. split; [by intros w H|]. intros w1 w2 w3 H1 H2 H. by apply H2, H1. Qed.

Lemma still_unlocked w w' : still w w' → unlocked w w'.
Proof. intros [_ E] H. congruence. Qed.

(** The committed tables satisfy what the statements keep. *)
Lemma keeping_db {A} (P : DB Envelope → Prop) (m : M A) w :
  Steps (keeping P) m → w_tx w = None → P (w_db w) → P (w_db (m w).2).
Proof. intros Hm Ht HP. apply (Hm w). split; [done|]. by rewrite Ht. Qed.
End effects.

Create HintDb effects.
#[export] Hint Resolve steps_ret steps_fail steps_panic steps_of_sum steps_try steps_wrap steps_ignore
  uncommitted_tick uncommitted_Now uncommitted_NewUUID uncommitted_Tx uncommitted_reads uncommitted_Begin
  closes_tick closes_Now closes_NewUUID closes_Pool closes_transaction
  silent_tick silent_Now silent_NewUUID silent_query silent_Commit
  keeping_tick keeping_Now keeping_NewUUID keeping_query keeping_Begin keeping_Commit
  atomic_wrap atomic_deferRollback atomic_Commit atomic_Pool : effects.

(** Walks a program: sequencing, branches, then the hints for the leaves. *)
Ltac walk :=
  repeat first
    [ progress cbv zeta
    | match goal with
      | |- Steps _ (match ?x with _ => _ end) => destruct x
      | |- Atomic (match ?x with _ => _ end) => destruct x
      end
    | apply keeping_deferRollback
    | apply uncommitted_deferRollback
    | apply closes_transaction
    | apply atomic_deferRollback
    | apply atomic_then_ret
    | apply atomic_wrap
    | apply atomic_Commit
    | apply atomic_Pool
    | apply steps_bind; [apply _| |intros ?]
    | apply atomic_bind; [|intros ?]
    | apply steps_try
    | apply steps_wrap
    | apply steps_ignore
    | solve [auto with effects sql typeclass_instances]
    | solve [apply atomic_uncommitted; auto with effects typeclass_instances] ].
