(* ===== verification/Demo.v ===== *)
(** A concrete environment: every assumption made of the outside world holds in
    it at once, and examples compute in it. *)
From S2P Require Import Prelude GoStrings Domain Libs Tables Database World.
Local Open Scope Z_scope.

(** Identifier number [n]: the binary digits of [n + 1], low bit first. *)
Fixpoint pos_bits (p : positive) : list bool :=
  match p with
  | xH => [true]
  | xO p => false :: pos_bits p
  | xI p => true :: pos_bits p
  end.

Definition demo_id (n : nat) : @uuid bits_uuid := pos_bits (Pos.of_succ_nat n).

Lemma pos_bits_inj : Inj (=) (=) pos_bits.
Proof.
  intros p. induction p as [p IH|p IH|]; intros [q|q|]; simpl; try done; intros [= E]; try (by f_equal; apply IH).
  all: by destruct p || destruct q.
Qed.

(** Calls fail where [fault] says; otherwise everything succeeds, one microsecond
    after the other. *)
Definition demo_env (fault : nat → option string) : @Env bits_uuid := {|
  Envelope := Payload * time;
  bus_NewEnvelope _ _ p _ _ := inr (p, 0);
  bus_setTimestamp e t := (e.1, t);
  bus_Validate _ := None;
  bus_Payload e := e.1;
  go_now n := 63871372800000000 + Z.min (Z.of_nat n) 1000000000;
  db_now n := 63871372800000000 + Z.min (Z.of_nat n) 1000000000;
  db_order _ := mkScan (λ A l, l);
  db_lower := lower_ascii;
  db_collate s t := String.leb s t;
  db_fault := fault;
  uuid_New n := demo_id n;
  bcrypt_Generate n s := inr ("$" +:+ s);
  bcrypt_Compare h s := String.eqb h ("$" +:+ s);
  rand_Int n max := inr (Z.of_nat n mod max);
  rand_Read n len := inr (repeat "A"%char len);
  api_Send _ _ := None;
|}.

Lemma demo_env_laws fault : EnvLaws (demo_env fault).
Proof. split; [by intros ????? e [= <-]|done|done]. Qed.

Definition calm : nat → option string := λ _, None.

Lemma demo_env_fair : Fair (demo_env calm).
Proof.
  split; [done| |].
  - intros. by eexists.
  - intros n. unfold marshalable. simpl. lia.
Qed.

(** The empty database, and a world to start from. *)
Definition empty_db `{L : UUIDLib} {E} : DB E := mkDB ∅ ∅ ∅ ∅ ∅ ∅ ∅ [] ∅.
Definition start `{V : Env} (db : DB Envelope) : World := mkWorld db None 0 [].
