(* ===== verification/Ports.v ===== *)
(** The ports of [internal/domain/ports.go]: a record of operations per Go
    interface.  An interface value that may be nil is an option of its record. *)
From S2P Require Import Prelude GoStrings Domain Libs Tables Database World.
Local Open Scope Z_scope.

Section ports.
Context `{V : Env}.

Record OTPStore := mkOTPStore {
  otp_UpsertChallenge : OTPChallenge → M unit;
  otp_GetLatestChallenge : string → string → M OTPChallenge;
  otp_IncrementAttempts : string → M unit;
  otp_ConsumeChallenge : string → M unit;
  otp_DeleteExpiredChallenges : M unit;
}.

Record UserStore := mkUserStore {
  us_FindOrCreateByEmail : string → M User;
  us_FindOrCreateByMobile : string → M User;
  us_FindByEmail : string → M User;
  us_FindByMobile : string → M User;
  us_FindByID : string → M User;
  us_UpdateLastLogin : string → M unit;
  us_UpsertDemoUser : string → string → string → string → M unit;
}.

Record SignupStore := mkSignupStore {
  ss_CreateSignupUser : User → option Organization → option Invite → time → M bool;
  ss_ReissuePendingSignup : User → option OTPChallenge → option Invite → time → M (string * bool);
  ss_VerifySignup : string → time → M unit;
  ss_PurgeUnverifiedSignups : time → M Z;
}.

Record RefreshTokenStore := mkRefreshTokenStore {
  rs_Store : string → string → string → time → M unit;
  rs_FindValid : string → M (string * string);
  rs_Revoke : string → M unit;
}.

Record APITokenStore := mkAPITokenStore {
  ts_Create : APIToken → M unit;
  ts_ListByUser : string → M (list APITokenInfo);
  ts_RevokeToken : string → string → M unit;
  ts_FindByPrefix : string → M APIToken;
}.

Record OrgStore := mkOrgStore {
  os_CreateOrg : Organization → string → M unit;
  os_GetOrg : string → M Organization;
  os_ListOrgsForUser : string → M (list Organization);
  os_ListMembers : string → M (list Membership);
  os_AddMember : string → string → MembershipStatus → M unit;
  os_UpdateMemberStatus : string → string → MembershipStatus → M unit;
  os_RemoveMember : string → string → M unit;
  os_GetMembership : string → string → M Membership;
}.

Record InviteStore := mkInviteStore {
  is_CreateInvite : Invite → M unit;
  is_FindInviteByTokenHash : string → M Invite;
  is_ListInvites : string → M (list Invite);
  is_RevokeInvite : string → string → M unit;
  is_AcceptInvite : string → string → string → time → M unit;
}.

Definition FeatureFlagStore : Type := M (list FeatureFlag).

Record Notifier := mkNotifier {
  SendOTP : string → string → string → string → M unit;
  SendSignupVerification : string → string → Z → string → string → M unit;
  SendOrgInvite : InviteNotification → M unit;
}.

(** [Flags.Bool flag defaultVal]. *)
Definition Flags : Type := string → bool → M bool.

Definition Clock : Type := M time.
Definition IDGenerator : Type := M string.
Definition CodeGenerator : Type := M string.
Definition SecretGenerator : Type := M string.

Record TokenSigner := mkTokenSigner {
  SignAccessToken : string → time → M string;
  SignAccessTokenWithOrg : string → string → time → M string;
}.

Record Hasher := mkHasher {
  Hash : string → M string;
  Compare : string → string → M bool;
}.

Definition EventSink : Type := Event → M unit.
End ports.
