(* ===== verification/Postgres.v ===== *)
(** Package [internal/infrastructure/postgres]: the store methods, statement by
    statement, with their transactions.

    [Store] is the pool with its queries; [run_query Pool] is a method of
    [s.queries] and [run_query Tx] one of [s.queries.WithTx(tx)]. *)
From S2P Require Import Prelude GoStrings Domain Libs Tables Database World Ports.
Local Open Scope Z_scope.
Local Open Scope orbit_scope.

Section postgres.
Context `{V : Env}.

(** ** Conversions of store.go *)

Definition timestamptz (t : time) : option time := if IsZero t then None else Some t.

(** [timestamptzPtr] and [timePtr] convert a pointer to a nullable column and
    back. *)
Definition timestamptzPtr (t : option time) : option time := t.
Definition timePtr (t : option time) : option time := t.

Definition parseID (format s : string) : M uuid := wrap (Errorw format [s]) (of_sum (Parse s)).

(** ** events.go *)

Definition errMarshalTime : error := Errorf "Time.MarshalJSON: year outside of range [0,9999]" [].

(** encoding/json on a payload fails on its timestamp or not at all. *)
Definition payload_time (p : Payload) : time :=
  match p with
  | UserCreatedPayload _ t | OrgCreatedPayload _ _ t | MembershipAddedPayload _ _ _ t
  | MembershipRemovedPayload _ _ _ t | MembershipSuspendedPayload _ _ _ t => t
  end.

Definition Marshal (p : Payload) : error + Payload :=
  if decide (marshalable (payload_time p)) then inr p else inl errMarshalTime.

(** [outboxSink.Emit], bound to the open transaction. *)
Definition Emit (event : Event) : M unit :=
  occurredAt <- (if IsZero (e_OccurredAt event) then Now else ret (e_OccurredAt event)) ;;
  payload <- wrap (Errorw "postgres: marshal %s payload: %w" [e_Subject event]) (of_sum (Marshal (e_Payload event))) ;;
  n <- tick ;;
  env <- wrap (Errorw "postgres: envelope %s: %w" [e_Subject event])
    (of_sum (bus_NewEnvelope n (e_Subject event) payload EventSource EventVersion)) ;;
  let env := bus_setTimestamp env occurredAt in
  match bus_Validate env with
  | Some err => fail (Errorw "postgres: envelope %s: %w" [e_Subject event] err)
  | None =>
      wrap (Errorw "postgres: outbox %s: %w" [e_Subject event])
        (run_query Tx (sql_InsertOutbox (e_Subject event) env))
  end.

Fixpoint emitEvents (sink : EventSink) (events : list Event) : M unit :=
  match events with
  | [] => ret ()
  | event :: events => sink event ;; emitEvents sink events
  end.

(** ** store.go *)

Definition UpsertChallenge (ch : OTPChallenge) : M unit :=
  id <- parseID "postgres: challenge id %q: %w" (ch_ID ch) ;;
  createdAt <- (if IsZero (ch_CreatedAt ch) then Now else ret (ch_CreatedAt ch)) ;;
  run_query Pool (sql_UpsertChallenge id (ch_Identifier ch) (ch_Channel ch) (ch_CodeHash ch)
    (timestamptz (ch_ExpiresAt ch)) (timestamptz createdAt)).

Definition GetLatestChallenge (identifier channel : string) : M OTPChallenge :=
  run_query Pool (sql_GetLatestChallenge identifier channel).

Definition IncrementAttempts (id : string) : M unit :=
  parsed <- parseID "postgres: challenge id %q: %w" id ;;
  run_query Pool (sql_IncrementChallengeAttempts parsed).

Definition ConsumeChallenge (id : string) : M unit :=
  parsed <- parseID "postgres: challenge id %q: %w" id ;;
  run_query Pool (sql_ConsumeChallenge parsed).

Definition DeleteExpiredChallenges : M unit := run_query Pool sql_DeleteExpiredChallenges.

Definition findByEmail (email : string) : M User := run_query Pool (sql_FindUserByEmail email).
Definition FindByEmail (email : string) : M User := findByEmail email.
Definition findByMobile (mobile : string) : M User := run_query Pool (sql_FindUserByMobile mobile).
Definition FindByMobile (mobile : string) : M User := findByMobile mobile.

Definition FindByID (userID : string) : M User :=
  parsed <- parseID "postgres: user id %q: %w" userID ;;
  r <- try (run_query Pool (sql_FindUserByID parsed)) ;;
  match r with
  | inr user => ret user
  | inl err => if errors_Is err ErrNoRows then fail ErrUserNotFound else fail err
  end.

Definition FindOrCreateByEmail (email : string) : M User :=
  r <- try (findByEmail email) ;;
  match r with
  | inr user => ret user
  | inl err =>
      if negb (errors_Is err ErrNoRows) then fail err else
      u <- NewUUID ;;
      let id := uuid_String u in
      let user := mkUser id email "" "" "" UserActive false in
      parsed <- of_sum (Parse id) ;;
      occurredAt <- Now ;;
      wrap (Errorw "postgres: begin create user: %w" []) Begin ;;
      deferRollback (
        run_query Tx (sql_CreateUserWithEmail parsed email (u_Status user)) ;;
        emitEvents Emit [NewUserCreatedEvent (u_ID user) occurredAt] ;;
        wrap (Errorw "postgres: commit create user: %w" []) Commit ;;
        ret user)
  end.

Definition FindOrCreateByMobile (mobile : string) : M User :=
  r <- try (findByMobile mobile) ;;
  match r with
  | inr user => ret user
  | inl err =>
      if negb (errors_Is err ErrNoRows) then fail err else
      u <- NewUUID ;;
      let id := uuid_String u in
      parsed <- of_sum (Parse id) ;;
      occurredAt <- Now ;;
      wrap (Errorw "postgres: begin create user: %w" []) Begin ;;
      deferRollback (
        run_query Tx (sql_CreateUserWithMobile parsed mobile) ;;
        let user := mkUser id "" mobile "" "" "" false in
        emitEvents Emit [NewUserCreatedEvent (u_ID user) occurredAt] ;;
        wrap (Errorw "postgres: commit create user: %w" []) Commit ;;
        ret user)
  end.

Definition UpdateLastLogin (userID : string) : M unit :=
  parsed <- parseID "postgres: user id %q: %w" userID ;;
  run_query Pool (sql_UpdateLastLogin parsed).

(** [created] is decided by a lookup whose only tolerated failure is no rows. *)
Definition not_found {A} (m : M A) : M bool :=
  r <- try m ;;
  match r with
  | inr _ => ret false
  | inl err => if errors_Is err ErrNoRows then ret true else fail err
  end.

Definition UpsertDemoUser (email mobile passwordHash displayName : string) : M unit :=
  let emailPtr := if String.eqb email "" then None else Some email in
  let mobilePtr := if String.eqb mobile "" then None else Some mobile in
  wrap (Errorw "postgres: begin upsert demo user: %w" []) Begin ;;
  deferRollback (
    created <- (if negb (String.eqb email "") then not_found (run_query Tx (sql_FindUserByEmail email))
                else not_found (run_query Tx (sql_FindUserByMobile mobile))) ;;
    id <- NewUUID ;;
    (if String.eqb email "" then run_query Tx (sql_UpsertDemoUserByMobile id emailPtr mobilePtr passwordHash displayName)
     else run_query Tx (sql_UpsertDemoUserByEmail id emailPtr mobilePtr passwordHash displayName)) ;;
    (if created : bool then
       at_ <- Now ;; emitEvents Emit [NewUserCreatedEvent (uuid_String id) at_]
     else ret ()) ;;
    wrap (Errorw "postgres: commit upsert demo user: %w" []) Commit).

Definition Store_ (userID orgID tokenHash : string) (expiresAt : time) : M unit :=
  user <- parseID "postgres: user id %q: %w" userID ;;
  org <- (if negb (String.eqb orgID "") then
            parsed <- parseID "postgres: org id %q: %w" orgID ;; ret (Some parsed)
          else ret None) ;;
  id <- NewUUID ;;
  run_query Pool (sql_StoreRefreshToken id user org tokenHash (timestamptz expiresAt)).

Definition FindValid (tokenHash : string) : M (string * string) := run_query Pool (sql_FindValidRefreshToken tokenHash).
Definition Revoke (tokenHash : string) : M unit := run_query Pool (sql_RevokeRefreshToken tokenHash).

Definition Create (t : APIToken) : M unit :=
  id <- parseID "postgres: api token id %q: %w" (at_ID t) ;;
  userID <- parseID "postgres: user id %q: %w" (at_UserID t) ;;
  run_query Pool (sql_CreateAPIToken id userID (at_Name t) (at_Prefix t) (at_TokenHash t) (at_Scopes t)
    (timestamptzPtr (at_ExpiresAt t))).

Definition ListByUser (userID : string) : M (list APITokenInfo) :=
  parsed <- parseID "postgres: user id %q: %w" userID ;;
  run_query Pool (sql_ListAPITokensByUser parsed).

Definition RevokeToken (userID tokenID : string) : M unit :=
  user <- parseID "postgres: user id %q: %w" userID ;;
  token <- parseID "postgres: api token id %q: %w" tokenID ;;
  run_query Pool (sql_RevokeAPIToken token user).

Definition FindByPrefix (prefix : string) : M APIToken := run_query Pool (sql_FindAPITokenByPrefix prefix).

(** ** organizations.go *)

Definition getMembership (h : handle) (orgID userID : uuid) : M Membership :=
  r <- try (run_query h (sql_GetOrganizationMembership orgID userID)) ;;
  match r with
  | inr m => ret m
  | inl err => if errors_Is err ErrNoRows then fail ErrNotMember else fail err
  end.

Definition lockOrganization (h : handle) (orgID : uuid) : M unit :=
  r <- try (run_query h (sql_LockOrganization orgID)) ;;
  match r with
  | inr _ => ret ()
  | inl err => if errors_Is err ErrNoRows then fail ErrOrgNotFound else fail err
  end.

Definition membershipIDs (orgID userID : string) : M (uuid * uuid) :=
  org <- parseID "postgres: organization id %q: %w" orgID ;;
  user <- parseID "postgres: user id %q: %w" userID ;;
  ret (org, user).

Definition CreateOrg (org : Organization) (creatorID : string) : M unit :=
  orgID <- parseID "postgres: organization id %q: %w" (o_ID org) ;;
  userID <- parseID "postgres: user id %q: %w" creatorID ;;
  wrap (Errorw "postgres: begin create organization: %w" []) Begin ;;
  deferRollback (
    wrap (Errorw "postgres: create organization: %w" [])
      (run_query Tx (sql_CreateOrganization orgID (o_Name org) (timestamptz (o_CreatedAt org)) (timestamptz (o_UpdatedAt org)))) ;;
    wrap (Errorw "postgres: add organization creator: %w" [])
      (run_query Tx (sql_AddOrganizationMembership orgID userID MembershipActive)) ;;
    occurredAt <- (if IsZero (o_CreatedAt org) then Now else ret (o_CreatedAt org)) ;;
    emitEvents Emit [NewOrgCreatedEvent (o_ID org) (o_Name org) occurredAt;
                     NewMembershipAddedEvent (o_ID org) creatorID MembershipActive occurredAt] ;;
    wrap (Errorw "postgres: commit create organization: %w" []) Commit).

Definition GetOrg (orgID : string) : M Organization :=
  parsed <- parseID "postgres: organization id %q: %w" orgID ;;
  r <- try (run_query Pool (sql_GetOrganization parsed)) ;;
  match r with
  | inr org => ret org
  | inl err => if errors_Is err ErrNoRows then fail ErrOrgNotFound else fail err
  end.

Definition ListOrgsForUser (userID : string) : M (list Organization) :=
  parsed <- parseID "postgres: user id %q: %w" userID ;;
  run_query Pool (sql_ListOrganizationsForUser parsed).

Definition ListMembers (orgID : string) : M (list Membership) :=
  parsed <- parseID "postgres: organization id %q: %w" orgID ;;
  run_query Pool (sql_ListOrganizationMembers parsed).

Definition AddMember (orgID userID : string) (status : MembershipStatus) : M unit :=
  let* (org, user) := membershipIDs orgID userID in
  wrap (Errorw "postgres: begin add membership: %w" []) Begin ;;
  deferRollback (
    lockOrganization Tx org ;;
    r <- try (getMembership Tx org user) ;;
    match r with
    | inr _ => wrap (Errorw "postgres: commit existing membership: %w" []) Commit
    | inl err =>
        if negb (errors_Is err ErrNotMember) then fail err else
        run_query Tx (sql_AddOrganizationMembership org user status) ;;
        at_ <- Now ;;
        emitEvents Emit [NewMembershipAddedEvent orgID userID status at_] ;;
        wrap (Errorw "postgres: commit add membership: %w" []) Commit
    end).

(** The guard [UpdateMemberStatus] and [RemoveMember] share. *)
Definition refuseLastActive (org : uuid) : M unit :=
  count <- run_query Tx (sql_CountActiveOrganizationMembers org) ;;
  if count <=? 1 then fail ErrLastActiveMember else ret ().

Definition UpdateMemberStatus (orgID userID : string) (status : MembershipStatus) : M unit :=
  let* (org, user) := membershipIDs orgID userID in
  wrap (Errorw "postgres: begin update membership: %w" []) Begin ;;
  deferRollback (
    lockOrganization Tx org ;;
    current <- getMembership Tx org user ;;
    (if bool_decide (status ≠ MembershipActive) && bool_decide (m_Status current = MembershipActive)
     then refuseLastActive org else ret ()) ;;
    run_query Tx (sql_UpdateOrganizationMembershipStatus status org user) ;;
    (if bool_decide (status = MembershipSuspended) && bool_decide (m_Status current ≠ MembershipSuspended)
     then at_ <- Now ;; emitEvents Emit [NewMembershipSuspendedEvent orgID userID status at_]
     else ret ()) ;;
    wrap (Errorw "postgres: commit update membership: %w" []) Commit).

Definition RemoveMember (orgID userID : string) : M unit :=
  let* (org, user) := membershipIDs orgID userID in
  wrap (Errorw "postgres: begin remove membership: %w" []) Begin ;;
  deferRollback (
    lockOrganization Tx org ;;
    current <- getMembership Tx org user ;;
    (if bool_decide (m_Status current = MembershipActive) then refuseLastActive org else ret ()) ;;
    run_query Tx (sql_DeleteOrganizationMembership org user) ;;
    at_ <- Now ;;
    emitEvents Emit [NewMembershipRemovedEvent orgID userID (m_Status current) at_] ;;
    wrap (Errorw "postgres: commit remove membership: %w" []) Commit).

Definition GetMembership (orgID userID : string) : M Membership :=
  let* (org, user) := membershipIDs orgID userID in
  getMembership Pool org user.

(** ** signup.go *)

Definition CreateSignupUser (user : User) (org : option Organization) (invite : option Invite) (acceptedAt : time) : M bool :=
  userID <- parseID "postgres: user id %q: %w" (u_ID user) ;;
  let verifiedAt := if u_EmailVerified user then timestamptz acceptedAt else None in
  wrap (Errorw "postgres: begin signup: %w" []) Begin ;;
  deferRollback (
    created <- wrap (Errorw "postgres: create signup user: %w" [])
      (run_query Tx (sql_CreateSignupUser userID (u_Email user) (u_PasswordHash user) (u_DisplayName user)
         (u_Status user) verifiedAt)) ;;
    if created =? 0 then
      wrap (Errorw "postgres: commit duplicate signup: %w" []) Commit ;;
      ret false
    else
    occurredAt <- (if IsZero acceptedAt then Now else ret acceptedAt) ;;
    emitEvents Emit [NewUserCreatedEvent (u_ID user) occurredAt] ;;
    match invite with
    | None => ret ()
    | Some invite =>
        orgID <- parseID "postgres: organization id %q: %w" (i_OrgID invite) ;;
        inviteID <- parseID "postgres: invite id %q: %w" (i_ID invite) ;;
        lockOrganization Tx orgID ;;
        affected <- wrap (Errorw "postgres: accept signup invite: %w" [])
          (run_query Tx (sql_AcceptOrganizationInvite (timestamptz acceptedAt) inviteID orgID)) ;;
        if affected =? 0 then fail ErrInviteNotFound else
        wrap (Errorw "postgres: add signup invite member: %w" [])
          (run_query Tx (sql_AddActiveOrganizationMembership orgID userID)) ;;
        emitEvents Emit [NewMembershipAddedEvent (i_OrgID invite) (u_ID user) MembershipActive occurredAt]
    end ;;
    match org with
    | None => ret ()
    | Some org =>
        orgID <- parseID "postgres: organization id %q: %w" (o_ID org) ;;
        wrap (Errorw "postgres: create signup organization: %w" [])
          (run_query Tx (sql_CreateOrganization orgID (o_Name org) (timestamptz (o_CreatedAt org)) (timestamptz (o_UpdatedAt org)))) ;;
        wrap (Errorw "postgres: add signup organization owner: %w" [])
          (run_query Tx (sql_AddOrganizationMembership orgID userID MembershipActive)) ;;
        emitEvents Emit [NewOrgCreatedEvent (o_ID org) (o_Name org) occurredAt;
                         NewMembershipAddedEvent (o_ID org) (u_ID user) MembershipActive occurredAt]
    end ;;
    wrap (Errorw "postgres: commit signup: %w" []) Commit ;;
    ret true).

(** The challenge rotation of [ReissuePendingSignup]. *)
Definition rotateChallenge (challenge : OTPChallenge) (acceptedAt : time) : M unit :=
  wrap (Errorw "postgres: invalidate signup challenges: %w" [])
    (run_query Tx (sql_DeleteChallengesForIdentifier (ch_Identifier challenge) (ch_Channel challenge))) ;;
  challengeID <- parseID "postgres: challenge id %q: %w" (ch_ID challenge) ;;
  let createdAt := if IsZero (ch_CreatedAt challenge) then acceptedAt else ch_CreatedAt challenge in
  wrap (Errorw "postgres: write signup challenge: %w" [])
    (run_query Tx (sql_UpsertChallenge challengeID (ch_Identifier challenge) (ch_Channel challenge)
       (ch_CodeHash challenge) (timestamptz (ch_ExpiresAt challenge)) (timestamptz createdAt))).

(** The invitation branch of [ReissuePendingSignup]: [false] is its early return
    of a sign-up that is no longer pending. *)
Definition acceptForPending (userID : string) (invite : Invite) (acceptedAt : time) : M bool :=
  userUUID <- parseID "postgres: user id %q: %w" userID ;;
  orgID <- parseID "postgres: organization id %q: %w" (i_OrgID invite) ;;
  inviteID <- parseID "postgres: invite id %q: %w" (i_ID invite) ;;
  affected <- wrap (Errorw "postgres: activate signup invite: %w" [])
    (run_query Tx (sql_VerifySignupUser (timestamptz acceptedAt) userUUID)) ;;
  if affected =? 0 then ret false else
  lockOrganization Tx orgID ;;
  affected <- wrap (Errorw "postgres: accept signup invite: %w" [])
    (run_query Tx (sql_AcceptOrganizationInvite (timestamptz acceptedAt) inviteID orgID)) ;;
  if affected =? 0 then fail ErrInviteNotFound else
  wrap (Errorw "postgres: add signup invite member: %w" [])
    (run_query Tx (sql_AddActiveOrganizationMembership orgID userUUID)) ;;
  emitEvents Emit [NewMembershipAddedEvent (i_OrgID invite) userID MembershipActive acceptedAt] ;;
  ret true.

Definition ReissuePendingSignup (user : User) (challenge : option OTPChallenge) (invite : option Invite)
    (acceptedAt : time) : M (string * bool) :=
  wrap (Errorw "postgres: begin reissue signup: %w" []) Begin ;;
  deferRollback (
    r <- try (run_query Tx (sql_ReissueSignupUser (u_PasswordHash user) (u_DisplayName user) (u_Email user))) ;;
    match r with
    | inl err =>
        if errors_Is err ErrNoRows then ret ("", false)
        else fail (Errorw "postgres: reissue signup user: %w" [] err)
    | inr userID =>
        match challenge with
        | None => ret ()
        | Some challenge => rotateChallenge challenge acceptedAt
        end ;;
        still <- match invite with
                 | None => ret true
                 | Some invite => acceptForPending userID invite acceptedAt
                 end ;;
        if negb still then ret ("", false) else
        wrap (Errorw "postgres: commit reissue signup: %w" []) Commit ;;
        ret (userID, true)
    end).

Definition VerifySignup (userID : string) (verifiedAt : time) : M unit :=
  id <- parseID "postgres: user id %q: %w" userID ;;
  affected <- wrap (Errorw "postgres: verify signup: %w" [])
    (run_query Pool (sql_VerifySignupUser (timestamptz verifiedAt) id)) ;;
  if affected =? 0 then fail ErrUserNotFound else ret ().

Definition PurgeUnverifiedSignups (before : time) : M Z :=
  wrap (Errorw "postgres: begin purge signups: %w" []) Begin ;;
  deferRollback (
    removed <- wrap (Errorw "postgres: purge unverified signups: %w" [])
      (run_query Tx (sql_PurgeUnverifiedSignups (timestamptz before))) ;;
    wrap (Errorw "postgres: purge empty signup organizations: %w" []) (run_query Tx sql_DeleteEmptyOrganizations) ;;
    wrap (Errorw "postgres: commit purge signups: %w" []) Commit ;;
    ret removed).

(** ** invites.go *)

Definition inviteIDs (orgID inviteID : string) : M (uuid * uuid) :=
  org <- parseID "postgres: organization id %q: %w" orgID ;;
  id <- parseID "postgres: invite id %q: %w" inviteID ;;
  ret (org, id).

Definition CreateInvite (invite : Invite) : M unit :=
  id <- parseID "postgres: invite id %q: %w" (i_ID invite) ;;
  orgID <- parseID "postgres: organization id %q: %w" (i_OrgID invite) ;;
  inviterID <- parseID "postgres: inviter id %q: %w" (i_InviterID invite) ;;
  wrap (Errorw "postgres: begin create invite: %w" []) Begin ;;
  deferRollback (
    lockOrganization Tx orgID ;;
    wrap (Errorw "postgres: revoke previous pending invite: %w" [])
      (run_query Tx (sql_RevokePendingOrganizationInvitesForEmail orgID (i_Email invite))) ;;
    wrap (Errorw "postgres: create invite: %w" [])
      (run_query Tx (sql_CreateOrganizationInvite id orgID (i_Email invite) (i_TokenHash invite) inviterID
         (i_Status invite) (timestamptz (i_ExpiresAt invite)) (timestamptz (i_CreatedAt invite)))) ;;
    wrap (Errorw "postgres: commit create invite: %w" []) Commit).

Definition FindInviteByTokenHash (tokenHash : string) : M Invite :=
  r <- try (run_query Pool (sql_FindOrganizationInviteByTokenHash tokenHash)) ;;
  match r with
  | inr invite => ret invite
  | inl err => if errors_Is err ErrNoRows then fail ErrInviteNotFound else fail err
  end.

Definition ListInvites (orgID : string) : M (list Invite) :=
  parsed <- parseID "postgres: organization id %q: %w" orgID ;;
  run_query Pool (sql_ListOrganizationInvites parsed).

Definition RevokeInvite (orgID inviteID : string) : M unit :=
  let* (org, id) := inviteIDs orgID inviteID in
  affected <- run_query Pool (sql_RevokeOrganizationInvite id org) ;;
  if affected =? 0 then fail ErrInviteNotFound else ret ().

Definition AcceptInvite (inviteID orgID userID : string) (acceptedAt : time) : M unit :=
  let* (org, id) := inviteIDs orgID inviteID in
  user <- parseID "postgres: user id %q: %w" userID ;;
  wrap (Errorw "postgres: begin accept invite: %w" []) Begin ;;
  deferRollback (
    lockOrganization Tx org ;;
    r <- try (getMembership Tx org user) ;;
    match r with
    | inr current => if bool_decide (m_Status current = MembershipSuspended) then fail ErrInvalidInvite else ret ()
    | inl err => if negb (errors_Is err ErrNotMember) then fail err else ret ()
    end ;;
    affected <- wrap (Errorw "postgres: accept invite: %w" [])
      (run_query Tx (sql_AcceptOrganizationInvite (timestamptz acceptedAt) id org)) ;;
    if affected =? 0 then fail ErrInviteNotFound else
    wrap (Errorw "postgres: add invited member: %w" []) (run_query Tx (sql_AddActiveOrganizationMembership org user)) ;;
    emitEvents Emit [NewMembershipAddedEvent orgID userID MembershipActive acceptedAt] ;;
    wrap (Errorw "postgres: commit accept invite: %w" []) Commit).

(** ** flags.go *)

Definition ListFeatureFlags : M (list FeatureFlag) :=
  wrap (Errorw "postgres: list feature flags: %w" []) (run_query Pool (sql_ListFeatureFlags db_collate)).

(** ** The ports the store implements *)

Definition pg_otp : OTPStore :=
  mkOTPStore UpsertChallenge GetLatestChallenge IncrementAttempts ConsumeChallenge DeleteExpiredChallenges.
Definition pg_users : UserStore :=
  mkUserStore FindOrCreateByEmail FindOrCreateByMobile FindByEmail FindByMobile FindByID UpdateLastLogin UpsertDemoUser.
Definition pg_signup : SignupStore :=
  mkSignupStore CreateSignupUser ReissuePendingSignup VerifySignup PurgeUnverifiedSignups.
Definition pg_refresh : RefreshTokenStore := mkRefreshTokenStore Store_ FindValid Revoke.
Definition pg_tokens : APITokenStore := mkAPITokenStore Create ListByUser RevokeToken FindByPrefix.
Definition pg_orgs : OrgStore :=
  mkOrgStore CreateOrg GetOrg ListOrgsForUser ListMembers AddMember UpdateMemberStatus RemoveMember GetMembership.
Definition pg_invites : InviteStore :=
  mkInviteStore CreateInvite FindInviteByTokenHash ListInvites RevokeInvite AcceptInvite.
End postgres.
