(* ===== verification/PostgresProps.v ===== *)
(** The store as a whole: every method, under any failures, keeps the schema,
    writes all or nothing, closes its transaction and sends no notification. *)
From S2P Require Import Prelude GoStrings Domain Libs Tables Database DatabaseProps World Effects Demo Ports Postgres.
Local Open Scope Z_scope.
Local Open Scope orbit_scope.

(** One call of a store method. *)
Inductive store_call :=
  | CallUpsertChallenge (ch : OTPChallenge)
  | CallGetLatestChallenge (identifier channel : string)
  | CallIncrementAttempts (id : string)
  | CallConsumeChallenge (id : string)
  | CallDeleteExpiredChallenges
  | CallFindOrCreateByEmail (email : string)
  | CallFindOrCreateByMobile (mobile : string)
  | CallFindByEmail (email : string)
  | CallFindByMobile (mobile : string)
  | CallFindByID (userID : string)
  | CallUpdateLastLogin (userID : string)
  | CallUpsertDemoUser (email mobile passwordHash displayName : string)
  | CallStore (userID orgID tokenHash : string) (expiresAt : time)
  | CallFindValid (tokenHash : string)
  | CallRevoke (tokenHash : string)
  | CallCreate (t : APIToken)
  | CallListByUser (userID : string)
  | CallRevokeToken (userID tokenID : string)
  | CallFindByPrefix (prefix : string)
  | CallCreateOrg (org : Organization) (creatorID : string)
  | CallGetOrg (orgID : string)
  | CallListOrgsForUser (userID : string)
  | CallListMembers (orgID : string)
  | CallAddMember (orgID userID : string) (status : MembershipStatus)
  | CallUpdateMemberStatus (orgID userID : string) (status : MembershipStatus)
  | CallRemoveMember (orgID userID : string)
  | CallGetMembership (orgID userID : string)
  | CallCreateSignupUser (user : User) (org : option Organization) (invite : option Invite) (acceptedAt : time)
  | CallReissuePendingSignup (user : User) (challenge : option OTPChallenge) (invite : option Invite) (acceptedAt : time)
  | CallVerifySignup (userID : string) (verifiedAt : time)
  | CallPurgeUnverifiedSignups (before : time)
  | CallCreateInvite (invite : Invite)
  | CallFindInviteByTokenHash (tokenHash : string)
  | CallListInvites (orgID : string)
  | CallRevokeInvite (orgID inviteID : string)
  | CallAcceptInvite (inviteID orgID userID : string) (acceptedAt : time)
  | CallListFeatureFlags.

Section props.
Context `{V : Env}.

Definition discard {A} (m : M A) : M unit := m ;; ret ().

Definition run_call (c : store_call) : M unit :=
  match c with
  | CallUpsertChallenge ch => discard (UpsertChallenge ch)
  | CallGetLatestChallenge i c => discard (GetLatestChallenge i c)
  | CallIncrementAttempts id => discard (IncrementAttempts id)
  | CallConsumeChallenge id => discard (ConsumeChallenge id)
  | CallDeleteExpiredChallenges => discard DeleteExpiredChallenges
  | CallFindOrCreateByEmail e => discard (FindOrCreateByEmail e)
  | CallFindOrCreateByMobile m => discard (FindOrCreateByMobile m)
  | CallFindByEmail e => discard (FindByEmail e)
  | CallFindByMobile m => discard (FindByMobile m)
  | CallFindByID u => discard (FindByID u)
  | CallUpdateLastLogin u => discard (UpdateLastLogin u)
  | CallUpsertDemoUser e m p d => discard (UpsertDemoUser e m p d)
  | CallStore u o h t => discard (Store_ u o h t)
  | CallFindValid h => discard (FindValid h)
  | CallRevoke h => discard (Revoke h)
  | CallCreate t => discard (Create t)
  | CallListByUser u => discard (ListByUser u)
  | CallRevokeToken u t => discard (RevokeToken u t)
  | CallFindByPrefix p => discard (FindByPrefix p)
  | CallCreateOrg o u => discard (CreateOrg o u)
  | CallGetOrg o => discard (GetOrg o)
  | CallListOrgsForUser u => discard (ListOrgsForUser u)
  | CallListMembers o => discard (ListMembers o)
  | CallAddMember o u s => discard (AddMember o u s)
  | CallUpdateMemberStatus o u s => discard (UpdateMemberStatus o u s)
  | CallRemoveMember o u => discard (RemoveMember o u)
  | CallGetMembership o u => discard (GetMembership o u)
  | CallCreateSignupUser u o i t => discard (CreateSignupUser u o i t)
  | CallReissuePendingSignup u c i t => discard (ReissuePendingSignup u c i t)
  | CallVerifySignup u t => discard (VerifySignup u t)
  | CallPurgeUnverifiedSignups b => discard (PurgeUnverifiedSignups b)
  | CallCreateInvite i => discard (CreateInvite i)
  | CallFindInviteByTokenHash h => discard (FindInviteByTokenHash h)
  | CallListInvites o => discard (ListInvites o)
  | CallRevokeInvite o i => discard (RevokeInvite o i)
  | CallAcceptInvite i o u t => discard (AcceptInvite i o u t)
  | CallListFeatureFlags => discard ListFeatureFlags
  end.

(** Calls one after the other; each may fail, and the next is still made. *)
Fixpoint run_calls (cs : list store_call) : M unit :=
  match cs with
  | [] => ret ()
  | c :: cs => try (run_call c) ;; run_calls cs
  end.

(** ** Invariants *)

Section keeping.
Context (P : DB Envelope → Prop).

Lemma keeping_parseID f s : Steps (keeping P) (parseID f s).
Proof. unfold parseID. walk. Qed.

Lemma keeping_Emit : (∀ sub e, sound db_lower P (sql_InsertOutbox sub e)) → ∀ event, Steps (keeping P) (Emit event).
Proof. intros Ho event. unfold Emit. walk. Qed.

Lemma keeping_emitEvents sink events : (∀ e, Steps (keeping P) (sink e)) → Steps (keeping P) (emitEvents sink events).
Proof. intros Hs. induction events; simpl; walk; auto. Qed.

Lemma keeping_getMembership h o u : Steps (keeping P) (getMembership h o u).
Proof. unfold getMembership. walk. Qed.

Lemma keeping_lockOrganization h o : Steps (keeping P) (lockOrganization h o).
Proof. unfold lockOrganization. walk. Qed.

Lemma keeping_refuseLastActive o : Steps (keeping P) (refuseLastActive o).
Proof. unfold refuseLastActive. walk. Qed.
End keeping.
End props.

#[export] Hint Resolve keeping_parseID keeping_getMembership keeping_lockOrganization keeping_refuseLastActive : effects.

Section schema.
Context `{V : Env}.

Lemma schema_emitEvents events : Steps (keeping (schema db_lower)) (emitEvents Emit events).
Proof. apply keeping_emitEvents. apply keeping_Emit. auto with sql. Qed.
Hint Resolve schema_emitEvents : effects.

Lemma run_call_schema c : Steps (keeping (schema db_lower)) (run_call c).
Proof.
  destruct c; unfold run_call, discard.
  all: unfold UpsertChallenge, GetLatestChallenge, IncrementAttempts, ConsumeChallenge, DeleteExpiredChallenges,
    FindOrCreateByEmail, FindOrCreateByMobile, FindByEmail, findByEmail, FindByMobile, findByMobile, FindByID, UpdateLastLogin, UpsertDemoUser,
    Store_, FindValid, Revoke, Create, ListByUser, RevokeToken, FindByPrefix, CreateOrg, GetOrg, ListOrgsForUser,
    ListMembers, AddMember, UpdateMemberStatus, RemoveMember, GetMembership, CreateSignupUser, ReissuePendingSignup,
    rotateChallenge, acceptForPending, VerifySignup, PurgeUnverifiedSignups, CreateInvite, FindInviteByTokenHash,
    ListInvites, RevokeInvite, AcceptInvite, ListFeatureFlags, membershipIDs, inviteIDs, not_found.
  all: walk.
Qed.
End schema.

(** ** Atomicity *)

Section atomicity.
Context `{V : Env}.

Lemma uncommitted_parseID f s : Steps uncommitted (parseID f s).
Proof. unfold parseID. walk. Qed.
Hint Resolve uncommitted_parseID : effects.

Lemma uncommitted_Emit e : Steps uncommitted (Emit e).
Proof. unfold Emit. walk. Qed.

Lemma uncommitted_emitEvents events : Steps uncommitted (emitEvents Emit events).
Proof. induction events; simpl; walk. Qed.

Lemma uncommitted_getMembership h o u : Steps uncommitted (getMembership h o u).
Proof. unfold getMembership. walk. Qed.

Lemma uncommitted_lockOrganization h o : Steps uncommitted (lockOrganization h o).
Proof. unfold lockOrganization. walk. Qed.

Lemma uncommitted_refuseLastActive o : Steps uncommitted (refuseLastActive o).
Proof. unfold refuseLastActive. walk. Qed.
Hint Resolve uncommitted_emitEvents uncommitted_getMembership uncommitted_lockOrganization
  uncommitted_refuseLastActive : effects.

Lemma uncommitted_rotateChallenge c t : Steps uncommitted (rotateChallenge c t).
Proof. unfold rotateChallenge. walk. Qed.

Lemma uncommitted_acceptForPending u i t : Steps uncommitted (acceptForPending u i t).
Proof. unfold acceptForPending. walk. Qed.

Lemma uncommitted_not_found {A} (m : M A) : Steps uncommitted m → Steps uncommitted (not_found m).
Proof. intros Hm. unfold not_found. walk. Qed.
Hint Resolve uncommitted_rotateChallenge uncommitted_acceptForPending uncommitted_not_found : effects.

Lemma atomic_VerifySignup u t : Atomic (VerifySignup u t).
Proof.
  unfold VerifySignup. apply atomic_bind; [auto with effects|]. intros id. apply atomic_Pool_guard.
  intros s db a db' Hq. unfold sql_VerifySignupUser in Hq. repeat case_match; simplify_eq/=; eauto.
Qed.

Lemma pending_invite_none id org I :
  length (rows_where (pending_invite id org) I) = 0%nat → ∀ k r, I !! k = Some r → pending_invite id org k r = false.
Proof.
  intros H0%nil_length_inv k r Hk. apply not_true_iff_false. intros Hp.
  assert ((k, r) ∈ rows_where (pending_invite id org) I) as Hin by by apply elem_of_rows_where.
  rewrite H0 in Hin. by apply elem_of_nil in Hin.
Qed.

Lemma set_invites_id (db : DB Envelope) f : f (organization_invites db) = organization_invites db → set_invites f db = db.
Proof. unfold set_invites. intros ->. by destruct db. Qed.

Lemma atomic_RevokeInvite o i : Atomic (RevokeInvite o i).
Proof.
  unfold RevokeInvite, inviteIDs. apply atomic_bind; [walk|]. intros [org id].
  apply (atomic_ext _ (bind (wrap (λ e, e) (run_query Pool (sql_RevokeOrganizationInvite id org)))
    (λ affected, if affected =? 0 then fail ErrInviteNotFound else ret ()))).
  { intros w. unfold bind, wrap. by destruct (run_query _ _ w) as [[] ?]. }
  apply atomic_Pool_guard. intros s db a db' [= <- <-].
  destruct (Z.eqb_spec (Z.of_nat (length (rows_where (pending_invite id org) (organization_invites db)))) 0) as [E|E];
    [right|left; eauto].
  split; [eauto|]. apply set_invites_id, update_where_none, pending_invite_none. lia.
Qed.

Lemma run_call_atomic c : Atomic (run_call c).
Proof.
  destruct c; unfold run_call, discard; apply atomic_then_ret;
    try (by apply atomic_VerifySignup); try (by apply atomic_RevokeInvite).
  all: unfold UpsertChallenge, GetLatestChallenge, IncrementAttempts, ConsumeChallenge, DeleteExpiredChallenges,
    FindOrCreateByEmail, FindOrCreateByMobile, FindByEmail, findByEmail, FindByMobile, findByMobile, FindByID, UpdateLastLogin, UpsertDemoUser,
    Store_, FindValid, Revoke, Create, ListByUser, RevokeToken, FindByPrefix, CreateOrg, GetOrg, ListOrgsForUser,
    ListMembers, AddMember, UpdateMemberStatus, RemoveMember, GetMembership, CreateSignupUser, ReissuePendingSignup,
    PurgeUnverifiedSignups, CreateInvite, FindInviteByTokenHash,
    ListInvites, AcceptInvite, ListFeatureFlags, membershipIDs, inviteIDs.
  all: walk.
Qed.
End atomicity.

(** ** Transactions are closed *)

Section last.
Context `{V : Env}.

Lemma still_parseID f x : Steps still (parseID f x).
Proof. apply steps_wrap. by destruct (Parse x). Qed.

Lemma writes_last_Store u o h t : writes_last (Store_ u o h t).
Proof.
  apply writes_last_bind; [apply still_parseID|intros uid]. apply writes_last_bind.
  - destruct (negb _); [|by intros w]. apply steps_bind; [apply _|apply still_parseID|by intros org w].
  - intros oid. apply writes_last_bind; [|intros id; apply writes_last_Pool]. apply steps_bind; [apply _|apply still_tick|by intros n w].
Qed.
End last.

Section closing.
Context `{V : Env}.

Lemma run_call_closes c : Steps closes (run_call c).
Proof.
  destruct c; unfold run_call, discard.
  all: unfold UpsertChallenge, GetLatestChallenge, IncrementAttempts, ConsumeChallenge, DeleteExpiredChallenges,
    FindOrCreateByEmail, FindOrCreateByMobile, FindByEmail, findByEmail, FindByMobile, findByMobile, FindByID, UpdateLastLogin, UpsertDemoUser,
    Store_, FindValid, Revoke, Create, ListByUser, RevokeToken, FindByPrefix, CreateOrg, GetOrg, ListOrgsForUser,
    ListMembers, AddMember, UpdateMemberStatus, RemoveMember, GetMembership, CreateSignupUser, ReissuePendingSignup,
    rotateChallenge, acceptForPending, VerifySignup, PurgeUnverifiedSignups, CreateInvite, FindInviteByTokenHash,
    ListInvites, RevokeInvite, AcceptInvite, ListFeatureFlags, membershipIDs, inviteIDs, not_found, parseID,
    getMembership, lockOrganization, refuseLastActive.
  all: walk.
Qed.
End closing.

(** ** The store *)

Section store.
Context `{V : Env}.

Lemma run_calls_schema cs : Steps (keeping (schema db_lower)) (run_calls cs).
Proof.
  induction cs; simpl; [apply steps_ret; apply _|]. apply steps_bind; [apply _| |done].
  apply steps_try, run_call_schema.
Qed.

Lemma run_calls_closes cs : Steps closes (run_calls cs).
Proof.
  induction cs; simpl; [apply steps_ret; apply _|]. apply steps_bind; [apply _| |done].
  apply steps_try, run_call_closes.
Qed.

(** Whatever sequence of store methods is called, with whatever arguments,
    and whichever statements, envelopes and commits fail on the way, the tables
    satisfy the schema afterwards if they did before: unique emails, mobiles and
    token hashes, at most one pending invitation per organization and address,
    no dangling membership, invitation or API token.  No transaction stays open
    and no notification is sent. *)
Theorem store_calls_keep_schema (cs : list store_call) (w : World) :
  w_tx w = None → schema db_lower (w_db w) →
  schema db_lower (w_db (run_calls cs w).2) ∧ w_tx (run_calls cs w).2 = None ∧
  w_sent (run_calls cs w).2 = w_sent w.
Proof.
  intros Ht Hs. destruct (run_calls_closes cs w) as [Hc Hn].
  split; [apply (keeping_db _ _ _ (run_calls_schema cs) Ht Hs)|auto].
Qed.

(** C32: a store method that returns an error has changed no committed row, at
    whichever statement, envelope or commit it failed: the account, the
    membership, the invitation and their events are written together or not at
    all. *)
Theorem store_call_all_or_nothing (c : store_call) (w : World) :
  failed (run_call c w).1 → w_db (run_call c w).2 = w_db w.
Proof. apply run_call_atomic. Qed.
End store.

(** A store in which the seventh effect, a database call, fails. *)
Definition faulty : nat → option string := λ n, if bool_decide (n = 6)%nat then Some "connection reset" else None.

Section witnesses.
#[local] Existing Instance bits_uuid.
#[local] Instance faulty_env : Env := demo_env faulty.

Lemma empty_db_schema : schema db_lower (E:=Envelope) empty_db.
Proof. split; repeat intro; try split; repeat intro; set_solver. Qed.

Lemma store_calls_keep_schema_witness :
  schema db_lower (w_db (run_calls [CallFindOrCreateByEmail "x@y.z"; CallFindOrCreateByMobile "+4912345678"]
    (start empty_db)).2).
Proof. apply store_calls_keep_schema; [reflexivity|apply empty_db_schema]. Defined.

Lemma store_call_all_or_nothing_witness :
  w_db (run_call (CallFindOrCreateByEmail "x@y.z") (start empty_db)).2 = empty_db.
Proof. apply store_call_all_or_nothing. vm_compute. exact I. Defined.
End witnesses.
