(* ===== verification/FlagsProvider.v ===== *)
(** The feature-flag provider, internal/infrastructure/featureflags/client.go: flags
    fetched over HTTP, refreshed by a background loop, read by evaluations, stopped
    by [Shutdown].

    The provider, its loops and a waiting [Shutdown] are threads: [prov_step] is one
    step of one of them, and a run is a list of events in the order in which they
    happened.  Parameters: request construction, the JSON decoder of the document and
    the OpenFeature SDK. *)
From S2P Require Import Prelude GoStrings Domain Libs.
Local Open Scope Z_scope.

Record flagRecord := mkFlagRecord {
  fr_Name : string;
  fr_Enabled : bool;
  fr_Description : string;
}.

Record flagsDocument := mkFlagsDocument {
  fd_Version : string;
  fd_Flags : list flagRecord;
}.

(** A loop of [Init]: its first fetch, then [select], a fetch after a tick, or the end
    with its channel closed. *)
Inductive loop := Initialising | Selecting | Fetching | Closed.

#[export] Instance loop_eq_dec : EqDecision loop.
Proof. solve_decision. Defined.

(** The provider's fields, with [cancel] and [done] as the number of the [Init] that
    made them, and the threads: the contexts cancelled so far, the loops, and the
    loops a [Shutdown] waits for. *)
Record PlatformProvider := mkProvider {
  p_url : string;
  p_flags : gmap string bool;
  p_cancel : option nat;
  p_done : option nat;
  p_cancelled : gset nat;
  p_loops : gmap nat loop;
  p_waiting : gset nat;
}.

Definition defaultFlagsURL : string := "http://localhost:10011/v1/flags".

Definition newPlatformProvider (url : string) : PlatformProvider := mkProvider url ∅ None None ∅ ∅ ∅.

(** The parts of a resolution. *)
Inductive Reason := StaticReason | DefaultReason.
Record ResolutionDetail (A : Type) := mkResolution { rd_Value : A; rd_Reason : Reason }.
Arguments mkResolution {A} _ _.
Arguments rd_Value {A} _.
Arguments rd_Reason {A} _.

Definition Metadata : string := "platform".
Definition Hooks : list string := [].

Definition BooleanEvaluation (p : PlatformProvider) (flag : string) (defaultValue : bool) : ResolutionDetail bool :=
  match p_flags p !! flag with
  | Some value => mkResolution value StaticReason
  | None => mkResolution defaultValue DefaultReason
  end.

(** The platform serves booleans: the other types answer the default. *)
Definition StringEvaluation (_ : PlatformProvider) (_ : string) (defaultValue : string) : ResolutionDetail string :=
  mkResolution defaultValue DefaultReason.
Definition FloatEvaluation {float64 : Type} (_ : PlatformProvider) (_ : string) (defaultValue : float64) :
    ResolutionDetail float64 := mkResolution defaultValue DefaultReason.
Definition IntEvaluation (_ : PlatformProvider) (_ : string) (defaultValue : Z) : ResolutionDetail Z :=
  mkResolution defaultValue DefaultReason.
Definition ObjectEvaluation {any : Type} (_ : PlatformProvider) (_ : string) (defaultValue : any) : ResolutionDetail any :=
  mkResolution defaultValue DefaultReason.

(** The outside: [client.Do] is its answer, a status and a body. *)
Class FlagsLib := {
  flags_NewRequest : string → option error;
  json_DecodeFlags : string → error + flagsDocument;
}.

Definition reply : Type := error + (Z * string).

Section provider.
Context `{UC : UnicodeCase} `{F : FlagsLib}.

Definition isDisabledURL (url : string) : bool :=
  let url := TrimSpace url in EqualFold url "off" || EqualFold url "disabled".

(** The map of a document; a later record wins. *)
Definition flag_map (flags : list flagRecord) : gmap string bool :=
  foldl (λ next flag, <[fr_Name flag := fr_Enabled flag]> next) ∅ flags.

(** The document of a fetch. *)
Definition fetch_flags (url : string) (r : reply) : error + flagsDocument :=
  match flags_NewRequest url with
  | Some err => inl err
  | None =>
      match r with
      | inl err => inl err
      | inr (status, body) =>
          if negb (status =? 200) then inl (Errorf "flags endpoint %s returned %s" [url]) else json_DecodeFlags body
      end
  end.

Definition set_flags (p : PlatformProvider) (flags : gmap string bool) : PlatformProvider :=
  mkProvider (p_url p) flags (p_cancel p) (p_done p) (p_cancelled p) (p_loops p) (p_waiting p).

(** [refresh], whose error is only logged. *)
Definition refresh (r : reply) (p : PlatformProvider) : PlatformProvider :=
  match fetch_flags (p_url p) r with
  | inl _ => p
  | inr doc => set_flags p (flag_map (fd_Flags doc))
  end.

(** ** The threads *)

Definition set_loop (n : nat) (l : loop) (p : PlatformProvider) : PlatformProvider :=
  mkProvider (p_url p) (p_flags p) (p_cancel p) (p_done p) (p_cancelled p) (<[n := l]> (p_loops p)) (p_waiting p).

Inductive event :=
  | Init (n : nat)
  | InitFetched (n : nat) (r : reply)
  | Tick (n : nat)
  | TickFetched (n : nat) (r : reply)
  | CtxDone (n : nat)
  | Shutdown
  | ShutdownReturned (n : nat).

(** One step; [None] when the thread of the event is not at that point.  [Init]
    publishes a new context and channel, its first fetch ends and the loop starts;
    [select] takes a tick or, once cancelled, returns and closes the channel;
    [Shutdown] takes the fields, cancels, and returns when the channel is closed. *)
Definition prov_step (e : event) (p : PlatformProvider) : option PlatformProvider :=
  match e with
  | Init n =>
      match p_loops p !! n with
      | Some _ => None
      | None => Some (mkProvider (p_url p) (p_flags p) (Some n) (Some n) (p_cancelled p)
                        (<[n := Initialising]> (p_loops p)) (p_waiting p))
      end
  | InitFetched n r =>
      match p_loops p !! n with
      | Some Initialising => Some (set_loop n Selecting (refresh r p))
      | _ => None
      end
  | Tick n =>
      match p_loops p !! n with
      | Some Selecting => Some (set_loop n Fetching p)
      | _ => None
      end
  | TickFetched n r =>
      match p_loops p !! n with
      | Some Fetching => Some (set_loop n Selecting (refresh r p))
      | _ => None
      end
  | CtxDone n =>
      match p_loops p !! n with
      | Some Selecting => if bool_decide (n ∈ p_cancelled p) then Some (set_loop n Closed p) else None
      | _ => None
      end
  | Shutdown =>
      Some (mkProvider (p_url p) (p_flags p) None None
              (match p_cancel p with Some n => {[ n ]} ∪ p_cancelled p | None => p_cancelled p end) (p_loops p)
              (match p_cancel p, p_done p with Some _, Some n => {[ n ]} ∪ p_waiting p | _, _ => p_waiting p end))
  | ShutdownReturned n =>
      if bool_decide (n ∈ p_waiting p) then
        match p_loops p !! n with
        | Some Closed => Some (mkProvider (p_url p) (p_flags p) (p_cancel p) (p_done p) (p_cancelled p) (p_loops p)
                                 (p_waiting p ∖ {[ n ]}))
        | _ => None
        end
      else None
  end.

Fixpoint prov_run (es : list event) (p : PlatformProvider) : option PlatformProvider :=
  match es with
  | [] => Some p
  | e :: es => match prov_step e p with Some p => prov_run es p | None => None end
  end.

(** Splits a step by its event and its guards. *)
Ltac step_inv e H :=
  destruct e; cbn [prov_step] in H;
  repeat match type of H with context [match ?x with _ => _ end] => destruct x eqn:?; try discriminate H end;
  injection H as <-; bool_hyps.

Lemma prov_run_app es1 es2 p : prov_run (es1 ++ es2) p = prov_run es1 p ≫= prov_run es2.
Proof. revert p. induction es1 as [|e es1 IH]; intros p; [done|]. simpl. by destruct (prov_step e p). Qed.

(** A property every step keeps holds of every run. *)
Lemma prov_run_inv (P : PlatformProvider → Prop) es p p' :
  (∀ e q q', e ∈ es → P q → prov_step e q = Some q' → P q') → P p → prov_run es p = Some p' → P p'.
Proof.
  intros Hstep. revert p. induction es as [|e es IH]; intros p HP; simpl; [by intros [= <-]|].
  destruct (prov_step e p) as [q|] eqn:E; [|done]. apply IH; [intros; eapply Hstep; [by right|done..]|].
  eapply Hstep; [by left|done..].
Qed.

(** ** What evaluations see *)

(** The map a successful fetch event brings. *)
Definition fetched (url : string) (e : event) : option (gmap string bool) :=
  match e with
  | InitFetched _ r | TickFetched _ r =>
      match fetch_flags url r with inr doc => Some (flag_map (fd_Flags doc)) | inl _ => None end
  | _ => None
  end.

Lemma prov_step_flags e p p' :
  prov_step e p = Some p' → p_url p' = p_url p ∧ p_flags p' = default (p_flags p) (fetched (p_url p) e).
Proof.
  assert (∀ r, p_url (refresh r p) = p_url p ∧
    p_flags (refresh r p) = default (p_flags p) (match fetch_flags (p_url p) r with
      | inr doc => Some (flag_map (fd_Flags doc)) | inl _ => None end)) as Hr.
  { intros r. unfold refresh. by destruct (fetch_flags _ _). }
  intros H. step_inv e H; first [done|apply Hr].
Qed.

(** The flags of the most recent successful fetch of a run. *)
Definition last_fetched (url : string) (es : list event) (flags : gmap string bool) : gmap string bool :=
  foldl (λ cur e, default cur (fetched url e)) flags es.

Lemma prov_run_flags es p p' :
  prov_run es p = Some p' → p_url p' = p_url p ∧ p_flags p' = last_fetched (p_url p) es (p_flags p).
Proof.
  revert p. induction es as [|e es IH]; intros p; simpl; [by intros [= <-]|].
  destruct (prov_step e p) as [q|] eqn:E; [|done]. intros H. apply IH in H as [-> ->].
  apply prov_step_flags in E as [-> ->]. done.
Qed.

(** ** Shutdown *)

(** The steps a [Shutdown] of loop [n] waits for, and the ticks its loop may still take. *)
Definition work (n : nat) (e : event) : bool :=
  match e with
  | InitFetched m _ | TickFetched m _ | CtxDone m | ShutdownReturned m => bool_decide (m = n)
  | _ => false
  end.
Definition tick_of (n : nat) (e : event) : bool := match e with Tick m => bool_decide (m = n) | _ => false end.

Definition count (f : event → bool) (es : list event) : nat := length (filter (λ e, f e = true) es).

(** How many steps are left. *)
Definition left (n : nat) (p : PlatformProvider) : nat :=
  (match p_loops p !! n with
   | Some Initialising => 2 | Some Selecting => 1 | Some Fetching => 2 | Some Closed => 0 | None => 0
   end + if bool_decide (n ∈ p_waiting p) then 1 else 0)%nat.

(** The threads are consistent: what is waited for is cancelled, the field never holds
    a cancelled context, what can be cancelled exists, and the two fields go together. *)
Definition threads_ok (p : PlatformProvider) : Prop :=
  p_cancel p = p_done p ∧ (∀ n, n ∈ p_waiting p → n ∈ p_cancelled p) ∧ (∀ n, n ∈ p_cancelled p → p_cancel p ≠ Some n) ∧
  (∀ n, n ∈ p_cancelled p ∨ p_cancel p = Some n → is_Some (p_loops p !! n)).

Lemma p_threads_refresh r p :
  p_cancel (refresh r p) = p_cancel p ∧ p_done (refresh r p) = p_done p ∧ p_cancelled (refresh r p) = p_cancelled p ∧
  p_loops (refresh r p) = p_loops p ∧ p_waiting (refresh r p) = p_waiting p.
Proof. unfold refresh. by destruct (fetch_flags _ _). Qed.

Lemma threads_ok_set_loop n l p : threads_ok p → threads_ok (set_loop n l p).
Proof.
  intros (H1 & H2 & Hc & H3). split_and!; [done..|]. intros m Hm. simpl. destruct (decide (m = n)) as [->|].
  - rewrite lookup_insert_eq. by eexists.
  - rewrite lookup_insert_ne by done. by apply H3.
Qed.

Lemma threads_ok_refresh r p : threads_ok p → threads_ok (refresh r p).
Proof. unfold threads_ok. by destruct (p_threads_refresh r p) as (-> & -> & -> & -> & ->). Qed.

Lemma prov_step_ok e p p' : threads_ok p → prov_step e p = Some p' → threads_ok p'.
Proof.
  intros Hok H. assert (∀ n l r, threads_ok (set_loop n l (refresh r p))) as Hr.
  { intros. by apply threads_ok_set_loop, threads_ok_refresh. }
  pose proof Hok as (H1 & H2 & Hc & H3). step_inv e H; auto using threads_ok_set_loop; split_and!; simpl; try done.
  - intros m Hm [= ->]. destruct (H3 m) as [l Hl]; [by left|]. congruence.
  - intros m [Hm|[= ->]]; [|rewrite lookup_insert_eq; by eexists].
    destruct (decide (m = n)) as [->|]; [rewrite lookup_insert_eq; by eexists|rewrite lookup_insert_ne by done].
    apply H3. by left.
  - assert (n = n0) as -> by congruence. set_solver.
  - intros m [[->%elem_of_singleton|]%elem_of_union|?]; apply H3; auto; congruence.
  - set_solver.
Qed.

Lemma newPlatformProvider_ok url : threads_ok (newPlatformProvider url).
Proof. split_and!; [done|set_solver..|]. intros n [|]; set_solver. Qed.

(** Once a loop is cancelled, work brings its shutdown one step nearer, a tick takes it
    one step back, and nothing else changes what is left. *)
Lemma prov_step_left n e p p' :
  n ∈ p_cancelled p → threads_ok p → prov_step e p = Some p' →
  (left n p' + (if work n e then 1 else 0) = left n p + (if tick_of n e then 1 else 0))%nat ∧ n ∈ p_cancelled p'.
Proof.
  intros Hw (H1 & H2 & Hc & H3) H. assert (is_Some (p_loops p !! n)) as [l Hl] by auto.
  assert (∀ r, p_loops (refresh r p) = p_loops p ∧ p_waiting (refresh r p) = p_waiting p ∧
    p_cancelled (refresh r p) = p_cancelled p) as Hr.
  { intros r. by destruct (p_threads_refresh r p) as (_ & _ & ? & ? & ?). }
  step_inv e H; unfold left; cbn [work tick_of set_loop p_loops p_waiting p_cancelled];
    try (destruct (Hr r) as (-> & -> & ->));
    try match goal with E : p_loops p !! ?m = _ |- _ => destruct (decide (m = n)) as [->|];
      [rewrite ?lookup_insert_eq, ?E, ?(bool_decide_eq_true_2 (n = n)) by done
      |rewrite ?lookup_insert_ne, ?(bool_decide_eq_false_2 (m = n)) by done] end;
    try (split; [lia|done]); try congruence.
  - assert (n0 ≠ n ∧ n1 ≠ n) as [? ?] by (split; intros ->; by apply (Hc n); congruence).
    rewrite (bool_decide_ext (n ∈ {[n1]} ∪ p_waiting p) (n ∈ p_waiting p)) by set_solver. split; [lia|set_solver].
  - rewrite bool_decide_eq_false_2, bool_decide_eq_true_2 by set_solver. by split; [lia|].
  - rewrite (bool_decide_ext (n ∈ p_waiting p ∖ {[n0]}) (n ∈ p_waiting p)) by set_solver. by split; [lia|].
Qed.

Lemma count_cons f e es : count f (e :: es) = ((if f e then 1 else 0) + count f es)%nat.
Proof. unfold count. rewrite filter_cons. by destruct (f e). Qed.

Lemma prov_run_left n es p p' :
  n ∈ p_cancelled p → threads_ok p → prov_run es p = Some p' →
  (left n p' + count (work n) es = left n p + count (tick_of n) es)%nat.
Proof.
  revert p. induction es as [|e es IH]; intros p Hn Hok; cbn [prov_run]; [by intros [= <-]|].
  destruct (prov_step e p) as [q|] eqn:E; [|done]. intros H.
  destruct (prov_step_left n e p q Hn Hok E) as [Hl Hq]. apply IH in H; [|done|by eapply prov_step_ok].
  rewrite !count_cons. lia.
Qed.

Lemma BooleanEvaluation_run url es p flag defaultValue :
  prov_run es (newPlatformProvider url) = Some p →
  BooleanEvaluation p flag defaultValue =
    match last_fetched url es ∅ !! flag with
    | Some value => mkResolution value StaticReason
    | None => mkResolution defaultValue DefaultReason
    end.
Proof. intros [_ Hf]%prov_run_flags. unfold BooleanEvaluation. by rewrite Hf. Qed.

(** While [Shutdown] waits it is never stuck: the fetch in progress can end, the loop
    can see its context done, or [Shutdown] can return. *)
Lemma shutdown_progress n p :
  n ∈ p_waiting p → threads_ok p → ∀ r : reply, ∃ e p', work n e = true ∧ prov_step e p = Some p'.
Proof.
  intros Hw (_ & H2 & _ & H3) r. assert (is_Some (p_loops p !! n)) as [l Hl] by auto.
  exists (match l with Initialising => InitFetched n r | Selecting => CtxDone n | Fetching => TickFetched n r
          | Closed => ShutdownReturned n end).
  destruct l; cbn [prov_step work]; rewrite Hl, ?(bool_decide_eq_true_2 (n = n)),
    ?(bool_decide_eq_true_2 (n ∈ p_cancelled p)), ?(bool_decide_eq_true_2 (n ∈ p_waiting p)) by auto; by eexists.
Qed.

(** [Shutdown] terminates.  In any run, while a shutdown waits for its loop there
    is a step that brings it nearer, whatever the network answers to a fetch in
    progress; and from then on at most three such steps are taken, plus one for every
    tick the loop still takes. *)
Theorem Shutdown_terminates url es p n :
  prov_run es (newPlatformProvider url) = Some p → n ∈ p_waiting p →
  (∀ r : reply, ∃ e p', work n e = true ∧ prov_step e p = Some p') ∧
  (∀ es' p', prov_run es' p = Some p' →
    (count (work n) es' ≤ count (tick_of n) es' + 3)%nat ∧
    (count (work n) es' = count (tick_of n) es' + 3 → n ∉ p_waiting p')%nat).
Proof.
  intros Hrun Hw. assert (threads_ok p) as Hok.
  { eapply prov_run_inv; [|apply newPlatformProvider_ok|exact Hrun]. intros; by eapply prov_step_ok. }
  split; [by apply shutdown_progress|]. clear Hrun. intros es' p' Hrun.
  apply (prov_run_left n) in Hrun; [|by apply Hok|done].
  unfold left in Hrun. rewrite (bool_decide_eq_true_2 (n ∈ p_waiting p)) in Hrun by done. split.
  - destruct (p_loops p !! n) as [[]|]; lia.
  - intros Hc Hp'. rewrite bool_decide_eq_true_2 in Hrun by done. destruct (p_loops p !! n) as [[]|]; lia.
Qed.

(** Nothing writes the flags once every loop is closed, until the next [Init]. *)
Lemma closed_step e p p' :
  (∀ n, e ≠ Init n) → map_Forall (λ _ l, l = Closed) (p_loops p) → prov_step e p = Some p' →
  map_Forall (λ _ l, l = Closed) (p_loops p') ∧ p_flags p' = p_flags p.
Proof.
  intros Hi Hc H.
  step_inv e H; first [by split|naive_solver|match goal with E : p_loops p !! _ = Some _ |- _ => by pose proof (Hc _ _ E) end].
Qed.

Lemma closed_run es p p' :
  (∀ n, Init n ∉ es) → map_Forall (λ _ l, l = Closed) (p_loops p) → prov_run es p = Some p' →
  map_Forall (λ _ l, l = Closed) (p_loops p') ∧ p_flags p' = p_flags p.
Proof.
  intros Hi Hc. apply (prov_run_inv (λ q, map_Forall (λ _ l, l = Closed) (p_loops q) ∧ p_flags q = p_flags p)); [|done].
  intros e q q' He [Hq <-] Hs. eapply closed_step; [|done..]. intros n ->. by apply (Hi n).
Qed.

(** A closed loop stays closed, and only [Init] starts one. *)
Lemma loops_step e p p' m :
  prov_step e p = Some p' →
  (p_loops p !! m = Some Closed → p_loops p' !! m = Some Closed) ∧
  (p_loops p !! m = None → e ≠ Init m → p_loops p' !! m = None).
Proof.
  intros H. step_inv e H; cbn [p_loops set_loop];
    try match goal with r : reply |- _ => destruct (p_threads_refresh r p) as (_ & _ & _ & -> & _) end;
    try match goal with |- context [<[?x := _]> _ !! m] =>
      destruct (decide (x = m)) as [->|]; [rewrite !lookup_insert_eq|rewrite !lookup_insert_ne by done] end;
    naive_solver.
Qed.

(** Once the shutdown of the only [Init] has returned, no run without a new [Init]
    changes a flag. *)
Theorem Shutdown_final url n es1 es2 es p p' :
  prov_run (Init n :: es1 ++ ShutdownReturned n :: es2) (newPlatformProvider url) = Some p →
  (∀ m, Init m ∉ es1 ++ es2 ++ es) → prov_run es p = Some p' → p_flags p' = p_flags p.
Proof.
  intros Hrun Hi Hes. change (Init n :: es1 ++ ShutdownReturned n :: es2) with ((Init n :: es1) ++ ShutdownReturned n :: es2) in Hrun.
  rewrite prov_run_app in Hrun. destruct (prov_run (Init n :: es1) _) as [p1|] eqn:E1; [|done]. simpl in Hrun.
  destruct (bool_decide (n ∈ p_waiting p1)); [|done]. destruct (p_loops p1 !! n) as [[]|] eqn:El; try done.
  assert (∀ m, m ≠ n → p_loops p1 !! m = None) as Hother.
  { intros m Hm. simpl in E1. revert E1.
    apply (prov_run_inv (λ q, p_loops q !! m = None)); [|simpl; by rewrite lookup_insert_ne].
    intros e q q' He Hq Hs. eapply (loops_step _ _ _ m) in Hs as [_ Hs]. apply Hs; [done|].
    intros ->. apply (Hi m). set_solver. }
  assert (map_Forall (λ _ l, l = Closed) (p_loops p1)) as Hc.
  { intros m l Hm. destruct (decide (m = n)) as [->|Hne]; [congruence|]. rewrite (Hother m Hne) in Hm. done. }
  eapply closed_run in Hrun as [Hcp _]; [|intros m ?; apply (Hi m); set_solver|exact Hc].
  eapply closed_run in Hes as [_ ?]; [done|intros m ?; apply (Hi m); set_solver|done].
Qed.
End provider.

(** ** The evaluator *)

(** The OpenFeature SDK: [SetProvider], and [BooleanValue] of a client, which may fail
    (the provider is not ready yet) and otherwise returns what the provider resolved. *)
Class OpenFeature := {
  of_SetProvider : PlatformProvider → option error;
  of_BooleanValue : PlatformProvider → string → bool → error + bool;
}.

Class OpenFeatureLaws (O : OpenFeature) : Prop := {
  of_value : ∀ p flag d v, of_BooleanValue p flag d = inr v → v = rd_Value (BooleanEvaluation p flag d);
}.

Section evaluator.
Context `{UC : UnicodeCase} `{F : FlagsLib} `{O : OpenFeature}.

(** [Evaluator.client]: the application name of the client, or nil. *)
Record Evaluator := mkEvaluator { ev_client : option string }.

Definition envOr (getenv : string → string) (key fallback : string) : string :=
  let v := getenv key in if negb (String.eqb v "") then v else fallback.

(** [NewFromEnv]; the provider is registered with the SDK. *)
Definition flags_NewFromEnv (getenv : string → string) (appName : string) : Evaluator * option PlatformProvider :=
  let url := envOr getenv "FLAGS_URL" defaultFlagsURL in
  if isDisabledURL url then (mkEvaluator None, None) else
  let provider := newPlatformProvider url in
  match of_SetProvider provider with
  | Some _ => (mkEvaluator None, None)
  | None => (mkEvaluator (Some appName), Some provider)
  end.

(** [Bool] with the provider in its current state; the evaluator may be nil. *)
Definition Evaluator_Bool (e : option Evaluator) (p : PlatformProvider) (flag : string) (defaultVal : bool) : bool :=
  match e with
  | None | Some (mkEvaluator None) => defaultVal
  | Some (mkEvaluator (Some _)) =>
      match of_BooleanValue p flag defaultVal with
      | inl _ => defaultVal
      | inr val => val
      end
  end.

(** At any moment of any run of the provider, its loops and its shutdowns, a flag
    check answers the value the flag has in the most recently fetched document, and
    the caller's default when none was fetched, the document lacks the flag, the
    evaluator has no client or the SDK reports an error; a failed fetch changes no
    answer. *)
Theorem flag_check_last_fetched `{!OpenFeatureLaws O} e url es p flag d :
  prov_run es (newPlatformProvider url) = Some p →
  Evaluator_Bool e p flag d =
    match e ≫= ev_client, of_BooleanValue p flag d with
    | Some _, inr _ => default d (last_fetched url es ∅ !! flag)
    | _, _ => d
    end.
Proof.
  intros Hrun. destruct e as [[[app|]]|]; simpl; [|done..]. destruct (of_BooleanValue p flag d) as [|v] eqn:E; [done|].
  apply of_value in E as ->. rewrite (BooleanEvaluation_run _ _ _ _ _ Hrun). by destruct (last_fetched url es ∅ !! flag).
Qed.
End evaluator.

(** ** Examples *)

Definition demo_flags_lib : FlagsLib := {|
  flags_NewRequest _ := None;
  json_DecodeFlags body := if String.eqb body "{}" then inr (mkFlagsDocument "" [mkFlagRecord "f" true ""]) else inl (Errorf "EOF" []);
|}.
Definition demo_sdk : OpenFeature := {|
  of_SetProvider _ := None;
  of_BooleanValue p flag d := inr (rd_Value (BooleanEvaluation p flag d));
|}.

Lemma demo_sdk_laws : OpenFeatureLaws demo_sdk.
Proof. split. by intros p flag d v [= <-]. Qed.

#[local] Existing Instance demo_flags_lib.
#[local] Existing Instance demo_sdk.
#[local] Existing Instance demo_sdk_laws.

(** A successful first fetch, then a failing one, and a shutdown that waits. *)
Definition demo_events : list event :=
  [Init 0; InitFetched 0 (inr (200, "{}")); Tick 0; TickFetched 0 (inl (Errorf "refused" [])); Tick 0; Shutdown].
Definition demo_provider : PlatformProvider :=
  mkProvider "u" {[ "f" := true ]} None None {[ 0%nat ]} {[ 0%nat := Fetching ]} {[ 0%nat ]}.

Lemma demo_events_run : prov_run demo_events (newPlatformProvider "u") = Some demo_provider.
Proof. vm_compute. reflexivity. Qed.

Lemma flag_check_last_fetched_witness :
  Evaluator_Bool (Some (mkEvaluator (Some "auth"))) demo_provider "f" false = true.
Proof.
  rewrite (flag_check_last_fetched (Some (mkEvaluator (Some "auth"))) "u" demo_events demo_provider "f" false demo_events_run).
  vm_compute. reflexivity.
Defined.

Definition closing : list event := [TickFetched 0 (inl (Errorf "canceled" [])); CtxDone 0; ShutdownReturned 0].
Definition closed_provider : PlatformProvider :=
  mkProvider "u" {[ "f" := true ]} None None {[ 0%nat ]} {[ 0%nat := Closed ]} ∅.

Lemma Shutdown_terminates_witness :
  prov_run closing demo_provider = Some closed_provider ∧ 0%nat ∉ p_waiting closed_provider.
Proof.
  assert (0%nat ∈ p_waiting demo_provider) as Hw by (vm_compute; reflexivity).
  assert (prov_run closing demo_provider = Some closed_provider) as Hr by (vm_compute; reflexivity).
  destruct (Shutdown_terminates "u" demo_events demo_provider 0 demo_events_run Hw) as [_ H].
  split; [exact Hr|]. apply (proj2 (H closing closed_provider Hr)). vm_compute. reflexivity.
Defined.
