(* ===== verification/Relay.v ===== *)
(** [runEventRelay] of cmd/auth/main.go: the loop that publishes the outbox until its
    context is cancelled, with exponential backoff after failures.

    [outbox.Relay.RunOnce] is third-party code: a parameter that, given the number of
    events pending, returns how many it published and an error.  A round also reads
    whether the context is cancelled when [RunOnce] returns and whether it is
    cancelled while the loop waits. *)
From S2P Require Import Prelude Domain.
Local Open Scope Z_scope.

Definition idleInterval : duration := 500 * Millisecond.
Definition minBackoff : duration := Second.
Definition maxBackoff : duration := 30 * Second.

(** What the outside decides in a round. *)
Class RelayEnv := {
  RunOnce : nat → Z → Z * option error;
  ctx_Err : nat → bool;
  ctx_Done : nat → bool;
}.

(** The documented behaviour of [RunOnce]: it publishes pending events, at least one if
    there is any and nothing fails. *)
Class RelayLaws (R : RelayEnv) : Prop := {
  run_once_range : ∀ i pending, 0 ≤ pending → 0 ≤ (RunOnce i pending).1 ≤ pending;
  run_once_progress : ∀ i pending, 0 < pending → (RunOnce i pending).2 = None → 0 < (RunOnce i pending).1;
}.

(** The loop variable, the waits so far, the events pending, and whether the function
    has returned. *)
Record Relay := mkRelay {
  rl_backoff : duration;
  rl_waits : list duration;
  rl_pending : Z;
  rl_returned : bool;
}.

Section relay.
Context `{R : RelayEnv}.

(** The next backoff after a failure. *)
Definition next_backoff (backoff : duration) : duration :=
  if backoff <? maxBackoff then
    let backoff := backoff * 2 in if maxBackoff <? backoff then maxBackoff else backoff
  else backoff.

(** Waiting: the timer fires, or the context is done first. *)
Definition wait_timer (i : nat) (wait : duration) (s : Relay) : Relay :=
  if ctx_Done i then mkRelay (rl_backoff s) (rl_waits s) (rl_pending s) true
  else mkRelay (rl_backoff s) (rl_waits s ++ [wait]) (rl_pending s) false.

(** Round [i] of the loop. *)
Definition relay_round (i : nat) (s : Relay) : Relay :=
  if rl_returned s then s else
  let '(published, err) := RunOnce i (rl_pending s) in
  let pending := rl_pending s - published in
  if ctx_Err i then mkRelay (rl_backoff s) (rl_waits s) pending true else
  match err with
  | Some _ => wait_timer i (rl_backoff s) (mkRelay (next_backoff (rl_backoff s)) (rl_waits s) pending false)
  | None =>
      if 0 <? published then mkRelay minBackoff (rl_waits s) pending false
      else wait_timer i idleInterval (mkRelay minBackoff (rl_waits s) pending false)
  end.

(** The state after [n] rounds with [pending] events at the start. *)
Fixpoint runEventRelay (n : nat) (pending : Z) : Relay :=
  match n with
  | O => mkRelay minBackoff [] pending false
  | S n => relay_round n (runEventRelay n pending)
  end.

(** ** Backoff *)

(** The failures in a row at the end of [n] rounds. *)
Fixpoint streak (n : nat) (pending : Z) : nat :=
  match n with
  | O => 0
  | S n => match (RunOnce n (rl_pending (runEventRelay n pending))).2 with Some _ => S (streak n pending) | None => 0 end
  end.

(** Backoff in closed form: doubling from one second, capped at thirty. *)
Definition backoff_after (k : nat) : duration := Z.min maxBackoff (minBackoff * 2 ^ Z.of_nat k).

Lemma backoff_after_range k : minBackoff ≤ backoff_after k ≤ maxBackoff.
Proof.
  unfold backoff_after. assert (1 ≤ 2 ^ Z.of_nat k) by (apply (Z.pow_le_mono_r 2 0); lia).
  unfold minBackoff, maxBackoff, Second, Millisecond. lia.
Qed.

Lemma next_backoff_after k : next_backoff (backoff_after k) = backoff_after (S k).
Proof.
  unfold next_backoff, backoff_after. cbv zeta. rewrite Nat2Z.inj_succ, Z.pow_succ_r by lia.
  assert (1 ≤ 2 ^ Z.of_nat k) by (apply (Z.pow_le_mono_r 2 0); lia).
  unfold minBackoff, maxBackoff, Second, Millisecond.
  destruct (Z.ltb_spec (Z.min (30 * (1000 * 1000)) (1000 * 1000 * 2 ^ Z.of_nat k)) (30 * (1000 * 1000)));
    [destruct (Z.ltb_spec (30 * (1000 * 1000)) (Z.min (30 * (1000 * 1000)) (1000 * 1000 * 2 ^ Z.of_nat k) * 2))|]; lia.
Qed.

(** While it runs, the loop variable is the backoff of the current streak. *)
Lemma relay_backoff n pending :
  rl_returned (runEventRelay n pending) = false → rl_backoff (runEventRelay n pending) = backoff_after (streak n pending).
Proof.
  induction n as [|n IH]; [done|]. cbn [runEventRelay streak]. unfold relay_round.
  destruct (rl_returned (runEventRelay n pending)) eqn:Er; [congruence|]. specialize (IH eq_refl).
  destruct (RunOnce n _) as [published [err|]]; simpl; destruct (ctx_Err n); try done; unfold wait_timer;
    [|destruct (0 <? published)]; try (destruct (ctx_Done n)); simpl; intros; try done.
  by rewrite IH, next_backoff_after.
Qed.

(** ** Waits *)

Lemma relay_round_waits i s :
  ∃ l, rl_waits (relay_round i s) = rl_waits s ++ l ∧
    (l = [] ∨ (l = [rl_backoff s] ∧ (RunOnce i (rl_pending s)).2 ≠ None) ∨ l = [idleInterval]).
Proof.
  unfold relay_round. destruct (rl_returned s); [exists []; rewrite app_nil_r; auto|].
  destruct (RunOnce i (rl_pending s)) as [published [err|]] eqn:E; simpl; destruct (ctx_Err i); simpl;
    try (exists []; rewrite app_nil_r; auto; fail); unfold wait_timer; [|destruct (0 <? published); simpl];
    try (exists []; rewrite app_nil_r; auto; fail); destruct (ctx_Done i); simpl;
    try (exists []; rewrite app_nil_r; auto; fail); eexists [_]; (split; [reflexivity|]); auto.
Qed.

(** Backing off is bounded and exact: after [k] failures in a row the loop variable
    is one second doubled [k] times, at most thirty seconds; every wait of the loop is
    the idle half second or such a backoff, so no pause is longer than thirty seconds. *)
Theorem relay_waits_bounded n pending :
  (rl_returned (runEventRelay n pending) = false →
    rl_backoff (runEventRelay n pending) = Z.min (30 * Second) (Second * 2 ^ Z.of_nat (streak n pending))) ∧
  Forall (λ d, d = idleInterval ∨ ∃ k, d = backoff_after k ∧ Second ≤ d ≤ 30 * Second) (rl_waits (runEventRelay n pending)).
Proof.
  split; [apply relay_backoff|]. induction n as [|n IH]; [constructor|]. cbn [runEventRelay].
  destruct (rl_returned (runEventRelay n pending)) eqn:Er; [unfold relay_round; by rewrite Er|].
  destruct (relay_round_waits n (runEventRelay n pending)) as (l & -> & Hl). apply Forall_app. split; [done|].
  destruct Hl as [->|[[-> _]| ->]]; [constructor|apply Forall_singleton..]; [right|by left].
  rewrite (relay_backoff _ _ Er). eexists. split; [reflexivity|]. apply backoff_after_range.
Qed.

(** ** Stopping *)

(** Whether the loop waits after a call of [RunOnce]. *)
Definition waits_after (r : Z * option error) : Prop := r.2 ≠ None ∨ r.1 ≤ 0.

Lemma relay_round_returned i s :
  rl_returned (relay_round i s) = true ↔
  rl_returned s = true ∨ ctx_Err i = true ∨ (ctx_Done i = true ∧ waits_after (RunOnce i (rl_pending s))).
Proof.
  unfold relay_round, waits_after. destruct (rl_returned s) eqn:Er; [rewrite Er; tauto|].
  destruct (RunOnce i (rl_pending s)) as [published [err|]]; simpl; destruct (ctx_Err i); simpl; try tauto;
    unfold wait_timer; [|destruct (Z.ltb_spec 0 published)]; simpl; destruct (ctx_Done i); simpl;
    intuition (congruence || lia).
Qed.

(** The relay stops when it is told to, and only then: after [n] rounds it has
    returned exactly if in one of them the context was cancelled when [RunOnce]
    returned, or was cancelled while the loop waited. *)
Theorem relay_stops n pending :
  rl_returned (runEventRelay n pending) = true ↔
  ∃ i, (i < n)%nat ∧
    (ctx_Err i = true ∨ (ctx_Done i = true ∧ waits_after (RunOnce i (rl_pending (runEventRelay i pending))))).
Proof.
  induction n as [|n IH]; [split; [done|intros (i & ? & _); lia]|].
  cbn [runEventRelay]. rewrite relay_round_returned, IH. split.
  - intros [(i & Hi & H)|H]; [exists i|exists n]; (split; [lia|done]).
  - intros (i & Hi & H). destruct (decide (i = n)) as [->|]; [by right|]. left. exists i. split; [lia|done].
Qed.

(** ** Draining the outbox *)

(** The failing calls among the first [n] rounds. *)
Fixpoint failures (n : nat) (pending : Z) : nat :=
  match n with
  | O => 0
  | S n => (match (RunOnce n (rl_pending (runEventRelay n pending))).2 with Some _ => 1 | None => 0 end
            + failures n pending)%nat
  end.

Context `{!RelayLaws R}.

Lemma relay_round_pending i s :
  0 ≤ rl_pending s → rl_returned s = false →
  0 ≤ rl_pending (relay_round i s) ≤ rl_pending s ∧
  (0 < rl_pending s → (RunOnce i (rl_pending s)).2 = None → rl_pending (relay_round i s) < rl_pending s).
Proof.
  intros Hp Hr. pose proof (run_once_range i (rl_pending s) Hp) as Hrange.
  pose proof (run_once_progress i (rl_pending s)) as Hprog. unfold relay_round. rewrite Hr.
  destruct (RunOnce i (rl_pending s)) as [published err]. simpl in *.
  assert (∀ w q, rl_pending (wait_timer i w q) = rl_pending q) as Hw.
  { intros w q. unfold wait_timer. by destruct (ctx_Done i). }
  destruct (ctx_Err i); [simpl; split; [lia|intros ? ->; specialize (Hprog ltac:(lia) eq_refl); lia]|].
  destruct err as [err|]; [rewrite Hw; simpl; split; [lia|done]|].
  destruct (0 <? published); rewrite ?Hw; simpl; (split; [lia|intros; specialize (Hprog ltac:(lia) eq_refl); lia]).
Qed.

(** Each round publishes an event, fails, or finds nothing pending. *)
Lemma relay_progress n pending :
  0 ≤ pending → rl_returned (runEventRelay n pending) = false →
  0 ≤ rl_pending (runEventRelay n pending) ∧
  (rl_pending (runEventRelay n pending) = 0 ∨
   rl_pending (runEventRelay n pending) + Z.of_nat n ≤ pending + Z.of_nat (failures n pending)).
Proof.
  intros Hp. induction n as [|n IH]; [simpl; lia|]. intros Hr.
  assert (rl_returned (runEventRelay n pending) = false) as Hr'.
  { destruct (rl_returned (runEventRelay n pending)) eqn:E; [|done].
    cbn [runEventRelay] in Hr. unfold relay_round in Hr. rewrite E in Hr. congruence. }
  specialize (IH Hr') as [H0 IH]. cbn [runEventRelay failures].
  destruct (relay_round_pending n (runEventRelay n pending) H0 Hr') as [Hle Hlt]. split; [lia|].
  destruct IH as [Hz|IH]; [left; lia|].
  destruct (RunOnce n (rl_pending (runEventRelay n pending))).2 as [err|]; [right; lia|].
  destruct (decide (rl_pending (runEventRelay n pending) = 0)); [left; lia|]. right.
  specialize (Hlt ltac:(lia) eq_refl). lia.
Qed.

(** The outbox is drained.  If the relay is not stopped, then after as many rounds
    as there were events pending plus as many as failed, every event that was pending
    has been published, whatever the batches [RunOnce] publishes. *)
Theorem relay_drains n pending :
  0 ≤ pending → rl_returned (runEventRelay n pending) = false →
  pending + Z.of_nat (failures n pending) ≤ Z.of_nat n → rl_pending (runEventRelay n pending) = 0.
Proof. intros Hp Hr Hn. destruct (relay_progress n pending Hp Hr) as [? [?|?]]; lia. Qed.
End relay.

(** ** Example: a relay that publishes one event at a time and fails in its first
    three rounds *)

Definition flaky : RelayEnv := {|
  RunOnce i pending := if Nat.ltb i 3 then (0, Some (Errorf "nats: no servers" []))
                       else if 0 <? pending then (1, None) else (0, None);
  ctx_Err _ := false;
  ctx_Done _ := false;
|}.

Lemma flaky_laws : RelayLaws flaky.
Proof.
  split; intros i pending; simpl; destruct (Nat.ltb i 3); simpl; try done; destruct (Z.ltb_spec 0 pending); simpl; lia.
Qed.

#[local] Existing Instance flaky.
#[local] Existing Instance flaky_laws.

Lemma relay_drains_witness : rl_pending (runEventRelay 5 2) = 0.
Proof. apply (relay_drains 5 2); [lia|vm_compute; reflexivity|vm_compute; congruence]. Defined.

Example flaky_waits : rl_waits (runEventRelay 6 2) = [Second; 2 * Second; 4 * Second; idleInterval].
Proof. reflexivity. Qed.
