(* ===== verification/Migrations.v ===== *)
(** The migrations runner, internal/infrastructure/postgres/migrations, and the
    [migrate] subcommand of cmd/auth.

    goose is a parameter: it applies, rolls back and reports the embedded migrations.
    The model of the database is what this code and goose's contract speak about: the
    version table, the table of the previous hand-written runner, whether the users
    table exists, and the migrations whose SQL has run.  Every statement may fail. *)
From S2P Require Import Prelude GoStrings Domain.
Local Open Scope Z_scope.

(** A row of goose_db_version. *)
Record VersionRow := mkVersionRow { version_id : Z; is_applied : bool }.

#[export] Instance VersionRow_eq_dec : EqDecision VersionRow.
Proof. solve_decision. Defined.

Record MigDB := mkMigDB {
  goose_db_version : option (list VersionRow);
  schema_migrations : option (list string);
  has_users : bool;
  sql_run : list Z;
}.

(** An embedded migration. *)
Record Source := mkSource { src_Version : Z; src_Path : string }.

Definition applied (db : MigDB) (v : Z) : Prop := mkVersionRow v true ∈ default [] (goose_db_version db).
#[export] Instance applied_dec db v : Decision (applied db v).
Proof. unfold applied. apply _. Defined.

(** The database and the n-th interaction with it. *)
Class Goose := {
  ListSources : list Source;
  mig_fault : nat → option error;
  goose_Up : nat → MigDB → (error + list Source) * MigDB;
  goose_Down : nat → MigDB → (error + Source) * MigDB;
  goose_Status : nat → MigDB → (error + list (Source * bool)) * MigDB;
  goose_GetVersions : nat → MigDB → (error + Z * Z) * MigDB;
}.

(** What this code relies on: [Up] runs the SQL only of migrations that are not
    recorded as applied; [Up], [Status] and [GetVersions] forget no applied version;
    goose does not touch the legacy table. *)
Class GooseLaws (G : Goose) : Prop := {
  goose_Up_pending : ∀ n db, let db' := (goose_Up n db).2 in
    schema_migrations db' = schema_migrations db ∧ (∀ v, applied db v → applied db' v) ∧
    ∃ l, sql_run db' = sql_run db ++ l ∧ Forall (λ v, ¬ applied db v) l;
  goose_Status_reads : ∀ n db, let db' := (goose_Status n db).2 in
    schema_migrations db' = schema_migrations db ∧ (∀ v, applied db v → applied db' v) ∧ sql_run db' = sql_run db;
  goose_Versions_reads : ∀ n db, let db' := (goose_GetVersions n db).2 in
    schema_migrations db' = schema_migrations db ∧ (∀ v, applied db v → applied db' v) ∧ sql_run db' = sql_run db;
}.

Section migrations.
Context `{G : Goose}.

(** Computations over the database and the counter of interactions. *)
Definition T (A : Type) : Type := nat → MigDB → (error + A) * nat * MigDB.

Definition tret {A} (a : A) : T A := λ n db, (inr a, n, db).
Definition tbind {A B} (m : T A) (k : A → T B) : T B := λ n db,
  match m n db with
  | (inr a, n, db) => k a n db
  | (inl e, n, db) => (inl e, n, db)
  end.

Declare Scope mig_scope.
Local Notation "x <- m ;; k" := (tbind m (λ x, k)) (at level 100, m at next level, right associativity) : mig_scope.
Local Notation "m ;; k" := (tbind m (λ _, k)) (at level 100, right associativity) : mig_scope.
Local Open Scope mig_scope.

(** A statement; [what] is the format its error is wrapped in. *)
Definition stmt {A} (what : string) (f : MigDB → A * MigDB) : T A := λ n db,
  match mig_fault n with
  | Some e => (inl (Errorw what [] e), S n, db)
  | None => let '(a, db) := f db in (inr a, S n, db)
  end.

(** [tx.Commit()] returns its error unwrapped. *)
Definition tx_commit : T unit := λ n db,
  match mig_fault n with Some e => (inl e, S n, db) | None => (inr (), S n, db) end.

(** BeginTx, the body, and the deferred rollback: only a transaction that committed
    changes the database. *)
Definition with_tx (body : T unit) : T unit := λ n db,
  match mig_fault n with
  | Some e => (inl (Errorw "migrations: begin adoption: %w" [] e), S n, db)
  | None => match body (S n) db with
            | (inr (), n, db') => (inr (), n, db')
            | (inl e, n, _) => (inl e, n, db)
            end
  end.

Definition read {A} (f : MigDB → A) (db : MigDB) : A * MigDB := (f db, db).

(** INSERT ... WHERE NOT EXISTS. *)
Definition add_version (v : Z) (db : MigDB) : unit * MigDB :=
  match goose_db_version db with
  | Some rows =>
      if bool_decide (mkVersionRow v true ∈ rows) then ((), db)
      else ((), mkMigDB (Some (rows ++ [mkVersionRow v true])) (schema_migrations db) (has_users db) (sql_run db))
  | None => ((), db)
  end.

Definition insertVersion (version : Z) : T unit :=
  stmt "migrations: record adopted version %d: %w" (add_version version).

(** CREATE TABLE goose_db_version. *)
Definition create_version_table (db : MigDB) : unit * MigDB :=
  ((), mkMigDB (Some []) (schema_migrations db) (has_users db) (sql_run db)).

(** SELECT name FROM schema_migrations, as a set; the code reads it only when the table
    exists. *)
Definition legacyNames : T (gset string) :=
  stmt "migrations: read legacy versions: %w" (read (λ db, list_to_set (default [] (schema_migrations db)))).

(** The loop over the sources. *)
Fixpoint record_sources (applyAll : bool) (names : gset string) (l : list Source) : T unit :=
  match l with
  | [] => tret ()
  | source :: l =>
      if negb applyAll && negb (bool_decide (Base (src_Path source) ∈ names)) then record_sources applyAll names l
      else insertVersion (src_Version source) ;; record_sources applyAll names l
  end.

(** SELECT count of rows with version_id > 0 AND is_applied. *)
Definition applied_count (db : MigDB) : nat :=
  length (filter (λ r, 0 < version_id r ∧ is_applied r = true) (default [] (goose_db_version db))).

Definition adoption : T unit :=
  stmt "migrations: lock adoption: %w" (read (λ _, ())) ;;
  gooseExists <- stmt "migrations: inspect version table: %w" (read (λ db, bool_decide (is_Some (goose_db_version db)))) ;;
  applied <- (if gooseExists : bool then stmt "migrations: read version table: %w" (read applied_count) else tret 0%nat) ;;
  if gooseExists && Nat.ltb 0 applied then tx_commit else
  legacyExists <- stmt "migrations: inspect legacy table: %w" (read (λ db, bool_decide (is_Some (schema_migrations db)))) ;;
  if negb legacyExists then tx_commit else
  names <- legacyNames ;;
  hasUsers <- (if bool_decide (names = ∅) then stmt "migrations: inspect legacy users table: %w" (read has_users)
               else tret false) ;;
  if bool_decide (names = ∅) && negb hasUsers then tx_commit else
  let applyAll := bool_decide (names = ∅) in
  (if gooseExists then tret () else
     stmt "migrations: create version table: %w" create_version_table ;; insertVersion 0) ;;
  record_sources applyAll names ListSources ;;
  tx_commit.

Definition adoptLegacy : T unit := with_tx adoption.

(** A call of goose, its error wrapped. *)
Definition goose {A} (what : string) (f : nat → MigDB → (error + A) * MigDB) : T A := λ n db,
  match f n db with
  | (inr a, db) => (inr a, S n, db)
  | (inl e, db) => (inl (Errorw what [] e), S n, db)
  end.

Definition Up : T (list Source) := adoptLegacy ;; goose "migrations: up: %w" goose_Up.
Definition Down : T Source := adoptLegacy ;; goose "migrations: down: %w" goose_Down.
Definition Status : T (list (Source * bool)) := adoptLegacy ;; goose "migrations: status: %w" goose_Status.
Definition Version : T (Z * Z) := adoptLegacy ;; goose "migrations: version: %w" goose_GetVersions.

(** ** The subcommand of cmd/auth *)

(** [migrations.Open] followed by the action and [Close]; opening may fail. *)
Definition with_migrator {A} (open : option error) (m : T A) : T A := λ n db,
  match open with Some e => (inl e, n, db) | None => m n db end.

Definition migrateUp (open : option error) : T unit := with_migrator open (Up ;; tret ()).
Definition migrateDown (open : option error) : T unit := with_migrator open (Down ;; tret ()).
Definition migrateStatus (open : option error) : T unit := with_migrator open (Status ;; Version ;; tret ()).

(** [runMigrate]: the exit code of the process. *)
Definition runMigrate (open : option error) (args : list string) : nat → MigDB → Z * nat * MigDB := λ n db,
  let action := match args with a :: _ => a | [] => "up" end in
  let m := if String.eqb action "up" then migrateUp open
           else if String.eqb action "down" then migrateDown open
           else if String.eqb action "status" then migrateStatus open
           else λ n db, (inl (Errorf "unknown migrate action %q (want up, down or status)" [action]), n, db) in
  match m n db with
  | (inr _, n, db) => (0, n, db)
  | (inl _, n, db) => (1, n, db)
  end.

(** ** What adoption records *)

(** Partial correctness of a computation of the transaction. *)
Definition twp {A} (m : T A) (db : MigDB) (Φ : A → MigDB → Prop) : Prop :=
  ∀ n, match m n db with (inr a, _, db') => Φ a db' | (inl _, _, _) => True end.

Lemma twp_ret {A} (a : A) db (Φ : A → MigDB → Prop) : Φ a db → twp (tret a) db Φ.
Proof. by intros H n. Qed.

Lemma twp_bind {A B} (m : T A) (k : A → T B) db Φ :
  twp m db (λ a db', twp (k a) db' Φ) → twp (tbind m k) db Φ.
Proof. intros H n. unfold tbind. specialize (H n). destruct (m n db) as [[[|a] n'] db']; [done|]. apply H. Qed.

Lemma twp_stmt {A} what (f : MigDB → A * MigDB) db (Φ : A → MigDB → Prop) :
  Φ (f db).1 (f db).2 → twp (stmt what f) db Φ.
Proof. intros H n. unfold stmt. destruct (mig_fault n); [done|]. by destruct (f db). Qed.

Lemma twp_commit db (Φ : unit → MigDB → Prop) : Φ () db → twp tx_commit db Φ.
Proof. intros H n. unfold tx_commit. by destruct (mig_fault n). Qed.

Lemma twp_mono {A} (m : T A) db (Φ Ψ : A → MigDB → Prop) : twp m db Φ → (∀ a db', Φ a db' → Ψ a db') → twp m db Ψ.
Proof. intros H HΦ n. specialize (H n). destruct (m n db) as [[[|a] n'] db']; eauto. Qed.

(** Everything but the version table stays. *)
Definition same_rest (db db' : MigDB) : Prop :=
  schema_migrations db' = schema_migrations db ∧ has_users db' = has_users db ∧ sql_run db' = sql_run db.

(** The rows [l] are recorded in addition. *)
Definition recorded (db db' : MigDB) (P : Z → Prop) : Prop :=
  same_rest db db' ∧ is_Some (goose_db_version db') ∧ ∀ v, applied db' v ↔ applied db v ∨ P v.

Lemma add_version_recorded v db : is_Some (goose_db_version db) → recorded db (add_version v db).2 (λ u, u = v).
Proof.
  intros [rows E]. unfold add_version, recorded, same_rest, applied. rewrite E. case_bool_decide as Hin; simpl.
  - split_and!; [done..|by rewrite E|]. intros u. rewrite E. simpl. naive_solver.
  - split_and!; [done..|by eexists|]. intros u. rewrite elem_of_app, list_elem_of_singleton. simpl. naive_solver.
Qed.

Lemma recorded_trans db1 db2 db3 P Q :
  recorded db1 db2 P → recorded db2 db3 Q → recorded db1 db3 (λ v, P v ∨ Q v).
Proof.
  intros ((? & ? & ?) & _ & H12) ((? & ? & ?) & Hs & H23). split; [split_and!; congruence|]. split; [done|].
  intros v. rewrite H23, H12. tauto.
Qed.

Lemma recorded_ext db db' (P Q : Z → Prop) : (∀ v, P v ↔ Q v) → recorded db db' P → recorded db db' Q.
Proof. intros HPQ (? & ? & H). split_and!; [done..|]. intros v. by rewrite H, HPQ. Qed.

(** The sources the loop records. *)
Definition chosen (applyAll : bool) (names : gset string) (l : list Source) (v : Z) : Prop :=
  ∃ source, source ∈ l ∧ src_Version source = v ∧ (applyAll = true ∨ Base (src_Path source) ∈ names).

Lemma record_sources_recorded applyAll names l db :
  is_Some (goose_db_version db) →
  twp (record_sources applyAll names l) db (λ _ db', recorded db db' (chosen applyAll names l)).
Proof.
  revert db. induction l as [|source l IH]; intros db Hs; cbn [record_sources].
  - apply twp_ret. split_and!; [done..|]. intros v. unfold chosen. set_solver.
  - destruct (negb applyAll && _) eqn:Ec.
    + eapply twp_mono; [by apply IH|]. intros u db' Hdb. eapply recorded_ext; [|exact Hdb]. intros v. unfold chosen. split.
      * intros (src & ? & ?). exists src. set_solver.
      * intros (src & [->|?]%elem_of_cons & ? & Hc); [|by exists src]. bool_hyps. by destruct Hc as [->|].
    + apply twp_bind, twp_stmt. pose proof (add_version_recorded (src_Version source) db Hs) as Hr.
      eapply twp_mono; [apply IH; apply Hr|]. intros u db' Hdb. eapply recorded_ext; [|exact (recorded_trans _ _ _ _ _ Hr Hdb)].
      intros v. unfold chosen. split.
      * intros [->|(src & ? & ?)]; [|exists src; set_solver]. exists source. split_and!; [left|done|].
        apply andb_false_iff in Ec as [Ec|Ec]; apply negb_false_iff in Ec; [by left|right]. by bool_hyps.
      * intros (src & [->|?]%elem_of_cons & ? & Hc); [by left|right; by exists src].
Qed.

(** The database calls for adoption: no migration is recorded as applied, the legacy
    table exists, and it has rows or, if empty, the users table exists. *)
Definition legacy (db : MigDB) : Prop :=
  applied_count db = 0%nat ∧ ∃ names, schema_migrations db = Some names ∧ (names ≠ [] ∨ has_users db = true).

(** The sources the legacy runner had applied. *)
Definition legacy_source (db : MigDB) (source : Source) : Prop :=
  source ∈ ListSources ∧ ∃ names, schema_migrations db = Some names ∧
    (Base (src_Path source) ∈ names ∨ (names = [] ∧ has_users db = true)).

(** What a committed adoption leaves: nothing changes unless adoption is called for; then
    exactly the legacy versions are recorded, with the initial row of a new table. *)
Definition adopted (db db' : MigDB) : Prop :=
  (¬ legacy db ∧ db' = db) ∨
  (legacy db ∧ same_rest db db' ∧ is_Some (goose_db_version db') ∧
   ∀ v, applied db' v ↔ applied db v ∨ (v = 0 ∧ goose_db_version db = None) ∨
     ∃ source, legacy_source db source ∧ src_Version source = v).

Lemma applied_count_none db : goose_db_version db = None → applied_count db = 0%nat.
Proof. unfold applied_count. by intros ->. Qed.

Lemma adopted_refl db : ¬ legacy db → adopted db db.
Proof. by left. Qed.

(** The last part of adoption, for a legacy database. *)
Lemma adoption_records (names : gset string) (nl : list string) db :
  legacy db → schema_migrations db = Some nl → names = list_to_set nl → (names = ∅ → has_users db = true) →
  twp (tbind (if bool_decide (is_Some (goose_db_version db)) then tret () else
     tbind (stmt "migrations: create version table: %w" create_version_table) (λ _, insertVersion 0)) (λ _,
     tbind (record_sources (bool_decide (names = ∅)) names ListSources) (λ _, tx_commit))) db (λ _ db', adopted db db').
Proof.
  intros Hl Hs Hn Hu. assert (∀ v, chosen (bool_decide (names = ∅)) names ListSources v ↔
    ∃ source, legacy_source db source ∧ src_Version source = v) as Hch.
  { intros v. unfold chosen, legacy_source. rewrite Hs. split.
    - intros (source & Hin & <- & Hc). exists source. split; [|done]. split; [done|]. exists nl. split; [done|].
      destruct Hc as [Hc%bool_decide_eq_true_1|Hc]; [right|left; set_solver]. split; [|auto].
      destruct nl; [done|set_solver].
    - intros (source & (Hin & l & [= <-] & Hc) & <-). exists source. split_and!; [done..|].
      destruct Hc as [Hc|[-> _]]; [right; set_solver|left]. apply bool_decide_eq_true_2. set_solver. }
  apply twp_bind. destruct (bool_decide_reflect (is_Some (goose_db_version db))) as [Hg|Hg].
  - apply twp_ret, twp_bind. eapply twp_mono; [by apply record_sources_recorded|]. intros u db' (Hr & Hsome & Ha).
    apply twp_commit. right. split_and!; [done..|]. intros v. rewrite Ha, Hch. destruct Hg as [rows Hg]. rewrite Hg. naive_solver.
  - apply twp_bind, twp_stmt, twp_stmt. simpl fst. simpl snd.
    assert (is_Some (goose_db_version (create_version_table db).2)) as Hc by by eexists.
    pose proof (add_version_recorded 0 _ Hc) as H0. apply twp_bind. eapply twp_mono; [by apply record_sources_recorded, H0|].
    intros u db' H1. apply twp_commit. pose proof (recorded_trans _ _ _ _ _ H0 H1) as (? & ? & Ha).
    right. split_and!; [done..|]. intros v. rewrite Ha, Hch. apply eq_None_not_Some in Hg. rewrite Hg.
    assert (¬ applied (create_version_table db).2 v) by (unfold applied; simpl; set_solver).
    assert (¬ applied db v) by (unfold applied; rewrite Hg; set_solver). naive_solver.
Qed.

Lemma adoption_adopted db : twp adoption db (λ _ db', adopted db db').
Proof.
  unfold adoption. apply twp_bind, twp_stmt. cbn [read fst snd]. apply twp_bind, twp_stmt. cbn [read fst snd].
  apply twp_bind.
  assert (twp (if bool_decide (is_Some (goose_db_version db)) then stmt "migrations: read version table: %w" (read applied_count)
    else tret 0%nat) db (λ k db', db' = db ∧ k = applied_count db)) as Hcount.
  { case_bool_decide as Hg; [by apply twp_stmt|]. apply twp_ret. split; [done|].
    symmetry. apply applied_count_none. by apply eq_None_not_Some. }
  eapply twp_mono; [exact Hcount|]. intros k ? [-> ->]. clear Hcount.
  destruct (_ && _) eqn:Ek.
  { apply twp_commit, adopted_refl. intros [H0 _]. rewrite H0 in Ek. by rewrite andb_false_r in Ek. }
  assert (applied_count db = 0%nat) as H0.
  { apply andb_false_iff in Ek as [Ek|Ek]; [|by destruct (applied_count db)].
    bool_hyps. apply applied_count_none. by apply eq_None_not_Some. }
  clear Ek. apply twp_bind, twp_stmt. cbn [read fst snd].
  destruct (bool_decide_reflect (is_Some (schema_migrations db))) as [Hs|Hs]; cbn [negb].
  2:{ apply twp_commit, adopted_refl. intros (_ & names & Hn & _). apply Hs. by eexists. }
  destruct Hs as [nl Hs]. apply twp_bind, twp_stmt. cbn [read fst snd]. rewrite Hs. cbn [default from_option id].
  remember (list_to_set nl : gset string) as names eqn:En. apply twp_bind.
  assert (twp (if bool_decide (names = ∅) then stmt "migrations: inspect legacy users table: %w" (read has_users) else tret false)
    db (λ b db', db' = db ∧ (names = ∅ → b = has_users db))) as Husers.
  { case_bool_decide; [by apply twp_stmt|by apply twp_ret]. }
  eapply twp_mono; [exact Husers|]. intros b ? [-> Hb]. clear Husers.
  destruct (_ && negb b) eqn:Eb.
  { apply twp_commit, adopted_refl. intros (_ & l & Hl & Hc). bool_hyps. rewrite Hs in Hl. simplify_eq.
    destruct Hc as [Hc|Hc]; [destruct l; set_solver|]. match goal with He : _ = ∅ |- _ => specialize (Hb He) end. congruence. }
  apply (adoption_records _ nl); [|done|done|].
  - split; [done|]. exists nl. split; [done|]. apply andb_false_iff in Eb as [Eb|Eb]; bool_hyps.
    + left. intros ->. set_solver.
    + destruct (decide (names = ∅)) as [He|He]; [right; by rewrite <- Hb|left; intros ->; set_solver].
  - intros He. rewrite bool_decide_eq_true_2 in Eb by done. simpl in Eb. bool_hyps. by rewrite <- Hb.
Qed.

Lemma adoptLegacy_cases n db r n' db' :
  adoptLegacy n db = (r, n', db') → (∃ e, r = inl e ∧ db' = db) ∨ (r = inr () ∧ adopted db db').
Proof.
  unfold adoptLegacy, with_tx. destruct (mig_fault n); [intros [= <- <- <-]; eauto|].
  pose proof (adoption_adopted db (S n)) as H. destruct (adoption (S n) db) as [[[e|[]] m] db1]; intros [= <- <- <-]; eauto.
Qed.

Lemma legacy_source_same db db' source : same_rest db db' → legacy_source db' source ↔ legacy_source db source.
Proof. intros (Hs & Hu & _). unfold legacy_source. by rewrite Hs, Hu. Qed.

(** C24: adopting a legacy database is atomic, exact and idempotent: it either fails and
    changes nothing, or records precisely the migrations the previous runner had
    applied (all of them for its empty table beside existing users), runs no SQL and
    leaves the legacy table alone; adopting once more records nothing new. *)
Theorem adoptLegacy_exact n db r n' db' :
  adoptLegacy n db = (r, n', db') →
  (∃ e, r = inl e ∧ db' = db) ∨
  (r = inr () ∧ adopted db db' ∧ same_rest db db' ∧
    ∀ m m' r' db'', adoptLegacy m db' = (r', m', db'') → ∀ v, applied db'' v ↔ applied db' v).
Proof.
  intros [(e & -> & ->)|[-> Ha]]%adoptLegacy_cases; [left; eauto|right]. split_and!; [done..| |].
  - by destruct Ha as [[_ ->]|(_ & ? & _)].
  - intros m m' r' db'' [(e & -> & ->)|[-> Hb]]%adoptLegacy_cases v; [done|].
    destruct Hb as [[_ ->]|(Hl' & _ & _ & Hv')]; [done|]. destruct Ha as [[? ->]|(Hl & Hsame & [rows Hg] & Hv)]; [done|].
    rewrite Hv'. split; [|by left]. intros [?|[[-> Hn]|(source & Hs & <-)]]; [done|congruence|].
    apply Hv. do 2 right. exists source. split; [|done]. by apply (legacy_source_same _ db').
Qed.

(** ** No migration runs twice *)

(** The calls that do not roll back. *)
Inductive mig_call := CallUp | CallStatus | CallVersion.

Definition mig_step (c : mig_call) (n : nat) (db : MigDB) : nat * MigDB :=
  match c with
  | CallUp => let '(_, n, db) := Up n db in (n, db)
  | CallStatus => let '(_, n, db) := Status n db in (n, db)
  | CallVersion => let '(_, n, db) := Version n db in (n, db)
  end.

Fixpoint mig_run (cs : list mig_call) (n : nat) (db : MigDB) : nat * MigDB :=
  match cs with
  | [] => (n, db)
  | c :: cs => let '(n, db) := mig_step c n db in mig_run cs n db
  end.

(** Either nothing was adopted yet or every legacy version is recorded, and none ran. *)
Definition legacy_safe (db0 db : MigDB) : Prop :=
  (db = db0 ∨ (schema_migrations db = schema_migrations db0 ∧ ∀ source, legacy_source db0 source → applied db (src_Version source))) ∧
  ∀ source, legacy_source db0 source → src_Version source ∉ sql_run db.

Context `{!GooseLaws G}.

(** The effect of an entry point: a failed adoption, or goose after a successful one. *)
Lemma entry_cases {A} what (f : nat → MigDB → (error + A) * MigDB) n db r n' db' :
  tbind adoptLegacy (λ _, goose what f) n db = (r, n', db') →
  db' = db ∨ ∃ m db1, adopted db db1 ∧ db' = (f m db1).2.
Proof.
  unfold tbind. destruct (adoptLegacy n db) as [[r1 n1] db1] eqn:Ea.
  apply adoptLegacy_cases in Ea as [(e & -> & ->)|[-> Ha]]; [intros [= _ _ <-]; by left|].
  intros H. right. exists n1, db1. split; [done|]. unfold goose in H. destruct (f n1 db1) as [[|] db2]; by simplify_eq/=.
Qed.

Lemma adopted_safe db0 db db1 :
  legacy db0 → legacy_safe db0 db → adopted db db1 →
  schema_migrations db1 = schema_migrations db0 ∧
  (∀ source, legacy_source db0 source → applied db1 (src_Version source)) ∧
  ∀ source, legacy_source db0 source → src_Version source ∉ sql_run db1.
Proof.
  intros Hl0 [[->|[Hs Ha]] Hrun] [[Hl ->]|(Hl & (? & ? & ->) & _ & Hv)]; [done|..].
  - split_and!; [done| |done]. intros source Hsrc. apply Hv. eauto.
  - done.
  - split_and!; [congruence| |done]. intros source Hsrc%Ha. apply Hv. by left.
Qed.

Lemma mig_step_safe db0 c n db n' db' :
  legacy db0 → legacy_safe db0 db → mig_step c n db = (n', db') → legacy_safe db0 db'.
Proof.
  intros Hl0 Hsafe H. assert (∃ db1, db' = db ∨ (adopted db db1 ∧ schema_migrations db' = schema_migrations db1 ∧
    (∀ v, applied db1 v → applied db' v) ∧ ∃ l, sql_run db' = sql_run db1 ++ l ∧ Forall (λ v, ¬ applied db1 v) l)) as [db1 Hc].
  { destruct c; simpl in H; [destruct (Up n db) as [[r m] q] eqn:E|destruct (Status n db) as [[r m] q] eqn:E|
      destruct (Version n db) as [[r m] q] eqn:E]; simplify_eq; apply entry_cases in E as [->|(k & db1 & Ha & ->)];
      (exists db; by left) || (exists db1; right; split; [done|]).
    - apply goose_Up_pending.
    - destruct (goose_Status_reads k db1) as (? & ? & ->). split_and!; [done..|]. exists []. by rewrite app_nil_r.
    - destruct (goose_Versions_reads k db1) as (? & ? & ->). split_and!; [done..|]. exists []. by rewrite app_nil_r. }
  destruct Hc as [->|(Ha & Hs & Hmono & l & Hrun & Hl)]; [done|].
  destruct (adopted_safe _ _ _ Hl0 Hsafe Ha) as (Hs1 & Ha1 & Hr1). split.
  - right. split; [congruence|]. intros source H'. by apply Hmono, Ha1.
  - intros source H' Hin. rewrite Hrun in Hin. apply elem_of_app in Hin as [Hin|Hin]; [by eapply Hr1|].
    rewrite Forall_forall in Hl. by apply (Hl _ Hin), Ha1.
Qed.

(** C23: a migration the previous runner had applied is never run again: on a legacy
    database, whatever sequence of [up], [status] and [version] is called, and
    whichever statements fail, the SQL of no legacy migration is executed. *)
Theorem legacy_never_rerun cs n db n' db' source :
  legacy db → sql_run db = [] → mig_run cs n db = (n', db') → legacy_source db source →
  src_Version source ∉ sql_run db'.
Proof.
  intros Hl Hr Hrun Hs. enough (legacy_safe db db') as [_ H] by (by apply H).
  assert (legacy_safe db db) as Hsafe by (split; [by left|]; intros ??; rewrite Hr; set_solver).
  revert n Hrun Hsafe. generalize db at 1 3 as cur. induction cs as [|c cs IH]; intros cur n; cbn [mig_run]; [by intros [= _ <-]|].
  destruct (mig_step c n cur) as [m q] eqn:E. intros Hrun Hsafe. eapply IH; [exact Hrun|]. by eapply mig_step_safe.
Qed.
End migrations.

(** ** A concrete goose *)

(** The first three embedded files. *)
Definition demo_sources : list Source :=
  [mkSource 1 "001_auth.sql"; mkSource 2 "002_mobile_otp.sql"; mkSource 3 "003_password_api_tokens.sql"].

Definition pending (db : MigDB) : list Source := filter (λ s, ¬ applied db (src_Version s)) demo_sources.

(** [Up] creates the version table, runs and records what is pending. *)
Definition demo_Up (db : MigDB) : (error + list Source) * MigDB :=
  (inr (pending db),
   mkMigDB (Some (default [mkVersionRow 0 true] (goose_db_version db) ++ ((λ s, mkVersionRow (src_Version s) true) <$> pending db)))
     (schema_migrations db) true (sql_run db ++ (src_Version <$> pending db))).

(** [Down] rolls back the last recorded migration and deletes its row. *)
Definition demo_Down (db : MigDB) : (error + Source) * MigDB :=
  match reverse (filter (λ s, applied db (src_Version s)) demo_sources) with
  | [] => (inl (Errorf "no migrations to roll back" []), db)
  | s :: _ =>
      (inr s, mkMigDB (filter (λ r, version_id r ≠ src_Version s) <$> goose_db_version db) (schema_migrations db)
                (negb (src_Version s =? 1) && has_users db) (sql_run db))
  end.

Definition demo_goose : Goose := {|
  ListSources := demo_sources;
  mig_fault _ := None;
  goose_Up _ := demo_Up;
  goose_Down _ := demo_Down;
  goose_Status _ db := (inr ((λ s, (s, bool_decide (applied db (src_Version s)))) <$> demo_sources), db);
  goose_GetVersions _ db := (inr (0, 3), db);
|}.

Lemma demo_goose_laws : GooseLaws demo_goose.
Proof.
  split; simpl; intros n db; [|done|done]. split_and!; [done|..].
  - intros v. unfold applied. simpl. rewrite elem_of_app. destruct (goose_db_version db); simpl; [by left|set_solver].
  - eexists. split; [done|]. rewrite Forall_fmap, Forall_forall. intros s Hs. by apply list_elem_of_filter in Hs as [? _].
Qed.

#[local] Existing Instance demo_goose.
#[local] Existing Instance demo_goose_laws.

(** A database of the previous runner, which had applied two files. *)
Definition legacy_db : MigDB := mkMigDB None (Some ["001_auth.sql"; "002_mobile_otp.sql"]) true [].

Lemma legacy_db_legacy : legacy legacy_db.
Proof. split; [reflexivity|]. eexists. split; [reflexivity|]. by left. Qed.

Definition adopted_db : MigDB :=
  mkMigDB (Some [mkVersionRow 0 true; mkVersionRow 1 true; mkVersionRow 2 true])
    (Some ["001_auth.sql"; "002_mobile_otp.sql"]) true [].

Lemma adoptLegacy_exact_witness :
  adoptLegacy 0%nat legacy_db = (inr (), 10%nat, adopted_db) ∧ adopted legacy_db adopted_db.
Proof.
  assert (adoptLegacy 0%nat legacy_db = (inr (), 10%nat, adopted_db)) as H by (vm_compute; reflexivity).
  destruct (adoptLegacy_exact 0 legacy_db _ _ _ H) as [(e & He & _)|(_ & Ha & _)]; [discriminate He|].
  exact (conj H Ha).
Defined.

Lemma legacy_never_rerun_witness :
  (mig_run [CallStatus; CallUp; CallUp] 0 legacy_db).2.(sql_run) = [3] ∧
  2 ∉ sql_run (mig_run [CallStatus; CallUp; CallUp] 0 legacy_db).2.
Proof.
  split; [vm_compute; reflexivity|].
  apply (legacy_never_rerun [CallStatus; CallUp; CallUp] 0 legacy_db _ _ (mkSource 2 "002_mobile_otp.sql")
    legacy_db_legacy eq_refl (surjective_pairing _)).
  split; [right; left|]. eexists. split; [reflexivity|]. left. right. left.
Defined.

(** Rolling everything back makes the next call adopt the legacy table again: after one
    [status] and one [down] for each adopted file, [up] records both as applied without
    running them, so the tables they create are missing when the third runs. *)
Example down_to_zero_readopts :
  let '(_, n1, db1) := Status 0%nat legacy_db in
  let '(_, n2, db2) := Down n1 db1 in
  let '(_, n3, db3) := Down n2 db2 in
  let '(_, _, db4) := Up n3 db3 in
  has_users db3 = false ∧ applied_count db3 = 0%nat ∧ sql_run db4 = [3] ∧ goose_db_version db4 =
    Some [mkVersionRow 0 true; mkVersionRow 1 true; mkVersionRow 2 true; mkVersionRow 3 true].
Proof. vm_compute. repeat split. Qed.
