(* ===== verification/Token.v ===== *)
(** Package [token] and the signing adapter [internal/infrastructure/jwt]: access
    tokens are signed with one RSA key and verified against a key set.

    The JWT library is a parameter: [jwt_SignedString] is [NewWithClaims] with
    RS256, the [kid] header and [SignedString]; [jwt_ParseUnverified] yields the
    [kid] header of a token; [jwt_ParseWithClaims] is [ParseWithClaims] with the
    options [WithValidMethods], [WithExpirationRequired], [WithIssuedAt] and
    [WithIssuer], at the time [now].  A nil or invalid token without an error is
    [None]. *)
From S2P Require Import Prelude GoStrings Domain Libs Tenancy Tables Database World Ports.
Local Open Scope Z_scope.
Local Open Scope orbit_scope.

(** [rsa.PublicKey]: the modulus and the exponent. *)
Record rsa_PublicKey := mkPublicKey { pk_N : Z; pk_E : Z }.

#[export] Instance rsa_PublicKey_eq_dec : EqDecision rsa_PublicKey.
Proof. solve_decision. Defined.

Class JWTLib := {
  rsa_PrivateKey : Type;
  rsa_Public : rsa_PrivateKey → rsa_PublicKey;
  jwt_SignedString : rsa_PrivateKey → string → AccessClaims → error + string;
  jwt_ParseUnverified : string → error + option (option string);
  jwt_ParseWithClaims : list string → string → time → (string → error + rsa_PublicKey) → string →
    error + option AccessClaims;
  jwt_verified : string → string → rsa_PublicKey → AccessClaims → Prop;
}.

Definition Issuer : string := "orbit-auth".
Definition Algorithm : string := "RS256".

(** The documented behaviour of the library.  [jwt_verified raw alg key claims]
    says that the signature of [raw] with method [alg] verifies under [key] and
    that [claims] is its payload. *)
Class JWTLaws (J : JWTLib) : Prop := {
  jwt_parse_sound : ∀ methods issuer now keyfunc raw claims,
    jwt_ParseWithClaims methods issuer now keyfunc raw = inr (Some claims) →
    ∃ alg key e, alg ∈ methods ∧ keyfunc alg = inr key ∧ jwt_verified raw alg key claims ∧
      Issuer_ claims = issuer ∧ ExpiresAt claims = Some e ∧ now < e ∧
      (∀ i, IssuedAt claims = Some i → i ≤ now);
  jwt_sign_header : ∀ sk kid claims raw,
    jwt_SignedString sk kid claims = inr raw → jwt_ParseUnverified raw = inr (Some (Some kid));
  jwt_sign_parse : ∀ sk kid claims raw methods issuer now keyfunc e,
    jwt_SignedString sk kid claims = inr raw → Algorithm ∈ methods → keyfunc Algorithm = inr (rsa_Public sk) →
    Issuer_ claims = issuer → ExpiresAt claims = Some e → now < e → (∀ i, IssuedAt claims = Some i → i ≤ now) →
    jwt_ParseWithClaims methods issuer now keyfunc raw = inr (Some claims);
}.

(** A key set; a nil key is an absent one. *)
Abbreviation KeySet := (gmap string rsa_PublicKey).

Section token.
Context `{L : UUIDLib} `{J : JWTLib}.

(** [jwt.NewNumericDate] truncates to seconds. *)
Definition NewNumericDate (t : time) : time := Second * (t / Second).

(** [now] is the reading of [time.Now]. *)
Definition SignAccessTokenWithOrg (now : time) (key : option rsa_PrivateKey) (keyID subject orgID : string)
    (expires : time) : error + string :=
  match key with
  | None => inl (Errorf "JWT private key is required" [])
  | Some key =>
      let keyID := TrimSpace keyID in
      if String.eqb keyID "" then inl (Errorf "JWT key ID is required" []) else
      let subject := TrimSpace subject in
      if String.eqb subject "" then inl (Errorf "JWT subject is required" []) else
      let orgID := TrimSpace orgID in
      let sign orgID :=
        jwt_SignedString key keyID
          (mkAccessClaims Issuer subject (Some (NewNumericDate expires)) (Some (NewNumericDate now)) orgID) in
      if negb (String.eqb orgID "") then
        match uuid_Parse orgID with
        | None => inl (Errorf "JWT org claim must be a UUID" [])
        | Some parsed => sign (uuid_String parsed)
        end
      else sign orgID
  end.

Definition SignAccessToken (now : time) (key : option rsa_PrivateKey) (keyID subject : string) (expires : time)
    : error + string :=
  SignAccessTokenWithOrg now key keyID subject "" expires.

(** The key function of [ParseAccessToken]. *)
Definition keyfunc (key : rsa_PublicKey) (alg : string) : error + rsa_PublicKey :=
  if negb (String.eqb alg Algorithm) then inl (Errorf "unexpected JWT signing algorithm" []) else inr key.

Definition ParseAccessToken (now : time) (raw : string) (keys : KeySet) : error + AccessClaims :=
  match jwt_ParseUnverified raw with
  | inl err => inl err
  | inr None => inl (Errorf "invalid JWT access token" [])
  | inr (Some kid) =>
      match kid with
      | None => inl (Errorf "JWT key ID is required" [])
      | Some keyID =>
          if String.eqb (TrimSpace keyID) "" then inl (Errorf "JWT key ID is required" []) else
          match keys !! keyID with
          | None => inl (Errorf "unknown JWT key ID %q" [keyID])
          | Some key =>
              match jwt_ParseWithClaims [Algorithm] Issuer now (keyfunc key) raw with
              | inl err => inl err
              | inr None => inl (Errorf "invalid JWT access token" [])
              | inr (Some claims) =>
                  if String.eqb (TrimSpace (Subject claims)) "" then inl (Errorf "JWT subject is required" [])
                  else inr claims
              end
          end
      end
  end.

(** ** Properties *)

Context `{!JWTLaws J} `{!UUIDLaws L}.

(** What an accepted token went through. *)
Lemma ParseAccessToken_inv now raw keys claims :
  ParseAccessToken now raw keys = inr claims →
  ∃ keyID key, jwt_ParseUnverified raw = inr (Some (Some keyID)) ∧ keys !! keyID = Some key ∧
    jwt_ParseWithClaims [Algorithm] Issuer now (keyfunc key) raw = inr (Some claims) ∧
    TrimSpace (Subject claims) ≠ "".
Proof.
  unfold ParseAccessToken. destruct (jwt_ParseUnverified raw) as [|[[keyID|]|]]; try done.
  destruct (String.eqb (TrimSpace keyID) ""); [done|]. destruct (keys !! keyID) as [key|] eqn:Ek; [|done].
  destruct (jwt_ParseWithClaims _ _ _ _ _) as [|[c|]] eqn:Ep; try done.
  destruct (String.eqb_spec (TrimSpace (Subject c)) "") as [|Hs]; [done|]. intros [= ->]. eauto 10.
Qed.

Lemma keyfunc_verified now key raw claims :
  jwt_ParseWithClaims [Algorithm] Issuer now (keyfunc key) raw = inr (Some claims) →
  ∃ e, jwt_verified raw Algorithm key claims ∧ Issuer_ claims = Issuer ∧ ExpiresAt claims = Some e ∧ now < e ∧
    (∀ i, IssuedAt claims = Some i → i ≤ now).
Proof.
  intros (alg & key' & e & Ha & Hk & Hv & Hi & He & Hn & Hiat)%jwt_parse_sound.
  apply list_elem_of_singleton in Ha as ->. unfold keyfunc in Hk. simpl in Hk. simplify_eq. by exists e.
Qed.

(** A signed token is accepted while it is valid. *)
Lemma ParseAccessToken_signed now raw keys sk keyID claims e :
  jwt_SignedString sk keyID claims = inr raw → TrimSpace keyID ≠ "" → keys !! keyID = Some (rsa_Public sk) →
  Issuer_ claims = Issuer → ExpiresAt claims = Some e → now < e → (∀ i, IssuedAt claims = Some i → i ≤ now) →
  TrimSpace (Subject claims) ≠ "" → ParseAccessToken now raw keys = inr claims.
Proof.
  intros Hs Hkid Hk Hi He Hn Ha Hsub. unfold ParseAccessToken. rewrite (jwt_sign_header _ _ _ _ Hs).
  rewrite (proj2 (String.eqb_neq _ _) Hkid), Hk.
  rewrite (jwt_sign_parse _ _ _ _ [Algorithm] Issuer now (keyfunc (rsa_Public sk)) e Hs);
    [|by apply list_elem_of_singleton|done..].
  by rewrite (proj2 (String.eqb_neq _ _) Hsub).
Qed.

(** An accepted access token names a key of the set in its header and its
    RS256 signature verifies under that very key; it was issued by orbit-auth, has
    an expiry in the future, was not issued in the future, and names a subject. *)
Theorem ParseAccessToken_sound now raw keys claims :
  ParseAccessToken now raw keys = inr claims →
  ∃ keyID key e, jwt_ParseUnverified raw = inr (Some (Some keyID)) ∧ keys !! keyID = Some key ∧
    jwt_verified raw Algorithm key claims ∧ Issuer_ claims = Issuer ∧ ExpiresAt claims = Some e ∧ now < e ∧
    (∀ i, IssuedAt claims = Some i → i ≤ now) ∧ TrimSpace (Subject claims) ≠ "".
Proof.
  intros (keyID & key & Hh & Hk & (e & Hv & Hi & He & Hn & Ha)%keyfunc_verified & Hs)%ParseAccessToken_inv.
  by exists keyID, key, e.
Qed.

(** The claims a signature was made for. *)
Lemma SignAccessTokenWithOrg_claims signed_at sk keyID subject orgID expires raw :
  SignAccessTokenWithOrg signed_at (Some sk) keyID subject orgID expires = inr raw →
  TrimSpace keyID ≠ "" ∧ TrimSpace subject ≠ "" ∧
  jwt_SignedString sk (TrimSpace keyID) (mkAccessClaims Issuer (TrimSpace subject) (Some (NewNumericDate expires))
    (Some (NewNumericDate signed_at))
    (match uuid_Parse (TrimSpace orgID) with
     | Some org => if String.eqb (TrimSpace orgID) "" then TrimSpace orgID else uuid_String org
     | None => TrimSpace orgID end)) = inr raw.
Proof.
  unfold SignAccessTokenWithOrg. cbv zeta.
  destruct (String.eqb_spec (TrimSpace keyID) "") as [|Hkid]; [done|].
  destruct (String.eqb_spec (TrimSpace subject) "") as [|Hsub]; [done|].
  destruct (String.eqb_spec (TrimSpace orgID) "") as [Ho|Ho]; cbn [negb]; destruct (uuid_Parse (TrimSpace orgID)); done.
Qed.

(** A token that was signed parses back to its subject and organization: with
    the matching public key in the set, from the second it was issued until the
    second it expires, the claims are those that were signed; a blank organization
    means no active one. *)
Theorem Sign_Parse_roundtrip signed_at now sk keyID subject orgID expires keys raw :
  SignAccessTokenWithOrg signed_at (Some sk) keyID subject orgID expires = inr raw →
  keys !! TrimSpace keyID = Some (rsa_Public sk) →
  NewNumericDate signed_at ≤ now → now < NewNumericDate expires →
  ∃ claims, ParseAccessToken now raw keys = inr claims ∧ Subject claims = TrimSpace subject ∧
    (OrganizationID claims = if String.eqb (TrimSpace orgID) "" then (uuid_Nil, false)
                             else match uuid_Parse (TrimSpace orgID) with
                                  | Some org => (org, true)
                                  | None => (uuid_Nil, false)
                                  end).
Proof.
  intros (Hkid & Hsub & Hs)%SignAccessTokenWithOrg_claims Hk Hi He. eexists. split.
  { eapply ParseAccessToken_signed; [exact Hs|by rewrite TrimSpace_idemp|done..|by intros i [= <-]|].
    simpl. by rewrite TrimSpace_idemp. }
  split; [done|]. unfold OrganizationID. cbn [OrgID].
  destruct (String.eqb_spec (TrimSpace orgID) "") as [Ho|Ho].
  - rewrite Ho. by destruct (uuid_Parse "").
  - destruct (uuid_Parse (TrimSpace orgID)) as [org|] eqn:Eo.
    + rewrite TrimSpace_uuid_String, uuid_Parse_String. by rewrite (proj2 (String.eqb_neq _ _) (uuid_String_nonempty org)).
    + rewrite TrimSpace_idemp, Eo. by rewrite (proj2 (String.eqb_neq _ _) Ho).
Qed.
End token.

(** ** internal/infrastructure/jwt *)

Section signer.
Context `{V : Env} `{J : JWTLib}.

(** One active key and the public keys that verify. *)
Record Signer := mkSigner {
  sg_key : rsa_PrivateKey;
  sg_keyID : string;
  sg_keys : KeySet;
}.

Definition Signer_SignAccessToken (s : Signer) (subject : string) (expires : time) : M string :=
  now <- Now ;; of_sum (SignAccessToken now (Some (sg_key s)) (sg_keyID s) subject expires).

Definition Signer_SignAccessTokenWithOrg (s : Signer) (subject orgID : string) (expires : time) : M string :=
  now <- Now ;; of_sum (SignAccessTokenWithOrg now (Some (sg_key s)) (sg_keyID s) subject orgID expires).

(** The signer as the port of the application. *)
Definition signer_port (s : Signer) : TokenSigner :=
  mkTokenSigner (Signer_SignAccessToken s) (Signer_SignAccessTokenWithOrg s).
End signer.

(** ** A concrete library *)

Fixpoint pos_text (p : positive) : string :=
  match p with
  | xH => "1"
  | xO p => String "0" (pos_text p)
  | xI p => String "i" (pos_text p)
  end.

Fixpoint pos_of_text (s : string) : option positive :=
  match s with
  | "1" => Some xH
  | String "0" s => xO <$> pos_of_text s
  | String "i" s => xI <$> pos_of_text s
  | _ => None
  end.

Lemma pos_of_pos_text p : pos_of_text (pos_text p) = Some p.
Proof. induction p as [p IH|p IH|]; simpl; by rewrite ?IH. Qed.

(** Claims as a tuple, for their encoding. *)
Definition claims_tuple (c : AccessClaims) : string * string * option Z * option Z * string :=
  (Issuer_ c, Subject c, ExpiresAt c, IssuedAt c, OrgID c).
Definition tuple_claims (t : string * string * option Z * option Z * string) : AccessClaims :=
  let '(i, s, e, a, o) := t in mkAccessClaims i s e a o.

(** A private key is its public one: the text of a token is the encoding of the
    key, the key ID and the claims. *)
Definition demo_jwt_text (key : rsa_PublicKey) (kid : string) (c : AccessClaims) : string :=
  pos_text (encode (pk_N key, (pk_E key, kid, claims_tuple c))).
Definition demo_decode (raw : string) : option (rsa_PublicKey * string * AccessClaims) :=
  p ← pos_of_text raw;
  '(n, (e, kid, t)) ← decode (A:=Z * (Z * string * (string * string * option Z * option Z * string))) p;
  Some (mkPublicKey n e, kid, tuple_claims t).

Lemma demo_decode_text key kid c : demo_decode (demo_jwt_text key kid c) = Some (key, kid, c).
Proof.
  unfold demo_decode, demo_jwt_text. rewrite pos_of_pos_text. simpl. rewrite decode_encode. by destruct c, key.
Qed.

Definition errDemo : error := Errorf "token is malformed" [].

(** The time and issuer checks. *)
Definition demo_valid (issuer : string) (now : time) (c : AccessClaims) : bool :=
  String.eqb (Issuer_ c) issuer &&
  match ExpiresAt c with Some e => now <? e | None => false end &&
  match IssuedAt c with Some i => i <=? now | None => true end.

Definition demo_jwt : JWTLib := {|
  rsa_PrivateKey := rsa_PublicKey;
  rsa_Public k := k;
  jwt_SignedString k kid c := inr (demo_jwt_text k kid c);
  jwt_ParseUnverified raw := match demo_decode raw with Some (_, kid, _) => inr (Some (Some kid)) | None => inl errDemo end;
  jwt_ParseWithClaims methods issuer now keyfunc raw :=
    match demo_decode raw with
    | None => inl errDemo
    | Some (k, _, c) =>
        if bool_decide (Algorithm ∈ methods) then
          match keyfunc Algorithm with
          | inl e => inl e
          | inr key => if bool_decide (key = k) && demo_valid issuer now c then inr (Some c) else inl errDemo
          end
        else inl errDemo
    end;
  jwt_verified raw alg key c := alg = Algorithm ∧ ∃ kid, demo_decode raw = Some (key, kid, c);
|}.

Lemma demo_jwt_laws : JWTLaws demo_jwt.
Proof.
  split; simpl.
  - intros methods issuer now kf raw claims. destruct (demo_decode raw) as [[[k kid] c]|] eqn:Ed; [|done].
    case_bool_decide as Hm; [|done]. destruct (kf Algorithm) as [|key] eqn:Ek; [done|].
    destruct (_ && _) eqn:Ev; [|done]. intros [= ->]. apply andb_true_iff in Ev as [->%bool_decide_eq_true_1 Ev].
    unfold demo_valid in Ev. rewrite !andb_true_iff in Ev. destruct Ev as [[->%String.eqb_eq He] Hi].
    destruct (ExpiresAt claims) as [e|]; [|done]. exists Algorithm, k, e. split_and!; [done|done|done|by eexists|done|done|lia|].
    intros i Ei. rewrite Ei in Hi. lia.
  - intros sk kid c raw [= <-]. by rewrite demo_decode_text.
  - intros sk kid c raw methods issuer now kf e [= <-] Hm Hk Hi He Hn Ha. rewrite demo_decode_text.
    rewrite bool_decide_eq_true_2, Hk, bool_decide_eq_true_2 by done. unfold demo_valid.
    rewrite Hi, String.eqb_refl, He, (proj2 (Z.ltb_lt _ _) Hn). simpl.
    destruct (IssuedAt c) as [i|]; [|done]. by rewrite (proj2 (Z.leb_le _ _) (Ha i eq_refl)).
Qed.

#[local] Existing Instance bits_uuid.
#[local] Existing Instance bits_uuid_laws.
#[local] Existing Instance demo_jwt.
#[local] Existing Instance demo_jwt_laws.

Definition demo_org : string := @uuid_String bits_uuid [true].
Definition demo_key : rsa_PublicKey := mkPublicKey 3233 17.
Definition demo_keys : KeySet := {[ "k1" := demo_key ]}.
Definition demo_raw : string :=
  demo_jwt_text demo_key "k1" (mkAccessClaims Issuer "alice" (Some (900 * Second)) (Some (5 * Second)) demo_org).

Lemma Sign_Parse_roundtrip_witness :
  ∃ claims, ParseAccessToken (10 * Second) demo_raw demo_keys = inr claims ∧ Subject claims = TrimSpace " alice ".
Proof.
  destruct (Sign_Parse_roundtrip (L:=bits_uuid) (J:=demo_jwt) (5 * Second + 7) (10 * Second) demo_key "k1" " alice " demo_org (900 * Second) demo_keys demo_raw)
    as (c & H1 & H2 & _); [vm_compute; reflexivity|vm_compute; reflexivity|vm_compute; discriminate|vm_compute; reflexivity|].
  exists c. exact (conj H1 H2).
Defined.

Lemma ParseAccessToken_sound_witness :
  ∃ keyID key, demo_keys !! keyID = Some key ∧ jwt_ParseUnverified demo_raw = inr (Some (Some keyID)).
Proof.
  destruct (ParseAccessToken_sound (J:=demo_jwt) (10 * Second) demo_raw demo_keys
    (mkAccessClaims Issuer "alice" (Some (900 * Second)) (Some (5 * Second)) demo_org))
    as (keyID & key & e & H1 & H2 & _); [vm_compute; reflexivity|].
  exists keyID, key. exact (conj H2 H1).
Defined.
