(* ===== verification/Jwks.v ===== *)
(** The JSON Web Key Set of package [token]: the public document of a key set and
    its validation ([Document] and [KeySet] of token/access.go). *)
From S2P Require Import Prelude GoStrings Encodings Domain Token.
Local Open Scope Z_scope.

Record JWK := mkJWK {
  KeyType : string;
  Use : string;
  Alg : string;
  KeyID : string;
  Modulus : string;
  Exponent : string;
}.

Record JWKSet := mkJWKSet { Keys : list JWK }.

(** base64.RawURLEncoding on strings. *)
Definition EncodeToString (b : list ascii) : string := of_bytes (RawURLEncode b).
Definition DecodeString (s : string) : option (list ascii) := RawURLDecode (to_bytes s).

(** The entry of one key in the document. *)
Definition document_entry (keyID : string) (key : rsa_PublicKey) : JWK :=
  mkJWK "RSA" "sig" Algorithm keyID (EncodeToString (Bytes (pk_N key))) (EncodeToString (Bytes (pk_E key))).

(** The identifiers are sorted; each is a key of the map. *)
Definition Document (keys : KeySet) : JWKSet :=
  mkJWKSet (omap (λ keyID, document_entry keyID <$> keys !! keyID) (sorted_elements (dom keys))).

(** The loop that reads the exponent; at most four bytes, so a 64-bit [int] does
    not overflow. *)
Definition exponent_value (exponent : list ascii) : Z :=
  foldl (λ e b, Z.lor (Z.shiftl e 8) (byte_value b)) 0 exponent.

(** The loop over the entries of the document. *)
Fixpoint keyset_loop (l : list JWK) (keys : KeySet) : error + KeySet :=
  match l with
  | [] => inr keys
  | jwk :: l =>
      if negb (String.eqb (KeyType jwk) "RSA") || negb (String.eqb (Alg jwk) Algorithm) ||
         negb (String.eqb (Use jwk) "sig") || String.eqb (TrimSpace (KeyID jwk)) ""
      then inl (Errorf "orbit JWKS contains an unsupported key" []) else
      match DecodeString (Modulus jwk) with
      | None => inl (Errorf "orbit JWKS key %q has an invalid modulus" [KeyID jwk])
      | Some modulus =>
          match DecodeString (Exponent jwk) with
          | None => inl (Errorf "orbit JWKS key %q has an invalid exponent" [KeyID jwk])
          | Some exponent =>
              if Nat.eqb (length exponent) 0 || Nat.ltb 4 (length exponent)
              then inl (Errorf "orbit JWKS key %q has an invalid exponent" [KeyID jwk]) else
              let key := mkPublicKey (SetBytes modulus) (exponent_value exponent) in
              if (BitLen (pk_N key) <? 2048) || (pk_E key <? 3) || (Z.rem (pk_E key) 2 =? 0)
              then inl (Errorf "orbit JWKS key %q is not a valid 2048-bit RSA signing key" [KeyID jwk]) else
              match keys !! KeyID jwk with
              | Some _ => inl (Errorf "orbit JWKS contains duplicate key ID %q" [KeyID jwk])
              | None => keyset_loop l (<[KeyID jwk := key]> keys)
              end
          end
      end
  end.

Definition JWKSet_KeySet (document : JWKSet) : error + KeySet :=
  if Nat.eqb (length (Keys document)) 0 || Nat.ltb 100 (length (Keys document))
  then inl (Errorf "orbit JWKS must contain between 1 and 100 keys" [])
  else keyset_loop (Keys document) ∅.

(** ** Properties *)

(** A key fit for signatures: a modulus of at least 2048 bits and an odd exponent
    of at most 32 bits that is at least three. *)
Definition signing_key (key : rsa_PublicKey) : Prop :=
  0 ≤ pk_N key ∧ 2048 ≤ BitLen (pk_N key) ∧ 3 ≤ pk_E key < 2 ^ 32 ∧ Z.odd (pk_E key) = true.

Definition publishable (keyID : string) (key : rsa_PublicKey) : Prop :=
  TrimSpace keyID ≠ "" ∧ signing_key key.

(** The key sets a document can stand for. *)
Definition valid_keyset (keys : KeySet) : Prop :=
  (1 ≤ size keys ≤ 100)%nat ∧ map_Forall publishable keys.

Lemma exponent_value_SetBytes b : exponent_value b = SetBytes b.
Proof.
  induction b as [|a b IH] using rev_ind; [done|]. unfold exponent_value in *. rewrite foldl_app, IH, SetBytes_snoc.
  simpl. rewrite lor_shiftl by (done || apply byte_value_range). change (2 ^ 8) with 256. lia.
Qed.

Lemma DecodeString_Encode b : DecodeString (EncodeToString b) = Some b.
Proof. unfold DecodeString, EncodeToString. rewrite to_of_bytes. apply RawURLDecode_Encode. Qed.

Lemma even_rem e : 0 ≤ e → (Z.rem e 2 =? 0) = negb (Z.odd e).
Proof.
  intros He. rewrite Z.rem_mod_nonneg by lia. rewrite Zmod_odd. by destruct (Z.odd e).
Qed.

(** One round of the loop on the entry of a publishable key adds that key. *)
Lemma keyset_loop_entry keyID key l keys :
  publishable keyID key → keys !! keyID = None →
  keyset_loop (document_entry keyID key :: l) keys = keyset_loop l (<[keyID := key]> keys).
Proof.
  intros (Hid & Hn & Hb & He & Hodd) Hk. cbn [keyset_loop document_entry KeyType Use Alg KeyID Modulus Exponent].
  rewrite (proj2 (String.eqb_neq _ _) Hid), !String.eqb_refl, !DecodeString_Encode. simpl orb. cbv iota.
  assert (length (Bytes (pk_E key)) ≤ 4)%nat as H4 by (apply length_Bytes; change (256 ^ Z.of_nat 4) with (2 ^ 32); lia).
  assert (length (Bytes (pk_E key)) ≠ 0)%nat as H0.
  { rewrite length_zero_iff_nil. apply Bytes_nonempty. lia. }
  rewrite (proj2 (Nat.eqb_neq _ _) H0), (proj2 (Nat.ltb_ge _ _) H4). cbn [orb]. cbv zeta.
  rewrite exponent_value_SetBytes, !SetBytes_Bytes by lia. cbn [pk_N pk_E].
  rewrite (proj2 (Z.ltb_ge _ _) Hb), (proj2 (Z.ltb_ge _ _) (proj1 He)), even_rem, Hodd, Hk by lia. simpl.
  by destruct key.
Qed.

(** The loop on the entries of distinct publishable keys adds exactly those. *)
Lemma keyset_loop_entries (keys : KeySet) ids acc :
  NoDup ids → (∀ i, i ∈ ids → acc !! i = None ∧ ∃ key, keys !! i = Some key ∧ publishable i key) →
  ∃ r, keyset_loop (omap (λ i, document_entry i <$> keys !! i) ids) acc = inr r ∧
    ∀ i, r !! i = if bool_decide (i ∈ ids) then keys !! i else acc !! i.
Proof.
  intros Hnd. revert acc. induction Hnd as [|i ids Hi Hnd IH]; intros acc Hids.
  - exists acc. by split.
  - destruct (Hids i) as (Hacc & key & Hkey & Hp); [left|]. cbn [omap list_omap]. rewrite Hkey. cbn [fmap option_fmap option_map].
    rewrite keyset_loop_entry by done. destruct (IH (<[i := key]> acc)) as (r & Hr & Hl).
    { intros j Hj. destruct (Hids j) as [? ?]; [by right|]. split; [|done]. rewrite lookup_insert_ne by set_solver. done. }
    exists r. split; [exact Hr|]. intros j. rewrite Hl. destruct (decide (j = i)) as [->|Hne].
    + rewrite bool_decide_eq_false_2, bool_decide_eq_true_2 by set_solver. by rewrite lookup_insert_eq.
    + rewrite lookup_insert_ne by done. erewrite bool_decide_ext; [reflexivity|]. set_solver.
Qed.

(** What an entry that passes the checks stands for. *)
Definition decodes (jwk : JWK) (key : rsa_PublicKey) : Prop :=
  ∃ modulus exponent, DecodeString (Modulus jwk) = Some modulus ∧ DecodeString (Exponent jwk) = Some exponent ∧
    key = mkPublicKey (SetBytes modulus) (SetBytes exponent).

(** The loop invariant: the keys so far, and one for each entry read. *)
Lemma keyset_loop_inv l acc r :
  keyset_loop l acc = inr r → map_Forall publishable acc →
  map_Forall publishable r ∧ size r = (size acc + length l)%nat ∧
  (∀ i key, r !! i = Some key → acc !! i = Some key ∨ ∃ jwk, jwk ∈ l ∧ KeyID jwk = i ∧ decodes jwk key) ∧
  (∀ i key, acc !! i = Some key → r !! i = Some key) ∧
  (∀ jwk, jwk ∈ l → ∃ key, r !! KeyID jwk = Some key ∧ decodes jwk key).
Proof.
  revert acc. induction l as [|jwk l IH]; intros acc; cbn [keyset_loop].
  { intros [= ->] Ha. split_and!; auto. - set_solver. }
  destruct (_ || _) eqn:Eg; [done|]. destruct (DecodeString (Modulus jwk)) as [modulus|] eqn:Em; [|done].
  destruct (DecodeString (Exponent jwk)) as [exponent|] eqn:Ee; [|done].
  destruct (_ || _) eqn:El in |- *; [done|]. cbv zeta. rewrite exponent_value_SetBytes. cbn [pk_N pk_E].
  destruct (_ || _) eqn:Ek in |- *; [done|]. destruct (acc !! KeyID jwk) eqn:Ea; [done|].
  intros Hr Hacc. bool_hyps.
  assert (publishable (KeyID jwk) (mkPublicKey (SetBytes modulus) (SetBytes exponent))) as Hp.
  { split; [done|]. pose proof (SetBytes_nonneg modulus). pose proof (SetBytes_nonneg exponent).
    rewrite even_rem in * by done. split_and!; simpl; try lia.
    - pose proof (SetBytes_bound exponent) as Hb.
      match goal with H : Nat.ltb 4 _ = false |- _ => apply Nat.ltb_ge in H end.
      eapply Z.lt_le_trans; [exact Hb|]. change (2 ^ 32) with (256 ^ 4). apply Z.pow_le_mono_r; lia.
    - by apply negb_false_iff. }
  assert (decodes jwk (mkPublicKey (SetBytes modulus) (SetBytes exponent))) as Hd by (by eexists _, _).
  apply IH in Hr as (Hall & Hsz & Hsrc & Hacc' & Hin); [|by apply map_Forall_insert_2].
  rewrite map_size_insert_None in Hsz by done. split_and!; [done|simpl; lia|..].
  - intros i key Hi. destruct (Hsrc i key Hi) as [Hold|(j & ? & ? & ?)]; [|right; exists j; set_solver].
    destruct (decide (i = KeyID jwk)) as [->|]; simplify_map_eq; [right; exists jwk; set_solver|by left].
  - intros i key Hi. apply Hacc'. rewrite lookup_insert_ne; [done|congruence].
  - intros j [->|Hj]%elem_of_cons; [|by apply Hin]. eexists. split; [|exact Hd]. apply Hacc'. by rewrite lookup_insert_eq.
Qed.

(** What the loop invariant says of a whole document. *)
Lemma JWKSet_KeySet_inv document keys :
  JWKSet_KeySet document = inr keys →
  valid_keyset keys ∧ size keys = length (Keys document) ∧
  (∀ i key, keys !! i = Some key → ∃ jwk, jwk ∈ Keys document ∧ KeyID jwk = i ∧ decodes jwk key) ∧
  (∀ jwk, jwk ∈ Keys document → ∃ key, keys !! KeyID jwk = Some key ∧ decodes jwk key).
Proof.
  unfold JWKSet_KeySet. destruct (_ || _) eqn:E; [done|]. bool_hyps. intros Hr.
  apply keyset_loop_inv in Hr as (Hall & Hsz & Hsrc & _ & Hin); [|apply map_Forall_empty].
  rewrite map_size_empty in Hsz. rewrite Nat.eqb_neq, Nat.ltb_ge in *.
  split_and!; [split; [lia|done]|lia|..|done]. intros i key Hi. by apply Hsrc in Hi as [?%lookup_empty_Some|].
Qed.

Lemma decodes_inj jwk key key' : decodes jwk key → decodes jwk key' → key = key'.
Proof. intros (m & e & Hm & He & ->) (m' & e' & Hm' & He' & ->). congruence. Qed.

Lemma length_Document keys : length (Keys (Document keys)) = size keys.
Proof.
  cbn [Document Keys]. rewrite <- size_dom. transitivity (length (sorted_elements (dom keys))).
  - assert (∀ i, i ∈ sorted_elements (dom keys) → is_Some (keys !! i)) as H
      by (intros i; rewrite elem_of_sorted_elements; apply elem_of_dom).
    induction (sorted_elements (dom keys)) as [|i l IH]; [done|]. cbn [omap list_omap].
    destruct (H i) as [key ->]; [left|]. simpl. f_equal. apply IH. intros j Hj. apply H. by right.
  - unfold sorted_elements. rewrite merge_sort_Permutation. done.
Qed.

(** C22: whatever document it was served, what a verifier accepts as a key set is
    well formed: one to a hundred keys, one for each entry of the document and no
    other, every key with a non-blank identifier, a modulus of 2048 bits or more and
    an odd exponent from 3 to below 2^32, each the numbers that its entry's base64url
    texts encode. *)
Theorem KeySet_valid document keys :
  JWKSet_KeySet document = inr keys →
  valid_keyset keys ∧ size keys = length (Keys document) ∧
  (∀ keyID key, keys !! keyID = Some key ↔
    ∃ jwk, jwk ∈ Keys document ∧ KeyID jwk = keyID ∧ decodes jwk key).
Proof.
  intros (Hv & Hsz & Hsrc & Hin)%JWKSet_KeySet_inv. split_and!; [done..|]. intros i key. split; [apply Hsrc|].
  intros (jwk & Hj & <- & Hd). destruct (Hin jwk Hj) as (key' & Hk & Hd'). by rewrite (decodes_inj _ _ _ Hd Hd').
Qed.

(** C21: publishing a key set and reading the document back gives the same key set,
    exactly for the key sets that are fit to be published. *)
Theorem Document_KeySet_roundtrip keys :
  JWKSet_KeySet (Document keys) = inr keys ↔ valid_keyset keys.
Proof.
  split; [intros H; by apply JWKSet_KeySet_inv in H as [? _]|]. intros [Hs Hv]. unfold JWKSet_KeySet.
  rewrite length_Document, (proj2 (Nat.eqb_neq _ _)), (proj2 (Nat.ltb_ge _ _)) by lia. cbn [orb Document Keys].
  destruct (keyset_loop_entries keys (sorted_elements (dom keys)) ∅) as (r & -> & Hr); [apply NoDup_sorted_elements|..].
  { intros i [key Hi]%elem_of_sorted_elements%elem_of_dom. split; [apply lookup_empty|]. exists key. split; [done|]. by apply Hv. }
  f_equal. apply map_eq. intros i. rewrite Hr, lookup_empty. case_bool_decide as Hi; [done|].
  rewrite elem_of_sorted_elements in Hi. symmetry. by apply not_elem_of_dom.
Qed.

(** A key of 2048 bits. *)
Definition big_key : rsa_PublicKey := mkPublicKey (2 ^ 2047 + 1) 65537.

Lemma big_key_publishable keyID : TrimSpace keyID ≠ "" → publishable keyID big_key.
Proof. intros H. split; [exact H|]. split_and!; vm_compute; congruence. Qed.

Lemma KeySet_valid_witness :
  JWKSet_KeySet (Document {[ "k1" := big_key ]}) = inr {[ "k1" := big_key ]} ∧
  valid_keyset {[ "k1" := big_key ]}.
Proof.
  assert (JWKSet_KeySet (Document {[ "k1" := big_key ]}) = inr {[ "k1" := big_key ]}) as H by (vm_compute; reflexivity).
  exact (conj H (proj1 (KeySet_valid _ _ H))).
Defined.
