(* ===== verification/RemoteVerifier.v ===== *)
(** [RemoteVerifier] of token/access.go: a cache of the JWKS another service
    publishes, refreshed when it expires or a token names an unknown key.

    A verifier is a record; a call takes the readings the outside gives it (the
    clock and the network) and returns the answer, the verifier after it and
    whether it asked the endpoint.  The mutex is held from the first access to the
    cache to the last, so calls are atomic and a history is a list of them.

    Parameters: the URL parser of net/url, request construction of net/http and the
    decoder of encoding/json for this document. *)
From S2P Require Import Prelude GoStrings Domain Libs Tenancy Token Jwks.
Local Open Scope Z_scope.

(** The parts of a parsed [url.URL] the code reads; [HasUser] is [User != nil]. *)
Record URL := mkURL {
  Scheme : string;
  Host : string;
  Hostname : string;
  Fragment : string;
  HasUser : bool;
}.

(** A response; [Location] is its header, resolved against the request. *)
Record Response := mkResponse {
  StatusCode : Z;
  Location : option (error + URL);
  Body : string;
}.

Class NetLib := {
  url_ParseRequestURI : string → error + URL;
  http_NewRequest : string → error + URL;
  json_DecodeJWKSet : string → error + JWKSet;
}.

(** What one call reads: [time.Now] at the check, the answer of the network to the
    [n]-th request of a fetch, [time.Now] after a fetch, and the time at which the
    token is verified. *)
Record Reading := mkReading {
  rd_now : time;
  rd_serve : nat → URL → error + Response;
  rd_fetched : time;
  rd_parsed : time;
}.

(** The struct; [rv_origin] is the URL the client's redirect check compares with. *)
Record RemoteVerifier := mkRemoteVerifier {
  rv_url : string;
  rv_origin : URL;
  rv_cacheLifetime : duration;
  rv_maxStale : duration;
  rv_keys : KeySet;
  rv_fetchedAt : time;
  rv_expiresAt : time;
  rv_lastRefreshAttempt : time;
  rv_lastUnknownRefresh : time;
}.

Definition set_attempts (v : RemoteVerifier) (attempt unknown : time) : RemoteVerifier :=
  mkRemoteVerifier (rv_url v) (rv_origin v) (rv_cacheLifetime v) (rv_maxStale v) (rv_keys v) (rv_fetchedAt v)
    (rv_expiresAt v) attempt unknown.

Section verifier.
Context `{J : JWTLib} `{N : NetLib} `{UC : UnicodeCase}.

(** The redirect statuses [http.Client] follows. *)
Definition is_redirect (status : Z) : bool := bool_decide (status ∈ [301; 302; 303; 307; 308]).

(** The client's [CheckRedirect]: false is [http.ErrUseLastResponse]. *)
Definition CheckRedirect (origin request : URL) (via : nat) : bool :=
  negb ((Nat.leb 3 via) || negb (String.eqb (Scheme request) (Scheme origin)) ||
        negb (EqualFold (Host request) (Host origin))).

(** [client.Do]: requests until a response that is not followed.  [via] counts the
    requests already made; the redirect check stops at three, so two more are enough. *)
Fixpoint client_Do (fuel : nat) (origin : URL) (serve : nat → URL → error + Response) (via : nat) (u : URL)
    : error + Response :=
  match serve via u with
  | inl err => inl err
  | inr response =>
      if negb (is_redirect (StatusCode response)) then inr response else
      match Location response with
      | None => inr response
      | Some (inl err) => inl err
      | Some (inr u') =>
          if negb (CheckRedirect origin u' (S via)) then inr response else
          match fuel with
          | O => inr response
          | S fuel => client_Do fuel origin serve (S via) u'
          end
      end
  end.

(** The request and the validation of the document it returns. *)
Definition fetch_keys (r : Reading) (v : RemoteVerifier) : error + KeySet :=
  match http_NewRequest (rv_url v) with
  | inl err => inl (Errorw "create JWKS request: %w" [] err)
  | inr request =>
      match client_Do 2 (rv_origin v) (rd_serve r) 0 request with
      | inl err => inl (Errorw "fetch Orbit JWKS: %w" [] err)
      | inr response =>
          if negb (StatusCode response =? 200) then inl (Errorf "fetch Orbit JWKS: unexpected status %d" []) else
          match json_DecodeJWKSet (slice_to (2 ^ 20) (Body response)) with
          | inl err => inl (Errorw "decode Orbit JWKS: %w" [] err)
          | inr document => JWKSet_KeySet document
          end
      end
  end.

(** A failure leaves the verifier as it was. *)
Definition refreshLocked (r : Reading) (v : RemoteVerifier) : option error * RemoteVerifier :=
  match fetch_keys r v with
  | inl err => (Some err, v)
  | inr keys =>
      (None, mkRemoteVerifier (rv_url v) (rv_origin v) (rv_cacheLifetime v) (rv_maxStale v) keys (rd_fetched r)
               (Add (rd_fetched r) (rv_cacheLifetime v)) (rv_lastRefreshAttempt v) (rv_lastUnknownRefresh v))
  end.

Definition NewRemoteVerifier (r : Reading) (jwksURL : string) (cacheLifetime : duration) : error + RemoteVerifier :=
  let jwksURL := TrimSpace jwksURL in
  if String.eqb jwksURL "" then inl (Errorf "orbit JWKS URL is required" []) else
  match url_ParseRequestURI jwksURL with
  | inl _ => inl (Errorf "orbit JWKS URL must be an absolute HTTP(S) URL without a fragment" [])
  | inr parsedURL =>
      if String.eqb (Host parsedURL) "" || negb (String.eqb (Fragment parsedURL) "") || HasUser parsedURL
      then inl (Errorf "orbit JWKS URL must be an absolute HTTP(S) URL without a fragment" []) else
      let localHTTP := String.eqb (Scheme parsedURL) "http" &&
        (String.eqb (Hostname parsedURL) "localhost" || String.eqb (Hostname parsedURL) "127.0.0.1" ||
         String.eqb (Hostname parsedURL) "host.docker.internal") in
      if negb (String.eqb (Scheme parsedURL) "https") && negb localHTTP
      then inl (Errorf "orbit JWKS URL must use HTTPS outside local development" []) else
      let cacheLifetime := if cacheLifetime <=? 0 then 5 * Minute else cacheLifetime in
      match refreshLocked r (mkRemoteVerifier jwksURL parsedURL cacheLifetime Hour ∅ 0 0 0 0) with
      | (Some err, _) => inl err
      | (None, v) => inr v
      end
  end.

(** The 15-second throttle. *)
Definition may_refresh (now last : time) : bool := IsZero last || (15 * Second <=? Sub now last).

(** Whether the call refreshes the cache: it expired, or the key is unknown, each
    under its throttle. *)
Definition refresh_due (now : time) (keyID : string) (v : RemoteVerifier) : bool :=
  (After now (rv_expiresAt v) && may_refresh now (rv_lastRefreshAttempt v)) ||
  (bool_decide (rv_keys v !! keyID = None) && may_refresh now (rv_lastUnknownRefresh v)).

(** The part of [ParseAccessToken] under the lock: the key to verify with. *)
Definition cached_key (r : Reading) (keyID : string) (v : RemoteVerifier)
    : (error + option rsa_PublicKey) * RemoteVerifier * bool :=
  let now := rd_now r in
  let stale v := match rv_keys v !! keyID with
    | Some key => if rv_maxStale v <? Sub now (rv_fetchedAt v)
                  then inl (Errorf "cached Orbit JWKS exceeded its maximum stale age" []) else inr (Some key)
    | None => inr None
    end in
  if refresh_due now keyID v then
    let v := set_attempts v now
      (if bool_decide (rv_keys v !! keyID = None) then now else rv_lastUnknownRefresh v) in
    let '(refreshErr, v) := refreshLocked r v in
    match refreshErr with
    | Some err =>
        if bool_decide (rv_keys v !! keyID = None) || (rv_maxStale v <? Sub now (rv_fetchedAt v))
        then (inl err, v, true) else (stale v, v, true)
    | None => (stale v, v, true)
    end
  else (stale v, v, false).

Definition RemoteVerifier_ParseAccessToken (r : Reading) (raw : string) (v : RemoteVerifier)
    : (error + AccessClaims) * RemoteVerifier * bool :=
  match jwt_ParseUnverified raw with
  | inl err => (inl err, v, false)
  | inr None => (inl (Errorf "invalid JWT access token" []), v, false)
  | inr (Some None) => (inl (Errorf "JWT key ID is required" []), v, false)
  | inr (Some (Some keyID)) =>
      if String.eqb (TrimSpace keyID) "" then (inl (Errorf "JWT key ID is required" []), v, false) else
      match cached_key r keyID v with
      | (inl err, v, asked) => (inl err, v, asked)
      | (inr None, v, asked) => (inl (Errorf "unknown JWT key ID %q" [keyID]), v, asked)
      | (inr (Some key), v, asked) => (ParseAccessToken (rd_parsed r) raw {[ keyID := key ]}, v, asked)
      end
  end.

(** A history: the answers, the verifier after it and the number of fetches. *)
Fixpoint history (calls : list (Reading * string)) (v : RemoteVerifier)
    : list (error + AccessClaims) * RemoteVerifier * nat :=
  match calls with
  | [] => ([], v, 0%nat)
  | (r, raw) :: calls =>
      let '(answer, v, asked) := RemoteVerifier_ParseAccessToken r raw v in
      let '(answers, v, n) := history calls v in
      (answer :: answers, v, ((if asked : bool then 1 else 0) + n)%nat)
  end.

(** ** Where keys come from *)

(** A response came from the URL asked first, or from one with the origin's scheme
    and host. *)
Definition same_origin (origin u : URL) : Prop :=
  Scheme u = Scheme origin ∧ EqualFold (Host u) (Host origin) = true.

Lemma client_Do_origin fuel origin serve via u response :
  client_Do fuel origin serve via u = inr response →
  ∃ n u', (u' = u ∨ same_origin origin u') ∧ serve n u' = inr response.
Proof.
  revert via u. induction fuel as [|fuel IH]; intros via u; cbn [client_Do];
    destruct (serve via u) as [|resp] eqn:Es; try done; (destruct (is_redirect _); cbn [negb];
    [|intros [= <-]; by exists via, u; eauto]); destruct (Location resp) as [[|u']|]; try done;
    try (intros [= <-]; by exists via, u; eauto);
    (destruct (CheckRedirect _ _ _) eqn:Ec; cbn [negb]; [|intros [= <-]; by exists via, u; eauto]).
  - intros [= <-]. exists via, u. eauto.
  - intros (n & w & Hw & Hs)%IH. exists n, w. split; [|done]. right. destruct Hw as [->|]; [|done].
    unfold CheckRedirect in Ec. bool_hyps. done.
Qed.

(** More fuel changes nothing: the redirect check stops the loop first. *)
Lemma client_Do_enough fuel origin serve u : client_Do (2 + fuel) origin serve 0 u = client_Do 2 origin serve 0 u.
Proof.
  assert (∀ via fuel fuel' u, (3 ≤ via + fuel)%nat → (3 ≤ via + fuel')%nat → (1 ≤ fuel)%nat → (1 ≤ fuel')%nat →
    client_Do (pred fuel) origin serve via u = client_Do (pred fuel') origin serve via u) as H.
  { clear. intros via fuel. revert via. induction fuel as [|[|fuel] IH]; intros via [|[|fuel']] u; simpl; try lia; intros; try done.
    all: destruct (serve via u) as [|resp]; [done|]; destruct (negb (is_redirect _)); [done|];
      destruct (Location resp) as [[|u']|]; [done| |done].
    1,2: unfold CheckRedirect; by rewrite (proj2 (Nat.leb_le 3 (S via))) by lia.
    destruct (negb _); [done|]. apply (IH (S via) (S fuel') u'); lia. }
  apply (H 0%nat (S (2 + fuel)) 3%nat); lia.
Qed.

(** [keys] is a key set the endpoint published at the reading [r]. *)
Definition published (v : RemoteVerifier) (r : Reading) (keys : KeySet) : Prop :=
  ∃ request n u response document,
    http_NewRequest (rv_url v) = inr request ∧ (u = request ∨ same_origin (rv_origin v) u) ∧
    rd_serve r n u = inr response ∧ StatusCode response = 200 ∧
    json_DecodeJWKSet (slice_to (2 ^ 20) (Body response)) = inr document ∧ JWKSet_KeySet document = inr keys.

Lemma fetch_keys_published r v keys : fetch_keys r v = inr keys → published v r keys.
Proof.
  unfold fetch_keys. destruct (http_NewRequest _) as [|request] eqn:Er; [done|].
  destruct (client_Do _ _ _ _ _) as [|response] eqn:Ed; [done|].
  destruct (Z.eqb_spec (StatusCode response) 200) as [Hst|]; [|done]. cbn [negb].
  destruct (json_DecodeJWKSet _) as [|document] eqn:Ej; [done|]. intros Hk.
  apply client_Do_origin in Ed as (n & u & Hu & Hs). by exists request, n, u, response, document.
Qed.

(** The cache is what one of the readings published, and the fixed fields are those
    of the verifier [v0]. *)
Definition cached (v0 : RemoteVerifier) (rs : list Reading) (v : RemoteVerifier) : Prop :=
  rv_url v = rv_url v0 ∧ rv_origin v = rv_origin v0 ∧ rv_cacheLifetime v = rv_cacheLifetime v0 ∧
  rv_maxStale v = rv_maxStale v0 ∧ rv_expiresAt v = rv_fetchedAt v + rv_cacheLifetime v ∧
  ∃ rf, rf ∈ rs ∧ published v0 rf (rv_keys v) ∧ rv_fetchedAt v = rd_fetched rf.

Lemma cached_mono v0 rs rs' v : rs ⊆ rs' → cached v0 rs v → cached v0 rs' v.
Proof. intros Hs (? & ? & ? & ? & ? & rf & Hrf & ?). do 5 (split; [done|]). exists rf. split; [by apply Hs|done]. Qed.

(** ** The state machine of one call *)

(** The verifier when a call decides to refresh, and when the refresh succeeded. *)
Definition attempted (now : time) (keyID : string) (v : RemoteVerifier) : RemoteVerifier :=
  set_attempts v now (if bool_decide (rv_keys v !! keyID = None) then now else rv_lastUnknownRefresh v).

Definition refreshed (at_ : time) (keys : KeySet) (v : RemoteVerifier) : RemoteVerifier :=
  mkRemoteVerifier (rv_url v) (rv_origin v) (rv_cacheLifetime v) (rv_maxStale v) keys at_
    (Add at_ (rv_cacheLifetime v)) (rv_lastRefreshAttempt v) (rv_lastUnknownRefresh v).

(** Nothing is due; the endpoint fails and the cache stays; the cache is replaced. *)
Inductive cache_step (r : Reading) (keyID : string) (v : RemoteVerifier) : RemoteVerifier → bool → Prop :=
  | cache_kept : refresh_due (rd_now r) keyID v = false → cache_step r keyID v v false
  | cache_outage err :
      refresh_due (rd_now r) keyID v = true → fetch_keys r v = inl err →
      cache_step r keyID v (attempted (rd_now r) keyID v) true
  | cache_replaced keys :
      refresh_due (rd_now r) keyID v = true → fetch_keys r v = inr keys →
      cache_step r keyID v (refreshed (rd_fetched r) keys (attempted (rd_now r) keyID v)) true.

(** The cached key is usable: known and not too old. *)
Definition usable (now : time) (keyID : string) (v : RemoteVerifier) (key : rsa_PublicKey) : Prop :=
  rv_keys v !! keyID = Some key ∧ Sub now (rv_fetchedAt v) ≤ rv_maxStale v.

Lemma cached_key_step r keyID v answer v' asked :
  cached_key r keyID v = (answer, v', asked) →
  cache_step r keyID v v' asked ∧ ∀ key, answer = inr (Some key) ↔ usable (rd_now r) keyID v' key.
Proof.
  assert (∀ w key, match rv_keys w !! keyID with
    | Some key => if rv_maxStale w <? Sub (rd_now r) (rv_fetchedAt w)
                  then inl (Errorf "cached Orbit JWKS exceeded its maximum stale age" []) else inr (Some key)
    | None => inr None
    end = inr (Some key) ↔ usable (rd_now r) keyID w key) as Hstale.
  { intros w key. unfold usable. destruct (rv_keys w !! keyID); [|naive_solver].
    destruct (Z.ltb_spec (rv_maxStale w) (Sub (rd_now r) (rv_fetchedAt w))); split; intros; simplify_eq; naive_solver lia. }
  unfold cached_key. cbv zeta. destruct (refresh_due (rd_now r) keyID v) eqn:Ed.
  - fold (attempted (rd_now r) keyID v). unfold refreshLocked.
    change (fetch_keys r (attempted (rd_now r) keyID v)) with (fetch_keys r v).
    destruct (fetch_keys r v) as [err|keys] eqn:Ef.
    + destruct (_ || _) eqn:Es; intros [= <- <- <-]; (split; [by eapply cache_outage|]);
        [|exact (Hstale (attempted (rd_now r) keyID v))].
      intros key. split; [done|]. intros [Hk Hle]. apply orb_true_iff in Es as [Es|Es].
      * apply bool_decide_eq_true_1 in Es. congruence.
      * apply Z.ltb_lt in Es. lia.
    + intros [= <- <- <-]. split; [by apply cache_replaced|].
      exact (Hstale (refreshed (rd_fetched r) keys (attempted (rd_now r) keyID v))).
  - intros [= <- <- <-]. split; [by apply cache_kept|]. exact (Hstale v).
Qed.

(** One call: a token without a usable header changes nothing. *)
Inductive call_step (r : Reading) (raw : string) (v : RemoteVerifier) : RemoteVerifier → bool → Prop :=
  | call_malformed : call_step r raw v v false
  | call_cache keyID v' asked :
      jwt_ParseUnverified raw = inr (Some (Some keyID)) → cache_step r keyID v v' asked → call_step r raw v v' asked.

Lemma call_steps r raw v answer v' asked :
  RemoteVerifier_ParseAccessToken r raw v = (answer, v', asked) → call_step r raw v v' asked.
Proof.
  unfold RemoteVerifier_ParseAccessToken.
  destruct (jwt_ParseUnverified raw) as [|[[keyID|]|]] eqn:Eh; try (intros [= <- <- <-]; by constructor).
  destruct (String.eqb _ _); [intros [= <- <- <-]; by constructor|].
  destruct (cached_key r keyID v) as [[a w] b] eqn:Ec. apply cached_key_step in Ec as [Hs _].
  destruct a as [|[]]; intros [= <- <- <-]; by eapply call_cache.
Qed.

(** The answer is the direct verification under the usable key. *)
Lemma call_answer r raw v keyID key answer v' asked :
  RemoteVerifier_ParseAccessToken r raw v = (answer, v', asked) →
  jwt_ParseUnverified raw = inr (Some (Some keyID)) → TrimSpace keyID ≠ "" → usable (rd_now r) keyID v' key →
  answer = ParseAccessToken (rd_parsed r) raw {[ keyID := key ]}.
Proof.
  unfold RemoteVerifier_ParseAccessToken. intros H Hh Hid Hu. rewrite Hh, (proj2 (String.eqb_neq _ _) Hid) in H.
  destruct (cached_key r keyID v) as [[a w] b] eqn:Ec. apply cached_key_step in Ec as [_ Hs].
  assert (w = v') as -> by (destruct a as [|[]]; congruence). apply Hs in Hu as ->. congruence.
Qed.

Lemma call_accepted r raw v claims v' asked :
  RemoteVerifier_ParseAccessToken r raw v = (inr claims, v', asked) →
  ∃ keyID key, jwt_ParseUnverified raw = inr (Some (Some keyID)) ∧ usable (rd_now r) keyID v' key ∧
    ParseAccessToken (rd_parsed r) raw {[ keyID := key ]} = inr claims.
Proof.
  unfold RemoteVerifier_ParseAccessToken. destruct (jwt_ParseUnverified raw) as [|[[keyID|]|]]; try done.
  destruct (String.eqb _ _); [done|]. destruct (cached_key r keyID v) as [[a w] b] eqn:Ec.
  apply cached_key_step in Ec as [_ Hs]. destruct a as [|[key|]]; try done. intros [= H1 <- <-].
  exists keyID, key. split_and!; [done|by apply Hs|done].
Qed.

(** ** Histories *)

(** A property of verifiers that every call keeps holds after a history. *)
Lemma history_inv (P : list Reading → RemoteVerifier → Prop) rs calls v answers v' n :
  (∀ rs r raw v v' asked, (r, raw) ∈ calls → P rs v → call_step r raw v v' asked → P (rs ++ [r]) v') →
  P rs v → history calls v = (answers, v', n) → P (rs ++ calls.*1) v'.
Proof.
  intros Hstep. revert rs v answers n. induction calls as [|[r raw] calls IH]; intros rs v answers n HP; cbn [history].
  { intros [= _ <- _]. by rewrite app_nil_r. }
  destruct (RemoteVerifier_ParseAccessToken r raw v) as [[a w] b] eqn:Ec.
  destruct (history calls w) as [[answers' w'] m] eqn:Eh. intros [= _ <- _].
  rewrite fmap_cons, cons_middle, app_assoc. cbn [fst]. eapply IH; [|eapply Hstep|exact Eh]; [|left|done|by eapply call_steps].
  intros. eapply Hstep; [by right|done..].
Qed.

Lemma call_step_cached v0 rs r raw v v' asked :
  cached v0 rs v → call_step r raw v v' asked → cached v0 (rs ++ [r]) v'.
Proof.
  intros Hc Hs. assert (cached v0 (rs ++ [r]) v) as Hc' by (eapply cached_mono; [|done]; set_solver).
  destruct Hs as [|keyID v' asked _ [| |keys _ Hf]]; [done|done|by destruct Hc' as (? & ? & ? & ? & ? & ?)|].
  destruct Hc' as (H1 & H2 & H3 & H4 & _ & _). apply fetch_keys_published in Hf. unfold cached. simpl.
  split_and!; [done..|]. exists r. split_and!; [set_solver| |done].
  unfold published in *. by rewrite <- H1, <- H2.
Qed.

(** A verifier starts with what the first reading published. *)
Lemma NewRemoteVerifier_inv r jwksURL cacheLifetime v :
  NewRemoteVerifier r jwksURL cacheLifetime = inr v →
  cached v [r] v ∧ rv_maxStale v = Hour ∧ rv_lastRefreshAttempt v = 0 ∧ rv_lastUnknownRefresh v = 0 ∧
  rv_cacheLifetime v = (if cacheLifetime <=? 0 then 5 * Minute else cacheLifetime) ∧
  (Scheme (rv_origin v) = "https" ∨ Scheme (rv_origin v) = "http" ∧
    Hostname (rv_origin v) ∈ ["localhost"; "127.0.0.1"; "host.docker.internal"]).
Proof.
  unfold NewRemoteVerifier. cbv zeta. destruct (String.eqb _ _); [done|].
  destruct (url_ParseRequestURI _) as [|u]; [done|]. destruct (_ || _); [done|].
  destruct (_ && _) eqn:Eh; [done|]. unfold refreshLocked. destruct (fetch_keys _ _) as [|keys] eqn:Ef; [done|].
  intros [= <-]. apply fetch_keys_published in Ef. split_and!; simpl; try done.
  - split_and!; simpl; [done..|]. exists r. split; [by left|]. done.
  - rewrite andb_false_iff, !negb_false_iff, andb_true_iff, !orb_true_iff, !String.eqb_eq in Eh.
    rewrite !elem_of_cons. tauto.
Qed.

(** C16: after any history, a token the remote verifier accepts is signed by a key
    that its endpoint published: the key ID of the token's header names a key of a
    well-formed key set, served with status 200 from the configured URL or from one
    of the same scheme and host, at most one hour before; the signature verifies
    under that key and the token was issued by orbit-auth and has not expired.  The
    configured scheme is https, or http on a local host. *)
Theorem RemoteVerifier_sound `{!JWTLaws J} r0 jwksURL cacheLifetime v0 calls answers v n r raw claims v' asked :
  NewRemoteVerifier r0 jwksURL cacheLifetime = inr v0 →
  history calls v0 = (answers, v, n) →
  RemoteVerifier_ParseAccessToken r raw v = (inr claims, v', asked) →
  (Scheme (rv_origin v0) = "https" ∨ Scheme (rv_origin v0) = "http" ∧
    Hostname (rv_origin v0) ∈ ["localhost"; "127.0.0.1"; "host.docker.internal"]) ∧
  ∃ rf keys keyID key e,
    rf ∈ r0 :: calls.*1 ++ [r] ∧ published v0 rf keys ∧ valid_keyset keys ∧ Sub (rd_now r) (rd_fetched rf) ≤ Hour ∧
    jwt_ParseUnverified raw = inr (Some (Some keyID)) ∧ keys !! keyID = Some key ∧
    jwt_verified raw Algorithm key claims ∧ Issuer_ claims = Issuer ∧
    ExpiresAt claims = Some e ∧ rd_parsed r < e.
Proof.
  intros (Hc & Hmax & _ & _ & _ & Ho)%NewRemoteVerifier_inv Hh Ha. split; [done|].
  pose proof (call_steps _ _ _ _ _ _ Ha) as Hs. apply call_accepted in Ha as (keyID & key & Hid & [Hk Hage] & Hp).
  eapply (history_inv (cached v0)) in Hc; [|intros; by eapply call_step_cached|exact Hh].
  eapply call_step_cached in Hc as (_ & _ & _ & Hmax' & _ & rf & Hrf & Hpub & Hf); [|exact Hs].
  apply ParseAccessToken_inv in Hp as (keyID' & key' & Hid' & Hk' & (e & Hv & Hi & He & Hn & _)%keyfunc_verified & _).
  rewrite Hid in Hid'. simplify_eq. rewrite lookup_singleton_eq in Hk'. simplify_eq.
  exists rf, (rv_keys v'), keyID', key', e. split_and!; try done.
  - destruct Hpub as (? & ? & ? & ? & ? & _ & _ & _ & _ & _ & Hks). by apply JWKSet_KeySet_inv in Hks as [? _].
  - rewrite <- Hf, <- Hmax, <- Hmax'. done.
Qed.

(** ** The refresh rate *)

(** How many refreshes spaced 15 seconds apart fit between [from] and [until] after
    one at [last]. *)
Definition slots (last from until : time) : Z :=
  let start := if IsZero last then from else Z.max from (last + 15 * Second) in
  if until <? start then 0 else (until - start) / (15 * Second) + 1.

Lemma slots_nonneg last from until : 0 ≤ slots last from until.
Proof.
  unfold slots. cbv zeta. destruct (Z.ltb_spec until (if IsZero last then from else Z.max from (last + 15 * Second))); [done|].
  assert (0 ≤ (until - (if IsZero last then from else Z.max from (last + 15 * Second))) / (15 * Second)); [|lia].
  apply Z.div_pos; [lia|done].
Qed.

Lemma slots_later last from from' until : from ≤ from' → slots last from' until ≤ slots last from until.
Proof.
  intros H. unfold slots. cbv zeta. change (15 * Second) with 15000000.
  destruct (IsZero last); destruct (Z.ltb_spec until from'), (Z.ltb_spec until from) || idtac;
    repeat case_match; rewrite ?Z.ltb_lt, ?Z.ltb_ge in *; Z.div_mod_to_equations; lia.
Qed.

(** A refresh takes a slot. *)
Lemma slots_taken last now until :
  0 < now ≤ until → may_refresh now last = true → slots now now until + 1 ≤ slots last now until.
Proof.
  intros Hn Hm. assert (last = 0 ∨ last + 15000000 ≤ now) as Hl.
  { unfold may_refresh, IsZero in Hm. apply orb_true_iff in Hm as [Hm|Hm]; [left; lia|right].
    apply Z.leb_le in Hm. unfold Sub, maxDuration in Hm. change (15 * Second) with 15000000 in Hm. lia. }
  unfold slots, IsZero. cbv zeta. change (15 * Second) with 15000000.
  repeat case_match; rewrite ?Z.ltb_lt, ?Z.ltb_ge, ?Z.eqb_eq, ?Z.eqb_neq in *; Z.div_mod_to_equations; lia.
Qed.

Lemma slots_recent last now until : 0 < now → last ≤ now → slots now now until ≤ slots last now until.
Proof.
  intros ? ?. unfold slots, IsZero. cbv zeta. change (15 * Second) with 15000000.
  repeat case_match; rewrite ?Z.ltb_lt, ?Z.ltb_ge, ?Z.eqb_eq, ?Z.eqb_neq in *; Z.div_mod_to_equations; lia.
Qed.

Lemma slots_all last from until : from ≤ until → slots last from until ≤ (until - from) / (15 * Second) + 1.
Proof.
  intros ?. unfold slots. cbv zeta. change (15 * Second) with 15000000.
  repeat case_match; rewrite ?Z.ltb_lt, ?Z.ltb_ge in *; Z.div_mod_to_equations; lia.
Qed.

(** The refreshes still possible until a given time. *)
Definition budget (from until : time) (v : RemoteVerifier) : Z :=
  slots (rv_lastUnknownRefresh v) from until + slots (rv_lastRefreshAttempt v) from until.

(** The refreshes of [v] were not later than [t]. *)
Definition attempts_by (t : time) (v : RemoteVerifier) : Prop :=
  rv_lastUnknownRefresh v ≤ t ∧ rv_lastRefreshAttempt v ≤ t.

Lemma budget_attempted now keyID v until :
  attempts_by now v → 0 < now ≤ until → refresh_due now keyID v = true →
  budget now until (attempted now keyID v) + 1 ≤ budget now until v.
Proof.
  intros [Hu Hr] Hn Hd. unfold budget, attempted, set_attempts. cbn [rv_lastUnknownRefresh rv_lastRefreshAttempt].
  unfold refresh_due in Hd. apply orb_true_iff in Hd as [Hd|Hd]; apply andb_true_iff in Hd as [Hw Hm];
    apply (slots_taken _ _ until Hn) in Hm; pose proof (slots_recent _ _ until (proj1 Hn) Hu); pose proof (slots_recent _ _ until (proj1 Hn) Hr).
  - case_bool_decide; lia.
  - rewrite Hw. lia.
Qed.

Lemma budget_call r raw v v' asked until :
  call_step r raw v v' asked → attempts_by (rd_now r) v → 0 < rd_now r ≤ until →
  attempts_by (rd_now r) v' ∧ (if asked then 1 else 0) + budget (rd_now r) until v' ≤ budget (rd_now r) until v.
Proof.
  intros Hs Ha Hn. assert (attempts_by (rd_now r) (attempted (rd_now r) (match jwt_ParseUnverified raw with
    | inr (Some (Some k)) => k | _ => "" end) v)) as Ha'.
  { destruct Ha. split; simpl; [case_bool_decide|]; lia. }
  destruct Hs as [|keyID v' asked Hid Hs]; [split; [done|lia]|]. rewrite Hid in Ha'.
  destruct Hs as [|err Hd Hf|keys Hd Hf]; [split; [done|lia]|..];
    pose proof (budget_attempted _ _ _ _ Ha Hn Hd) as Hb; (split; [exact Ha'|]).
  - lia.
  - change (budget (rd_now r) until (refreshed (rd_fetched r) keys (attempted (rd_now r) keyID v)))
      with (budget (rd_now r) until (attempted (rd_now r) keyID v)). lia.
Qed.

(** Calls in the order of their clock readings, within an interval. *)
Fixpoint ordered (from until : time) (calls : list (Reading * string)) : Prop :=
  match calls with
  | [] => True
  | (r, _) :: calls => from ≤ rd_now r ≤ until ∧ ordered (rd_now r) until calls
  end.

Lemma history_budget from until calls v answers v' n :
  0 < from → attempts_by from v → ordered from until calls → history calls v = (answers, v', n) →
  Z.of_nat n ≤ budget from until v.
Proof.
  revert from v answers v' n. induction calls as [|[r raw] calls IH]; intros from v answers v' n Hf Ha Ho; cbn [history].
  { intros [= _ _ <-]. unfold budget. pose proof (slots_nonneg (rv_lastUnknownRefresh v) from until).
    pose proof (slots_nonneg (rv_lastRefreshAttempt v) from until). lia. }
  destruct Ho as [Hn Ho]. destruct (RemoteVerifier_ParseAccessToken r raw v) as [[a w] b] eqn:Ec.
  destruct (history calls w) as [[answers' w'] m] eqn:Eh. intros [= _ _ <-]. apply call_steps in Ec.
  eapply (budget_call _ _ _ _ _ until) in Ec as [Ha' Hb]; [|destruct Ha; split; lia|lia].
  pose proof (IH (rd_now r) w answers' w' m ltac:(lia) Ha' Ho Eh).
  pose proof (slots_later (rv_lastUnknownRefresh v) from (rd_now r) until ltac:(lia)).
  pose proof (slots_later (rv_lastRefreshAttempt v) from (rd_now r) until ltac:(lia)).
  unfold budget in *. destruct b; lia.
Qed.

(** C17: however many tokens are presented, and whatever key IDs they name, in an
    interval of length [d] the endpoint is fetched at most twice per 15 seconds
    begun: 2 * (d / 15 s + 1) times. *)
Theorem refresh_rate_bounded from until calls v answers v' n :
  0 < from ≤ until → attempts_by from v → ordered from until calls →
  history calls v = (answers, v', n) →
  Z.of_nat n ≤ 2 * ((until - from) / (15 * Second) + 1).
Proof.
  intros Hf Ha Ho Hh. pose proof (history_budget from until calls v answers v' n ltac:(lia) Ha Ho Hh) as Hb.
  unfold budget in Hb.
  pose proof (slots_all (rv_lastUnknownRefresh v) from until ltac:(lia)).
  pose proof (slots_all (rv_lastRefreshAttempt v) from until ltac:(lia)). lia.
Qed.

(** ** Recovery *)

(** The endpoint answers, with a document that has the key. *)
Definition healthy (v : RemoteVerifier) (keyID : string) (key : rsa_PublicKey) (r : Reading) : Prop :=
  rd_now r ≤ rd_fetched r ∧ ∃ keys, fetch_keys r v = inr keys ∧ keys !! keyID = Some key.

(** No refresh since [t0], or the last one brought the key. *)
Definition recovering (t0 : time) (keyID : string) (key : rsa_PublicKey) (v : RemoteVerifier) : Prop :=
  (attempts_by t0 v ∧ ∀ key', rv_keys v !! keyID = Some key' → key' = key) ∨
  (rv_keys v !! keyID = Some key ∧ rv_lastRefreshAttempt v ≤ rv_fetchedAt v).

(** The fixed fields and the expiry of a verifier whose lifetime is at most its
    staleness bound. *)
Definition tuned (v0 v : RemoteVerifier) : Prop :=
  rv_url v = rv_url v0 ∧ rv_origin v = rv_origin v0 ∧ rv_maxStale v = Hour ∧ 0 < rv_cacheLifetime v ≤ Hour ∧
  rv_expiresAt v = rv_fetchedAt v + rv_cacheLifetime v.

Lemma call_step_tuned v0 r raw v v' asked : tuned v0 v → call_step r raw v v' asked → tuned v0 v'.
Proof. intros (? & ? & ? & ? & ?) [|? ? ? _ []]; split_and!; simpl; try done; lia. Qed.

Lemma call_step_recovering v0 t0 keyID key r raw v v' asked :
  tuned v0 v → healthy v0 keyID key r → recovering t0 keyID key v → call_step r raw v v' asked →
  recovering t0 keyID key v'.
Proof.
  intros (Hu & Ho & _) (Hn & keys & Hf & Hk) Hr [|keyID' v'' b _ Hs]; [done|].
  assert (fetch_keys r v = inr keys) as Hf' by (unfold fetch_keys in *; by rewrite Hu, Ho).
  destruct Hs as [|err _ He|keys' _ He]; [done|congruence|]. right. simpl. split; [congruence|done].
Qed.

(** At the call itself the cached key is usable. *)
Lemma recovering_usable v0 t0 keyID key r v v' asked :
  tuned v0 v → healthy v0 keyID key r → recovering t0 keyID key v → t0 + 15 * Second ≤ rd_now r →
  cache_step r keyID v v' asked → usable (rd_now r) keyID v' key.
Proof.
  intros (Hu & Ho & Hmax & Hlife & Hexp) (Hn & keys & Hf & Hk) Hr H15 Hs.
  assert (fetch_keys r v = inr keys) as Hf' by (unfold fetch_keys in *; by rewrite Hu, Ho).
  destruct Hs as [Hd|err _ He|keys' _ He]; [|congruence|].
  - unfold refresh_due in Hd. apply orb_false_iff in Hd as [Hd1 Hd2]. unfold usable. rewrite Hmax.
    unfold After, Sub, maxDuration, Hour, Minute, Second, Millisecond in *.
    destruct Hr as [[[Ht1 Ht2] Hkey]|[Hkey Hlast]].
    + assert (∀ last, last ≤ t0 → may_refresh (rd_now r) last = true) as Hm.
      { intros last Hl. unfold may_refresh, Sub, maxDuration, Second, Millisecond. apply orb_true_iff. right. apply Z.leb_le. lia. }
      rewrite Hm, andb_true_r in Hd1, Hd2 by done. apply bool_decide_eq_false_1 in Hd2.
      destruct (rv_keys v !! keyID) as [key'|] eqn:Ek; [|done]. rewrite (Hkey key' eq_refl). split; [done|].
      apply Z.ltb_ge in Hd1. lia.
    + split; [done|]. apply andb_false_iff in Hd1 as [Hd1|Hd1]; [apply Z.ltb_ge in Hd1; lia|].
      unfold may_refresh, Sub, maxDuration, Second, Millisecond in Hd1. apply orb_false_iff in Hd1 as [_ Hd1].
      apply Z.leb_gt in Hd1. lia.
  - rewrite Hf' in He. simplify_eq. split; simpl; [done|]. rewrite Hmax. unfold Sub, maxDuration, Hour, Minute, Second, Millisecond. lia.
Qed.

Lemma call_cached r raw v keyID answer v' asked :
  RemoteVerifier_ParseAccessToken r raw v = (answer, v', asked) →
  jwt_ParseUnverified raw = inr (Some (Some keyID)) → TrimSpace keyID ≠ "" → cache_step r keyID v v' asked.
Proof.
  unfold RemoteVerifier_ParseAccessToken. intros H Hh Hid. rewrite Hh, (proj2 (String.eqb_neq _ _) Hid) in H.
  destruct (cached_key r keyID v) as [[a w] b] eqn:Ec. apply cached_key_step in Ec as [Hs _].
  destruct a as [|[]]; by simplify_eq.
Qed.

(** The verifier and its tuning after a history of calls no later than [t]. *)
Lemma history_past v0 calls v answers v' n t :
  0 ≤ t → tuned v0 v → attempts_by t v → Forall (λ c, rd_now c.1 ≤ t) calls → history calls v = (answers, v', n) →
  tuned v0 v' ∧ attempts_by t v'.
Proof.
  intros H0 Ht Ha Hc Hh. eapply (history_inv (λ _ w, tuned v0 w ∧ attempts_by t w) []) in Hh; [done| |done].
  intros _ r raw w w' b Hin [Hw Hwa] Hs. split; [by eapply call_step_tuned|].
  rewrite Forall_forall in Hc. specialize (Hc _ Hin). simpl in Hc. destruct Hwa.
  destruct Hs as [|keyID w' b _ []]; [done..| |]; split; simpl; try case_bool_decide; lia.
Qed.

(** C18: a verifier recovers from any outage or key rotation within 15 seconds.  Let
    its cache lifetime be at most an hour, and let anything have happened before
    [t0].  If from then on the endpoint answers with documents that have [key] under
    [keyID] (an identifier the cache does not hold for another key), then every token
    that names [keyID], presented 15 seconds or more after [t0] and after any further
    calls, gets the answer of a direct verification under [key]. *)
Theorem RemoteVerifier_recovers r0 jwksURL cacheLifetime v0 past answers v n t0 keyID key calls answers' v1 n' r raw :
  NewRemoteVerifier r0 jwksURL cacheLifetime = inr v0 → cacheLifetime ≤ Hour → 0 ≤ t0 →
  Forall (λ c, rd_now c.1 ≤ t0) past → history past v0 = (answers, v, n) →
  (∀ key', rv_keys v !! keyID = Some key' → key' = key) → TrimSpace keyID ≠ "" →
  Forall (healthy v0 keyID key) (calls.*1 ++ [r]) → history calls v = (answers', v1, n') →
  jwt_ParseUnverified raw = inr (Some (Some keyID)) → t0 + 15 * Second ≤ rd_now r →
  (RemoteVerifier_ParseAccessToken r raw v1).1.1 = ParseAccessToken (rd_parsed r) raw {[ keyID := key ]}.
Proof.
  intros (Hc & Hmax & Hr0 & Hu0 & Hlife & _)%NewRemoteVerifier_inv Hlt Ht0 Hpast Hh Hkey Hid Hhealthy Hh' Hraw H15.
  assert (tuned v0 v0) as Ht.
  { destruct Hc as (_ & _ & _ & _ & Hexp & _). split_and!; [done..| | |done]; rewrite Hlife; case_match;
      rewrite ?Z.leb_gt in *; done. }
  eapply history_past in Hh as [Hv Ha]; [|exact Ht0|exact Ht|split; lia|exact Hpast].
  apply Forall_app in Hhealthy as [Hcalls Hr%Forall_inv]. rewrite Forall_fmap, Forall_forall in Hcalls.
  eapply (history_inv (λ _ w, tuned v0 w ∧ recovering t0 keyID key w) []) in Hh' as [Hv1 Hrec];
    [|intros _ rr rw w w' b Hin [? ?] Hs; split; [by eapply call_step_tuned|]|split; [done|by left]].
  - destruct (RemoteVerifier_ParseAccessToken r raw v1) as [[answer w] asked] eqn:Ec. simpl.
    eapply call_answer; [exact Ec|done..|]. eapply recovering_usable; [done..|]. by eapply call_cached.
  - eapply call_step_recovering; [done| |done..]. exact (Hcalls _ Hin).
Qed.
End verifier.

(** ** A concrete endpoint *)

(** A network with one document, whose text the decoder recognises. *)
Definition demo_url : URL := mkURL "https" "id.test" "id.test" "" false.
Definition demo_net : NetLib := {|
  url_ParseRequestURI s := if String.eqb s "https://id.test/jwks" then inr demo_url else inl (Errorf "invalid URI" []);
  http_NewRequest s := inr demo_url;
  json_DecodeJWKSet body := if String.eqb body "jwks" then inr (Document {[ "k1" := big_key ]}) else inl (Errorf "invalid character" []);
|}.

#[local] Existing Instance demo_net.
#[local] Existing Instance demo_jwt.
#[local] Existing Instance demo_jwt_laws.
#[local] Existing Instance ascii_case.

Definition online (now : time) : Reading := mkReading now (λ _ _, inr (mkResponse 200 None "jwks")) (now + 1) (now + 2).
Definition offline (now : time) : Reading := mkReading now (λ _ _, inl (Errorf "connection refused" [])) (now + 1) (now + 2).

Definition demo_verifier : RemoteVerifier :=
  mkRemoteVerifier "https://id.test/jwks" demo_url (5 * Minute) Hour {[ "k1" := big_key ]} (Second + 1)
    (Second + 1 + 5 * Minute) 0 0.
Definition demo_token : string :=
  demo_jwt_text big_key "k1" (mkAccessClaims Issuer "alice" (Some (2 * Hour)) (Some 0) "").
Definition stray_token : string :=
  demo_jwt_text big_key "k9" (mkAccessClaims Issuer "alice" (Some (2 * Hour)) (Some 0) "").

Lemma demo_verifier_new : NewRemoteVerifier (online Second) " https://id.test/jwks" 0 = inr demo_verifier.
Proof. vm_compute. reflexivity. Qed.

(** A result from its first component. *)
Lemma triple_eta {A B C} (p : A * B * C) a : p.1.1 = a → p = (a, p.1.2, p.2).
Proof. by destruct p as [[? ?] ?]; intros <-. Qed.

Lemma triple_count {A B C} (p : A * B * C) c : p.2 = c → p = (p.1.1, p.1.2, c).
Proof. by destruct p as [[? ?] ?]; intros <-. Qed.

Definition stray_history : list (error + AccessClaims) * RemoteVerifier * nat :=
  history [(online Minute, stray_token)] demo_verifier.
Definition demo_call : (error + AccessClaims) * RemoteVerifier * bool :=
  RemoteVerifier_ParseAccessToken (offline (10 * Minute)) demo_token stray_history.1.2.

Lemma stray_history_run : history [(online Minute, stray_token)] demo_verifier = (stray_history.1.1, stray_history.1.2, 1%nat).
Proof. unfold stray_history. apply triple_count. vm_compute. reflexivity. Qed.

Definition demo_claims : AccessClaims := mkAccessClaims Issuer "alice" (Some (2 * Hour)) (Some 0) "".

Lemma demo_call_run :
  RemoteVerifier_ParseAccessToken (offline (10 * Minute)) demo_token stray_history.1.2 = (inr demo_claims, demo_call.1.2, demo_call.2).
Proof. unfold demo_call. apply triple_eta. vm_compute. reflexivity. Qed.

Lemma RemoteVerifier_sound_witness :
  ∃ rf keys keyID key, rf ∈ [online Second; online Minute; offline (10 * Minute)] ∧ published demo_verifier rf keys ∧
    keys !! keyID = Some key ∧ jwt_ParseUnverified demo_token = inr (Some (Some keyID)).
Proof.
  destruct (RemoteVerifier_sound (online Second) " https://id.test/jwks" 0 demo_verifier [(online Minute, stray_token)]
    stray_history.1.1 stray_history.1.2 1 (offline (10 * Minute)) demo_token demo_claims demo_call.1.2 demo_call.2
    demo_verifier_new stray_history_run demo_call_run)
    as (_ & rf & keys & keyID & key & e & H1 & H2 & _ & _ & H3 & H4 & _).
  exists rf, keys, keyID, key. exact (conj H1 (conj H2 (conj H4 H3))).
Defined.

Definition burst : list (Reading * string) :=
  [(online Minute, stray_token); (offline (Minute + Second), stray_token); (offline (Minute + 2 * Second), demo_token)].

Lemma refresh_rate_bounded_witness :
  (history burst demo_verifier).2 = 1%nat ∧ Z.of_nat 1 ≤ 2 * ((2 * Minute - Minute) / (15 * Second) + 1).
Proof.
  assert ((history burst demo_verifier).2 = 1%nat) as Hn by (vm_compute; reflexivity). split; [exact Hn|].
  apply (refresh_rate_bounded Minute (2 * Minute) burst demo_verifier _ _ 1 ltac:(vm_compute; split; congruence)
    ltac:(vm_compute; split; congruence) ltac:(vm_compute; repeat split; congruence) (triple_count _ _ Hn)).
Defined.

Lemma healthy_online now : healthy demo_verifier "k1" big_key (online now).
Proof.
  split; [simpl; lia|]. exists {[ "k1" := big_key ]}. split; [|apply lookup_singleton_eq].
  vm_compute. reflexivity.
Qed.

Definition outage : list (error + AccessClaims) * RemoteVerifier * nat :=
  history [(offline (Hour + 10 * Minute), demo_token)] demo_verifier.

Lemma outage_run : history [(offline (Hour + 10 * Minute), demo_token)] demo_verifier = (outage.1.1, outage.1.2, 1%nat).
Proof. unfold outage. apply triple_count. vm_compute. reflexivity. Qed.

Lemma RemoteVerifier_recovers_witness :
  (RemoteVerifier_ParseAccessToken (online (Hour + 30 * Minute)) demo_token outage.1.2).1.1 =
    ParseAccessToken (Hour + 30 * Minute + 2) demo_token {[ "k1" := big_key ]}.
Proof.
  apply (RemoteVerifier_recovers (online Second) " https://id.test/jwks" 0 demo_verifier
    [(offline (Hour + 10 * Minute), demo_token)] outage.1.1 outage.1.2 1
    (Hour + 10 * Minute) "k1" big_key [] [] outage.1.2 0 (online (Hour + 30 * Minute)) demo_token demo_verifier_new).
  - vm_compute. congruence.
  - vm_compute. congruence.
  - constructor; [vm_compute; congruence|constructor].
  - exact outage_run.
  - assert (rv_keys outage.1.2 = {[ "k1" := big_key ]}) as -> by (vm_compute; reflexivity).
    intros key' H. rewrite lookup_singleton_eq in H. congruence.
  - vm_compute. congruence.
  - constructor; [apply healthy_online|constructor].
  - reflexivity.
  - vm_compute. reflexivity.
  - vm_compute. congruence.
Defined.
