(* ===== verification/Exec.v ===== *)
(** Weakest preconditions for effectful code, and the rules for runs in which no
    dependency fails. *)
From S2P Require Import Prelude GoStrings Domain Libs Tables Database World Ports Postgres.
Local Open Scope Z_scope.
Local Open Scope orbit_scope.

Section wp.
Context `{V : Env}.

Definition wp {A} (m : M A) (w : World) (Q : outcome A → World → Prop) : Prop := Q (m w).1 (m w).2.

Lemma wp_mono {A} (m : M A) w (Q Q' : outcome A → World → Prop) :
  wp m w Q → (∀ r w', Q r w' → Q' r w') → wp m w Q'.
Proof. unfold wp. auto. Qed.

Lemma wp_ret {A} (a : A) w (Q : outcome A → World → Prop) : Q (Ret a) w → wp (ret a) w Q.
Proof. done. Qed.

Lemma wp_fail {A} e w (Q : outcome A → World → Prop) : Q (Fail e) w → wp (fail e) w Q.
Proof. done. Qed.

Lemma wp_bind {A B} (m : M A) (k : A → M B) w (Q : outcome B → World → Prop) :
  wp m w (λ r w', match r with
                  | Ret a => wp (k a) w' Q
                  | Fail e => Q (Fail e) w'
                  | Panic p => Q (Panic p) w'
                  end) → wp (bind m k) w Q.
Proof. unfold wp, bind. by destruct (m w) as [[] ?]. Qed.

Lemma wp_try {A} (m : M A) w (Q : outcome (error + A) → World → Prop) :
  wp m w (λ r w', match r with
                  | Ret a => Q (Ret (inr a)) w'
                  | Fail e => Q (Ret (inl e)) w'
                  | Panic p => Q (Panic p) w'
                  end) → wp (try m) w Q.
Proof. unfold wp, try. by destruct (m w) as [[] ?]. Qed.

Lemma wp_wrap {A} f (m : M A) w (Q : outcome A → World → Prop) :
  wp m w (λ r w', match r with Fail e => Q (Fail (f e)) w' | _ => Q r w' end) → wp (wrap f m) w Q.
Proof. unfold wp, wrap. by destruct (m w) as [[] ?]. Qed.

Lemma wp_ignore {A} (m : M A) w (Q : outcome unit → World → Prop) :
  wp m w (λ r w', match r with Panic p => Q (Panic p) w' | _ => Q (Ret ()) w' end) → wp (ignore m) w Q.
Proof. unfold wp, ignore. by destruct (m w) as [[] ?]. Qed.

Lemma wp_of_sum {A} (r : error + A) w (Q : outcome A → World → Prop) :
  match r with inr a => Q (Ret a) w | inl e => Q (Fail e) w end → wp (of_sum r) w Q.
Proof. by destruct r. Qed.

Lemma wp_deferRollback {A} (m : M A) w (Q : outcome A → World → Prop) :
  wp m w (λ r w', Q r (mkWorld (w_db w') None (w_tick w') (w_sent w'))) → wp (deferRollback m) w Q.
Proof. unfold wp, deferRollback. by destruct (m w). Qed.

Lemma wp_parseID f s w (Q : outcome uuid → World → Prop) :
  match uuid_Parse s with
  | Some u => Q (Ret u) w
  | None => Q (Fail (Errorw f [s] (ErrParseUUID s))) w
  end → wp (parseID f s) w Q.
Proof. unfold parseID, Parse. by destruct (uuid_Parse s). Qed.

Lemma wp_tick db tx n sent (Q : outcome nat → World → Prop) :
  Q (Ret n) (mkWorld db tx (S n) sent) → wp tick (mkWorld db tx n sent) Q.
Proof. done. Qed.

Lemma wp_Now db tx n sent (Q : outcome time → World → Prop) :
  Q (Ret (go_now n)) (mkWorld db tx (S n) sent) → wp Now (mkWorld db tx n sent) Q.
Proof. done. Qed.

Lemma wp_NewUUID db tx n sent (Q : outcome uuid → World → Prop) :
  Q (Ret (uuid_New n)) (mkWorld db tx (S n) sent) → wp NewUUID (mkWorld db tx n sent) Q.
Proof. done. Qed.

(** ** Database calls

    A dependency that fails contradicts [Fair V], so the rules ask for the
    postcondition on a failure only when the run is not fair. *)

Definition server (n : nat) (now : time) : Server := mkServer now (db_order n) db_lower.

Definition tolerates {A} (Q : outcome A → World → Prop) : Prop := ¬ Fair V → ∀ e w, Q (Fail e) w.

(** The same for the errors of the driver alone. *)
Definition tolerates_db {A} (Q : outcome A → World → Prop) : Prop :=
  ¬ Fair V → ∀ what w, Q (Fail (ErrUnavailable what)) w.

Lemma fault_unfair n what : db_fault n = Some what → ¬ Fair V.
Proof. intros H Hf. rewrite fair_db in H. done. Qed.

Lemma wp_Pool {A} (q : statement A) db tx n sent (Q : outcome A → World → Prop) :
  (¬ Fair V → ∀ what, Q (Fail (ErrUnavailable what)) (mkWorld db tx (S n) sent)) →
  match q (server n (db_now n)) db with
  | inl e => Q (Fail e) (mkWorld db tx (S n) sent)
  | inr (a, db') => Q (Ret a) (mkWorld db' tx (S n) sent)
  end → wp (run_query Pool q) (mkWorld db tx n sent) Q.
Proof.
  intros HT HQ. unfold wp, run_query, server in *. simpl. destruct (db_fault n) eqn:E.
  - eapply HT, fault_unfair, E.
  - by destruct (q _ db) as [|[??]].
Qed.

Lemma wp_Tx {A} (q : statement A) db t txdb n sent (Q : outcome A → World → Prop) :
  tolerates_db Q →
  match q (server n t) txdb with
  | inl e => Q (Fail e) (mkWorld db (Some (t, txdb)) (S n) sent)
  | inr (a, txdb') => Q (Ret a) (mkWorld db (Some (t, txdb')) (S n) sent)
  end → wp (run_query Tx q) (mkWorld db (Some (t, txdb)) n sent) Q.
Proof.
  intros HT HQ. unfold wp, run_query, server in *. simpl. destruct (db_fault n) eqn:E.
  - eapply HT, fault_unfair, E.
  - by destruct (q _ txdb) as [|[??]].
Qed.

Lemma wp_Begin db tx n sent (Q : outcome unit → World → Prop) :
  tolerates_db Q →
  Q (Ret ()) (mkWorld db (Some (db_now n, db)) (S n) sent) → wp Begin (mkWorld db tx n sent) Q.
Proof.
  intros HT HQ. unfold wp, Begin. simpl. destruct (db_fault n) eqn:E; [|done]. eapply HT, fault_unfair, E.
Qed.

Lemma wp_Commit db t txdb n sent (Q : outcome unit → World → Prop) :
  tolerates_db Q →
  Q (Ret ()) (mkWorld txdb None (S n) sent) → wp Commit (mkWorld db (Some (t, txdb)) n sent) Q.
Proof.
  intros HT HQ. unfold wp, Commit. simpl. destruct (db_fault n) eqn:E; [|done]. eapply HT, fault_unfair, E.
Qed.

(** A whole transaction: what the body leaves committed, its view discarded. *)
Lemma wp_transaction {A} f (m : M A) db n sent (Q : outcome A → World → Prop) :
  tolerates Q →
  wp m (mkWorld db (Some (db_now n, db)) (S n) sent)
    (λ r w', Q r (mkWorld (w_db w') None (w_tick w') (w_sent w'))) →
  wp (wrap f Begin ;; deferRollback m) (mkWorld db None n sent) Q.
Proof. intros HT H. apply wp_bind, wp_wrap, wp_Begin; [by intros U e w; apply HT|]. apply wp_deferRollback, H. Qed.

(** Payloads of the stored events, in order. *)
Definition events (db : DB Envelope) : list (string * Payload) :=
  (λ r, (ob_subject r, bus_Payload (ob_envelope r))) <$> outbox_events db.

(** [db] with more rows in its outbox. *)
Definition appended (rows : list (OutboxRow Envelope)) (db : DB Envelope) : DB Envelope :=
  set_outbox (λ l, l ++ rows) db.

Definition row_of (event : Event) (r : OutboxRow Envelope) : Prop :=
  (ob_subject r, bus_Payload (ob_envelope r)) = (e_Subject event, e_Payload event).

Context `{!EnvLaws V}.

Lemma wp_Emit event db t txdb n sent (Q : outcome unit → World → Prop) :
  tolerates Q →
  (Fair V → marshalable (payload_time (e_Payload event))) →
  (∀ r n', row_of event r → Q (Ret ()) (mkWorld db (Some (t, appended [r] txdb)) n' sent)) →
  wp (Emit event) (mkWorld db (Some (t, txdb)) n sent) Q.
Proof.
  intros HT Hm HQ. unfold Emit.
  assert (∃ at_ n0, (if IsZero (e_OccurredAt event) then Now else ret (e_OccurredAt event)) (mkWorld db (Some (t, txdb)) n sent)
    = (Ret at_, mkWorld db (Some (t, txdb)) n0 sent)) as (at_ & n0 & E0).
  { destruct (IsZero _); unfold Now, ret, bind, tick; simpl; eauto. }
  apply wp_bind. unfold wp at 1. rewrite E0. simpl. apply wp_bind, wp_wrap, wp_of_sum.
  unfold Marshal. case_decide as Hd; [|by apply HT; intros Hf; apply Hd, Hm].
  apply wp_bind, wp_tick, wp_bind, wp_wrap, wp_of_sum.
  destruct (bus_NewEnvelope n0 _ _ _ _) as [e1|env] eqn:E1.
  { apply HT. intros Hf. destruct (fair_bus n0 (e_Subject event) (e_Payload event)) as (? & ? & _). congruence. }
  destruct (bus_Validate _) as [e2|] eqn:E2.
  { apply HT. intros Hf. destruct (fair_bus n0 (e_Subject event) (e_Payload event)) as (env' & E & Hv).
    rewrite E1 in E. simplify_eq. by rewrite Hv in E2. }
  apply wp_wrap, wp_Tx; [by intros U e w; apply HT|]. simpl. apply HQ. unfold row_of. simpl. f_equal.
  by rewrite bus_Payload_setTimestamp, (bus_Payload_New _ _ _ _ _ _ E1).
Qed.

Lemma appended_app rows rows' db : appended rows' (appended rows db) = appended (rows ++ rows') db.
Proof. unfold appended, set_outbox. simpl. by rewrite (assoc_L (++)). Qed.

Lemma appended_nil db : appended [] db = db.
Proof. unfold appended, set_outbox. rewrite app_nil_r. by destruct db. Qed.

Lemma wp_emitEvents evs db t txdb n sent (Q : outcome unit → World → Prop) :
  tolerates Q →
  Forall (λ e, Fair V → marshalable (payload_time (e_Payload e))) evs →
  (∀ rows n', Forall2 row_of evs rows → Q (Ret ()) (mkWorld db (Some (t, appended rows txdb)) n' sent)) →
  wp (emitEvents Emit evs) (mkWorld db (Some (t, txdb)) n sent) Q.
Proof.
  intros HT Hm. revert txdb n. induction Hm as [|e evs He Hm IH]; intros txdb n HQ; simpl.
  - apply wp_ret. rewrite <- (appended_nil txdb). by apply HQ.
  - apply wp_bind, wp_Emit; [by intros U e' w; apply HT|done|]. intros r n' Hr. apply IH. intros rows n'' Hrows.
    rewrite appended_app. apply HQ. by constructor.
Qed.

Lemma events_appended rows evs db :
  Forall2 row_of evs rows → events (appended rows db) = events db ++ ((λ e, (e_Subject e, e_Payload e)) <$> evs).
Proof.
  intros H. unfold events, appended. simpl. rewrite fmap_app. f_equal.
  induction H as [|e r evs rows Hr H IH]; csimpl; [done|]. by rewrite Hr, IH.
Qed.
End wp.

#[global] Arguments emitEvents : simpl never.
#[global] Arguments wp : simpl never.
#[global] Arguments run_query : simpl never.
#[global] Arguments parseID : simpl never.

(** Discharges the postcondition of a failed dependency. *)
Ltac fault := solve [by intros ??? | intros; left; by split | by intros ??; split; [left|]].
