(* ===== verification/Returns.v ===== *)
(** Partial correctness: what holds when a call returns without an error.  The
    rules need no assumption about failures, since a failure that is not handled
    is not a return. *)
From S2P Require Import Prelude GoStrings Domain Libs Tables Database DatabaseProps World Effects Ports Postgres.
Local Open Scope Z_scope.
Local Open Scope orbit_scope.

Section returns.
Context `{V : Env}.

Definition returns {A} (m : M A) (w : World) (Φ : A → World → Prop) : Prop :=
  ∀ a w', m w = (Ret a, w') → Φ a w'.

Lemma returns_mono {A} (m : M A) w (Φ Ψ : A → World → Prop) :
  returns m w Φ → (∀ a w', Φ a w' → Ψ a w') → returns m w Ψ.
Proof. intros H HΨ a w' E. eauto. Qed.

Lemma returns_ret {A} (a : A) w (Φ : A → World → Prop) : Φ a w → returns (ret a) w Φ.
Proof. by intros H a' w' [= <- <-]. Qed.

Lemma returns_fail {A} e w (Φ : A → World → Prop) : returns (fail e) w Φ.
Proof. by intros a w'. Qed.

Lemma returns_panic {A} e w (Φ : A → World → Prop) : returns (panic e) w Φ.
Proof. by intros a w'. Qed.

Lemma returns_bind {A B} (m : M A) (k : A → M B) w (Φ : B → World → Prop) :
  returns m w (λ a w', returns (k a) w' Φ) → returns (bind m k) w Φ.
Proof. intros H b w'. unfold bind. destruct (m w) as [[a|e|p] w1] eqn:E; [|done..]. by apply H. Qed.

(** A failure inside [try] continues with the error: [Ψ] says what the failed
    call left behind. *)
Lemma returns_try {A} (m : M A) w (Φ : error + A → World → Prop) :
  (∀ e w', m w = (Fail e, w') → Φ (inl e) w') → returns m w (λ a w', Φ (inr a) w') → returns (try m) w Φ.
Proof. intros Hf Hr a w'. unfold try. destruct (m w) as [[b|e|p] w1] eqn:E; [| |done]; intros [= <- <-]; eauto. Qed.

Lemma returns_ignore {A} (m : M A) w (Φ : unit → World → Prop) :
  (∀ e w', m w = (Fail e, w') → Φ () w') → returns m w (λ _ w', Φ () w') → returns (ignore m) w Φ.
Proof. intros Hf Hr a w'. unfold ignore. destruct (m w) as [[b|e|p] w1] eqn:E; [| |done]; intros [= <- <-]; eauto. Qed.

Lemma returns_wrap {A} f (m : M A) w (Φ : A → World → Prop) : returns m w Φ → returns (wrap f m) w Φ.
Proof. intros H a w'. unfold wrap. destruct (m w) as [[b|e|p] w1] eqn:E; [|done..]. intros [= <- <-]. eauto. Qed.

Lemma returns_of_sum {A} (r : error + A) w (Φ : A → World → Prop) : (∀ a, r = inr a → Φ a w) → returns (of_sum r) w Φ.
Proof. intros H. destruct r; [apply returns_fail|apply returns_ret; eauto]. Qed.

Lemma returns_parseID f s w (Φ : uuid → World → Prop) :
  (∀ u, uuid_Parse s = Some u → Φ u w) → returns (parseID f s) w Φ.
Proof.
  intros H. apply returns_wrap, returns_of_sum. unfold Parse. intros a. destruct (uuid_Parse s); [|done].
  intros [= <-]. eauto.
Qed.

Lemma returns_tick db tx n sent (Φ : nat → World → Prop) :
  Φ n (mkWorld db tx (S n) sent) → returns tick (mkWorld db tx n sent) Φ.
Proof. by intros H a w' [= <- <-]. Qed.

Lemma returns_Now db tx n sent (Φ : time → World → Prop) :
  Φ (go_now n) (mkWorld db tx (S n) sent) → returns Now (mkWorld db tx n sent) Φ.
Proof. by intros H a w' [= <- <-]. Qed.

Lemma returns_NewUUID db tx n sent (Φ : uuid → World → Prop) :
  Φ (uuid_New n) (mkWorld db tx (S n) sent) → returns NewUUID (mkWorld db tx n sent) Φ.
Proof. by intros H a w' [= <- <-]. Qed.

Lemma returns_Pool {A} (q : statement A) db tx n sent (Φ : A → World → Prop) :
  (∀ a db', q (mkServer (db_now n) (db_order n) db_lower) db = inr (a, db') → Φ a (mkWorld db' tx (S n) sent)) →
  returns (run_query Pool q) (mkWorld db tx n sent) Φ.
Proof.
  intros H a w'. unfold run_query. simpl. destruct (db_fault n); [done|].
  destruct (q _ db) as [e|[b db']] eqn:E; [done|]. intros [= <- <-]. eauto.
Qed.

Lemma returns_Tx {A} (q : statement A) db t txdb n sent (Φ : A → World → Prop) :
  (∀ a txdb', q (mkServer t (db_order n) db_lower) txdb = inr (a, txdb') →
     Φ a (mkWorld db (Some (t, txdb')) (S n) sent)) →
  returns (run_query Tx q) (mkWorld db (Some (t, txdb)) n sent) Φ.
Proof.
  intros H a w'. unfold run_query. simpl. destruct (db_fault n); [done|].
  destruct (q _ txdb) as [e|[b db']] eqn:E; [done|]. intros [= <- <-]. eauto.
Qed.

Lemma returns_Commit db t txdb n sent (Φ : unit → World → Prop) :
  Φ () (mkWorld txdb None (S n) sent) → returns Commit (mkWorld db (Some (t, txdb)) n sent) Φ.
Proof. intros H a w'. unfold Commit. simpl. destruct (db_fault n); [done|]. by intros [= <- <-]. Qed.

Lemma returns_transaction {A} f (m : M A) db n sent (Φ : A → World → Prop) :
  returns m (mkWorld db (Some (db_now n, db)) (S n) sent)
    (λ a w', Φ a (mkWorld (w_db w') None (w_tick w') (w_sent w'))) →
  returns (wrap f Begin ;; deferRollback m) (mkWorld db None n sent) Φ.
Proof.
  intros H. apply returns_bind, returns_wrap. intros a w'. unfold Begin. simpl. destruct (db_fault n); [done|].
  intros [= <- <-] b w''. unfold deferRollback. destruct (m _) as [r w1] eqn:E. intros [= -> <-]. by apply H.
Qed.

(** A statement on the pool that failed wrote nothing. *)
Lemma Pool_failed {A} (q : statement A) w e w' :
  run_query Pool q w = (Fail e, w') → w' = mkWorld (w_db w) (w_tx w) (S (w_tick w)) (w_sent w).
Proof.
  unfold run_query. destruct (db_fault _); [by intros [= <- <-]|].
  destruct (q _ _) as [?|[??]]; [by intros [= <- <-]|done].
Qed.

(** Events only reach the outbox: the other tables of the transaction stay. *)
Lemma returns_emitEvents evs db t txdb n sent (Φ : unit → World → Prop) :
  (∀ rows n', Φ () (mkWorld db (Some (t, set_outbox (λ l, l ++ rows) txdb)) n' sent)) →
  returns (emitEvents Emit evs) (mkWorld db (Some (t, txdb)) n sent) Φ.
Proof.
  revert txdb n. induction evs as [|e evs IH]; intros txdb n H; cbn [emitEvents].
  - apply returns_ret. specialize (H [] n). unfold set_outbox in H. rewrite app_nil_r in H. by destruct txdb.
  - apply returns_bind. unfold Emit. apply returns_bind.
    assert (∀ Ψ : time → World → Prop, (∀ at_ n', Ψ at_ (mkWorld db (Some (t, txdb)) n' sent)) →
      returns (if IsZero (e_OccurredAt e) then Now else ret (e_OccurredAt e)) (mkWorld db (Some (t, txdb)) n sent) Ψ) as Hnow.
    { intros Ψ HΨ. destruct (IsZero _); [apply returns_Now|apply returns_ret]; apply HΨ. }
    apply Hnow. intros at_ n1. apply returns_bind, returns_wrap, returns_of_sum. intros p _.
    apply returns_bind, returns_tick, returns_bind, returns_wrap, returns_of_sum. intros env _.
    destruct (bus_Validate _); [apply returns_fail|]. apply returns_wrap, returns_Tx. intros a txdb' [= <- <-].
    apply IH. intros rows n'. specialize (H (mkOutboxRow (e_Subject e) (bus_setTimestamp env at_) :: rows) n').
    unfold set_outbox in *. simpl in *. by rewrite <- (assoc_L (++)).
Qed.
End returns.

#[global] Arguments returns : simpl never.
