(* ===== verification/OrgSpec.v ===== *)
(** What [domain.OrgStore] promises: organizations, memberships with a status
    and lifecycle events, without rows, transactions or timestamps.  The Postgres
    store is proved to implement it; the application is verified against it. *)
From S2P Require Import Prelude GoStrings Domain Libs Tables Database DatabaseProps World Effects Ports Postgres Exec.
Local Open Scope Z_scope.
Local Open Scope orbit_scope.

(** ** The abstract state and its transitions *)

(** A payload without its timestamp. *)
Definition timeless (p : Payload) : Payload :=
  match p with
  | UserCreatedPayload u _ => UserCreatedPayload u 0
  | OrgCreatedPayload o n _ => OrgCreatedPayload o n 0
  | MembershipAddedPayload o u s _ => MembershipAddedPayload o u s 0
  | MembershipRemovedPayload o u s _ => MembershipRemovedPayload o u s 0
  | MembershipSuspendedPayload o u s _ => MembershipSuspendedPayload o u s 0
  end.

Section spec.
Context `{L : UUIDLib}.

Record Orgs := mkOrgs {
  og_users : gset uuid;
  og_names : gmap uuid string;
  og_members : gmap (uuid * uuid) MembershipStatus;
  og_events : list (string * Payload);
}.

Definition active_member (org : uuid) (k : uuid * uuid) (s : MembershipStatus) : bool :=
  bool_decide (k.1 = org) && bool_decide (s = MembershipActive).

(** How many active members an organization has. *)
Definition active_count (org : uuid) (st : Orgs) : nat := length (rows_where (active_member org) (og_members st)).

Definition ids (format1 s1 format2 s2 : string) (k : uuid → uuid → error + Orgs) : error + Orgs :=
  match uuid_Parse s1 with
  | None => inl (Errorw format1 [s1] (ErrParseUUID s1))
  | Some a =>
      match uuid_Parse s2 with
      | None => inl (Errorw format2 [s2] (ErrParseUUID s2))
      | Some b => k a b
      end
  end.

Definition member_ids : string → string → (uuid → uuid → error + Orgs) → error + Orgs :=
  λ orgID userID, ids "postgres: organization id %q: %w" orgID "postgres: user id %q: %w" userID.

Definition spec_CreateOrg (orgID name creatorID : string) (st : Orgs) : error + Orgs :=
  member_ids orgID creatorID (λ org user,
    if bool_decide (is_Some (og_names st !! org))
    then inl (Errorw "postgres: create organization: %w" [] ErrUniqueViolation)
    else if bool_decide (user ∈ og_users st) then
      inr (mkOrgs (og_users st) (<[org := name]> (og_names st))
             (<[(org, user) := MembershipActive]> (og_members st))
             (og_events st ++ [(SubjectOrgCreated, OrgCreatedPayload orgID name 0);
                               (SubjectMembershipAdded, MembershipAddedPayload orgID creatorID MembershipActive 0)]))
    else inl (Errorw "postgres: add organization creator: %w" [] ErrForeignKeyViolation)).

(** A membership that exists is left as it is, without an event. *)
Definition spec_AddMember (orgID userID : string) (status : MembershipStatus) (st : Orgs) : error + Orgs :=
  member_ids orgID userID (λ org user,
    match og_names st !! org, og_members st !! (org, user) with
    | None, _ => inl ErrOrgNotFound
    | Some _, Some _ => inr st
    | Some _, None =>
        if bool_decide (user ∈ og_users st) then
          inr (mkOrgs (og_users st) (og_names st) (<[(org, user) := status]> (og_members st))
                 (og_events st ++ [(SubjectMembershipAdded, MembershipAddedPayload orgID userID status 0)]))
        else inl ErrForeignKeyViolation
    end).

Definition spec_UpdateMemberStatus (orgID userID : string) (status : MembershipStatus) (st : Orgs) : error + Orgs :=
  member_ids orgID userID (λ org user,
    match og_names st !! org, og_members st !! (org, user) with
    | None, _ => inl ErrOrgNotFound
    | Some _, None => inl ErrNotMember
    | Some _, Some current =>
        if bool_decide (status ≠ MembershipActive) && bool_decide (current = MembershipActive) &&
           bool_decide (active_count org st ≤ 1)%nat
        then inl ErrLastActiveMember
        else inr (mkOrgs (og_users st) (og_names st) (<[(org, user) := status]> (og_members st))
               (og_events st ++
                if bool_decide (status = MembershipSuspended) && bool_decide (current ≠ MembershipSuspended)
                then [(SubjectMembershipSuspended, MembershipSuspendedPayload orgID userID status 0)] else []))
    end).

Definition spec_RemoveMember (orgID userID : string) (st : Orgs) : error + Orgs :=
  member_ids orgID userID (λ org user,
    match og_names st !! org, og_members st !! (org, user) with
    | None, _ => inl ErrOrgNotFound
    | Some _, None => inl ErrNotMember
    | Some _, Some current =>
        if bool_decide (current = MembershipActive) && bool_decide (active_count org st ≤ 1)%nat
        then inl ErrLastActiveMember
        else inr (mkOrgs (og_users st) (og_names st) (delete (org, user) (og_members st))
               (og_events st ++ [(SubjectMembershipRemoved, MembershipRemovedPayload orgID userID current 0)]))
    end).

Definition spec_GetMembership (orgID userID : string) (st : Orgs) : error + MembershipStatus :=
  match uuid_Parse orgID with
  | None => inl (Errorw "postgres: organization id %q: %w" [orgID] (ErrParseUUID orgID))
  | Some org =>
      match uuid_Parse userID with
      | None => inl (Errorw "postgres: user id %q: %w" [userID] (ErrParseUUID userID))
      | Some user => match og_members st !! (org, user) with Some s => inr s | None => inl ErrNotMember end
      end
  end.

Definition spec_GetOrg (orgID : string) (st : Orgs) : error + string :=
  match uuid_Parse orgID with
  | None => inl (Errorw "postgres: organization id %q: %w" [orgID] (ErrParseUUID orgID))
  | Some org => match og_names st !! org with Some n => inr n | None => inl ErrOrgNotFound end
  end.
End spec.

(** ** Refinement *)

Section refinement.
Context `{V : Env}.

Definition view (db : DB Envelope) : Orgs :=
  mkOrgs (dom (users db)) (or_name <$> organizations db) (mr_status <$> organization_memberships db)
    (prod_map id timeless <$> events db).

(** States a call may start from. *)
Definition ready (w : World) : Prop := w_tx w = None ∧ schema db_lower (w_db w).

(** A dependency failed and the call reported an error. *)
Definition outage {A} (r : outcome A) : Prop := ¬ Fair V ∧ failed r.

(** A call implements an abstract transition: same error and nothing written, or
    success and the abstract state it describes.  When a dependency fails it may
    instead report that error, with nothing written. *)
Definition refines_to {S} (v : DB Envelope → S) (m : M unit) (spec : S → error + S) : Prop :=
  ∀ w, ready w → wp m w (λ r w',
    (outage r ∧ w_db w' = w_db w ∨
     match spec (v (w_db w)) with
     | inl e => r = Fail e ∧ w_db w' = w_db w
     | inr st => r = Ret () ∧ v (w_db w') = st
     end) ∧ ready w' ∧ w_sent w' = w_sent w).

Definition refines : M unit → (Orgs → error + Orgs) → Prop := refines_to view.

(** A read returns what the abstract state says, and writes nothing. *)
Definition observes {A B} (m : M A) (f : A → B) (spec : Orgs → error + B) : Prop :=
  ∀ w, ready w → wp m w (λ r w',
    (outage r ∨
     match spec (view (w_db w)) with
     | inl e => r = Fail e
     | inr b => ∃ a, r = Ret a ∧ f a = b
     end) ∧ w_db w' = w_db w ∧ w_tx w' = None ∧ w_sent w' = w_sent w).

(** The contract of an organization store. *)
Class OrgContract (store : OrgStore) : Prop := {
  CreateOrg_refines : ∀ org creatorID,
    o_CreatedAt org ≠ 0 → o_UpdatedAt org ≠ 0 → marshalable (o_CreatedAt org) →
    refines (os_CreateOrg store org creatorID) (spec_CreateOrg (o_ID org) (o_Name org) creatorID);
  AddMember_refines : ∀ orgID userID status,
    refines (os_AddMember store orgID userID status) (spec_AddMember orgID userID status);
  UpdateMemberStatus_refines : ∀ orgID userID status,
    refines (os_UpdateMemberStatus store orgID userID status) (spec_UpdateMemberStatus orgID userID status);
  RemoveMember_refines : ∀ orgID userID,
    refines (os_RemoveMember store orgID userID) (spec_RemoveMember orgID userID);
  GetMembership_observes : ∀ orgID userID,
    observes (os_GetMembership store orgID userID) m_Status (spec_GetMembership orgID userID);
  GetOrg_observes : ∀ orgID, observes (os_GetOrg store orgID) o_Name (spec_GetOrg orgID);
}.
End refinement.
