(* ===== verification/OrgRefinement.v ===== *)
(** The Postgres store implements the contract of [OrgSpec]. *)
From S2P Require Import Prelude GoStrings Domain Libs Tables Database DatabaseProps World Effects.
From S2P Require Import Demo Ports Postgres PostgresProps Exec OrgSpec.
Local Open Scope Z_scope.
Local Open Scope orbit_scope.

Section refinement.
Context `{V : Env} `{!EnvLaws V}.

(** ** From the store's general theorems *)

Lemma discard_world {A} (m : M A) w : (discard m w).2 = (m w).2.
Proof. unfold discard, bind. by destruct (m w) as [[] ?]. Qed.

Lemma discard_failed {A} (m : M A) w : failed (m w).1 → failed (discard m w).1.
Proof. unfold discard, bind. by destruct (m w) as [[] ?]. Qed.

Lemma call_ready {A} c (m : M A) w :
  run_call c = discard m → ready w → ready (m w).2 ∧ w_sent (m w).2 = w_sent w.
Proof.
  intros Hc [Ht Hs]. rewrite <- (discard_world m), <- Hc.
  destruct (run_call_closes c w) as [Hcl Hse]. split; [split; [auto|]|done].
  apply keeping_db; [apply run_call_schema|done..].
Qed.

Lemma refines_intro {S} (v : DB Envelope → S) c (m : M unit) spec :
  run_call c = discard m →
  (∀ db n sent, schema db_lower db → wp m (mkWorld db None n sent) (λ r w',
     outage r ∨
     match spec (v db) with inl e => r = Fail e | inr st => r = Ret () ∧ v (w_db w') = st end)) →
  refines_to v m spec.
Proof.
  intros Hc Hm w Hw. pose proof (call_ready c m w Hc Hw) as [Hr Hs].
  destruct Hw as [Ht Hsch]. destruct w as [db tx n sent]. simpl in *. subst tx.
  specialize (Hm db n sent Hsch). unfold wp in *. split; [|done].
  pose proof (run_call_atomic c (mkWorld db None n sent)) as Ha.
  rewrite Hc, discard_world in Ha.
  destruct Hm as [Ho|Hm]; [left; split; [done|]; apply Ha, discard_failed, Ho|right].
  destruct (spec (v db)) as [e|st]; [|done]. split; [done|].
  apply Ha, discard_failed. by rewrite Hm.
Qed.

(** ** The view of each table update *)

Lemma view_memberships f R db :
  mr_status <$> f (organization_memberships db) = R →
  view (set_memberships f db) =
  mkOrgs (og_users (view db)) (og_names (view db)) R (og_events (view db)).
Proof. intros <-. done. Qed.

Lemma view_appended evs rows db :
  Forall2 row_of evs rows →
  view (appended rows db) =
  mkOrgs (og_users (view db)) (og_names (view db)) (og_members (view db))
    (og_events (view db) ++ ((λ e, (e_Subject e, timeless (e_Payload e))) <$> evs)).
Proof.
  intros H. unfold view. rewrite (events_appended _ _ _ H), fmap_app, <- list_fmap_compose. done.
Qed.

Lemma active_count_view org db :
  active_count org (view db) = length (rows_where (active_in org) (organization_memberships db)).
Proof.
  unfold active_count, rows_where. simpl. rewrite map_to_list_fmap. generalize (map_to_list (organization_memberships db)).
  intros l. induction l as [|[k r] l IH]; [done|]. csimpl. rewrite !filter_cons.
  unfold active_member, active_in in *. simpl. case_decide; simpl; by rewrite IH.
Qed.

Lemma names_view org db : og_names (view db) !! org = or_name <$> organizations db !! org.
Proof. apply lookup_fmap. Qed.

Lemma members_view k db : og_members (view db) !! k = mr_status <$> organization_memberships db !! k.
Proof. apply lookup_fmap. Qed.

Lemma users_view u db : u ∈ og_users (view db) ↔ is_Some (users db !! u).
Proof. simpl. by rewrite elem_of_dom. Qed.

Lemma now_marshalable n : Fair V → marshalable (go_now n).
Proof. intros ?. apply fair_clock. Qed.

(** ** Shared steps of the transactions *)

Lemma wp_lockOrganization org db t txdb n sent (Q : outcome unit → World → Prop) :
  tolerates_db Q →
  match organizations txdb !! org with
  | Some _ => Q (Ret ()) (mkWorld db (Some (t, txdb)) (S n) sent)
  | None => Q (Fail ErrOrgNotFound) (mkWorld db (Some (t, txdb)) (S n) sent)
  end → wp (lockOrganization Tx org) (mkWorld db (Some (t, txdb)) n sent) Q.
Proof.
  intros HT H. unfold lockOrganization. apply wp_bind, wp_try, wp_Tx.
  { intros U what w. by apply HT. }
  unfold sql_LockOrganization.
  by destruct (organizations txdb !! org).
Qed.

Lemma wp_getMembership_Tx org user db t txdb n sent (Q : outcome Membership → World → Prop) :
  tolerates_db Q →
  match organization_memberships txdb !! (org, user) with
  | Some r => Q (Ret (membership_columns (org, user) r)) (mkWorld db (Some (t, txdb)) (S n) sent)
  | None => Q (Fail ErrNotMember) (mkWorld db (Some (t, txdb)) (S n) sent)
  end → wp (getMembership Tx org user) (mkWorld db (Some (t, txdb)) n sent) Q.
Proof.
  intros HT H. unfold getMembership. apply wp_bind, wp_try, wp_Tx.
  { intros U what w. by apply HT. }
  unfold sql_GetOrganizationMembership.
  by destruct (organization_memberships txdb !! (org, user)).
Qed.

Lemma wp_refuseLastActive org db t txdb n sent (Q : outcome unit → World → Prop) :
  tolerates_db Q →
  (if bool_decide (active_count org (view txdb) ≤ 1)%nat
   then Q (Fail ErrLastActiveMember) (mkWorld db (Some (t, txdb)) (S n) sent)
   else Q (Ret ()) (mkWorld db (Some (t, txdb)) (S n) sent)) →
  wp (refuseLastActive org) (mkWorld db (Some (t, txdb)) n sent) Q.
Proof.
  intros HT H. unfold refuseLastActive. apply wp_bind, wp_Tx; [done|]. unfold sql_CountActiveOrganizationMembers.
  rewrite <- active_count_view. case_bool_decide; case_match; try done; exfalso; lia.
Qed.

Lemma wp_membershipIDs (orgID userID : string) w (Q : outcome (uuid * uuid) → World → Prop) :
  match uuid_Parse orgID with
  | None => Q (Fail (Errorw "postgres: organization id %q: %w" [orgID] (ErrParseUUID orgID))) w
  | Some org =>
      match uuid_Parse userID with
      | None => Q (Fail (Errorw "postgres: user id %q: %w" [userID] (ErrParseUUID userID))) w
      | Some user => Q (Ret (org, user)) w
      end
  end → wp (membershipIDs orgID userID) w Q.
Proof.
  intros H. unfold membershipIDs. apply wp_bind, wp_parseID. destruct (uuid_Parse orgID); [|done].
  apply wp_bind, wp_parseID. by destruct (uuid_Parse userID).
Qed.

Lemma wp_guard (g : bool) org db t txdb n sent (Q : outcome unit → World → Prop) :
  tolerates_db Q →
  (∀ n', if g && bool_decide (active_count org (view txdb) ≤ 1)%nat
         then Q (Fail ErrLastActiveMember) (mkWorld db (Some (t, txdb)) n' sent)
         else Q (Ret ()) (mkWorld db (Some (t, txdb)) n' sent)) →
  wp (if g then refuseLastActive org else ret ()) (mkWorld db (Some (t, txdb)) n sent) Q.
Proof.
  intros HT HQ. destruct g; [|apply wp_ret, HQ]. apply wp_refuseLastActive; [done|].
  specialize (HQ (S n)). simpl in HQ. by case_bool_decide.
Qed.

(** An event stamped with the current time, when [b] holds. *)
Lemma wp_emit_now (b : bool) (mk : time → Event) db t txdb n sent (Q : outcome unit → World → Prop) :
  tolerates Q →
  (∀ at_, payload_time (e_Payload (mk at_)) = at_) →
  (∀ n' at_ rows, Forall2 row_of (if b then [mk at_] else []) rows →
     Q (Ret ()) (mkWorld db (Some (t, appended rows txdb)) n' sent)) →
  wp (if b then at_ <- Now ;; emitEvents Emit [mk at_] else ret ()) (mkWorld db (Some (t, txdb)) n sent) Q.
Proof.
  intros HT Hmk HQ. destruct b.
  - apply wp_bind, wp_Now, wp_emitEvents; [done| |intros rows n' Hr; by apply (HQ n' (go_now n))]. apply Forall_singleton. rewrite Hmk. apply now_marshalable.
  - apply wp_ret. rewrite <- (appended_nil txdb). apply (HQ n 0). constructor.
Qed.

(** ** The operations *)

Lemma pg_UpdateMemberStatus_refines orgID userID status :
  refines (UpdateMemberStatus orgID userID status) (spec_UpdateMemberStatus orgID userID status).
Proof.
  apply (refines_intro view (CallUpdateMemberStatus orgID userID status)); [done|]. intros db n sent Hs.
  unfold UpdateMemberStatus, spec_UpdateMemberStatus, member_ids, ids. apply wp_bind, wp_membershipIDs.
  destruct (uuid_Parse orgID) as [org|]; [|by right]. destruct (uuid_Parse userID) as [user|]; [|by right].
  apply wp_transaction; [fault|]. apply wp_bind, wp_lockOrganization; [fault|]. rewrite names_view.
  destruct (organizations db !! org); [|by right]. simpl fmap. cbv iota.
  apply wp_bind, wp_getMembership_Tx; [fault|]. rewrite members_view.
  destruct (organization_memberships db !! (org, user)) as [cur|] eqn:Ecur; [|by right]. simpl fmap. cbv iota.
  apply wp_bind, wp_guard; [fault|]. intros n1. simpl m_Status. case_match; [by right|].
  apply wp_bind, wp_Tx; [fault|]. simpl. apply wp_bind.
  apply (wp_emit_now _ (λ at_, NewMembershipSuspendedEvent orgID userID status at_)); [fault|done|].
  intros n2 at_ rows Hrows. apply wp_wrap, wp_Commit; [fault|]. right. split; [done|]. simpl w_db.
  rewrite (view_appended _ _ _ Hrows), (view_memberships _ (<[(org, user) := status]> (og_members (view db)))).
  - simpl. destruct (bool_decide (status = MembershipSuspended) && _); done.
  - apply map_eq. intros k. simpl. destruct (decide (k = (org, user))) as [->|Hk].
    + by rewrite lookup_fmap, lookup_alter_eq, lookup_insert_eq, Ecur.
    + by rewrite lookup_fmap, lookup_alter_ne, lookup_insert_ne, lookup_fmap.
Qed.

Lemma pg_RemoveMember_refines orgID userID :
  refines (RemoveMember orgID userID) (spec_RemoveMember orgID userID).
Proof.
  apply (refines_intro view (CallRemoveMember orgID userID)); [done|]. intros db n sent Hs.
  unfold RemoveMember, spec_RemoveMember, member_ids, ids. apply wp_bind, wp_membershipIDs.
  destruct (uuid_Parse orgID) as [org|]; [|by right]. destruct (uuid_Parse userID) as [user|]; [|by right].
  apply wp_transaction; [fault|]. apply wp_bind, wp_lockOrganization; [fault|]. rewrite names_view.
  destruct (organizations db !! org); [|by right]. simpl fmap. cbv iota.
  apply wp_bind, wp_getMembership_Tx; [fault|]. rewrite members_view.
  destruct (organization_memberships db !! (org, user)) as [cur|] eqn:Ecur; [|by right]. simpl fmap. cbv iota.
  apply wp_bind, wp_guard; [fault|]. intros n1. simpl m_Status. case_match; [by right|].
  apply wp_bind, wp_Tx; [fault|]. simpl. apply wp_bind, wp_Now, wp_bind, wp_emitEvents; [fault| |].
  { apply Forall_singleton, now_marshalable. }
  intros rows n2 Hrows. apply wp_wrap, wp_Commit; [fault|]. right. split; [done|]. simpl w_db.
  rewrite (view_appended _ _ _ Hrows), (view_memberships _ (delete (org, user) (og_members (view db)))); [done|].
  apply fmap_delete.
Qed.

Lemma pg_AddMember_refines orgID userID status :
  refines (AddMember orgID userID status) (spec_AddMember orgID userID status).
Proof.
  apply (refines_intro view (CallAddMember orgID userID status)); [done|]. intros db n sent Hs.
  unfold AddMember, spec_AddMember, member_ids, ids. apply wp_bind, wp_membershipIDs.
  destruct (uuid_Parse orgID) as [org|]; [|by right]. destruct (uuid_Parse userID) as [user|]; [|by right].
  apply wp_transaction; [fault|]. apply wp_bind, wp_lockOrganization; [fault|]. rewrite names_view.
  destruct (organizations db !! org) as [o|] eqn:Eorg; [|by right]. simpl fmap. cbv iota.
  apply wp_bind, wp_try, wp_getMembership_Tx.
  { intros U what w. simpl. left. by split. }
  rewrite members_view.
  destruct (organization_memberships db !! (org, user)) as [cur|] eqn:Ecur; simpl fmap; cbv iota.
  { apply wp_wrap, wp_Commit; [fault|]. by right. }
  simpl. apply wp_bind, wp_Tx; [fault|]. unfold sql_AddOrganizationMembership, insert_membership. rewrite Ecur, Eorg.
  destruct (users db !! user) eqn:Eu.
  - rewrite bool_decide_eq_true_2 by (apply users_view; eauto).
    apply wp_bind, wp_Now, wp_bind, wp_emitEvents; [fault|apply Forall_singleton, now_marshalable|].
    intros rows n2 Hrows. apply wp_wrap, wp_Commit; [fault|]. right. split; [done|]. simpl w_db.
    rewrite (view_appended _ _ _ Hrows), (view_memberships _ (<[(org, user) := status]> (og_members (view db)))); [done|].
    apply fmap_insert.
  - rewrite bool_decide_eq_false_2; [by right|]. rewrite elem_of_dom, Eu. by apply is_Some_None.
Qed.

Lemma schema_no_member (db : DB Envelope) org user :
  schema db_lower db → organizations db !! org = None → organization_memberships db !! (org, user) = None.
Proof.
  intros Hs Ho. destruct (organization_memberships db !! (org, user)) as [m|] eqn:E; [|done].
  apply (sch_members _ _ Hs) in E as [[? ?] _]. congruence.
Qed.

Lemma pg_CreateOrg_refines org creatorID :
  o_CreatedAt org ≠ 0 → o_UpdatedAt org ≠ 0 → marshalable (o_CreatedAt org) →
  refines (CreateOrg org creatorID) (spec_CreateOrg (o_ID org) (o_Name org) creatorID).
Proof.
  intros Hc Hu Hm. apply (refines_intro view (CallCreateOrg org creatorID)); [done|]. intros db n sent Hs.
  unfold CreateOrg, spec_CreateOrg, member_ids, ids. apply wp_bind, wp_parseID.
  destruct (uuid_Parse (o_ID org)) as [oid|]; [|by right]. apply wp_bind, wp_parseID.
  destruct (uuid_Parse creatorID) as [user|]; [|by right].
  unfold timestamptz, IsZero. rewrite !(proj2 (Z.eqb_neq _ _)) by done.
  apply wp_transaction; [fault|]. apply wp_bind, wp_wrap, wp_Tx; [fault|]. unfold sql_CreateOrganization. simpl not_null. rewrite names_view.
  destruct (organizations db !! oid) as [o|] eqn:Eo.
  { right. by rewrite bool_decide_eq_true_2. }
  rewrite bool_decide_eq_false_2 by (apply is_Some_None).
  apply wp_bind, wp_wrap, wp_Tx; [fault|]. unfold sql_AddOrganizationMembership, insert_membership. simpl.
  rewrite (schema_no_member _ _ _ Hs Eo), lookup_insert_eq.
  destruct (users db !! user) eqn:Eu.
  - rewrite bool_decide_eq_true_2 by (apply elem_of_dom; eauto).
    apply wp_bind, wp_ret, wp_bind, wp_emitEvents; [fault|by repeat (apply Forall_cons; split)|].
    intros rows n2 Hrows. apply wp_wrap, wp_Commit; [fault|]. right. split; [done|]. simpl w_db.
    rewrite (view_appended _ _ _ Hrows).
    unfold view, events. simpl. by rewrite !fmap_insert.
  - rewrite bool_decide_eq_false_2; [by right|]. rewrite elem_of_dom, Eu. by apply is_Some_None.
Qed.

Lemma pg_GetMembership_observes orgID userID :
  observes (GetMembership orgID userID) m_Status (spec_GetMembership orgID userID).
Proof.
  intros [db tx n sent] [Ht Hs]. simpl in *. subst tx. unfold GetMembership, spec_GetMembership.
  apply wp_bind, wp_membershipIDs. destruct (uuid_Parse orgID) as [org|]; [|by split; [right|]].
  destruct (uuid_Parse userID) as [user|]; [|by split; [right|]]. unfold getMembership. apply wp_bind, wp_try, wp_Pool; [fault|].
  unfold sql_GetOrganizationMembership. rewrite members_view.
  destruct (organization_memberships db !! (org, user)); [|by split; [right|]]. simpl. apply wp_ret. simpl. split; [right; by eexists|done].
Qed.

Lemma pg_GetOrg_observes orgID : observes (GetOrg orgID) o_Name (spec_GetOrg orgID).
Proof.
  intros [db tx n sent] [Ht Hs]. simpl in *. subst tx. unfold GetOrg, spec_GetOrg.
  apply wp_bind, wp_parseID. destruct (uuid_Parse orgID) as [org|]; [|by split; [right|]].
  apply wp_bind, wp_try, wp_Pool; [fault|]. unfold sql_GetOrganization. rewrite names_view.
  destruct (organizations db !! org); [|by split; [right|]]. simpl. apply wp_ret. simpl. split; [right; by eexists|done].
Qed.

#[export] Instance pg_orgs_contract : OrgContract pg_orgs.
Proof.
  split; simpl; auto using pg_CreateOrg_refines, pg_AddMember_refines, pg_UpdateMemberStatus_refines,
    pg_RemoveMember_refines, pg_GetMembership_observes, pg_GetOrg_observes.
Qed.
End refinement.
