(* ===== verification/Scenario.v ===== *)
(** Concrete worlds for the examples: what a sequence of store calls leaves,
    starting from empty tables, in the environment of [Demo]. *)
From S2P Require Import Prelude GoStrings Domain Libs Tables Database DatabaseProps World Effects.
From S2P Require Import Demo Ports Postgres PostgresProps Exec OrgSpec.
Local Open Scope Z_scope.

#[local] Existing Instance bits_uuid.
#[local] Instance calm_env : Env := demo_env calm.
#[local] Instance calm_laws : EnvLaws calm_env := demo_env_laws calm.
#[local] Instance calm_fair : Fair calm_env := demo_env_fair.

Definition world_after (cs : list store_call) : World := (run_calls cs (start empty_db)).2.

Lemma world_after_ready cs : ready (world_after cs).
Proof.
  unfold world_after. split.
  - by apply run_calls_closes.
  - apply keeping_db; [apply run_calls_schema|done|]. split; repeat intro; try split; repeat intro; set_solver.
Qed.

Definition demo_ID (n : nat) : string := uuid_String (demo_id n).

(** Two accounts: the first call takes identifier 1, the second 9. *)
Definition two_users : list store_call := [CallFindOrCreateByEmail "a@b.c"; CallFindOrCreateByEmail "d@e.f"].
Definition alice : string := demo_ID 1.
Definition bob : string := demo_ID 9.

Example two_users_created :
  (λ kr, (uuid_String kr.1, ur_email kr.2)) <$> map_to_list (users (w_db (world_after two_users))) =
  [(bob, Some "d@e.f"); (alice, Some "a@b.c")].
Proof. vm_compute. reflexivity. Qed.

Definition demo_time : time := 63871372800000000.
Definition orbit : Organization := mkOrganization (demo_ID 100) "Orbit" demo_time demo_time.

(** The same, with an organization both belong to. *)
Definition two_members : list store_call :=
  two_users ++ [CallCreateOrg orbit alice; CallAddMember (o_ID orbit) bob MembershipActive].
