(* ===== verification/OrgProps.v ===== *)
(** Safety of organizations: no sequence of store calls leaves an organization
    without an active member. *)
From S2P Require Import Prelude GoStrings Domain Libs Tables Database DatabaseProps World Effects.
From S2P Require Import Demo Ports Postgres PostgresProps Exec OrgSpec OrgRefinement Scenario.
Local Open Scope Z_scope.
Local Open Scope orbit_scope.

Section abstract.
Context `{L : UUIDLib}.

(** Every organization has an active member. *)
Definition manned (st : Orgs) : Prop :=
  ∀ org, is_Some (og_names st !! org) → (1 ≤ active_count org st)%nat.

(** An organization has an active member. *)
Definition staffed (org : uuid) (st : Orgs) : Prop := (1 ≤ active_count org st)%nat.

Definition with_members (st : Orgs) R : Orgs := mkOrgs (og_users st) (og_names st) R (og_events st).

Lemma active_count_insert_new org k s st :
  og_members st !! k = None → ∀ U N Ev,
  active_count org (mkOrgs U N (<[k:=s]> (og_members st)) Ev) =
  ((if active_member org k s then 1 else 0) + active_count org st)%nat.
Proof. intros Hk U N Ev. unfold active_count. simpl. by apply length_rows_where_insert. Qed.

Lemma active_count_update org k s cur st :
  og_members st !! k = Some cur → ∀ U N Ev,
  (active_count org (mkOrgs U N (<[k:=s]> (og_members st)) Ev) + (if active_member org k cur then 1 else 0) =
   active_count org st + (if active_member org k s then 1 else 0))%nat.
Proof. intros Hk U N Ev. unfold active_count. simpl. by apply length_rows_where_update. Qed.

Lemma active_count_delete org k cur st :
  og_members st !! k = Some cur → ∀ U N Ev,
  active_count org st =
  ((if active_member org k cur then 1 else 0) + active_count org (mkOrgs U N (delete k (og_members st)) Ev))%nat.
Proof. intros Hk U N Ev. unfold active_count. simpl. by apply length_rows_where_delete. Qed.

Lemma active_member_true org o u s : active_member org (o, u) s = true ↔ o = org ∧ s = MembershipActive.
Proof. unfold active_member. simpl. rewrite andb_true_iff, !bool_decide_eq_true. done. Qed.

Ltac ids_inv H := unfold member_ids, ids in H; repeat case_match; simplify_eq.

(** A call that keeps every organization with an active member so keeps all of them so. *)
Lemma staffed_manned st st' :
  og_names st' = og_names st → (∀ org, staffed org st → staffed org st') → manned st → manned st'.
Proof. intros Hn Hs Hm org Ho. apply Hs, Hm. by rewrite <- Hn. Qed.

Lemma spec_AddMember_staffed o u s st st' : spec_AddMember o u s st = inr st' → ∀ org, staffed org st → staffed org st'.
Proof.
  unfold spec_AddMember, staffed. intros H org' Hm. ids_inv H; [done|]. rewrite active_count_insert_new by done. lia.
Qed.

Lemma spec_AddMember_manned o u s st st' : spec_AddMember o u s st = inr st' → manned st → manned st'.
Proof.
  intros H. apply staffed_manned; [|by eapply spec_AddMember_staffed].
  unfold spec_AddMember in H. by ids_inv H.
Qed.

Lemma spec_UpdateMemberStatus_staffed o u s st st' :
  spec_UpdateMemberStatus o u s st = inr st' → ∀ org, staffed org st → staffed org st'.
Proof.
  unfold spec_UpdateMemberStatus, member_ids, ids, staffed. intros H org' Hm.
  destruct (uuid_Parse o) as [org|]; [|done]. destruct (uuid_Parse u) as [user|]; [|done].
  destruct (og_names st !! org); [|done]. destruct (og_members st !! (org, user)) as [cur|] eqn:Ecur; [|done].
  destruct (_ && _ && _) eqn:Eg; [done|]. injection H as <-.
  match goal with |- context [mkOrgs ?U ?N _ ?Ev] =>
    pose proof (active_count_update org' (org, user) s cur st Ecur U N Ev) as Hc end.
  destruct (active_member org' (org, user) cur) eqn:Ec; [|destruct (active_member org' _ s); lia].
  destruct (active_member org' (org, user) s) eqn:Es; [lia|].
  apply active_member_true in Ec as [-> ->].
  assert (s ≠ MembershipActive) by (intros ->; by rewrite (proj2 (active_member_true _ _ _ _) (conj eq_refl eq_refl)) in Es).
  rewrite !andb_false_iff, !bool_decide_eq_false in Eg. destruct Eg as [[Eg|Eg]|Eg]; [tauto|done|lia].
Qed.

Lemma spec_UpdateMemberStatus_manned o u s st st' :
  spec_UpdateMemberStatus o u s st = inr st' → manned st → manned st'.
Proof.
  intros H. apply staffed_manned; [|by eapply spec_UpdateMemberStatus_staffed].
  unfold spec_UpdateMemberStatus in H. by ids_inv H.
Qed.

Lemma spec_RemoveMember_staffed o u st st' :
  spec_RemoveMember o u st = inr st' → ∀ org, staffed org st → staffed org st'.
Proof.
  unfold spec_RemoveMember, member_ids, ids, staffed. intros H org' Hm.
  destruct (uuid_Parse o) as [org|]; [|done]. destruct (uuid_Parse u) as [user|]; [|done].
  destruct (og_names st !! org); [|done]. destruct (og_members st !! (org, user)) as [cur|] eqn:Ecur; [|done].
  destruct (_ && _) eqn:Eg; [done|]. injection H as <-.
  match goal with |- context [mkOrgs ?U ?N _ ?Ev] =>
    pose proof (active_count_delete org' (org, user) cur st Ecur U N Ev) as Hc end.
  destruct (active_member org' (org, user) cur) eqn:Ec; [|lia].
  apply active_member_true in Ec as [-> ->].
  rewrite andb_false_iff, !bool_decide_eq_false in Eg. destruct Eg as [Eg|Eg]; [done|lia].
Qed.

Lemma spec_RemoveMember_manned o u st st' : spec_RemoveMember o u st = inr st' → manned st → manned st'.
Proof.
  intros H. apply staffed_manned; [|by eapply spec_RemoveMember_staffed].
  unfold spec_RemoveMember in H. by ids_inv H.
Qed.

Lemma spec_CreateOrg_manned o n u st st' :
  (∀ org user, og_names st !! org = None → og_members st !! (org, user) = None) →
  spec_CreateOrg o n u st = inr st' → manned st → manned st'.
Proof.
  unfold spec_CreateOrg, member_ids, ids. intros Hno H Hm.
  destruct (uuid_Parse o) as [org|]; [|done]. destruct (uuid_Parse u) as [user|]; [|done].
  case_bool_decide as Hn; [done|]. case_bool_decide; [|done]. injection H as <-. intros org' Ho.
  apply eq_None_not_Some in Hn. rewrite active_count_insert_new by auto.
  destruct (decide (org = org')) as [<-|Hne].
  - rewrite (proj2 (active_member_true _ _ _ _) (conj eq_refl eq_refl)). lia.
  - simpl in Ho. rewrite lookup_insert_ne in Ho by done. specialize (Hm org' Ho). lia.
Qed.
End abstract.

(** ** Against the contract *)

(** A call that changes organizations or memberships. *)
Inductive org_op :=
  | OpCreateOrg (org : Organization) (creatorID : string)
  | OpAddMember (orgID userID : string) (status : MembershipStatus)
  | OpUpdateMemberStatus (orgID userID : string) (status : MembershipStatus)
  | OpRemoveMember (orgID userID : string).

(** The timestamps of a new organization are set. *)
Definition stamped (op : org_op) : Prop :=
  match op with
  | OpCreateOrg org _ => o_CreatedAt org ≠ 0 ∧ o_UpdatedAt org ≠ 0 ∧ marshalable (o_CreatedAt org)
  | _ => True
  end.

Section contract.
Context `{V : Env} (store : OrgStore) `{!OrgContract store}.

Definition run_op (op : org_op) : M unit :=
  match op with
  | OpCreateOrg org creatorID => os_CreateOrg store org creatorID
  | OpAddMember orgID userID status => os_AddMember store orgID userID status
  | OpUpdateMemberStatus orgID userID status => os_UpdateMemberStatus store orgID userID status
  | OpRemoveMember orgID userID => os_RemoveMember store orgID userID
  end.

(** The calls in order; one that fails does not stop the next. *)
Fixpoint run_ops (ops : list org_op) : M unit :=
  match ops with
  | [] => ret ()
  | op :: ops => try (run_op op) ;; run_ops ops
  end.

Definition spec_op (op : org_op) : Orgs → error + Orgs :=
  match op with
  | OpCreateOrg org creatorID => spec_CreateOrg (o_ID org) (o_Name org) creatorID
  | OpAddMember orgID userID status => spec_AddMember orgID userID status
  | OpUpdateMemberStatus orgID userID status => spec_UpdateMemberStatus orgID userID status
  | OpRemoveMember orgID userID => spec_RemoveMember orgID userID
  end.

Lemma run_op_refines op : stamped op → refines (run_op op) (spec_op op).
Proof.
  destruct op; simpl; [intros (?&?&?); by apply CreateOrg_refines|..]; intros _;
    auto using AddMember_refines, UpdateMemberStatus_refines, RemoveMember_refines.
Qed.

Lemma view_members_exist db org user :
  schema db_lower db → og_names (view db) !! org = None → og_members (view db) !! (org, user) = None.
Proof.
  intros Hs. rewrite names_view, members_view, !fmap_None. apply schema_no_member, Hs.
Qed.

Lemma spec_op_manned op db st' :
  schema db_lower db → spec_op op (view db) = inr st' → manned (view db) → manned st'.
Proof.
  intros Hs. destruct op; simpl; eauto using spec_AddMember_manned, spec_UpdateMemberStatus_manned, spec_RemoveMember_manned.
  apply spec_CreateOrg_manned. intros org' user. by apply view_members_exist.
Qed.

Lemma run_op_manned op w :
  stamped op → ready w → manned (view (w_db w)) →
  ready (run_op op w).2 ∧ manned (view (w_db (run_op op w).2)).
Proof.
  intros Hst Hw Hm. destruct (run_op_refines op Hst w Hw) as [H [Hr _]]. split; [done|].
  destruct H as [[_ ->]|H]; [done|]. destruct (spec_op op (view (w_db w))) as [e|st] eqn:E.
  - by destruct H as [_ ->].
  - destruct H as [_ ->]. eapply spec_op_manned; [apply Hw|done..].
Qed.

(** No sequence of calls to create organizations and to add, suspend,
    reactivate or remove members, on any store that implements the contract and
    whichever calls fail, leaves an organization without an active member. *)
Theorem org_ops_keep_active_member (ops : list org_op) (w : World) :
  Forall stamped ops → ready w → manned (view (w_db w)) →
  ready (run_ops ops w).2 ∧ manned (view (w_db (run_ops ops w).2)).
Proof.
  intros Hst. revert w. induction Hst as [|op ops Hop Hst IH]; intros w Hw Hm; simpl; [done|].
  destruct (run_op_manned op w Hop Hw Hm) as [Hw' Hm']. unfold bind, try.
  destruct (run_op op w) as [[a|e|p] w']; simpl in *; [by apply IH..|done].
Qed.
End contract.

(** C2: the Postgres store implements the contract of an organization store:
    every method returns the error or reaches the state the abstract transition
    describes, with the lifecycle events it names, or, when a dependency fails,
    reports an error and writes nothing. *)
Theorem postgres_implements_OrgContract `{V : Env} `{!EnvLaws V} : OrgContract pg_orgs.
Proof. apply _. Qed.

#[local] Existing Instance bits_uuid.
#[local] Existing Instance calm_env.
#[local] Existing Instance calm_laws.

Lemma postgres_implements_OrgContract_witness : OrgContract (V:=calm_env) pg_orgs.
Proof. exact (@postgres_implements_OrgContract bits_uuid calm_env calm_laws). Defined.

(** Both members cannot be suspended: the second attempt is refused. *)
Definition demo_ops : list org_op :=
  [OpCreateOrg orbit alice; OpAddMember (o_ID orbit) bob MembershipActive;
   OpUpdateMemberStatus (o_ID orbit) alice MembershipSuspended;
   OpUpdateMemberStatus (o_ID orbit) bob MembershipSuspended].

Lemma org_ops_keep_active_member_witness :
  manned (view (w_db (run_ops pg_orgs demo_ops (world_after two_users)).2)).
Proof.
  apply (org_ops_keep_active_member pg_orgs).
  - repeat (apply Forall_cons; split; [by vm_compute|]). apply Forall_nil_2.
  - apply world_after_ready.
  - intros org [n Hn]. exfalso. revert Hn.
    assert (og_names (view (w_db (world_after two_users))) = ∅) as -> by (vm_compute; reflexivity).
    by rewrite lookup_empty.
Defined.

Example demo_ops_result :
  (λ kr, (uuid_String kr.1.2, mr_status kr.2)) <$>
    map_to_list (organization_memberships (w_db (run_ops pg_orgs demo_ops (world_after two_users)).2)) =
  [(alice, MembershipSuspended); (bob, MembershipActive)].
Proof. vm_compute. reflexivity. Qed.
