(* ===== verification/InviteSpec.v ===== *)
(** What [AcceptInvite] and [RevokeInvite] of invites.go do to organizations, members and
    invitations, as atomic transitions; the Postgres store implements them. *)
From S2P Require Import Prelude GoStrings Domain Libs Tables Database DatabaseProps World Effects Demo Ports.
From S2P Require Import Postgres PostgresProps Exec OrgSpec OrgRefinement Scenario OrgProps.
Local Open Scope Z_scope.
Local Open Scope orbit_scope.

Section spec.
Context `{L : UUIDLib}.

(** The invitations by id: the organization and the status. *)
Abbreviation Invites := (gmap uuid (uuid * InviteStatus)).

Record Book := mkBook { bk_orgs : Orgs; bk_invites : Invites }.

(** The statuses the upsert of the membership turns into active; an active member is
    left alone, and a suspended one never gets there. *)
Definition joins (current : option MembershipStatus) : bool :=
  match current with None | Some MembershipInvited => true | _ => false end.

(** The writes, once the organization is locked and the membership read. *)
Definition spec_writes (org id user : uuid) (orgID userID : string) (b : Book) : error + Book :=
  let st := bk_orgs b in
  let current := og_members st !! (org, user) in
  if bool_decide (bk_invites b !! id ≠ Some (org, InvitePending)) then inl ErrInviteNotFound else
  if bool_decide (current = None) && bool_decide (user ∉ og_users st)
  then inl (Errorw "postgres: add invited member: %w" [] ErrForeignKeyViolation) else
  inr (mkBook
    (mkOrgs (og_users st) (og_names st)
       (if joins current then <[(org, user) := MembershipActive]> (og_members st) else og_members st)
       (og_events st ++ [(SubjectMembershipAdded, MembershipAddedPayload orgID userID MembershipActive 0)]))
    (<[id := (org, InviteAccepted)]> (bk_invites b))).

Definition spec_accept (org id user : uuid) (orgID userID : string) (b : Book) : error + Book :=
  match og_names (bk_orgs b) !! org with
  | None => inl ErrOrgNotFound
  | Some _ =>
      if bool_decide (og_members (bk_orgs b) !! (org, user) = Some MembershipSuspended) then inl ErrInvalidInvite
      else spec_writes org id user orgID userID b
  end.

Definition spec_AcceptInvite (inviteID orgID userID : string) (b : Book) : error + Book :=
  match uuid_Parse orgID, uuid_Parse inviteID, uuid_Parse userID with
  | None, _, _ => inl (Errorw "postgres: organization id %q: %w" [orgID] (ErrParseUUID orgID))
  | _, None, _ => inl (Errorw "postgres: invite id %q: %w" [inviteID] (ErrParseUUID inviteID))
  | _, _, None => inl (Errorw "postgres: user id %q: %w" [userID] (ErrParseUUID userID))
  | Some org, Some id, Some user => spec_accept org id user orgID userID b
  end.

Definition spec_RevokeInvite (orgID inviteID : string) (b : Book) : error + Book :=
  match uuid_Parse orgID, uuid_Parse inviteID with
  | None, _ => inl (Errorw "postgres: organization id %q: %w" [orgID] (ErrParseUUID orgID))
  | _, None => inl (Errorw "postgres: invite id %q: %w" [inviteID] (ErrParseUUID inviteID))
  | Some org, Some id =>
      if bool_decide (bk_invites b !! id = Some (org, InvitePending))
      then inr (mkBook (bk_orgs b) (<[id := (org, InviteRevoked)]> (bk_invites b))) else inl ErrInviteNotFound
  end.

Lemma spec_accept_staffed org id user orgID userID b b' :
  spec_accept org id user orgID userID b = inr b' → ∀ o, staffed o (bk_orgs b) → staffed o (bk_orgs b').
Proof.
  unfold spec_accept, spec_writes. destruct (og_names _ !! org); [|done]. case_bool_decide as Hs; [done|]. cbv zeta. case_bool_decide; [done|].
  destruct (_ && _); [done|]. intros [= <-] o Hm. unfold staffed in *. simpl in *.
  destruct b as [st inv]. simpl in *. destruct (joins _) eqn:Ej; [|exact Hm].
  destruct (og_members st !! (org, user)) as [cur|] eqn:Ec.
  - destruct cur; [done| |done].
    match goal with |- context [mkOrgs ?U ?N _ ?Ev] => pose proof (active_count_update o (org, user) MembershipActive _ st Ec U N Ev) as Hcount end.
    assert (active_member o (org, user) MembershipInvited = false) as Hf by (unfold active_member; by rewrite andb_false_r).
    rewrite Hf in Hcount. lia.
  - rewrite active_count_insert_new by done. lia.
Qed.
End spec.

(** ** The Postgres store implements them *)

Section refinement.
Context `{V : Env} `{!EnvLaws V}.

Lemma pending_invite_iff id org k r :
  pending_invite id org k r = true ↔ k = id ∧ ir_org_id r = org ∧ ir_status r = InvitePending.
Proof. unfold pending_invite. rewrite !andb_true_iff, !bool_decide_eq_true. tauto. Qed.

(** The conditional update touches the named pending invitation and no other row. *)
Lemma pending_rows id org f (I : gmap uuid InviteRow) :
  (Z.of_nat (length (rows_where (pending_invite id org) I)) =? 0) = false →
  ∃ r, I !! id = Some r ∧ ir_org_id r = org ∧ ir_status r = InvitePending ∧
    update_where (pending_invite id org) f I = <[id := f r]> I.
Proof.
  intros Hn. destruct (rows_where _ I) as [|[k r] l] eqn:E; [done|].
  assert ((k, r) ∈ rows_where (pending_invite id org) I) as Hin by (rewrite E; left).
  apply elem_of_rows_where in Hin as [Hl Hp]. pose proof Hp as (-> & Ho & Hs)%pending_invite_iff.
  exists r. split_and!; [done..|]. apply map_eq. intros k. rewrite lookup_update_where.
  destruct (decide (k = id)) as [->|Hne].
  - rewrite Hl, lookup_insert_eq. simpl. by rewrite Hp.
  - rewrite lookup_insert_ne by done. destruct (I !! k) as [r'|]; [|done]. simpl.
    destruct (pending_invite id org k r') eqn:Ep; [|done]. apply pending_invite_iff in Ep as [-> _]. done.
Qed.

Definition invite_view (r : InviteRow) : uuid * InviteStatus := (ir_org_id r, ir_status r).

Definition book (db : DB Envelope) : Book := mkBook (view db) (invite_view <$> organization_invites db).

(** No row is touched exactly when the invitation is not a pending one of the
    organization. *)
Lemma pending_none id org (db : DB Envelope) :
  (Z.of_nat (length (rows_where (pending_invite id org) (organization_invites db))) =? 0) = true →
  bk_invites (book db) !! id ≠ Some (org, InvitePending).
Proof.
  intros H%Z.eqb_eq. simpl. rewrite lookup_fmap, fmap_Some. intros (r & Hr & Heq). injection Heq as Ho Hs.
  assert (length (rows_where (pending_invite id org) (organization_invites db)) = 0%nat) as H0 by lia.
  pose proof (pending_invite_none _ _ _ H0 id r Hr) as Hp. rewrite (proj2 (pending_invite_iff _ _ _ _)) in Hp; done.
Qed.

Lemma book_invites f I db :
  invite_view <$> f (organization_invites db) = I → book (set_invites f db) = mkBook (view db) I.
Proof. intros <-. done. Qed.

Lemma invite_view_insert id org s r f (db : DB Envelope) :
  ir_org_id r = org → invite_view (f r) = (org, s) →
  invite_view <$> <[id := f r]> (organization_invites db) = <[id := (org, s)]> (bk_invites (book db)).
Proof. intros _ <-. simpl. apply fmap_insert. Qed.

Lemma pg_RevokeInvite_refines orgID inviteID : refines_to book (RevokeInvite orgID inviteID) (spec_RevokeInvite orgID inviteID).
Proof.
  apply (refines_intro book (CallRevokeInvite orgID inviteID)); [done|]. intros db n sent Hs.
  unfold RevokeInvite, inviteIDs, spec_RevokeInvite. apply wp_bind, wp_bind, wp_parseID.
  destruct (uuid_Parse orgID) as [org|]; [|by right]. apply wp_bind, wp_parseID.
  destruct (uuid_Parse inviteID) as [id|]; [|by right]. apply wp_ret, wp_bind, wp_Pool; [fault|].
  unfold sql_RevokeOrganizationInvite. destruct (_ =? 0) eqn:E.
  - apply wp_fail. right. by rewrite bool_decide_eq_false_2 by by apply pending_none.
  - apply wp_ret. right. destruct (pending_rows id org (λ r, with_status InviteRevoked (ir_accepted_at r) r) _ E) as (r & Hr & Ho & Hst & Hup).
    rewrite bool_decide_eq_true_2 by (simpl; rewrite lookup_fmap, Hr; simpl; unfold invite_view; by rewrite Ho, Hst).
    split; [done|]. simpl w_db. apply book_invites. rewrite Hup. apply invite_view_insert; [done|]. unfold invite_view. simpl. by rewrite Ho.
Qed.

(** The upsert of the membership on the view. *)
Lemma view_AddActive s org user (db : DB Envelope) :
  is_Some (organizations db !! org) →
  let st := view db in let current := og_members st !! (org, user) in
  current ≠ Some MembershipSuspended →
  match sql_AddActiveOrganizationMembership org user s db with
  | inl e => e = ErrForeignKeyViolation ∧ current = None ∧ user ∉ og_users st
  | inr (_, db') => (current = None → user ∈ og_users st) ∧ organization_invites db' = organization_invites db ∧ outbox_events db' = outbox_events db ∧
      view db' = mkOrgs (og_users st) (og_names st)
        (if joins current then <[(org, user) := MembershipActive]> (og_members st) else og_members st) (og_events st)
  end.
Proof.
  intros [o Ho] st current Hcur. unfold current, st in *. clear st current. rewrite members_view in *.
  unfold sql_AddActiveOrganizationMembership, insert_membership. rewrite Ho.
  destruct (organization_memberships db !! (org, user)) as [m|]; simpl in *.
  - destruct (decide (mr_status m = MembershipInvited)) as [Hi|Hi].
    + rewrite Hi. split_and!; [done..|]. unfold view. simpl. by rewrite fmap_insert.
    + split_and!; [done..|]. destruct (mr_status m); done.
  - destruct (users db !! user) as [u|] eqn:Eu.
    + split_and!; [intros _; apply elem_of_dom; by rewrite Eu|done..|]. unfold view. simpl. by rewrite fmap_insert.
    + split_and!; [done..|]. rewrite elem_of_dom, Eu. by intros [].
Qed.

(** The statements after the membership is read. *)
Lemma wp_accept_writes org id user orgID userID at_ db t n sent :
  marshalable at_ → is_Some (organizations db !! org) → og_members (view db) !! (org, user) ≠ Some MembershipSuspended →
  wp (affected <- wrap (Errorw "postgres: accept invite: %w" [])
        (run_query Tx (sql_AcceptOrganizationInvite (timestamptz at_) id org)) ;;
      if affected =? 0 then fail ErrInviteNotFound else
      wrap (Errorw "postgres: add invited member: %w" []) (run_query Tx (sql_AddActiveOrganizationMembership org user)) ;;
      emitEvents Emit [NewMembershipAddedEvent orgID userID MembershipActive at_] ;;
      wrap (Errorw "postgres: commit accept invite: %w" []) Commit)
    (mkWorld db (Some (t, db)) n sent)
    (λ r w', outage r ∨ match spec_writes org id user orgID userID (book db) with
                        | inl e => r = Fail e
                        | inr st => r = Ret () ∧ book (w_db w') = st
                        end).
Proof.
  intros Hat Horg Hcur. unfold spec_writes. cbv zeta. cbn [bk_orgs book].
  apply wp_bind, wp_wrap, wp_Tx; [fault|]. unfold sql_AcceptOrganizationInvite. destruct (_ =? 0) eqn:E.
  { apply wp_fail. right. rewrite bool_decide_eq_true_2; [done|]. by apply pending_none. }
  apply (pending_rows id org (with_status InviteAccepted (timestamptz at_))) in E as (r & Hr & Ho & Hst & Hup).
  rewrite (bool_decide_eq_false_2 (bk_invites (book db) !! id ≠ _))
    by (simpl; rewrite lookup_fmap, Hr; simpl; unfold invite_view; rewrite Ho, Hst; auto).
  set (db1 := set_invites _ db). apply wp_bind, wp_wrap, wp_Tx; [fault|].
  match goal with |- context [sql_AddActiveOrganizationMembership org user ?s db1] => pose proof (view_AddActive s org user db1 Horg Hcur) as Hadd end.
  destruct (sql_AddActiveOrganizationMembership _ _ _ _) as [e|[[] db2]].
  { right. destruct Hadd as (-> & Hn & Hu). change (view db1) with (view db) in *. by rewrite !bool_decide_eq_true_2 by done. }
  destruct Hadd as (Hu & Hinv & _ & Hview). change (view db1) with (view db) in *.
  assert (bool_decide (og_members (view db) !! (org, user) = None) && bool_decide (user ∉ og_users (view db)) = false) as ->.
  { destruct (bool_decide_reflect (og_members (view db) !! (org, user) = None)); [|done]. simpl. apply bool_decide_eq_false_2. auto. }
  apply wp_bind, wp_emitEvents; [fault|by repeat (apply Forall_cons; split)|]. intros rows n2 Hrows.
  apply wp_wrap, wp_Commit; [fault|]. right. split; [done|]. simpl w_db. unfold book.
  rewrite (view_appended _ _ _ Hrows), Hview. f_equal. change (organization_invites (appended rows db2)) with (organization_invites db2).
  rewrite Hinv. subst db1. cbn [set_invites organization_invites]. rewrite Hup. apply invite_view_insert; [done|].
  unfold invite_view. simpl. by rewrite Ho.
Qed.

(** [AcceptInvite] is one atomic transition of organizations and invitations: it joins
    the user to the organization and uses the invitation up, or reports why not and
    leaves everything as it was. *)
Lemma pg_AcceptInvite_refines inviteID orgID userID at_ :
  marshalable at_ → refines_to book (Postgres.AcceptInvite inviteID orgID userID at_) (spec_AcceptInvite inviteID orgID userID).
Proof.
  intros Hat. apply (refines_intro book (CallAcceptInvite inviteID orgID userID at_)); [done|]. intros db n sent Hs.
  unfold Postgres.AcceptInvite, inviteIDs, spec_AcceptInvite. apply wp_bind, wp_bind, wp_parseID.
  destruct (uuid_Parse orgID) as [org|]; [|by right]. apply wp_bind, wp_parseID.
  destruct (uuid_Parse inviteID) as [id|]; [|by right]. apply wp_ret, wp_bind, wp_parseID.
  destruct (uuid_Parse userID) as [user|]; [|by right]. unfold spec_accept.
  apply wp_transaction; [fault|]. apply wp_bind, wp_lockOrganization; [fault|]. cbn [bk_orgs book]. rewrite names_view.
  destruct (organizations db !! org) as [o|] eqn:Eorg; [|by right]. simpl fmap. cbv iota.
  apply wp_bind, wp_try, wp_getMembership_Tx; [intros U what w; left; by split|].
  assert (is_Some (organizations db !! org)) as Horg by by rewrite Eorg.
  rewrite members_view. destruct (organization_memberships db !! (org, user)) as [m|] eqn:Em.
  - cbn [fmap option_fmap option_map membership_columns m_Status].
    rewrite (bool_decide_ext (Some (mr_status m) = Some MembershipSuspended) (mr_status m = MembershipSuspended)) by (split; congruence).
    destruct (bool_decide_reflect (mr_status m = MembershipSuspended)) as [Hm|Hm]; apply wp_bind; [by right|].
    apply wp_ret, wp_accept_writes; [done..|]. rewrite members_view, Em. simpl. congruence.
  - apply wp_bind, wp_ret, wp_accept_writes; [done..|]. by rewrite members_view, Em.
Qed.
End refinement.

(** ** The contract *)

(** What [domain.InviteStore] promises of the two calls that use an invitation up. *)
Class InviteContract `{V : Env} (store : InviteStore) : Prop := {
  AcceptInvite_refines : ∀ inviteID orgID userID at_, marshalable at_ →
    refines_to book (is_AcceptInvite store inviteID orgID userID at_) (spec_AcceptInvite inviteID orgID userID);
  RevokeInvite_refines : ∀ orgID inviteID,
    refines_to book (is_RevokeInvite store orgID inviteID) (spec_RevokeInvite orgID inviteID);
}.

(** C19: the Postgres store implements the contract of an invitation store.  Accepting is
    one atomic transition of organizations and invitations: the invitation must be a
    pending one of the organization and the user not a suspended member, the user ends up
    an active member, the invitation is used up and one event announces it; anything
    else is the error the abstract transition names, with nothing written, as it is when
    a dependency fails.  Revoking takes exactly a pending invitation of the
    organization. *)
Theorem postgres_implements_InviteContract `{V : Env} `{!EnvLaws V} : InviteContract pg_invites.
Proof. split; simpl; auto using pg_AcceptInvite_refines, pg_RevokeInvite_refines. Qed.

#[local] Existing Instance bits_uuid.
#[local] Existing Instance calm_env.
#[local] Existing Instance calm_laws.

Lemma postgres_implements_InviteContract_witness : InviteContract (V:=calm_env) pg_invites.
Proof. exact (@postgres_implements_InviteContract bits_uuid calm_env calm_laws). Defined.
