(* ===== verification/Interleaving.v ===== *)
(** Concurrent transactions of organizations.go and invites.go: [AddMember],
    [UpdateMemberStatus], [RemoveMember] and [AcceptInvite] statement by statement and
    [RevokeInvite] as the one statement it is, interleaved in any order, with the lock
    [SELECT ... FOR UPDATE] takes on the row of the organization and the one an [UPDATE]
    takes on the row of an invitation.

    A transaction reads what is committed (Postgres READ COMMITTED), keeps its writes to
    itself until it commits, and holds its locks until it ends.  It may be aborted at
    any point.  Everything else that writes (creating organizations and invitations,
    signing up) is an arbitrary step that respects the locks, deletes no organization and
    leaves accepted and revoked invitations alone ([outside]).  The state is the abstract
    one of [OrgSpec] and [InviteSpec], and [sys_log] records what is committed in the order
    of the commits. *)
From S2P Require Import Prelude GoStrings Domain Libs Tables Database OrgSpec OrgProps InviteSpec.
Local Open Scope Z_scope.

Inductive member_op :=
  | OpAdd (orgID userID : string) (status : MembershipStatus)
  | OpUpdate (orgID userID : string) (status : MembershipStatus)
  | OpRemove (orgID userID : string)
  | OpAccept (inviteID orgID userID : string).

(** The next statement of a transaction.  After the read, [current] is the status found. *)
Inductive pc :=
  | Locking
  | Reading
  | Counting (current : option MembershipStatus)
  | Accepting (current : option MembershipStatus)
  | Writing (current : option MembershipStatus)
  | Emitting (current : option MembershipStatus)
  | Committing
  | Finished (result : option error).

Section interleaving.
Context `{L : UUIDLib}.

(** A transaction: its operation with the parsed identifiers (the invitation only when
    it accepts one), its next statement, and its uncommitted writes: the membership
    ([Some None] deletes the row), the invitation it has marked accepted, the events. *)
Record txn := mkTxn {
  tx_op : member_op;
  tx_org : uuid;
  tx_user : uuid;
  tx_invite : option uuid;
  tx_pc : pc;
  tx_write : option (option MembershipStatus);
  tx_mark : option uuid;
  tx_events : list (string * Payload);
}.

(** What was committed: a call, a revocation, or the state somebody else left. *)
Inductive entry :=
  | Call (op : member_op)
  | Revoked (orgID inviteID : string)
  | Outside (b : Book).

Record Sys := mkSys {
  sys_book : Book;
  sys_locks : gmap uuid nat;
  sys_txs : gmap nat txn;
  sys_log : list entry;
}.

Abbreviation sys_db s := (bk_orgs (sys_book s)).
Abbreviation sys_invites s := (bk_invites (sys_book s)).

Definition op_orgID (op : member_op) : string := match op with OpAdd o _ _ | OpUpdate o _ _ | OpRemove o _ | OpAccept _ o _ => o end.
Definition op_userID (op : member_op) : string := match op with OpAdd _ u _ | OpUpdate _ u _ | OpRemove _ u | OpAccept _ _ u => u end.
Definition op_inviteID (op : member_op) : option string := match op with OpAccept i _ _ => Some i | _ => None end.

(** The identifier of the invitation parses, if there is one. *)
Definition parse_invite (op : member_op) : option (option uuid) :=
  match op_inviteID op with None => Some None | Some i => Some <$> uuid_Parse i end.

Definition with_orgs (b : Book) (r : error + Orgs) : error + Book :=
  match r with inl err => inl err | inr st => inr (mkBook st (bk_invites b)) end.

(** The operation as one atomic step. *)
Definition op_spec (op : member_op) (b : Book) : error + Book :=
  match op with
  | OpAdd o u s => with_orgs b (spec_AddMember o u s (bk_orgs b))
  | OpUpdate o u s => with_orgs b (spec_UpdateMemberStatus o u s (bk_orgs b))
  | OpRemove o u => with_orgs b (spec_RemoveMember o u (bk_orgs b))
  | OpAccept i o u => spec_AcceptInvite i o u b
  end.

(** The events the statement after the write inserts. *)
Definition op_events (op : member_op) (current : option MembershipStatus) : list (string * Payload) :=
  match op with
  | OpAdd o u s => [(SubjectMembershipAdded, MembershipAddedPayload o u s 0)]
  | OpUpdate o u s =>
      if bool_decide (s = MembershipSuspended) && bool_decide (current ≠ Some MembershipSuspended)
      then [(SubjectMembershipSuspended, MembershipSuspendedPayload o u s 0)] else []
  | OpRemove o u =>
      match current with
      | Some c => [(SubjectMembershipRemoved, MembershipRemovedPayload o u c 0)]
      | None => []
      end
  | OpAccept _ o u => [(SubjectMembershipAdded, MembershipAddedPayload o u MembershipActive 0)]
  end.

(** Whether the operation must leave another active member. *)
Definition demotes (op : member_op) (current : option MembershipStatus) : bool :=
  bool_decide (current = Some MembershipActive) &&
  match op with
  | OpAdd _ _ _ | OpAccept _ _ _ => false
  | OpUpdate _ _ s => bool_decide (s ≠ MembershipActive)
  | OpRemove _ _ => true
  end.

(** What the write does to the row of the membership. *)
Definition op_write (op : member_op) (current : option MembershipStatus) : option (option MembershipStatus) :=
  match op with
  | OpAdd _ _ s | OpUpdate _ _ s => Some (Some s)
  | OpRemove _ _ => Some None
  | OpAccept _ _ _ => if joins current then Some (Some MembershipActive) else None
  end.

(** The error of a write that violates the foreign key of the user. *)
Definition fk_error (op : member_op) : error :=
  match op with
  | OpAccept _ _ _ => Errorw "postgres: add invited member: %w" [] ErrForeignKeyViolation
  | _ => ErrForeignKeyViolation
  end.

(** What follows the read: the call is refused, or the next statement. *)
Definition after_read (op : member_op) (current : option MembershipStatus) : error + pc :=
  match op, current with
  | OpAdd _ _ _, Some _ => inr Committing
  | OpAdd _ _ _, None => inr (Writing None)
  | OpAccept _ _ _, Some MembershipSuspended => inl ErrInvalidInvite
  | OpAccept _ _ _, _ => inr (Accepting current)
  | _, None => inl ErrNotMember
  | _, Some _ => inr (if demotes op current then Counting current else Writing current)
  end.

Definition goto (t : txn) (p : pc) : txn :=
  mkTxn (tx_op t) (tx_org t) (tx_user t) (tx_invite t) p (tx_write t) (tx_mark t) (tx_events t).

(** The transaction is over: nothing of it is pending any more. *)
Definition finish (t : txn) (r : option error) : txn :=
  mkTxn (tx_op t) (tx_org t) (tx_user t) (tx_invite t) (Finished r) None None [].

(** What a commit makes of the committed state. *)
Definition apply_tx (t : txn) (b : Book) : Book :=
  mkBook
    (mkOrgs (og_users (bk_orgs b)) (og_names (bk_orgs b))
      (match tx_write t with
       | None => og_members (bk_orgs b)
       | Some (Some s) => <[(tx_org t, tx_user t) := s]> (og_members (bk_orgs b))
       | Some None => delete (tx_org t, tx_user t) (og_members (bk_orgs b))
       end) (og_events (bk_orgs b) ++ tx_events t))
    (match tx_mark t with Some id => <[id := (tx_org t, InviteAccepted)]> (bk_invites b) | None => bk_invites b end).

Definition set_tx (i : nat) (t : txn) (s : Sys) : Sys :=
  mkSys (sys_book s) (sys_locks s) (<[i := t]> (sys_txs s)) (sys_log s).

(** The locks without those of transaction [i]. *)
Definition release (i : nat) (locks : gmap uuid nat) : gmap uuid nat := filter (λ kv, kv.2 ≠ i) locks.

(** The end of a transaction that does not commit: its writes are gone. *)
Definition rollback (i : nat) (t : txn) (err : error) (s : Sys) : Sys :=
  mkSys (sys_book s) (release i (sys_locks s)) (<[i := finish t (Some err)]> (sys_txs s)) (sys_log s).

(** The invitations whose rows are locked. *)
Definition marks (s : Sys) : list uuid := omap (λ kt, tx_mark kt.2) (map_to_list (sys_txs s)).

(** The conditional update of an invitation: the row does not match, is locked by
    another transaction, or is the caller's. *)
Definition update_invite {A} (org id : uuid) (s : Sys) (refused updated : A) : option A :=
  if bool_decide (sys_invites s !! id = Some (org, InvitePending)) then
    if bool_decide (id ∈ marks s) then None else Some updated
  else Some refused.

(** The next statement of transaction [i]; [None] when it is blocked by a lock or has
    ended. *)
Definition tx_step (i : nat) (s : Sys) : option Sys :=
  match sys_txs s !! i with
  | None => None
  | Some t =>
      let db := sys_db s in
      match tx_pc t with
      | Locking =>
          match og_names db !! tx_org t with
          | None => Some (rollback i t ErrOrgNotFound s)
          | Some _ =>
              match sys_locks s !! tx_org t with
              | Some _ => None
              | None => Some (mkSys (sys_book s) (<[tx_org t := i]> (sys_locks s)) (<[i := goto t Reading]> (sys_txs s)) (sys_log s))
              end
          end
      | Reading =>
          match after_read (tx_op t) (og_members db !! (tx_org t, tx_user t)) with
          | inl err => Some (rollback i t err s)
          | inr p => Some (set_tx i (goto t p) s)
          end
      | Counting current =>
          if bool_decide (active_count (tx_org t) db ≤ 1)%nat then Some (rollback i t ErrLastActiveMember s)
          else Some (set_tx i (goto t (Writing current)) s)
      | Accepting current =>
          match tx_invite t with
          | None => None
          | Some id =>
              update_invite (tx_org t) id s (rollback i t ErrInviteNotFound s)
                (set_tx i (mkTxn (tx_op t) (tx_org t) (tx_user t) (tx_invite t) (Writing current) None (Some id) []) s)
          end
      | Writing current =>
          if bool_decide (current = None) && bool_decide (tx_user t ∉ og_users db)
          then Some (rollback i t (fk_error (tx_op t)) s)
          else Some (set_tx i (mkTxn (tx_op t) (tx_org t) (tx_user t) (tx_invite t) (Emitting current)
                                 (op_write (tx_op t) current) (tx_mark t) []) s)
      | Emitting current =>
          Some (set_tx i (mkTxn (tx_op t) (tx_org t) (tx_user t) (tx_invite t) Committing (tx_write t) (tx_mark t)
                            (op_events (tx_op t) current)) s)
      | Committing =>
          Some (mkSys (apply_tx t (sys_book s)) (release i (sys_locks s)) (<[i := finish t None]> (sys_txs s))
                  (sys_log s ++ [Call (tx_op t)]))
      | Finished _ => None
      end
  end.

(** [RevokeInvite]: one statement that commits by itself. *)
Definition revoke_step (orgID inviteID : string) (org id : uuid) (s : Sys) : option (error + Sys) :=
  update_invite org id s (inl ErrInviteNotFound)
    (inr (mkSys (mkBook (sys_db s) (<[id := (org, InviteRevoked)]> (sys_invites s))) (sys_locks s) (sys_txs s)
            (sys_log s ++ [Revoked orgID inviteID]))).

(** What other writers may do.  The locks keep them from the members of a locked
    organization, from an account a transaction has referred to and from an invitation
    that is locked; beyond the locks, they do not delete organizations and leave
    invitations that are no longer pending as they are, which is so for every method of
    the store but the purge of unverified sign-ups ([Writers]). *)
Definition outside (s : Sys) (b : Book) : Prop :=
  (∀ org, is_Some (og_names (sys_db s) !! org) → is_Some (og_names (bk_orgs b) !! org)) ∧
  (∀ org user, is_Some (sys_locks s !! org) → og_members (bk_orgs b) !! (org, user) = og_members (sys_db s) !! (org, user)) ∧
  (∀ i t status, sys_txs s !! i = Some t → tx_write t = Some (Some status) → tx_user t ∈ og_users (sys_db s) → tx_user t ∈ og_users (bk_orgs b)) ∧
  (∀ id org status, sys_invites s !! id = Some (org, status) → status ≠ InvitePending ∨ id ∈ marks s →
     bk_invites b !! id = Some (org, status)).

(** A call parses its identifiers and begins; a transaction takes its next statement; a
    dependency fails and the transaction ends; an invitation is revoked; somebody else
    writes. *)
Inductive sys_step : Sys → Sys → Prop :=
  | step_begin i op org user invite s :
      sys_txs s !! i = None → uuid_Parse (op_orgID op) = Some org → uuid_Parse (op_userID op) = Some user →
      parse_invite op = Some invite → sys_step s (set_tx i (mkTxn op org user invite Locking None None []) s)
  | step_statement i s s' : tx_step i s = Some s' → sys_step s s'
  | step_outage i t err s :
      sys_txs s !! i = Some t → (∀ r, tx_pc t ≠ Finished r) → sys_step s (rollback i t err s)
  | step_revoke orgID inviteID org id s s' :
      uuid_Parse orgID = Some org → uuid_Parse inviteID = Some id →
      revoke_step orgID inviteID org id s = Some (inr s') → sys_step s s'
  | step_outside b s :
      outside s b → sys_step s (mkSys b (sys_locks s) (sys_txs s) (sys_log s ++ [Outside b])).

(** The operations of a log, one after the other, all of which succeed. *)
Fixpoint run_log (log : list entry) (b : Book) : option Book :=
  match log with
  | [] => Some b
  | e :: log =>
      match (match e with Call op => op_spec op b | Revoked o i => spec_RevokeInvite o i b | Outside b' => inr b' end) with
      | inr b => run_log log b
      | inl _ => None
      end
  end.

(** ** The lock invariant *)

Definition key (t : txn) : uuid * uuid := (tx_org t, tx_user t).

(** The transaction holds the lock of its organization, which exists. *)
Definition locked (s : Sys) (i : nat) (t : txn) : Prop :=
  sys_locks s !! tx_org t = Some i ∧ is_Some (og_names (sys_db s) !! tx_org t).

Definition allowed (op : member_op) (current : option MembershipStatus) : Prop :=
  match op with
  | OpAdd _ _ _ => current = None
  | OpUpdate _ _ _ | OpRemove _ _ => current ≠ None
  | OpAccept _ _ _ => current ≠ Some MembershipSuspended
  end.

(** What the read and the count found still holds. *)
Definition found (b : Book) (t : txn) (current : option MembershipStatus) : Prop :=
  og_members (bk_orgs b) !! key t = current ∧ allowed (tx_op t) current ∧
  (demotes (tx_op t) current = true → 1 < active_count (tx_org t) (bk_orgs b))%nat.

(** The invitation, if the operation has one, is pending and the transaction's. *)
Definition claimed (b : Book) (t : txn) : Prop :=
  match tx_invite t with
  | Some id => tx_mark t = Some id ∧ bk_invites b !! id = Some (tx_org t, InvitePending)
  | None => tx_mark t = None
  end.

(** The write is due and allowed. *)
Definition written (b : Book) (t : txn) (current : option MembershipStatus) : Prop :=
  found b t current ∧ claimed b t ∧ tx_write t = op_write (tx_op t) current ∧
  (current = None → tx_user t ∈ og_users (bk_orgs b)).

Definition nothing_written (t : txn) : Prop := tx_write t = None ∧ tx_mark t = None ∧ tx_events t = [].

Definition is_add (op : member_op) : bool := match op with OpAdd _ _ _ => true | _ => false end.

(** What a transaction that holds its lock knows. *)
Definition knows (b : Book) (t : txn) : Prop :=
  match tx_pc t with
  | Locking | Finished _ => True
  | Reading => nothing_written t
  | Counting current =>
      nothing_written t ∧ og_members (bk_orgs b) !! key t = current ∧ allowed (tx_op t) current ∧ tx_invite t = None
  | Accepting current => nothing_written t ∧ found b t current ∧ is_Some (tx_invite t)
  | Writing current => tx_write t = None ∧ tx_events t = [] ∧ claimed b t ∧ found b t current
  | Emitting current => written b t current
  | Committing =>
      (is_add (tx_op t) = true ∧ is_Some (og_members (bk_orgs b) !! key t) ∧ nothing_written t) ∨
      ∃ current, written b t current ∧ tx_events t = op_events (tx_op t) current
  end.

Definition holding (p : pc) : bool := match p with Locking | Finished _ => false | _ => true end.

Definition at_pc (s : Sys) (i : nat) (t : txn) : Prop :=
  if holding (tx_pc t) then locked s i t ∧ knows (sys_book s) t else nothing_written t.

Definition tx_ok (s : Sys) (i : nat) (t : txn) : Prop :=
  uuid_Parse (op_orgID (tx_op t)) = Some (tx_org t) ∧ uuid_Parse (op_userID (tx_op t)) = Some (tx_user t) ∧
  parse_invite (tx_op t) = Some (tx_invite t) ∧ at_pc s i t.

Definition sys_ok (s : Sys) : Prop := map_Forall (tx_ok s) (sys_txs s).

(** Two states the transaction cannot tell apart. *)
Definition undisturbed (t : txn) (b b' : Book) : Prop :=
  (is_Some (og_names (bk_orgs b) !! tx_org t) → is_Some (og_names (bk_orgs b') !! tx_org t)) ∧
  (∀ user, og_members (bk_orgs b') !! (tx_org t, user) = og_members (bk_orgs b) !! (tx_org t, user)) ∧
  (∀ status, tx_write t = Some (Some status) → tx_user t ∈ og_users (bk_orgs b) → tx_user t ∈ og_users (bk_orgs b')) ∧
  (∀ id, tx_mark t = Some id → bk_invites b' !! id = bk_invites b !! id).

(** The active members are counted among the rows of the organization. *)
Lemma active_count_ext org st st' :
  (∀ user, og_members st' !! (org, user) = og_members st !! (org, user)) → active_count org st' = active_count org st.
Proof.
  intros H. unfold active_count. apply Permutation_length, NoDup_Permutation; [apply NoDup_filter, NoDup_map_to_list..|].
  intros [[o user] status]. rewrite !elem_of_rows_where. unfold active_member. simpl.
  destruct (bool_decide_reflect (o = org)) as [->|]; [by rewrite H|]. simpl. split; by intros [].
Qed.

Lemma found_undisturbed t b b' current : undisturbed t b b' → found b t current → found b' t current.
Proof.
  intros (_ & Hm & _) (Hc & Ha & Hd). split_and!; [unfold key; by rewrite Hm|done|].
  by rewrite (active_count_ext _ _ (bk_orgs b') Hm).
Qed.

Lemma claimed_undisturbed t b b' : undisturbed t b b' → claimed b t → claimed b' t.
Proof.
  intros (_ & _ & _ & Hi). unfold claimed. destruct (tx_invite t); [|done]. intros [Hmark Hrow].
  split; [done|]. by rewrite Hi.
Qed.

Lemma written_undisturbed t b b' current : undisturbed t b b' → written b t current → written b' t current.
Proof.
  intros Hu (Hf & Hc & Hw & Hfk). split_and!; [by eapply found_undisturbed|by eapply claimed_undisturbed|done|].
  intros Hn. destruct Hu as (_ & _ & Husers & _). destruct Hf as (_ & Ha & _). subst current.
  destruct (tx_op t); simpl in Ha, Hw; try done; by eapply Husers, Hfk.
Qed.

Lemma tx_ok_undisturbed s s' i t :
  tx_ok s i t →
  (sys_locks s !! tx_org t = Some i → undisturbed t (sys_book s) (sys_book s') ∧ sys_locks s' !! tx_org t = Some i) →
  tx_ok s' i t.
Proof.
  intros (Ho & Hu & Hv & Hp) H. split_and!; [done..|]. unfold at_pc in *. destruct (holding (tx_pc t)); [|done].
  destruct Hp as [[Hl Hn] Hk]. destruct (H Hl) as [Hun Hl']. split; [split; [done|by apply Hun]|].
  pose proof (proj1 (proj2 Hun)) as Hm. unfold knows in *. destruct (tx_pc t); try done.
  - unfold key in *. rewrite Hm. done.
  - destruct Hk as (? & ? & ?). split_and!; [done|by eapply found_undisturbed|done].
  - destruct Hk as (? & ? & ? & ?). split_and!; [done..|by eapply claimed_undisturbed|by eapply found_undisturbed].
  - by eapply written_undisturbed.
  - destruct Hk as [(? & ? & ?)|(c & ? & ?)]; [left; unfold key in *; by rewrite Hm|right].
    exists c. split; [by eapply written_undisturbed|done].
Qed.

Lemma undisturbed_refl t b : undisturbed t b b.
Proof. by split_and!. Qed.

(** A row a transaction has locked is a pending invitation of the organization whose
    lock it holds. *)
Lemma marked_row s i t id :
  tx_ok s i t → tx_mark t = Some id → sys_locks s !! tx_org t = Some i ∧ sys_invites s !! id = Some (tx_org t, InvitePending).
Proof.
  intros (_ & _ & _ & Hp) Hmark. unfold at_pc, nothing_written in Hp. destruct (holding (tx_pc t)) eqn:Eh; [|naive_solver].
  destruct Hp as [[Hl _] Hk]. split; [done|]. assert (claimed (sys_book s) t) as Hc.
  { unfold knows, nothing_written, written in Hk. destruct (tx_pc t); naive_solver. }
  unfold claimed in Hc. destruct (tx_invite t); [|congruence]. destruct Hc as [Hm ?]. congruence.
Qed.

Lemma elem_of_marks s id : id ∈ marks s ↔ ∃ i t, sys_txs s !! i = Some t ∧ tx_mark t = Some id.
Proof.
  unfold marks. rewrite list_elem_of_omap. split.
  - intros ([i t] & Hi%elem_of_map_to_list & Hm). by exists i, t.
  - intros (i & t & Hi & Hm). exists (i, t). by rewrite elem_of_map_to_list.
Qed.

(** A write for another organization is not noticed. *)
Lemma apply_tx_undisturbed t u b :
  tx_org t ≠ tx_org u → (∀ id, tx_mark t = Some id → tx_mark u ≠ Some id) → undisturbed u b (apply_tx t b).
Proof.
  intros Hne Hmark. split_and!; [done| |done|].
  - intros user. unfold apply_tx. simpl. destruct (tx_write t) as [[st|]|]; [rewrite lookup_insert_ne|rewrite lookup_delete_ne|]; congruence.
  - intros id Hid. unfold apply_tx. simpl. destruct (tx_mark t) as [id'|] eqn:E; [|done].
    apply lookup_insert_ne. intros ->. by apply (Hmark id).
Qed.

Lemma release_other i j locks (org : uuid) : i ≠ j → locks !! org = Some i → release j locks !! org = Some i.
Proof. intros. unfold release. apply map_lookup_filter_Some. done. Qed.

(** ** Commits *)

Lemma commit_member_spec b t current :
  uuid_Parse (op_orgID (tx_op t)) = Some (tx_org t) → uuid_Parse (op_userID (tx_op t)) = Some (tx_user t) →
  is_Some (og_names (bk_orgs b) !! tx_org t) → op_inviteID (tx_op t) = None → tx_invite t = None →
  written b t current → tx_events t = op_events (tx_op t) current → op_spec (tx_op t) b = inr (apply_tx t b).
Proof.
  intros Ho Hu [name Hn] Hinv Hi ((Hm & Hal & Hdem) & Hcl & Hw & Hfk) He. unfold claimed in Hcl. rewrite Hi in Hcl.
  destruct b as [db inv], t as [op org user i p w mk ev]. unfold key in Hm. simpl in *. subst.
  destruct op as [o u st|o u st|o u|]; simpl in *; [..|done];
    unfold spec_AddMember, spec_UpdateMemberStatus, spec_RemoveMember, member_ids, ids, apply_tx; rewrite Ho, Hu, Hn; simpl.
  - rewrite Hal. by rewrite bool_decide_eq_true_2 by auto.
  - destruct (og_members db !! (org, user)) as [cur|] eqn:Em; [|done].
    rewrite (bool_decide_ext (Some cur ≠ Some MembershipSuspended) (cur ≠ MembershipSuspended)) by (split; congruence).
    destruct (_ && _ && bool_decide _) eqn:Eg; [|done]. exfalso. bool_hyps.
    enough (1 < active_count org db)%nat by lia. apply Hdem. unfold demotes. by rewrite !bool_decide_eq_true_2 by congruence.
  - destruct (og_members db !! (org, user)) as [cur|] eqn:Em; [|done].
    destruct (_ && bool_decide _) eqn:Eg; [|done]. exfalso. bool_hyps.
    enough (1 < active_count org db)%nat by lia. apply Hdem. unfold demotes. by rewrite bool_decide_eq_true_2 by congruence.
Qed.

Lemma commit_accept_spec b t i o u id current :
  tx_op t = OpAccept i o u → uuid_Parse o = Some (tx_org t) → uuid_Parse u = Some (tx_user t) → uuid_Parse i = Some id →
  is_Some (og_names (bk_orgs b) !! tx_org t) → tx_invite t = Some id →
  written b t current → tx_events t = op_events (tx_op t) current → op_spec (tx_op t) b = inr (apply_tx t b).
Proof.
  intros Hop Ho Hu Hi [name Hn] Hinv ((Hm & Hal & _) & Hcl & Hw & Hfk) He. unfold claimed in Hcl. rewrite Hinv in Hcl.
  destruct Hcl as [Hmark Hrow]. unfold key in Hm. rewrite Hop in *. simpl in *.
  unfold spec_AcceptInvite, spec_accept, spec_writes, apply_tx. rewrite Ho, Hi, Hu, Hn, Hm, He, Hw, Hmark, Hrow.
  rewrite (bool_decide_eq_false_2 (current = _)), (bool_decide_eq_false_2 (Some _ ≠ _)) by auto.
  assert (bool_decide (current = None) && bool_decide (tx_user t ∉ og_users (bk_orgs b)) = false) as ->.
  { destruct (bool_decide_reflect (current = None)); [|done]. simpl. apply bool_decide_eq_false_2. auto. }
  by destruct (joins current).
Qed.

(** The committing transaction does to the committed state what its operation does
    atomically. *)
Lemma commit_spec s i t :
  tx_ok s i t → tx_pc t = Committing → op_spec (tx_op t) (sys_book s) = inr (apply_tx t (sys_book s)).
Proof.
  intros (Ho & Hu & Hi & Hp) Hpc. unfold at_pc, knows in Hp. rewrite Hpc in Hp. destruct Hp as [[_ Hn] Hp].
  destruct Hp as [(Ha & [cur Hm] & Hw & Hmk & He)|(cur & Hwr & He)].
  - destruct Hn as [name Hn]. unfold apply_tx. rewrite Hw, Hmk, He, app_nil_r.
    destruct (sys_book s) as [[] inv]. destruct (tx_op t); [|done..]. simpl in *. unfold key in Hm.
    unfold with_orgs, spec_AddMember, member_ids, ids. rewrite Ho, Hu. simpl. by rewrite Hn, Hm.
  - destruct (op_inviteID (tx_op t)) as [inviteID|] eqn:Einv; unfold parse_invite in Hi; rewrite Einv in Hi.
    + destruct (tx_op t) as [| | |inv o u] eqn:Eop; simpl in Einv; simplify_eq. destruct (uuid_Parse inviteID) as [id|] eqn:Eid; [|done].
      injection Hi as Hi. rewrite <- Eop. eapply commit_accept_spec; rewrite ?Eop; eauto.
    + injection Hi as Hi. eapply commit_member_spec; eauto.
Qed.

(** ** Every step keeps the invariant *)

(** One transaction changed, and no other noticed. *)
Lemma sys_ok_update s s' j t' :
  sys_ok s → sys_txs s' = <[j := t']> (sys_txs s) → tx_ok s' j t' →
  (∀ i t, i ≠ j → sys_txs s !! i = Some t → tx_ok s i t → sys_locks s !! tx_org t = Some i →
     undisturbed t (sys_book s) (sys_book s') ∧ sys_locks s' !! tx_org t = Some i) → sys_ok s'.
Proof.
  intros Hok Htx Hj Hother i t. rewrite Htx. destruct (decide (i = j)) as [->|Hne].
  - rewrite lookup_insert_eq. by intros [= <-].
  - rewrite lookup_insert_ne by done. intros Hi. eapply tx_ok_undisturbed; [by apply Hok|].
    intros Hl. by apply Hother; [..|apply Hok|].
Qed.

Lemma finish_ok s s' j t r : tx_ok s j t → tx_ok s' j (finish t r).
Proof. intros (? & ? & ? & _). by split_and!. Qed.

Lemma rollback_ok s j t err : sys_ok s → sys_txs s !! j = Some t → sys_ok (rollback j t err s).
Proof.
  intros Hok Hj. apply (sys_ok_update s _ j (finish t (Some err))); [done..|by apply (finish_ok s), Hok|].
  intros i u Hne Hi Hu Hl. split; [apply undisturbed_refl|]. simpl. by apply release_other.
Qed.

(** A step that changes the transaction alone. *)
Lemma set_tx_ok s j t t' :
  sys_ok s → sys_txs s !! j = Some t → tx_op t' = tx_op t → tx_org t' = tx_org t → tx_user t' = tx_user t →
  tx_invite t' = tx_invite t → at_pc s j t' → sys_ok (set_tx j t' s).
Proof.
  intros Hok Hj H1 H2 H3 H4 Hp. apply (sys_ok_update s _ j t'); [done..| |].
  - destruct (Hok j t Hj) as (? & ? & ? & _). split_and!; [congruence..|exact Hp].
  - intros i u Hne Hi Hu Hl. split; [apply undisturbed_refl|done].
Qed.

Lemma lock_ok s j t :
  sys_ok s → sys_txs s !! j = Some t → tx_pc t = Locking → is_Some (og_names (sys_db s) !! tx_org t) →
  sys_locks s !! tx_org t = None →
  sys_ok (mkSys (sys_book s) (<[tx_org t := j]> (sys_locks s)) (<[j := goto t Reading]> (sys_txs s)) (sys_log s)).
Proof.
  intros Hok Hj Hpc Hn Hl. destruct (Hok j t Hj) as (Ho & Hu & Hi & Hp). unfold at_pc in Hp. rewrite Hpc in Hp.
  apply (sys_ok_update s _ j (goto t Reading)); [done..| |].
  - split_and!; [done..|]. split; [|done]. split; [|done]. apply lookup_insert_eq.
  - intros i u Hne Hiu Hui Hlock. split; [apply undisturbed_refl|]. simpl. rewrite lookup_insert_ne; [done|]. congruence.
Qed.

Lemma commit_ok s j t :
  sys_ok s → sys_txs s !! j = Some t → tx_pc t = Committing →
  sys_ok (mkSys (apply_tx t (sys_book s)) (release j (sys_locks s)) (<[j := finish t None]> (sys_txs s))
            (sys_log s ++ [Call (tx_op t)])).
Proof.
  intros Hok Hj Hpc. pose proof (Hok j t Hj) as Ht. apply (sys_ok_update s _ j (finish t None)); [done..|by apply (finish_ok s)|].
  intros i u Hne Hi Hu Hlu. assert (sys_locks s !! tx_org t = Some j) as Hlt.
  { destruct Ht as (_ & _ & _ & Hp). unfold at_pc in Hp. rewrite Hpc in Hp. apply Hp. }
  split; [|by apply release_other]. apply apply_tx_undisturbed; [congruence|]. intros id Hid Hid'.
  pose proof (marked_row _ _ _ _ Ht Hid) as [_ H1]. pose proof (marked_row _ _ _ _ Hu Hid') as [_ H2]. congruence.
Qed.

(** The read, with what it found. *)
Lemma read_ok s j t p :
  sys_ok s → sys_txs s !! j = Some t → locked s j t → nothing_written t →
  after_read (tx_op t) (og_members (sys_db s) !! key t) = inr p → sys_ok (set_tx j (goto t p) s).
Proof.
  intros Hok Hj Hl Hw Hr. apply (set_tx_ok _ _ t); [done..|]. destruct (Hok j t Hj) as (_ & _ & Hi & _).
  unfold parse_invite in Hi. destruct Hw as (Hw & Hmk & He).
  unfold at_pc, knows, found, claimed. simpl. change (key (goto t p)) with (key t).
  destruct (tx_op t) as [o u st|o u st|o u|inv o u] eqn:Eop; simpl in Hi, Hr.
  4: { destruct (og_members (sys_db s) !! key t) as [[]|] eqn:Em; simplify_eq; (split; [done|]); simpl; rewrite ?Em;
       (split; [done|]); (split; [split_and!; [done..|intros Hd; discriminate Hd]|]); (destruct (uuid_Parse inv); simpl in Hi; [injection Hi as <-|done]; by eexists). }
  all: injection Hi as Hi; destruct (og_members (sys_db s) !! key t) as [cur|] eqn:Em; simplify_eq; try (split; [done|]; simpl).
  - left. by split_and!.
  - rewrite <- Hi. by split_and!.
  - rewrite <- Hi. destruct (demotes _ (Some cur)) eqn:Ed; (split; [done|]); simpl; split_and!; try done. by rewrite Ed.
  - rewrite <- Hi. destruct (demotes _ (Some cur)) eqn:Ed; (split; [done|]); simpl; split_and!; try done. by rewrite Ed.
Qed.

Lemma tx_step_ok j s s' : sys_ok s → tx_step j s = Some s' → sys_ok s'.
Proof.
  intros Hok. unfold tx_step. destruct (sys_txs s !! j) as [t|] eqn:Hj; [|done].
  pose proof (Hok j t Hj) as (Ho & Hu & Hi & Hp). unfold at_pc in Hp. destruct (tx_pc t) as [| |cur|cur|cur|cur| |] eqn:Hpc.
  all: simpl in Hp; try (destruct Hp as [Hlock Hk]; unfold knows in Hk; rewrite Hpc in Hk).
  - destruct (og_names (sys_db s) !! tx_org t) eqn:En; [|intros [= <-]; by apply rollback_ok].
    destruct (sys_locks s !! tx_org t) eqn:El; [done|]. intros [= <-]. by apply lock_ok; [..|eexists|].
  - fold (key t). destruct (after_read _ _) eqn:Er; intros [= <-]; [by apply rollback_ok|by apply read_ok].
  - destruct Hk as (Hw & Hm & Ha & Hinv). case_bool_decide as Hc; intros [= <-]; [by apply rollback_ok|].
    apply (set_tx_ok _ _ t); [done..|]. split; [done|]. destruct Hw as (? & ? & ?). unfold knows, claimed. simpl. rewrite Hinv.
    split_and!; [done..|]. split_and!; [done..|]. simpl. lia.
  - destruct Hk as ((Hw & Hmk & He) & Hf & [id Hid]). rewrite Hid. unfold update_invite.
    destruct (bool_decide_reflect (sys_invites s !! id = Some (tx_org t, InvitePending))); [|intros [= <-]; by apply rollback_ok].
    case_bool_decide; [done|]. intros [= <-]. apply (set_tx_ok _ _ t); [done..|]. split; [done|].
    unfold knows, claimed. simpl. split_and!; [done..|exact Hf].
  - destruct Hk as (Hw & He & Hc & Hf). destruct (_ && _) eqn:Eg; intros [= <-]; [by apply rollback_ok|].
    apply (set_tx_ok _ _ t); [done..|]. split; [done|]. split_and!; [exact Hf|exact Hc|done|]. simpl. intros ->. simpl in Eg.
    by apply bool_decide_eq_false_1, dec_stable in Eg.
  - intros [= <-]. apply (set_tx_ok _ _ t); [done..|]. split; [done|]. right. by exists cur.
  - intros [= <-]. by apply commit_ok.
  - done.
Qed.

(** A change of the committed state that disturbs no lock holder. *)
Lemma sys_ok_book s b log :
  sys_ok s → (∀ i t, sys_txs s !! i = Some t → sys_locks s !! tx_org t = Some i → undisturbed t (sys_book s) b) →
  sys_ok (mkSys b (sys_locks s) (sys_txs s) log).
Proof. intros Hok H i t Hi. eapply tx_ok_undisturbed; [by apply Hok|]. intros Hl. split; [by eapply H|done]. Qed.

Lemma sys_step_ok s s' : sys_ok s → sys_step s s' → sys_ok s'.
Proof.
  intros Hok Hstep. destruct Hstep as [i op org user inv s0 Hi Ho Hu Hv|i s0 s1 Hs|i t err s0 Hi _|o n org id s0 s1 Ho Hn Hr|b s0 Hb].
  - apply (sys_ok_update s0 _ i (mkTxn op org user inv Locking None None [])); [done..|by split_and!|].
    intros k u Hne Hk Hku Hl. split; [apply undisturbed_refl|done].
  - by eapply tx_step_ok.
  - by apply rollback_ok.
  - unfold revoke_step, update_invite in Hr. case_bool_decide; [|done]. case_bool_decide as Hm; [done|]. injection Hr as <-.
    apply sys_ok_book; [done|]. intros i t Hi Hl. split_and!; [done..|]. simpl. intros id' Hid'. apply lookup_insert_ne. intros ->.
    apply Hm, elem_of_marks. by exists i, t.
  - apply sys_ok_book; [done|]. destruct Hb as (H1 & H2 & H3 & H4). intros i t Hi Hl. split_and!; [by auto|eauto|by eauto|].
    intros id Hid. pose proof (marked_row _ _ _ _ (Hok i t Hi) Hid) as [_ Hrow]. rewrite Hrow. eapply H4; [done|].
    right. apply elem_of_marks. by exists i, t.
Qed.

(** ** Serializability *)

(** What is committed in one step. *)
Definition entry_spec (e : entry) (b : Book) : error + Book :=
  match e with Call op => op_spec op b | Revoked o i => spec_RevokeInvite o i b | Outside b' => inr b' end.

(** A step commits nothing, or one entry, which takes the committed state along. *)
Lemma sys_step_entry s s' :
  sys_ok s → sys_step s s' →
  (sys_book s' = sys_book s ∧ sys_log s' = sys_log s) ∨
  ∃ e, sys_log s' = sys_log s ++ [e] ∧ entry_spec e (sys_book s) = inr (sys_book s') ∧
    match e with Outside b => outside s b | _ => True end.
Proof.
  intros Hok Hstep. destruct Hstep as [i op org user inv s0 Hi Ho Hu Hv|i s0 s1 Hs|i t err s0 Hi _|o n org id s0 s1 Ho Hn Hr|b s0 Hb].
  - by left.
  - unfold tx_step in Hs. destruct (sys_txs s0 !! i) as [t|] eqn:Hi; [|done]. unfold update_invite in Hs.
    destruct (tx_pc t) eqn:Hpc; try (repeat case_match; simplify_eq; by left).
    injection Hs as <-. right. exists (Call (tx_op t)). split_and!; [done|simpl|done]. eapply commit_spec; [by apply Hok|done].
  - by left.
  - right. unfold revoke_step, update_invite in Hr. case_bool_decide as Hp; [|done]. case_bool_decide; [done|]. injection Hr as <-.
    exists (Revoked o n). split_and!; [done| |done]. simpl. unfold spec_RevokeInvite. rewrite Ho, Hn. by rewrite bool_decide_eq_true_2.
  - right. by exists (Outside b).
Qed.

Lemma run_log_snoc log e b b1 b2 :
  run_log log b = Some b1 → entry_spec e b1 = inr b2 → run_log (log ++ [e]) b = Some b2.
Proof.
  revert b. induction log as [|e' log IH]; intros b; simpl; [intros [= ->] He; unfold entry_spec in He; by rewrite He|].
  destruct (match e' with Call _ => _ | Revoked _ _ => _ | Outside _ => _ end); [done|]. apply IH.
Qed.

Lemma op_spec_staffed op b b' : op_spec op b = inr b' → ∀ org, staffed org (bk_orgs b) → staffed org (bk_orgs b').
Proof.
  destruct op; simpl; [unfold with_orgs; destruct (_ : error + Orgs) as [|st] eqn:E; [done|]; intros [= <-]..|]; simpl;
    eauto using spec_AddMember_staffed, spec_UpdateMemberStatus_staffed, spec_RemoveMember_staffed.
  unfold spec_AcceptInvite. repeat case_match; try done. apply spec_accept_staffed.
Qed.

(** Along a log, the entries of other writers do not take the last active member of the
    organization. *)
Fixpoint others_keep (org : uuid) (log : list entry) (b : Book) : Prop :=
  match log with
  | [] => True
  | e :: log =>
      match entry_spec e b with
      | inl _ => True
      | inr b' => (if e is Outside _ then staffed org (bk_orgs b) → staffed org (bk_orgs b') else True) ∧ others_keep org log b'
      end
  end.

(** The calls do not take it either. *)
Lemma run_log_staffed org log b b' :
  run_log log b = Some b' → others_keep org log b → staffed org (bk_orgs b) → staffed org (bk_orgs b').
Proof.
  revert b. induction log as [|e log IH]; intros b; simpl; [by intros [= ->]|].
  change (match e with Call op => op_spec op b | Revoked o i => spec_RevokeInvite o i b | Outside b0 => inr b0 end) with (entry_spec e b).
  destruct (entry_spec e b) as [err|b1] eqn:He; [done|]. intros Hrun [Hout Hkeep] Hs. apply (IH b1 Hrun Hkeep).
  destruct e as [op|o i|b0]; simpl in He; [by eapply op_spec_staffed| |by apply Hout].
  unfold spec_RevokeInvite in He. repeat case_match; simplify_eq. exact Hs.
Qed.

(** A system before its first call. *)
Definition idle (b : Book) : Sys := mkSys b ∅ ∅ [].

(** What holds of every system that is reached. *)
Definition serial (b : Book) (s : Sys) : Prop :=
  sys_ok s ∧ run_log (sys_log s) b = Some (sys_book s).

Lemma serial_idle b : serial b (idle b).
Proof. split; [apply map_Forall_empty|done]. Qed.

Lemma serial_step b s s' : serial b s → sys_step s s' → serial b s'.
Proof.
  intros (Hok & Hlog) Hstep. split; [by eapply sys_step_ok|].
  destruct (sys_step_entry s s' Hok Hstep) as [[-> ->]|(e & -> & He & Hout)]; [done|]. by eapply run_log_snoc.
Qed.

Lemma reachable_serial b s : rtc sys_step (idle b) s → serial b s.
Proof.
  intros H. refine (rtc_ind_r (R:=sys_step) (serial b) (idle b) (serial_idle b) _ s H).
  intros s1 s2 _ Hstep Hs. by eapply serial_step.
Qed.

(** C11: interleaved membership calls are serializable.  However the statements of any
    number of [AddMember], [UpdateMemberStatus], [RemoveMember], [AcceptInvite] and
    [RevokeInvite] calls interleave, with each other and with other writers as [outside]
    admits them, and wherever they are aborted, the committed state is the one that the
    committed calls reach when they run one after the other, atomically and each
    succeeding, in the order of their commits.  And these calls leave no organization
    without an active member, so that two concurrent removals or demotions of the last
    two are never both committed: an organization that has one keeps one, as long as the
    other writers do not take its last. *)
Theorem interleavings_serializable b s :
  rtc sys_step (idle b) s → run_log (sys_log s) b = Some (sys_book s) ∧
  ∀ org, staffed org (bk_orgs b) → others_keep org (sys_log s) b → staffed org (sys_db s).
Proof.
  intros [_ Hlog]%reachable_serial. split; [done|]. intros org Hs Ho. by eapply run_log_staffed.
Qed.

(** ** Invitations *)

(** Whether an entry uses the invitation up. *)
Definition entry_uses (id : uuid) (e : entry) : bool :=
  match e with
  | Call (OpAccept i _ _) | Revoked _ i => bool_decide (uuid_Parse i = Some id)
  | _ => false
  end.

Definition uses (id : uuid) (log : list entry) : nat := length (filter (λ e, entry_uses id e = true) log).

Definition settled (b : Book) (id : uuid) : Prop := ∃ org status, bk_invites b !! id = Some (org, status) ∧ status ≠ InvitePending.

(** A call that uses an invitation up finds it pending and leaves it settled; no entry
    touches one that is settled. *)
Lemma entry_invites e b b' id :
  entry_spec e b = inr b' → (∀ b0, e = Outside b0 → settled b id → settled b0 id) →
  (entry_uses id e = true → ¬ settled b id ∧ settled b' id) ∧ (settled b id → settled b' id).
Proof.
  intros He Hout. assert (∀ id' org org' status (I : gmap uuid (uuid * InviteStatus)),
    I !! id' = Some (org, InvitePending) → status ≠ InvitePending → (∀ orgs orgs',
    (id' = id → ¬ settled (mkBook orgs I) id ∧ settled (mkBook orgs' (<[id' := (org', status)]> I)) id) ∧
    (settled (mkBook orgs I) id → settled (mkBook orgs' (<[id' := (org', status)]> I)) id))) as Hset.
  { intros id' org org' status I Hp Hs orgs orgs'. unfold settled. simpl. split.
    - intros ->. rewrite lookup_insert_eq. split; [|by eexists _, _]. intros (o & st & ? & ?). congruence.
    - intros (o & st & Hl & Hst). destruct (decide (id' = id)) as [->|]; [congruence|]. exists o, st. by rewrite lookup_insert_ne. }
  destruct e as [[o u s|o u s|o u|i o u]|o i|b0]; simpl in He |- *.
  1-3: unfold with_orgs in He; case_match; simplify_eq; by split.
  - unfold spec_AcceptInvite, spec_accept, spec_writes in He. destruct (uuid_Parse o) as [org|], (uuid_Parse i) as [id'|], (uuid_Parse u); try done.
    destruct (og_names _ !! _); [|done]. case_bool_decide; [done|]. cbv zeta in He. case_bool_decide as Hp; [done|].
    destruct (_ && _); [done|]. injection He as <-. rewrite bool_decide_eq_true. destruct b as [st I].
    split; [intros [= ->]; by eapply Hset|by eapply Hset].
  - unfold spec_RevokeInvite in He. destruct (uuid_Parse o) as [org|], (uuid_Parse i) as [id'|]; try done.
    case_bool_decide as Hp; [|done]. injection He as <-. rewrite bool_decide_eq_true. destruct b as [st I].
    split; [intros [= ->]; by eapply Hset|by eapply Hset].
  - simplify_eq. split; [done|]. by apply Hout.
Qed.

Definition used_once (b : Book) (id : uuid) (s : Sys) : Prop :=
  (uses id (sys_log s) ≤ 1)%nat ∧ (settled b id → uses id (sys_log s) = 0%nat) ∧
  ((0 < uses id (sys_log s))%nat ∨ settled b id → settled (sys_book s) id).

Lemma used_once_step b id s s' : sys_ok s → used_once b id s → sys_step s s' → used_once b id s'.
Proof.
  intros Hok (H1 & H2 & H3) Hstep. unfold used_once.
  destruct (sys_step_entry s s' Hok Hstep) as [[-> ->]|(e & -> & He & Hout)]; [done|].
  destruct (entry_invites e _ _ id He) as [Hu Hk].
  { intros b0 -> (o & st & Hl & Hst). destruct Hout as (_ & _ & _ & Hrow). exists o, st. split; [|done]. apply (Hrow _ _ _ Hl). by left. }
  unfold uses in *. rewrite filter_app, length_app, filter_cons, filter_nil. destruct (decide (entry_uses id e = true)) as [Hd|Hd]; simpl.
  - destruct (Hu Hd) as [Hn Hs]. assert (length (filter (λ e, entry_uses id e = true) (sys_log s)) = 0)%nat as ->.
    { destruct (length _) as [|k]; [done|]. destruct Hn. apply H3. lia. }
    split_and!; [lia| |done]. intros Hb. destruct Hn. apply H3. by right.
  - rewrite Nat.add_0_r. split_and!; [done..|]. intros H. apply Hk, H3, H.
Qed.

(** C9: an invitation is used once, however calls interleave.  Among any number of
    concurrent [AcceptInvite] and [RevokeInvite] calls that name it, in any order of
    their statements, at most one is committed, and none if it was accepted or revoked
    before; and whoever joins through a committed acceptance was not a suspended member
    at its place in the serial order, so accepting never undoes a suspension it raced
    with. *)
Theorem invitations_used_once b s id :
  rtc sys_step (idle b) s →
  (uses id (sys_log s) ≤ 1)%nat ∧ (settled b id → uses id (sys_log s) = 0%nat) ∧
  ∀ log log' i o u, sys_log s = log ++ Call (OpAccept i o u) :: log' →
    ∃ b1 org user, run_log log b = Some b1 ∧ uuid_Parse o = Some org ∧ uuid_Parse u = Some user ∧
      og_members (bk_orgs b1) !! (org, user) ≠ Some MembershipSuspended.
Proof.
  intros Hreach. assert (serial b s ∧ used_once b id s) as [(_ & Hlog) (H1 & H2 & _)].
  { refine (rtc_ind_r (R:=sys_step) (λ s, serial b s ∧ used_once b id s) (idle b) _ _ s Hreach).
    - split; [apply serial_idle|]. unfold used_once, uses. cbn [idle sys_log]. rewrite filter_nil. cbn [length]. split_and!; [lia|done|intros [?|?]; [lia|done]].
    - intros s1 s2 _ Hstep [Hs Hu]. split; [by eapply serial_step|]. eapply used_once_step; [apply Hs|done..]. }
  split_and!; [done..|]. intros log log' i o u Heq. rewrite Heq in Hlog. clear -Hlog. revert b Hlog.
  induction log as [|e log IH]; intros b; simpl.
  - unfold spec_AcceptInvite. destruct (uuid_Parse o) as [org|], (uuid_Parse i), (uuid_Parse u) as [user|]; try done.
    unfold spec_accept. destruct (og_names _ !! org); [|done]. case_bool_decide as Hs; [done|]. intros _. by exists b, org, user.
  - destruct (match e with Call _ => _ | Revoked _ _ => _ | Outside _ => _ end) as [|b1]; [done|]. apply IH.
Qed.

(** ** Progress *)

(** The statements a transaction has yet to run, at most. *)
Definition rank (p : pc) : nat :=
  match p with
  | Locking => 6 | Reading => 5 | Counting _ | Accepting _ => 4 | Writing _ => 3 | Emitting _ => 2 | Committing => 1 | Finished _ => 0
  end.

(** Each lock is held by a transaction of its organization that has not ended. *)
Definition holders (s : Sys) : Prop :=
  ∀ org j, sys_locks s !! org = Some j → ∃ t, sys_txs s !! j = Some t ∧ tx_org t = org ∧ holding (tx_pc t) = true.

Lemma after_read_next op current p : after_read op current = inr p → (rank p < 5)%nat ∧ holding p = true.
Proof. unfold after_read. intros H. repeat case_match; simplify_eq; simpl; (split; [lia|done]). Qed.

(** What a statement does to its transaction and to the locks: it keeps them, takes the
    one of the organization, or gives up its own. *)
Lemma tx_step_effect j s s' :
  tx_step j s = Some s' →
  ∃ t t', sys_txs s !! j = Some t ∧ sys_txs s' = <[j := t']> (sys_txs s) ∧ tx_org t' = tx_org t ∧
    (rank (tx_pc t') < rank (tx_pc t))%nat ∧
    ((sys_locks s' = sys_locks s ∧ holding (tx_pc t') = true) ∨
     (sys_locks s' = <[tx_org t := j]> (sys_locks s) ∧ holding (tx_pc t') = true) ∨
     sys_locks s' = release j (sys_locks s)).
Proof.
  unfold tx_step, update_invite, set_tx, rollback. intros H. destruct (sys_txs s !! j) as [t|]; [|done].
  exists t. destruct (tx_pc t) eqn:Hpc.
  2: { destruct (after_read _ _) as [err|p] eqn:Er; simplify_eq; eexists; (split_and!; [done|reflexivity|done| |]).
       - simpl. lia.
       - simpl. tauto.
       - apply after_read_next in Er as [Hr _]. simpl. lia.
       - apply after_read_next in Er as [_ Hh]. simpl. tauto. }
  all: repeat case_match; simplify_eq; eexists; (split_and!; [done|reflexivity|done|simpl; lia|simpl; tauto]).
Qed.

Lemma release_Some i locks (org : uuid) j : release i locks !! org = Some j → locks !! org = Some j ∧ j ≠ i.
Proof. unfold release. by intros [? ?]%map_lookup_filter_Some. Qed.

Lemma tx_step_holders j s s' : holders s → tx_step j s = Some s' → holders s'.
Proof.
  intros Hh (t & t' & Hj & Htx & Horg & _ & Hl)%tx_step_effect org i. rewrite Htx.
  assert (sys_locks s !! org = Some i → (i = j → holding (tx_pc t') = true) →
    ∃ t0, <[j:=t']> (sys_txs s) !! i = Some t0 ∧ tx_org t0 = org ∧ holding (tx_pc t0) = true) as Hkeep.
  { intros Hlock Hp. destruct (Hh org i Hlock) as (u & Hi & Hu & Hhold). destruct (decide (i = j)) as [->|Hne].
    - exists t'. rewrite lookup_insert_eq. split_and!; [done|congruence|by apply Hp].
    - exists u. by rewrite lookup_insert_ne. }
  destruct Hl as [[-> Hp]|[[-> Hp]| ->]].
  - intros Hlock. by apply Hkeep.
  - destruct (decide (org = tx_org t)) as [->|Hne].
    + rewrite lookup_insert_eq. intros [= <-]. exists t'. by rewrite lookup_insert_eq.
    + rewrite lookup_insert_ne by done. intros Hlock. by apply Hkeep.
  - intros [Hlock Hne]%release_Some. apply Hkeep; [done|congruence].
Qed.

Lemma sys_step_holders s s' : holders s → sys_step s s' → holders s'.
Proof.
  intros Hh Hstep. destruct Hstep as [i op org user inv s0 Hi _ _ _|i s0 s1 Hs|i t err s0 Hi _|o n org id s0 s1 _ _ Hr|b s0 _].
  - intros org' j Hlock. destruct (Hh org' j Hlock) as (t & Hj & ? & ?). exists t. simpl.
    rewrite lookup_insert_ne by congruence. done.
  - by eapply tx_step_holders.
  - intros org' j [Hlock Hne]%release_Some. destruct (Hh org' j Hlock) as (u & Hj & ? & ?). exists u. simpl.
    by rewrite lookup_insert_ne.
  - unfold revoke_step, update_invite in Hr. repeat case_bool_decide; try done. by injection Hr as <-.
  - done.
Qed.

Lemma reachable_holders b s : rtc sys_step (idle b) s → sys_ok s ∧ holders s.
Proof.
  intros H. split; [by apply (reachable_serial b)|]. refine (rtc_ind_r (R:=sys_step) holders (idle b) _ _ s H).
  - intros org j. simpl. by rewrite lookup_empty.
  - intros s1 s2 _ Hstep Hh. by eapply sys_step_holders.
Qed.

(** A transaction that holds its lock is never blocked: nobody else can have locked an
    invitation of its organization. *)
Lemma holding_steps j s t : sys_ok s → sys_txs s !! j = Some t → holding (tx_pc t) = true → tx_step j s ≠ None.
Proof.
  intros Hok Hj Hh. pose proof (Hok j t Hj) as (_ & _ & _ & Hp). unfold at_pc in Hp. rewrite Hh in Hp. destruct Hp as [[Hl _] Hk].
  unfold tx_step. rewrite Hj. destruct (tx_pc t) eqn:Hpc; simpl; try (repeat case_match; done).
  unfold knows in Hk. rewrite Hpc in Hk. destruct Hk as ((_ & Hmk & _) & _ & [id ->]). unfold update_invite.
  case_bool_decide as Hrow; [|done]. case_bool_decide as Hin; [|done]. exfalso.
  apply elem_of_marks in Hin as (i & u & Hi & Hu). pose proof (marked_row _ _ _ _ (Hok i u Hi) Hu) as [Hlu Hru].
  rewrite Hru in Hrow. injection Hrow as Horg. rewrite Horg, Hl in Hlu. injection Hlu as ->. congruence.
Qed.

Lemma locking_steps j s t :
  sys_txs s !! j = Some t → tx_pc t = Locking → sys_locks s !! tx_org t = None → tx_step j s ≠ None.
Proof. unfold tx_step. intros -> -> ->. by case_match. Qed.

(** One statement of one of the calls that have begun. *)
Definition statement (s s' : Sys) : Prop := ∃ j, tx_step j s = Some s'.

(** The statements the calls that have begun have yet to run, at most. *)
Definition remaining (s : Sys) : nat := map_fold (λ _ t n, rank (tx_pc t) + n)%nat 0%nat (sys_txs s).

Lemma remaining_bound s : (remaining s ≤ 6 * size (sys_txs s))%nat.
Proof.
  unfold remaining. induction (sys_txs s) as [|j t m Hj IH] using map_ind; [by rewrite map_fold_empty|].
  rewrite map_size_insert_None by done. rewrite map_fold_insert_L by (intros; first [done|lia]).
  destruct (tx_pc t); simpl; lia.
Qed.

Lemma statement_remaining s s' : statement s s' → (remaining s' < remaining s)%nat.
Proof.
  intros (j & (t & t' & Hj & Htx & _ & Hr & _)%tx_step_effect). unfold remaining. rewrite Htx, <- insert_delete_eq.
  rewrite map_fold_insert_L by (intros; first [lia|apply lookup_delete_eq]).
  rewrite (map_fold_delete_L _ _ j t (sys_txs s)) by (intros; first [lia|done]). lia.
Qed.

Lemma statements_remaining n s s' : nsteps statement n s s' → (n + remaining s' ≤ remaining s)%nat.
Proof. induction 1 as [|n s0 s1 s2 H%statement_remaining _ IH]; lia. Qed.

(** C15: interleaved membership calls all end.  Whatever the schedule, the calls that have
    begun take at most six statements each, and none waits forever: when no statement
    can run, every call has returned and no organization is locked. *)
Theorem interleavings_terminate b s :
  rtc sys_step (idle b) s →
  (∀ n s', nsteps statement n s s' → n ≤ 6 * size (sys_txs s))%nat ∧
  ((∀ s', ~ statement s s') → (∀ j t, sys_txs s !! j = Some t → ∃ r, tx_pc t = Finished r) ∧ sys_locks s = ∅).
Proof.
  intros [Hok Hh]%reachable_holders. split.
  - intros n s' Hn%statements_remaining. pose proof (remaining_bound s). lia.
  - intros Hstuck. assert (∀ j, tx_step j s = None) as Hnone.
    { intros j. destruct (tx_step j s) as [s'|] eqn:E; [|done]. destruct (Hstuck s'). by exists j. }
    assert (sys_locks s = ∅) as Hlocks.
    { apply map_empty. intros org. destruct (sys_locks s !! org) as [j|] eqn:E; [|done].
      destruct (Hh org j E) as (t & Hj & _ & Hp). by destruct (holding_steps j s t Hok Hj Hp). }
    split; [|done]. intros j t Hj. destruct (tx_pc t) eqn:Hpc; [|by destruct (holding_steps j s t Hok Hj); [rewrite Hpc|]..|eauto].
    destruct (locking_steps j s t Hj Hpc); [|done]. by rewrite Hlocks, lookup_empty.
Qed.

(** ** Schedules *)

(** What a scheduler picks: a call begins, a call runs its next statement, or an
    invitation is revoked. *)
Inductive pick := Begin (i : nat) (op : member_op) | Run (i : nat) | Revoke (orgID inviteID : string).

Definition play1 (p : pick) (s : Sys) : option Sys :=
  match p with
  | Begin i op =>
      match sys_txs s !! i, uuid_Parse (op_orgID op), uuid_Parse (op_userID op), parse_invite op with
      | None, Some org, Some user, Some invite => Some (set_tx i (mkTxn op org user invite Locking None None []) s)
      | _, _, _, _ => None
      end
  | Run i => tx_step i s
  | Revoke o n =>
      match uuid_Parse o, uuid_Parse n with
      | Some org, Some id => match revoke_step o n org id s with Some (inr s) => Some s | _ => None end
      | _, _ => None
      end
  end.

Fixpoint play (ps : list pick) (s : Sys) : option Sys :=
  match ps with
  | [] => Some s
  | p :: ps => match play1 p s with Some s => play ps s | None => None end
  end.

Lemma play_steps ps s s' : play ps s = Some s' → rtc sys_step s s'.
Proof.
  revert s. induction ps as [|p ps IH]; intros s; simpl; [intros [= ->]; apply rtc_refl|].
  destruct (play1 p s) as [s1|] eqn:E; [|done]. intros H. eapply rtc_l; [|by apply IH].
  destruct p as [i op|i|o n]; simpl in E; [|by eapply step_statement|].
  - repeat case_match; simplify_eq. by apply step_begin.
  - destruct (uuid_Parse o) as [org|] eqn:Eo, (uuid_Parse n) as [id|] eqn:En; try done.
    destruct (revoke_step o n org id s) as [[|s2]|] eqn:Er; simplify_eq. exact (step_revoke _ _ _ _ _ _ Eo En Er).
Qed.
End interleaving.

(** ** Two removals of the last two members *)

#[local] Existing Instance bits_uuid.

Definition two_members : Book :=
  mkBook (mkOrgs {[ [true]; [true; true] ]} {[ [false] := "acme" ]}
    (<[([false], [true]) := MembershipActive]> {[ ([false], [true; true]) := MembershipActive ]}) [])
    {[ [false; false] := ([false], InvitePending) ]}.

(** Both calls begin, the first one locks and runs, and the second one follows. *)
Definition two_removals : list pick :=
  [Begin 0 (OpRemove "u0" "u1"); Begin 1 (OpRemove "u0" "u11"); Run 0; Run 0; Run 0; Run 0; Run 0; Run 0; Run 1; Run 1; Run 1].

Definition after_removals : Sys := default (idle two_members) (play two_removals (idle two_members)).

Lemma after_removals_reachable : rtc sys_step (idle two_members) after_removals.
Proof. apply (play_steps two_removals). vm_compute. reflexivity. Qed.

(** While the first one holds the lock the second one waits, and in the end it is refused. *)
Example second_waits :
  (play (take 3 two_removals ++ [Run 1]) (idle two_members) = None) ∧
  (tx_pc <$> sys_txs after_removals !! 1%nat) = Some (Finished (Some ErrLastActiveMember)).
Proof. split; vm_compute; reflexivity. Qed.

Lemma interleavings_serializable_witness :
  sys_log after_removals = [Call (OpRemove "u0" "u1")] ∧ run_log (sys_log after_removals) two_members = Some (sys_book after_removals) ∧
  staffed [false] (bk_orgs (sys_book after_removals)).
Proof.
  destruct (interleavings_serializable two_members after_removals after_removals_reachable) as [H1 H2].
  assert (sys_log after_removals = [Call (OpRemove "u0" "u1")]) as Hlog by (vm_compute; reflexivity).
  split; [exact Hlog|]. split; [exact H1|]. apply H2.
  - unfold staffed. vm_compute. lia.
  - rewrite Hlog. cbn [others_keep]. destruct (entry_spec _ _); [exact I|split; exact I].
Defined.

Lemma interleavings_terminate_witness :
  (∀ n s', nsteps statement n after_removals s' → n ≤ 6 * size (sys_txs after_removals))%nat ∧
  ((∀ s', ~ statement after_removals s') →
   (∀ j t, sys_txs after_removals !! j = Some t → ∃ r, tx_pc t = Finished r) ∧ sys_locks after_removals = ∅).
Proof. exact (interleavings_terminate two_members after_removals after_removals_reachable). Defined.

(** ** An acceptance against a suspension and a revocation *)

(** The acceptance of u1, a member, begins first and is overtaken by the suspension of
    that member; then the invitation is revoked. *)
Definition overtaken : list pick :=
  [Begin 0 (OpAccept "u00" "u0" "u1"); Begin 1 (OpUpdate "u0" "u1" MembershipSuspended);
   Run 1; Run 1; Run 1; Run 1; Run 1; Run 1; Run 0; Run 0; Revoke "u0" "u00"].

Definition after_overtaken : Sys := default (idle two_members) (play overtaken (idle two_members)).

Lemma after_overtaken_reachable : rtc sys_step (idle two_members) after_overtaken.
Proof. apply (play_steps overtaken). vm_compute. reflexivity. Qed.

(** The acceptance is refused. *)
Example acceptance_refused : (tx_pc <$> sys_txs after_overtaken !! 0%nat) = Some (Finished (Some ErrInvalidInvite)).
Proof. vm_compute. reflexivity. Qed.

(** While an acceptance holds the row a revocation waits, and afterwards it finds nothing
    to revoke. *)
Example revocation_waits :
  (λ s, bool_decide (is_Some (revoke_step "u0" "u00" [false] [false; false] s))) <$>
    play [Begin 0 (OpAccept "u00" "u0" "u11"); Run 0; Run 0; Run 0] (idle two_members) = Some false ∧
  (λ s, match revoke_step "u0" "u00" [false] [false; false] s with Some (inl ErrInviteNotFound) => true | _ => false end) <$>
    play [Begin 0 (OpAccept "u00" "u0" "u11"); Run 0; Run 0; Run 0; Run 0; Run 0; Run 0] (idle two_members) = Some true.
Proof. split; vm_compute; reflexivity. Qed.

Lemma invitations_used_once_witness :
  uses [false; false] (sys_log after_overtaken) = 1%nat ∧ (uses [false; false] (sys_log after_overtaken) ≤ 1)%nat.
Proof.
  split; [vm_compute; reflexivity|]. exact (proj1 (invitations_used_once two_members after_overtaken [false; false] after_overtaken_reachable)).
Defined.
