(* ===== verification/Service.v ===== *)
(** Package [internal/application]: the use cases, over the ports of [Ports].

    A port the code compares with nil is an option; calling a method of a nil
    port panics.  The logger is left out: its calls return nothing and no branch
    depends on them. *)
From S2P Require Import Prelude GoStrings Domain Libs Tables Database World Ports.
Local Open Scope Z_scope.
Local Open Scope orbit_scope.

Section service.
Context `{V : Env} `{UC : UnicodeCase}.

Record Service := mkService {
  s_otp : option OTPStore;
  s_users : option UserStore;
  s_refresh : RefreshTokenStore;
  s_tokens : APITokenStore;
  s_orgs : option OrgStore;
  s_invites : option InviteStore;
  s_signup : option SignupStore;
  s_notifier : option Notifier;
  s_flags : option Flags;
  s_clock : Clock;
  s_ids : IDGenerator;
  s_signer : TokenSigner;
  s_hasher : Hasher;
  s_codes : CodeGenerator;
  s_secrets : SecretGenerator;
  s_signupOpen : bool;
  s_demoMode : bool;
  s_demoUsers : list DemoUser;
  s_autoSelectSingleOrg : bool;
}.

(** A method call on an interface value. *)
Definition on {P A : Type} (port : option P) (k : P → M A) : M A :=
  match port with
  | Some p => k p
  | None => panic "runtime error: invalid memory address or nil pointer dereference"
  end.

(** A token pair: access token, refresh token, expiry of the access token. *)
Definition Tokens : Type := string * string * time.

Context (s : Service).

(** ** service.go *)

Definition flag (name : string) : M bool :=
  match s_flags s with
  | None => ret false
  | Some f => f name false
  end.

Definition buildOTPChallenge (identifier channel : string) : M (OTPChallenge * string) :=
  code <- s_codes s ;;
  hash <- Hash (s_hasher s) code ;;
  now <- s_clock s ;;
  id <- s_ids s ;;
  ret (mkOTPChallenge id identifier channel hash (Add now OTPTTL) now 0, code).

Definition newOTPChallenge (identifier channel : string) : M (OTPChallenge * string) :=
  ignore (on (s_otp s) otp_DeleteExpiredChallenges) ;;
  let* (ch, code) := buildOTPChallenge identifier channel in
  on (s_otp s) (λ o, otp_UpsertChallenge o ch) ;;
  ret (ch, code).

Definition RequestOTP (identifier channel correlationID : string) : M time :=
  let identifier := TrimSpace identifier in
  let channel := TrimSpace channel in
  if String.eqb identifier "" || String.eqb channel "" then
    fail (Errorf "identifier and channel required" [])
  else
  (if String.eqb channel ChannelEmail then
     enabled <- flag "manova.auth.email_otp" ;;
     if negb enabled then fail ErrEmailOTPDisabled else ret ()
   else if String.eqb channel ChannelSMS then
     if negb (IsE164 identifier) then fail (Errorf "mobile must be E.164" []) else
     enabled <- flag "manova.auth.mobile_otp" ;;
     if negb enabled then fail ErrMobileOTPDisabled else ret ()
   else fail (Errorf "unsupported channel %q" [channel])) ;;
  let* (ch, code) := newOTPChallenge identifier channel in
  on (s_notifier s) (λ n, SendOTP n channel identifier code correlationID) ;;
  ret (ch_ExpiresAt ch).

(** organizations.go: [IsActiveMember]. *)
Definition IsActiveMember (orgID userID : string) : M bool :=
  let orgID := TrimSpace orgID in
  let userID := TrimSpace userID in
  if String.eqb orgID "" || String.eqb userID "" then
    fail (Errorf "org_id and user_id required" [])
  else
  r <- try (on (s_orgs s) (λ o, os_GetMembership o orgID userID)) ;;
  match r with
  | inl err => if errors_Is err ErrNotMember then ret false else fail err
  | inr membership => ret (bool_decide (m_Status membership = MembershipActive))
  end.

Definition issueTokensForOrg (userID orgID : string) : M Tokens :=
  now <- s_clock s ;;
  let expires := Add now AccessTokenTTL in
  access <- (if String.eqb orgID "" then SignAccessToken (s_signer s) userID expires
             else SignAccessTokenWithOrg (s_signer s) userID orgID expires) ;;
  id1 <- s_ids s ;;
  id2 <- s_ids s ;;
  let refresh := id1 +:+ id2 in
  rs_Store (s_refresh s) userID orgID (HashRefreshToken refresh) (Add now RefreshTokenTTL) ;;
  ret (access, refresh, expires).

Definition singleActiveOrg (userID : string) : M string :=
  match s_orgs s with
  | None => ret ""
  | Some o =>
      r <- try (os_ListOrgsForUser o userID) ;;
      match r with
      | inr [org] => ret (o_ID org)
      | _ => ret ""
      end
  end.

Definition issueTokens (userID : string) : M Tokens :=
  orgID <- (if s_autoSelectSingleOrg s then singleActiveOrg userID else ret "") ;;
  issueTokensForOrg userID orgID.

Definition activeOrg (userID orgID : string) : M string :=
  if String.eqb orgID "" || bool_decide (s_orgs s = None) then ret "" else
  r <- try (IsActiveMember orgID userID) ;;
  match r with
  | inr true => ret orgID
  | _ => ret ""
  end.

Definition VerifyOTP (identifier channel code : string) : M Tokens :=
  let identifier := TrimSpace identifier in
  let channel := TrimSpace channel in
  if String.eqb identifier "" || String.eqb channel "" || String.eqb code "" then fail ErrInvalidOTPCode else
  r <- try (on (s_otp s) (λ o, otp_GetLatestChallenge o identifier channel)) ;;
  match r with
  | inl _ => fail ErrInvalidOTPCode
  | inr ch =>
      now <- s_clock s ;;
      if After now (ch_ExpiresAt ch) then fail ErrInvalidOTPCode else
      if MaxOTPAttempts <=? ch_Attempts ch then fail ErrTooManyOTPAttempts else
      ok <- Compare (s_hasher s) (ch_CodeHash ch) code ;;
      if negb ok then
        ignore (on (s_otp s) (λ o, otp_IncrementAttempts o (ch_ID ch))) ;;
        fail ErrInvalidOTPCode
      else
      on (s_otp s) (λ o, otp_ConsumeChallenge o (ch_ID ch)) ;;
      user <- (if String.eqb channel ChannelEmail then on (s_users s) (λ u, us_FindOrCreateByEmail u identifier)
               else if String.eqb channel ChannelSMS then on (s_users s) (λ u, us_FindOrCreateByMobile u identifier)
               else fail (Errorf "unsupported channel" [])) ;;
      if String.eqb (u_Status user) UserSignupPending then fail ErrInvalidOTPCode else
      issueTokens (u_ID user)
  end.

Definition Refresh (refreshToken : string) : M Tokens :=
  let hash := HashRefreshToken refreshToken in
  r <- try (rs_FindValid (s_refresh s) hash) ;;
  match r with
  | inl _ => fail ErrInvalidRefresh
  | inr (userID, orgID) =>
      ignore (rs_Revoke (s_refresh s) hash) ;;
      org <- activeOrg userID orgID ;;
      issueTokensForOrg userID org
  end.

Definition SelectOrg (userID refreshToken orgID : string) : M Tokens :=
  let userID := TrimSpace userID in
  let orgID := TrimSpace orgID in
  if String.eqb userID "" || String.eqb orgID "" then fail ErrInvalidRefresh else
  match s_orgs s with
  | None => fail ErrNotMember
  | Some _ =>
      active <- IsActiveMember orgID userID ;;
      if negb active then fail ErrNotMember else
      let hash := HashRefreshToken refreshToken in
      r <- try (rs_FindValid (s_refresh s) hash) ;;
      match r with
      | inl _ => fail ErrInvalidRefresh
      | inr (tokenUserID, _) =>
          if negb (String.eqb tokenUserID userID) then fail ErrInvalidRefresh else
          ignore (rs_Revoke (s_refresh s) hash) ;;
          issueTokensForOrg userID orgID
      end
  end.

(** ** password_tokens.go *)

Definition LoginWithPassword (identifier password : string) : M Tokens :=
  let identifier := TrimSpace identifier in
  if String.eqb identifier "" || String.eqb password "" then fail ErrInvalidCredentials else
  r <- try (if IsE164 identifier then on (s_users s) (λ u, us_FindByMobile u identifier)
            else on (s_users s) (λ u, us_FindByEmail u (ToLower identifier))) ;;
  match r with
  | inl _ => fail ErrInvalidCredentials
  | inr user =>
      if String.eqb (u_Status user) UserSignupPending then fail ErrInvalidCredentials else
      if String.eqb (u_Status user) UserDisabled then fail ErrUserDisabled else
      ok <- (if String.eqb (u_PasswordHash user) "" then ret false
             else Compare (s_hasher s) (u_PasswordHash user) password) ;;
      if negb ok then fail ErrInvalidCredentials else
      ignore (on (s_users s) (λ u, us_UpdateLastLogin u (u_ID user))) ;;
      issueTokens (u_ID user)
  end.

(** Slicing a string past its end panics. *)
Definition CreateApiToken (userID name : string) (scopes : option (list string)) (expiresAt : option time)
    : M (string * string * string) :=
  if String.eqb userID "" || String.eqb (TrimSpace name) "" then fail (Errorf "user_id and name required" []) else
  raw <- s_secrets s ;;
  if bool_decide (len raw < APITokenPrefixLength)%nat then panic "runtime error: slice bounds out of range" else
  let prefix := slice_to APITokenPrefixLength raw in
  hash <- Hash (s_hasher s) raw ;;
  tokenID <- s_ids s ;;
  ts_Create (s_tokens s) (mkAPIToken tokenID userID name prefix hash scopes expiresAt None 0) ;;
  ret (tokenID, prefix, APITokenScheme +:+ prefix +:+ "." +:+ slice_from APITokenPrefixLength raw).

Definition ListApiTokens (userID : string) : M (list APITokenInfo) :=
  if String.eqb userID "" then fail (Errorf "user_id required" []) else ts_ListByUser (s_tokens s) userID.

Definition RevokeApiToken (userID tokenID : string) : M unit :=
  if String.eqb userID "" || String.eqb tokenID "" then fail (Errorf "user_id and token_id required" [])
  else ts_RevokeToken (s_tokens s) userID tokenID.

Definition ValidateApiToken (secret : string) : M (string * option (list string)) :=
  let secret := TrimPrefix (TrimSpace secret) APITokenScheme in
  match SplitN2 "." secret with
  | [prefix; rest] =>
      if negb (Nat.eqb (len prefix) APITokenPrefixLength) || String.eqb rest "" then fail ErrInvalidToken else
      let full := prefix +:+ rest in
      r <- try (ts_FindByPrefix (s_tokens s) prefix) ;;
      match r with
      | inl _ => fail ErrInvalidToken
      | inr t =>
          match at_RevokedAt t with
          | Some _ => fail ErrInvalidToken
          | None =>
              expired <- match at_ExpiresAt t with
                         | None => ret false
                         | Some e => now <- s_clock s ;; ret (After now e)
                         end ;;
              if expired : bool then fail ErrInvalidToken else
              ok <- Compare (s_hasher s) (at_TokenHash t) full ;;
              if negb ok then fail ErrInvalidToken else
              ret (at_UserID t, at_Scopes t)
          end
      end
  | _ => fail ErrInvalidToken
  end.

Fixpoint seedUsers (users : list DemoUser) : M unit :=
  match users with
  | [] => ret ()
  | u :: users =>
      hash <- Hash (s_hasher s) (du_Password u) ;;
      let email := ToLower (TrimSpace (du_Email u)) in
      let mobile := TrimSpace (du_Mobile u) in
      if String.eqb email "" && String.eqb mobile "" then fail (Errorf "demo user requires email or mobile" []) else
      if negb (String.eqb mobile "") && negb (IsE164 mobile) then fail (Errorf "demo user mobile must be E.164" []) else
      on (s_users s) (λ us, us_UpsertDemoUser us email mobile hash (du_DisplayName u)) ;;
      seedUsers users
  end.

Definition SeedDemoUsers : M unit :=
  if negb (s_demoMode s) then ret () else seedUsers (s_demoUsers s).

(** ** organizations.go *)

Definition requireUser (userID : string) : M unit :=
  match s_users s with
  | None => fail (Errorf "user store is not configured" [])
  | Some u => us_FindByID u userID ;; ret ()
  end.

Definition CreateOrg (creatorID name : string) : M Organization :=
  let creatorID := TrimSpace creatorID in
  let name := TrimSpace name in
  if String.eqb creatorID "" then fail (Errorf "creator_id required" []) else
  if String.eqb name "" then fail ErrInvalidOrgName else
  now <- s_clock s ;;
  id <- s_ids s ;;
  let org := mkOrganization id name now now in
  on (s_orgs s) (λ o, os_CreateOrg o org creatorID) ;;
  ret org.

Definition ListOrgsForUser (userID : string) : M (list Organization) :=
  let userID := TrimSpace userID in
  if String.eqb userID "" then fail (Errorf "user_id required" []) else
  on (s_orgs s) (λ o, os_ListOrgsForUser o userID).

Definition ListMembers (orgID : string) : M (list Membership) :=
  let orgID := TrimSpace orgID in
  if String.eqb orgID "" then fail (Errorf "org_id required" []) else
  on (s_orgs s) (λ o, os_GetOrg o orgID) ;;
  on (s_orgs s) (λ o, os_ListMembers o orgID).

Definition AddMember (orgID userID : string) : M unit :=
  let orgID := TrimSpace orgID in
  let userID := TrimSpace userID in
  if String.eqb orgID "" || String.eqb userID "" then fail (Errorf "org_id and user_id required" []) else
  requireUser userID ;;
  on (s_orgs s) (λ o, os_GetOrg o orgID) ;;
  on (s_orgs s) (λ o, os_AddMember o orgID userID MembershipActive).

Definition SuspendMember (orgID userID : string) : M unit :=
  let orgID := TrimSpace orgID in
  let userID := TrimSpace userID in
  if String.eqb orgID "" || String.eqb userID "" then fail (Errorf "org_id and user_id required" []) else
  requireUser userID ;;
  membership <- on (s_orgs s) (λ o, os_GetMembership o orgID userID) ;;
  if bool_decide (m_Status membership ≠ MembershipActive) then ret () else
  on (s_orgs s) (λ o, os_UpdateMemberStatus o orgID userID MembershipSuspended).

Definition RemoveMember (orgID userID : string) : M unit :=
  let orgID := TrimSpace orgID in
  let userID := TrimSpace userID in
  if String.eqb orgID "" || String.eqb userID "" then fail (Errorf "org_id and user_id required" []) else
  requireUser userID ;;
  on (s_orgs s) (λ o, os_GetMembership o orgID userID) ;;
  on (s_orgs s) (λ o, os_RemoveMember o orgID userID).

(** ** invites.go *)

Definition defaultInviteLocale : string := "fa".

Definition inviteRecipientMatches (user : User) (inviteEmail : string) : bool :=
  negb (String.eqb (u_Email user) "") && u_EmailVerified user &&
  String.eqb (u_Status user) UserActive && EqualFold (u_Email user) inviteEmail.

(** The invitation without its token hash, as callers receive it. *)
Definition withoutHash (i : Invite) : Invite :=
  mkInvite (i_ID i) (i_OrgID i) (i_Email i) "" (i_InviterID i) (i_Status i)
    (i_ExpiresAt i) (i_AcceptedAt i) (i_CreatedAt i).

(** When the notification and the revocation both fail, the error wraps the
    first; the text of the second is left out. *)
Definition InviteMember (orgID inviterID email : string) : M Invite :=
  let orgID := TrimSpace orgID in
  let inviterID := TrimSpace inviterID in
  if String.eqb orgID "" || String.eqb inviterID "" then fail (Errorf "org_id and inviter_id required" []) else
  let email := NormalizeEmail email in
  if negb (IsEmail email) then fail ErrInvalidEmail else
  match s_invites s with
  | None => fail (Errorf "invite store is not configured" [])
  | Some invites =>
      active <- IsActiveMember orgID inviterID ;;
      if negb active then fail ErrNotMember else
      org <- on (s_orgs s) (λ o, os_GetOrg o orgID) ;;
      inviter <- on (s_users s) (λ u, us_FindByID u inviterID) ;;
      token <- s_secrets s ;;
      now <- s_clock s ;;
      id <- s_ids s ;;
      let invite := mkInvite id orgID email (HashInviteToken token) inviterID InvitePending
                      (Add now InviteTTL) None now in
      is_CreateInvite invites invite ;;
      let inviterName := if String.eqb (u_DisplayName inviter) "" then u_Email inviter else u_DisplayName inviter in
      let notification := mkInviteNotification email (o_Name org) inviterName token (i_ExpiresAt invite)
                            defaultInviteLocale (i_ID invite) in
      r <- try (on (s_notifier s) (λ n, SendOrgInvite n notification)) ;;
      match r with
      | inl err =>
          rr <- try (is_RevokeInvite invites orgID (i_ID invite)) ;;
          match rr with
          | inl _ => fail (Errorw "send invite: %w (revoke failed: %v)" [] err)
          | inr _ => fail err
          end
      | inr _ => ret (withoutHash invite)
      end
  end.

Definition AcceptInvite (userID token : string) : M Invite :=
  let userID := TrimSpace userID in
  let token := TrimSpace token in
  if String.eqb userID "" || String.eqb token "" then fail ErrInvalidInvite else
  match s_invites s with
  | None => fail ErrInvalidInvite
  | Some invites =>
      r <- try (is_FindInviteByTokenHash invites (HashInviteToken token)) ;;
      match r with
      | inl err => if errors_Is err ErrInviteNotFound then fail ErrInvalidInvite else fail err
      | inr invite =>
          now <- s_clock s ;;
          if bool_decide (i_Status invite ≠ InvitePending) || negb (Before now (i_ExpiresAt invite))
          then fail ErrInvalidInvite else
          ru <- try (on (s_users s) (λ u, us_FindByID u userID)) ;;
          match ru with
          | inl err => if errors_Is err ErrUserNotFound then fail ErrInvalidInvite else fail err
          | inr user =>
              if negb (inviteRecipientMatches user (i_Email invite)) then fail ErrInvalidInvite else
              ra <- try (is_AcceptInvite invites (i_ID invite) (i_OrgID invite) userID now) ;;
              match ra with
              | inl err => if errors_Is err ErrInviteNotFound then fail ErrInvalidInvite else fail err
              | inr _ =>
                  ret (mkInvite (i_ID invite) (i_OrgID invite) (i_Email invite) "" (i_InviterID invite)
                         InviteAccepted (i_ExpiresAt invite) (Some now) (i_CreatedAt invite))
              end
          end
      end
  end.

Definition RevokeInvite (orgID inviteID callerID : string) : M unit :=
  let orgID := TrimSpace orgID in
  let inviteID := TrimSpace inviteID in
  let callerID := TrimSpace callerID in
  if String.eqb orgID "" || String.eqb inviteID "" || String.eqb callerID "" then
    fail (Errorf "org_id, invite_id and caller_id required" [])
  else
  match s_invites s with
  | None => fail (Errorf "invite store is not configured" [])
  | Some invites =>
      active <- IsActiveMember orgID callerID ;;
      if negb active then fail ErrNotMember else
      is_RevokeInvite invites orgID inviteID
  end.

Definition ListInvites (orgID : string) : M (list Invite) :=
  let orgID := TrimSpace orgID in
  if String.eqb orgID "" then fail (Errorf "org_id required" []) else
  match s_invites s with
  | None => fail (Errorf "invite store is not configured" [])
  | Some invites =>
      on (s_orgs s) (λ o, os_GetOrg o orgID) ;;
      l <- is_ListInvites invites orgID ;;
      ret (withoutHash <$> l)
  end.

(** ** signup.go *)

Definition defaultSignupLocale : string := "en".
Definition signupVerificationCooldown : duration := 60 * Second.

(** [int(domain.OTPTTL.Minutes())]. *)
Definition otpMinutes : Z := OTPTTL / Minute.

Definition signupInvite (token email : string) : M (option Invite) :=
  let token := TrimSpace token in
  if String.eqb token "" then ret None else
  match s_invites s with
  | None => fail ErrInvalidInvite
  | Some invites =>
      r <- try (is_FindInviteByTokenHash invites (HashInviteToken token)) ;;
      match r with
      | inl err => if errors_Is err ErrInviteNotFound then fail ErrInvalidInvite else fail err
      | inr invite =>
          now <- s_clock s ;;
          if bool_decide (i_Status invite ≠ InvitePending) || negb (Before now (i_ExpiresAt invite)) ||
             negb (EqualFold (i_Email invite) email)
          then fail ErrInvalidInvite else ret (Some invite)
      end
  end.

Definition signupCooldownActive (email : string) (now : time) : M bool :=
  r <- try (on (s_otp s) (λ o, otp_GetLatestChallenge o email ChannelEmail)) ;;
  match r with
  | inl _ => ret false
  | inr ch =>
      if IsZero (ch_CreatedAt ch) then ret false
      else ret (Sub now (ch_CreatedAt ch) <? signupVerificationCooldown)
  end.

(** [errors.Is(err, domain.ErrInviteNotFound)] becomes the generic error. *)
Definition genericInvite {A} (err : error) : M A :=
  if errors_Is err ErrInviteNotFound then fail ErrInvalidInvite else fail err.

Definition retryPendingSignup (user : User) (invite : option Invite) (locale : string) (now : time) : M unit :=
  match invite with
  | Some invite =>
      r <- try (on (s_signup s) (λ ss, ss_ReissuePendingSignup ss user None (Some invite) now)) ;;
      match r with
      | inl err => genericInvite err
      | inr _ => ret ()
      end
  | None =>
      r <- try (on (s_users s) (λ u, us_FindByEmail u (u_Email user))) ;;
      if match r with
         | inr existing => negb (String.eqb (u_Status existing) UserSignupPending) || u_EmailVerified existing
         | inl _ => false
         end
      then ret () else
      cooldown <- signupCooldownActive (u_Email user) now ;;
      if cooldown : bool then
        on (s_signup s) (λ ss, ss_ReissuePendingSignup ss user None None now) ;; ret ()
      else
      let* (challenge, code) := buildOTPChallenge (u_Email user) ChannelEmail in
      let* (userID, reissued) := on (s_signup s) (λ ss, ss_ReissuePendingSignup ss user (Some challenge) None now) in
      if negb reissued then ret () else
      on (s_notifier s) (λ n, SendSignupVerification n (u_Email user) code otpMinutes locale userID)
  end.

Definition RegisterWithEmail (email password displayName locale orgName inviteToken : string) : M unit :=
  if negb (s_signupOpen s) then fail ErrSignupDisabled else
  if bool_decide (s_signup s = None) || bool_decide (s_users s = None) || bool_decide (s_notifier s = None) ||
     bool_decide (s_otp s = None)
  then fail (Errorf "sign-up is not configured" []) else
  let email := NormalizeEmail email in
  if negb (IsEmail email) then fail ErrInvalidEmail else
  if String.eqb (TrimSpace password) "" then fail ErrPasswordRequired else
  let displayName := TrimSpace displayName in
  let locale := if String.eqb (TrimSpace locale) "" then defaultSignupLocale else TrimSpace locale in
  invite <- signupInvite inviteToken email ;;
  hash <- Hash (s_hasher s) password ;;
  now <- s_clock s ;;
  id <- s_ids s ;;
  let user := match invite with
              | Some _ => mkUser id email "" hash displayName UserActive true
              | None => mkUser id email "" hash displayName UserSignupPending false
              end in
  org <- match invite with
         | Some _ => ret None
         | None =>
             let name := TrimSpace orgName in
             if negb (String.eqb name "") then
               orgID <- s_ids s ;; ret (Some (mkOrganization orgID name now now))
             else ret None
         end ;;
  r <- try (on (s_signup s) (λ ss, ss_CreateSignupUser ss user org invite now)) ;;
  match r with
  | inl err => genericInvite err
  | inr created =>
      if negb created then retryPendingSignup user invite locale now else
      match invite with
      | Some _ => ret ()
      | None =>
          let* (ch, code) := newOTPChallenge email ChannelEmail in
          on (s_notifier s) (λ n, SendSignupVerification n email code otpMinutes locale (u_ID user))
      end
  end.

Definition VerifySignup (email code password : string) : M Tokens :=
  if negb (s_signupOpen s) then fail ErrSignupDisabled else
  if bool_decide (s_signup s = None) || bool_decide (s_users s = None) || bool_decide (s_otp s = None)
  then fail (Errorf "sign-up is not configured" []) else
  let email := NormalizeEmail email in
  let code := TrimSpace code in
  if String.eqb email "" || String.eqb code "" then fail ErrInvalidOTPCode else
  r <- try (on (s_otp s) (λ o, otp_GetLatestChallenge o email ChannelEmail)) ;;
  match r with
  | inl _ => fail ErrInvalidOTPCode
  | inr ch =>
      now <- s_clock s ;;
      if After now (ch_ExpiresAt ch) then fail ErrInvalidOTPCode else
      if MaxOTPAttempts <=? ch_Attempts ch then fail ErrTooManyOTPAttempts else
      ok <- Compare (s_hasher s) (ch_CodeHash ch) code ;;
      if negb ok then
        ignore (on (s_otp s) (λ o, otp_IncrementAttempts o (ch_ID ch))) ;;
        fail ErrInvalidOTPCode
      else
      ru <- try (on (s_users s) (λ u, us_FindByEmail u email)) ;;
      match ru with
      | inl _ =>
          ignore (on (s_otp s) (λ o, otp_IncrementAttempts o (ch_ID ch))) ;;
          fail ErrInvalidOTPCode
      | inr user =>
          good <- (if negb (String.eqb (u_Status user) UserSignupPending) || u_EmailVerified user ||
                      String.eqb (u_PasswordHash user) ""
                   then ret false
                   else Compare (s_hasher s) (u_PasswordHash user) password) ;;
          if negb good then
            ignore (on (s_otp s) (λ o, otp_IncrementAttempts o (ch_ID ch))) ;;
            fail ErrInvalidOTPCode
          else
          on (s_otp s) (λ o, otp_ConsumeChallenge o (ch_ID ch)) ;;
          rv <- try (on (s_signup s) (λ ss, ss_VerifySignup ss (u_ID user) now)) ;;
          match rv with
          | inl err => if errors_Is err ErrUserNotFound then fail ErrInvalidOTPCode else fail err
          | inr _ => issueTokens (u_ID user)
          end
      end
  end.

Definition PurgeUnverifiedSignups (before : time) : M Z :=
  match s_signup s with
  | None => fail (Errorf "sign-up store is not configured" [])
  | Some ss =>
      if IsZero before then fail (Errorf "cutoff is required" []) else
      ss_PurgeUnverifiedSignups ss before
  end.

(** ** feature_flags.go *)

Definition FeatureFlags_List (store : FeatureFlagStore) : M (list FeatureFlag) := store.
End service.
