(* ===== verification/Adapters.v ===== *)
(** The production adapters behind the ports: [internal/infrastructure]
    credentials, clock, ids and notifications, and the service wired with them
    and the Postgres store as [cmd/auth] does. *)
From S2P Require Import Prelude GoStrings Encodings Domain Libs Tables Database World Effects Ports Postgres Exec Service.
Local Open Scope Z_scope.
Local Open Scope orbit_scope.

(** ** Decimal numbers *)

Definition dec_digit (n : Z) : ascii := ascii_of_nat (48 + Z.to_nat n).

(** The digits of a non-negative number; a 64-bit one has at most 19. *)
Fixpoint digits (fuel : nat) (n : Z) : list ascii :=
  match fuel with
  | O => []
  | S fuel => (if n <? 10 then [] else digits fuel (n / 10)) ++ [dec_digit (n mod 10)]
  end.

(** strconv.Itoa. *)
Definition Itoa (n : Z) : string :=
  if n <? 0 then "-" +:+ of_bytes (digits 19 (- n)) else of_bytes (digits 19 n).

(** fmt.Sprintf with the verb %06d, for a non-negative number. *)
Definition Sprintf06d (n : Z) : string :=
  let d := digits 19 n in of_bytes (repeat "0"%char (6 - length d) ++ d).

(** ** The connection of notifications/client.go *)

(** google.golang.org/grpc: [grpc_NewClient] fails on an address or options it rejects. *)
Class GrpcDial := {
  DialOption : Type;
  insecure_credentials : DialOption;
  grpc_NewClient : string → list DialOption → option error;
}.

(** The API is known by the connection it uses. *)
Record Client `{GrpcDial} := mkClient { c_addr : string; c_opts : list DialOption }.
Arguments mkClient {_} _ _.
Arguments c_addr {_} _.
Arguments c_opts {_} _.

(** The options of the caller come after, and so override, the default credentials. *)
Definition NewClient `{GrpcDial} (addr : string) (opts : list DialOption) : error + Client :=
  let opts := [insecure_credentials] ++ opts in
  match grpc_NewClient addr opts with
  | Some err => inl err
  | None => inr (mkClient addr opts)
  end.

Section adapters.
Context `{V : Env} `{UC : UnicodeCase}.

(** ** credentials.go *)

Definition bcryptHasher : Hasher := mkHasher
  (λ secret, n <- tick ;; of_sum (bcrypt_Generate n secret))
  (λ hash secret, ret (bcrypt_Compare hash secret)).

Definition NewCode : M string :=
  n <- tick ;;
  v <- of_sum (rand_Int n 1000000) ;;
  ret (Sprintf06d v).

Definition NewSecret : M string :=
  n <- tick ;;
  b <- of_sum (rand_Read n 32) ;;
  ret (of_bytes (RawURLEncode b)).

(** ** ids.go *)

Definition NewID : M string := u <- NewUUID ;; ret (uuid_String u).

(** ** notifications/client.go *)

(** A call of [c.api.Send]; a request that was accepted is recorded. *)
Definition Send (req : SendRequest) : M unit := λ w,
  let w' l := mkWorld (w_db w) (w_tx w) (S (w_tick w)) l in
  match api_Send (w_tick w) req with
  | Some err => (Fail err, w' (w_sent w))
  | None => (Ret (), w' (w_sent w ++ [req]))
  end.

Definition client_SendOTP (channel recipient code correlationID : string) : M unit :=
  let template := if String.eqb channel "sms" then "otp_login_sms" else "otp_login" in
  Send (mkSendRequest template channel recipient correlationID [("code", code)]).

Definition client_SendSignupVerification (recipient code : string) (expiresInMinutes : Z)
    (locale correlationID : string) : M unit :=
  let locale := if negb (String.eqb locale "fa") && negb (String.eqb locale "en") then "en" else locale in
  Send (mkSendRequest "signup_verify" "email" recipient correlationID
    [("code", code); ("expires_in_minutes", Itoa expiresInMinutes); ("locale", locale)]).

(** The expiry variable is the RFC 3339 text of the instant; [rfc3339] renders it. *)
Definition client_SendOrgInvite (rfc3339 : time → string) (invite : InviteNotification) : M unit :=
  let locale := if negb (String.eqb (in_Locale invite) "fa") && negb (String.eqb (in_Locale invite) "en") then "fa"
                else in_Locale invite in
  Send (mkSendRequest "org_invite" "email" (in_Recipient invite) (in_CorrelationID invite)
    [("org_name", in_OrgName invite); ("inviter_name", in_InviterName invite);
     ("accept_token", in_AcceptToken invite); ("expires_at", rfc3339 (in_ExpiresAt invite)); ("locale", locale)]).

Definition notificationsClient (rfc3339 : time → string) : Notifier :=
  mkNotifier client_SendOTP client_SendSignupVerification (client_SendOrgInvite rfc3339).

(** ** The wired service *)

(** Configuration read from the environment by [cmd/auth]. *)
Record Config := mkConfig {
  cfg_signupOpen : bool;
  cfg_demoMode : bool;
  cfg_demoUsers : list DemoUser;
  cfg_autoSelectSingleOrg : bool;
}.

Definition wired (flags : Flags) (signer : TokenSigner) (rfc3339 : time → string) (cfg : Config) : Service :=
  mkService (Some pg_otp) (Some pg_users) pg_refresh pg_tokens (Some pg_orgs) (Some pg_invites) (Some pg_signup)
    (Some (notificationsClient rfc3339)) (Some flags) Now NewID signer bcryptHasher NewCode NewSecret
    (cfg_signupOpen cfg) (cfg_demoMode cfg) (cfg_demoUsers cfg) (cfg_autoSelectSingleOrg cfg).

(** The documented behaviour of bcrypt and crypto/rand the service relies on: a
    hash matches the secret it was made from, a random number is in range, and a
    random read fills its buffer. *)
Class CredentialLaws : Prop := {
  bcrypt_correct : ∀ n secret h, bcrypt_Generate n secret = inr h → bcrypt_Compare h secret = true;
  rand_Int_range : ∀ n max v, 0 < max → rand_Int n max = inr v → 0 ≤ v < max;
  rand_Read_length : ∀ n k b, rand_Read n k = inr b → length b = k;
}.
End adapters.
Arguments CredentialLaws {L} V.

(** ** Properties of the encodings *)

(** The number a run of decimal digits denotes. *)
Definition decimal_value (l : list ascii) : Z := foldl (λ acc d, 10 * acc + (byte_value d - 48)) 0 l.

Lemma dec_digit_ok n : 0 ≤ n < 10 → digit (dec_digit n) = true ∧ byte_value (dec_digit n) - 48 = n.
Proof.
  intros Hn. assert (n ∈ seqZ 0 10) as Hin by (apply elem_of_seqZ; lia). revert n Hn Hin.
  assert (Forall (λ n, digit (dec_digit n) = true ∧ byte_value (dec_digit n) - 48 = n) (seqZ 0 10)) as H.
  { refine (bool_decide_unpack (Forall _ _) _). vm_compute. exact I. }
  rewrite Forall_forall in H. auto.
Qed.

Lemma decimal_value_snoc l d : decimal_value (l ++ [d]) = 10 * decimal_value l + (byte_value d - 48).
Proof. unfold decimal_value. by rewrite foldl_app. Qed.

Lemma digits_ok fuel n :
  0 ≤ n < 10 ^ Z.of_nat fuel → forallb digit (digits fuel n) = true ∧ decimal_value (digits fuel n) = n.
Proof.
  revert n. induction fuel as [|fuel IH]; intros n Hn; [change (10 ^ Z.of_nat 0) with 1 in Hn; simpl; split; [done|]; cbn; lia|].
  cbn [digits]. destruct (dec_digit_ok (n mod 10)) as [Hd Hv]; [apply Z.mod_pos_bound; lia|].
  rewrite forallb_app, decimal_value_snoc. cbn [forallb]. rewrite Hd, Hv.
  destruct (Z.ltb_spec n 10).
  - split; [done|]. rewrite Z.mod_small by lia. done.
  - destruct (IH (n / 10)) as [-> ->].
    { split; [apply Z.div_pos; lia|]. apply Z.div_lt_upper_bound; [lia|].
      rewrite Nat2Z.inj_succ, Z.pow_succ_r in Hn by lia. lia. }
    split; [done|]. pose proof (Z.div_mod n 10). lia.
Qed.

Lemma length_digits fuel n k :
  (0 < k)%nat → 0 ≤ n < 10 ^ Z.of_nat k → (length (digits fuel n) ≤ k)%nat.
Proof.
  revert n k. induction fuel as [|fuel IH]; intros n k Hk Hn; cbn [digits]; [cbn; lia|].
  rewrite length_app. cbn [length]. destruct (Z.ltb_spec n 10); [cbn; lia|].
  destruct k as [|k]; [lia|]. rewrite Nat2Z.inj_succ, Z.pow_succ_r in Hn by lia.
  destruct k as [|k]; [change (10 ^ Z.of_nat 0) with 1 in Hn; lia|].
  enough (length (digits fuel (n / 10)) ≤ S k)%nat by lia.
  apply IH; [lia|]. split; [apply Z.div_pos; lia|]. apply Z.div_lt_upper_bound; lia.
Qed.

Lemma decimal_value_pad k l : decimal_value (repeat "0"%char k ++ l) = decimal_value l.
Proof.
  unfold decimal_value. rewrite foldl_app. f_equal. induction k as [|k IH]; [done|].
  cbn [repeat foldl]. exact IH.
Qed.

Section credentials.
Context `{V : Env} `{!CredentialLaws V}.

(** An OTP code is the zero-padded six-digit decimal text of the random
    number below one million that was drawn, so distinct draws give distinct
    codes. *)
Theorem NewCode_format (w w' : World) (code : string) :
  NewCode w = (Ret code, w') →
  ∃ v, rand_Int (w_tick w) 1000000 = inr v ∧ 0 ≤ v < 1000000 ∧
       len code = 6%nat ∧ forallb digit (to_bytes code) = true ∧ decimal_value (to_bytes code) = v.
Proof.
  unfold NewCode, bind, tick, of_sum. destruct (rand_Int (w_tick w) 1000000) as [e|v] eqn:E; intros [= <- <-].
  exists v. pose proof (rand_Int_range _ 1000000 _ eq_refl E) as Hv. split; [done|]. split; [done|].
  unfold Sprintf06d, len. rewrite to_of_bytes.
  destruct (digits_ok 19 v) as [Hd Hval]; [split; [lia|]; etrans; [apply Hv|reflexivity]|].
  pose proof (length_digits 19 v 6 ltac:(lia) ltac:(change (10 ^ Z.of_nat 6) with 1000000; lia)) as Hl.
  split_and!.
  - rewrite length_app, repeat_length. lia.
  - rewrite forallb_app, Hd, andb_true_r. generalize (6 - length (digits 19 v))%nat. intros k. by induction k.
  - by rewrite decimal_value_pad.
Qed.

Lemma NewSecret_spec w secret w' :
  NewSecret w = (Ret secret, w') → len secret = 43%nat ∧ forallb base64url (to_bytes secret) = true.
Proof.
  unfold NewSecret, bind, tick, of_sum. destruct (rand_Read (w_tick w) 32) as [e|b] eqn:E; intros [= <- <-].
  unfold len. rewrite to_of_bytes, length_RawURLEncode, (rand_Read_length _ _ _ E).
  split; [reflexivity|apply RawURLEncode_ok].
Qed.
End credentials.
