(* ===== verification/Grpc.v ===== *)
(** Package [internal/infrastructure/grpc]: the access-token interceptor and the
    handlers of AuthService, OrgService and SignupService over the application.

    A handler's request is given by its fields; a field that is absent reads as
    the zero value, as the generated getters return it.  A handler returns a
    response or a gRPC status; an error that is returned as it is becomes
    [Plain].  The text of a status is literal or the text of an error.  Log calls
    are left out. *)
From S2P Require Import Prelude GoStrings Domain Libs Tenancy Tables Database World Ports Token Service.
Local Open Scope Z_scope.
Local Open Scope orbit_scope.

Inductive message := Text (s : string) | ErrorText (err : error).

Inductive rpc_error :=
  | Status (code : grpc_code) (msg : message)
  | Plain (err : error).

(** ** Responses *)

Record TokenResponse := mkTokenResponse {
  tr_AccessToken : string;
  tr_RefreshToken : string;
  tr_ExpiresAt : string;
}.

Record ApiTokenInfoProto := mkApiTokenInfoProto {
  pi_TokenId : string;
  pi_Name : string;
  pi_Prefix : string;
  pi_Scopes : option (list string);
  pi_CreatedAt : string;
  pi_ExpiresAt : string;
}.

Record OrganizationProto := mkOrganizationProto {
  po_Id : string;
  po_Name : string;
  po_CreatedAt : string;
  po_UpdatedAt : string;
}.

Record MembershipProto := mkMembershipProto {
  pm_OrgId : string;
  pm_UserId : string;
  pm_Status : string;
  pm_CreatedAt : string;
  pm_UpdatedAt : string;
}.

Record InviteProto := mkInviteProto {
  pv_Id : string;
  pv_OrgId : string;
  pv_Email : string;
  pv_InviterId : string;
  pv_Status : string;
  pv_ExpiresAt : string;
  pv_CreatedAt : string;
  pv_AcceptedAt : string;
}.

Section grpc.
Context `{V : Env} `{UC : UnicodeCase} `{J : JWTLib}.

(** [time.Time.Format] and [time.Parse] with RFC3339. *)
Context (rfc3339 : time → string) (parse_rfc3339 : string → option time).

Definition RPC (A : Type) : Type := M (rpc_error + A).

(** [return resp, nil] and [return nil, err]. *)
Definition respond {A} (a : A) : RPC A := ret (inr a).
Definition reject {A} (err : rpc_error) : RPC A := ret (inl err).

(** [x, err := m; if err != nil { return nil, err }]. *)
Definition andThen {A B} (m : RPC A) (k : A → RPC B) : RPC B :=
  r <- m ;;
  match r with
  | inl err => reject err
  | inr a => k a
  end.

(** [x, err := m; if err != nil { return nil, f(err) }]. *)
Definition calling {A} (f : error → rpc_error) (m : M A) : RPC A :=
  r <- try m ;;
  match r with
  | inl err => reject (f err)
  | inr a => respond a
  end.

(** ** auth.go *)

Definition authorizationMetadataKey : string := "authorization".

(** Incoming metadata, if any, with the values of each key. *)
Definition MD : Type := option (gmap string (list string)).

Definition withCallerID (ctx : Ctx) (callerID : string) : Ctx := mkCtx (ctx_org ctx) (Some callerID).

Definition callerIDFromContext (ctx : Ctx) : option string :=
  match ctx_callerID ctx with
  | None => None
  | Some callerID => let callerID := TrimSpace callerID in if String.eqb callerID "" then None else Some callerID
  end.

Definition bearerToken (md : MD) : error + string :=
  match md with
  | None => inl (Errorf "missing metadata" [])
  | Some md =>
      match default [] (md !! authorizationMetadataKey) with
      | [] => inl (Errorf "missing authorization metadata" [])
      | value :: _ =>
          match SplitN2 " " (TrimSpace value) with
          | [scheme; rest] =>
              if negb (EqualFold scheme "Bearer") then inl (Errorf "authorization metadata is not a bearer token" [])
              else let raw := TrimSpace rest in
                   if String.eqb raw "" then inl (Errorf "bearer token is empty" []) else inr raw
          | _ => inl (Errorf "authorization metadata is not a bearer token" [])
          end
      end
  end.

Definition AccessTokenUnaryServerInterceptor {R A} (keys : KeySet) (ctx : Ctx) (md : MD) (req : R) (FullMethod : string)
    (handler : Ctx → R → RPC A) : RPC A :=
  if negb (HasPrefix FullMethod "/auth.v1.OrgService/") then handler ctx req else
  match bearerToken md with
  | inl _ => reject (Status Unauthenticated (Text "authentication required"))
  | inr raw =>
      now <- Now ;;
      match ParseAccessToken now raw keys with
      | inl _ => reject (Status Unauthenticated (Text "invalid or expired access token"))
      | inr claims => handler (withCallerID ctx (Subject claims)) req
      end
  end.

(** ** server.go *)

Definition tokenResponse (t : Tokens) : TokenResponse :=
  let '(access, refresh, exp) := t in mkTokenResponse access refresh (rfc3339 exp).

Definition resolveIdentifierChannel (identifier channel legacyEmail : string) : string * string :=
  let identifier := TrimSpace identifier in
  let channel := TrimSpace channel in
  let identifier := if String.eqb identifier "" && negb (String.eqb legacyEmail "") then TrimSpace legacyEmail else identifier in
  let channel := if String.eqb channel "" && negb (String.eqb identifier "")
                 then if contains_byte "@" identifier then ChannelEmail else ChannelSMS
                 else channel in
  (identifier, channel).

Context (s : Service).

Definition Server_RequestOTP (identifier channel email correlationID : string) : RPC string :=
  let '(identifier, channel) := resolveIdentifierChannel identifier channel email in
  andThen (calling (λ err, if errors_Is err ErrEmailOTPDisabled || errors_Is err ErrMobileOTPDisabled
                           then Status FailedPrecondition (ErrorText err) else Plain err)
             (RequestOTP s identifier channel correlationID)) (λ expires,
  respond (rfc3339 expires)).

Definition Server_VerifyOTP (identifier channel email code : string) : RPC TokenResponse :=
  let '(identifier, channel) := resolveIdentifierChannel identifier channel email in
  andThen (calling (λ err, Status Unauthenticated (ErrorText err)) (VerifyOTP s identifier channel code)) (λ t,
  respond (tokenResponse t)).

Definition Server_LoginWithPassword (identifier email password : string) : RPC TokenResponse :=
  let identifier := if String.eqb identifier "" then email else identifier in
  andThen (calling (λ err, if errors_Is err ErrInvalidCredentials then Status Unauthenticated (Text "invalid credentials")
                           else if errors_Is err ErrUserDisabled then Status PermissionDenied (Text "user disabled")
                           else Plain err)
             (LoginWithPassword s identifier password)) (λ t,
  respond (tokenResponse t)).

Definition Server_RefreshToken (refreshToken : string) : RPC TokenResponse :=
  andThen (calling (λ err, Status Unauthenticated (ErrorText err)) (Refresh s refreshToken)) (λ t,
  respond (tokenResponse t)).

Definition Server_CreateApiToken (userID name : string) (scopes : option (list string)) (expiresAt : string)
    : RPC (string * string * string) :=
  andThen (if negb (String.eqb expiresAt "") then
             match parse_rfc3339 expiresAt with
             | None => reject (Status InvalidArgument (Text "invalid expires_at"))
             | Some t => respond (Some t)
             end
           else respond None) (λ exp,
  calling Plain (CreateApiToken s userID name scopes exp)).

Definition apiTokenInfo (t : APITokenInfo) : ApiTokenInfoProto :=
  mkApiTokenInfoProto (ati_ID t) (ati_Name t) (ati_Prefix t) (ati_Scopes t) (rfc3339 (ati_CreatedAt t))
    (match ati_ExpiresAt t with Some e => rfc3339 e | None => "" end).

Definition Server_ListApiTokens (userID : string) : RPC (list ApiTokenInfoProto) :=
  andThen (calling Plain (ListApiTokens s userID)) (λ l, respond (apiTokenInfo <$> l)).

Definition Server_RevokeApiToken (userID tokenID : string) : RPC unit :=
  calling Plain (RevokeApiToken s userID tokenID).

Definition Server_ValidateApiToken (secret : string) : RPC (string * option (list string)) :=
  calling (λ _, Status Unauthenticated (Text "invalid token")) (ValidateApiToken s secret).

(** ** orgs.go *)

Definition caller (ctx : Ctx) : RPC string :=
  match callerIDFromContext ctx with
  | None => reject (Status Unauthenticated (Text "authentication required"))
  | Some callerID => respond callerID
  end.

Definition isUUID (value : string) : bool := bool_decide (is_Some (uuid_Parse value)).

Definition orgError (err : error) : rpc_error :=
  if errors_Is err ErrLastActiveMember then Status FailedPrecondition (ErrorText err)
  else if errors_Is err ErrUserNotFound then Status NotFound (Text "user not found")
  else if errors_Is err ErrOrgNotFound || errors_Is err ErrNotMember then Status NotFound (Text "organization not found")
  else if errors_Is err ErrInvalidOrgName then Status InvalidArgument (ErrorText err)
  else if errors_Is err ErrInvalidInvite then Status InvalidArgument (ErrorText ErrInvalidInvite)
  else if errors_Is err ErrInvalidEmail then Status InvalidArgument (ErrorText ErrInvalidEmail)
  else if errors_Is err ErrInviteNotFound then Status NotFound (Text "invite not found")
  else Status Internal (Text "internal error").

Definition organizationProto (org : Organization) : OrganizationProto :=
  mkOrganizationProto (o_ID org) (o_Name org) (rfc3339 (o_CreatedAt org)) (rfc3339 (o_UpdatedAt org)).

Definition membershipProto (m : Membership) : MembershipProto :=
  mkMembershipProto (m_OrgID m) (m_UserID m) (membership_string (m_Status m)) (rfc3339 (m_CreatedAt m)) (rfc3339 (m_UpdatedAt m)).

Definition inviteProto (i : Invite) : InviteProto :=
  mkInviteProto (i_ID i) (i_OrgID i) (i_Email i) (i_InviterID i) (invite_string (i_Status i)) (rfc3339 (i_ExpiresAt i))
    (rfc3339 (i_CreatedAt i)) (match i_AcceptedAt i with Some t => rfc3339 t | None => "" end).

(** The optional user identifier is [rawUserIDs[0]]. *)
Definition requireActiveMember (ctx : Ctx) (rawOrgID : string) (rawUserIDs : list string) : RPC (string * string) :=
  andThen (caller ctx) (λ callerID,
  let orgID := TrimSpace rawOrgID in
  if negb (isUUID orgID) then reject (Status InvalidArgument (Text "invalid org_id")) else
  andThen (match rawUserIDs with
           | [] => respond ""
           | rawUserID :: _ =>
               let userID := TrimSpace rawUserID in
               if negb (isUUID userID) then reject (Status InvalidArgument (Text "invalid user_id")) else respond userID
           end) (λ userID,
  andThen (calling orgError (IsActiveMember s orgID callerID)) (λ active,
  if negb active then reject (Status NotFound (Text "organization not found")) else respond (orgID, userID)))).

Definition OrgServer_CreateOrg (ctx : Ctx) (name : string) : RPC OrganizationProto :=
  andThen (caller ctx) (λ callerID,
  andThen (calling orgError (Service.CreateOrg s callerID name)) (λ org,
  respond (organizationProto org))).

Definition OrgServer_ListMyOrgs (ctx : Ctx) : RPC (list OrganizationProto) :=
  andThen (caller ctx) (λ callerID,
  andThen (calling orgError (Service.ListOrgsForUser s callerID)) (λ orgs,
  respond (organizationProto <$> orgs))).

Definition OrgServer_ListMembers (ctx : Ctx) (orgID : string) : RPC (list MembershipProto) :=
  andThen (requireActiveMember ctx orgID []) (λ '(orgID, _),
  andThen (calling orgError (Service.ListMembers s orgID)) (λ members,
  respond (membershipProto <$> members))).

Definition OrgServer_AddMember (ctx : Ctx) (orgID userID : string) : RPC unit :=
  andThen (requireActiveMember ctx orgID [userID]) (λ '(orgID, userID),
  calling orgError (Service.AddMember s orgID userID)).

Definition OrgServer_RemoveMember (ctx : Ctx) (orgID userID : string) : RPC unit :=
  andThen (requireActiveMember ctx orgID [userID]) (λ '(orgID, userID),
  calling orgError (Service.RemoveMember s orgID userID)).

Definition OrgServer_SuspendMember (ctx : Ctx) (orgID userID : string) : RPC unit :=
  andThen (requireActiveMember ctx orgID [userID]) (λ '(orgID, userID),
  calling orgError (SuspendMember s orgID userID)).

Definition OrgServer_InviteMember (ctx : Ctx) (orgID email : string) : RPC InviteProto :=
  andThen (requireActiveMember ctx orgID []) (λ '(orgID, _),
  andThen (caller ctx) (λ callerID,
  andThen (calling orgError (InviteMember s orgID callerID email)) (λ invite,
  respond (inviteProto invite)))).

Definition OrgServer_AcceptInvite (ctx : Ctx) (token : string) : RPC InviteProto :=
  andThen (caller ctx) (λ callerID,
  andThen (calling orgError (Service.AcceptInvite s callerID token)) (λ invite,
  respond (inviteProto invite))).

Definition OrgServer_RevokeInvite (ctx : Ctx) (orgID inviteID : string) : RPC unit :=
  andThen (requireActiveMember ctx orgID []) (λ '(orgID, _),
  let inviteID := TrimSpace inviteID in
  if negb (isUUID inviteID) then reject (Status InvalidArgument (Text "invalid invite_id")) else
  andThen (caller ctx) (λ callerID,
  calling orgError (Service.RevokeInvite s orgID inviteID callerID))).

Definition OrgServer_ListInvites (ctx : Ctx) (orgID : string) : RPC (list InviteProto) :=
  andThen (requireActiveMember ctx orgID []) (λ '(orgID, _),
  andThen (calling orgError (Service.ListInvites s orgID)) (λ invites,
  respond (inviteProto <$> invites))).

Definition OrgServer_SelectOrg (ctx : Ctx) (orgID refreshToken : string) : RPC TokenResponse :=
  andThen (requireActiveMember ctx orgID []) (λ '(orgID, _),
  andThen (caller ctx) (λ callerID,
  andThen (calling (λ err, if errors_Is err ErrInvalidRefresh then Status Unauthenticated (Text "invalid refresh token")
                           else orgError err)
             (SelectOrg s callerID refreshToken orgID)) (λ t,
  respond (tokenResponse t)))).

(** ** signup.go *)

Definition signupError (err : error) : rpc_error :=
  if errors_Is err ErrSignupDisabled then Status FailedPrecondition (Text "sign-up is disabled")
  else if errors_Is err ErrInvalidInvite then Status InvalidArgument (ErrorText ErrInvalidInvite)
  else if errors_Is err ErrInvalidEmail then Status InvalidArgument (ErrorText ErrInvalidEmail)
  else if errors_Is err ErrPasswordRequired then Status InvalidArgument (ErrorText ErrPasswordRequired)
  else Status Internal (Text "internal error").

Definition SignupServer_RegisterWithEmail (email password displayName locale orgName inviteToken : string) : RPC unit :=
  calling signupError (RegisterWithEmail s email password displayName locale orgName inviteToken).

Definition SignupServer_VerifySignup (email code password : string) : RPC TokenResponse :=
  andThen (calling (λ err,
             if errors_Is err ErrSignupDisabled then Status FailedPrecondition (Text "sign-up is disabled")
             else if errors_Is err ErrInvalidOTPCode || errors_Is err ErrTooManyOTPAttempts
             then Status Unauthenticated (ErrorText err)
             else Status Internal (Text "internal error"))
             (Service.VerifySignup s email code password)) (λ t,
  respond (tokenResponse t)).
End grpc.
