(* ===== verification/KeyFiles.v ===== *)
(** Key files: [LoadRSAPrivateKey], [LoadRSAPublicKey] and [LoadKeySet] of
    token/access.go and [NewFromEnv] of internal/infrastructure/jwt, which loads the
    signing key of the service and the public keys that verify its tokens.

    Parameters: the file system, the environment, PEM and X.509 parsing and RSA key
    validation. *)
From S2P Require Import Prelude GoStrings Encodings Domain Libs Tenancy Tables Database World Demo Ports Token Jwks Scenario Grpc.
Local Open Scope Z_scope.
Local Open Scope orbit_scope.

(** [x509_*] of a key of another type is [inr None]; [filepath_Glob dir] lists the
    files [dir/*.pem]. *)
Class KeyLib `{J : JWTLib} := {
  os_Getenv : string → string;
  os_ReadFile : string → error + string;
  filepath_Glob : string → error + list string;
  pem_Decode : string → option string;
  x509_ParsePKCS8PrivateKey : string → error + option rsa_PrivateKey;
  x509_ParsePKCS1PrivateKey : string → error + rsa_PrivateKey;
  x509_ParsePKIXPublicKey : string → error + option rsa_PublicKey;
  x509_ParsePKCS1PublicKey : string → error + rsa_PublicKey;
  rsa_Validate : rsa_PrivateKey → option error;
}.

Section keys.
Context `{J : JWTLib} `{K : !KeyLib}.

Definition LoadRSAPrivateKey (path : string) : error + rsa_PrivateKey :=
  match os_ReadFile (TrimSpace path) with
  | inl err => inl (Errorw "read JWT private key: %w" [] err)
  | inr contents =>
      match pem_Decode contents with
      | None => inl (Errorf "JWT private key file does not contain PEM data" [])
      | Some block =>
          let key := match x509_ParsePKCS8PrivateKey block with
            | inr parsed => parsed
            | inl _ => match x509_ParsePKCS1PrivateKey block with inr parsed => Some parsed | inl _ => None end
            end in
          match key with
          | None => inl (Errorf "JWT private key must be an RSA PKCS#8 or PKCS#1 PEM key" [])
          | Some key =>
              match rsa_Validate key with
              | Some err => inl (Errorw "JWT RSA private key is invalid: %w" [] err)
              | None =>
                  if BitLen (pk_N (rsa_Public key)) <? 2048
                  then inl (Errorf "JWT RSA private key must be at least 2048 bits" []) else inr key
              end
          end
      end
  end.

Definition LoadRSAPublicKey (path : string) : error + rsa_PublicKey :=
  match os_ReadFile (TrimSpace path) with
  | inl err => inl (Errorw "read JWT public key: %w" [] err)
  | inr contents =>
      match pem_Decode contents with
      | None => inl (Errorf "JWT public key file does not contain PEM data" [])
      | Some block =>
          let key := match x509_ParsePKIXPublicKey block with inr parsed => parsed | inl _ => None end in
          let key := match key with
            | Some key => Some key
            | None => match x509_ParsePKCS1PublicKey block with inr parsed => Some parsed | inl _ => None end
            end in
          match key with
          | None => inl (Errorf "JWT public key must be an RSA PKIX or PKCS#1 PEM key" [])
          | Some key =>
              if BitLen (pk_N key) <? 2048
              then inl (Errorf "JWT RSA public key must be at least 2048 bits" []) else inr key
          end
      end
  end.

(** The loop over the files of the directory. *)
Fixpoint load_keys (paths : list string) (keys : KeySet) : error + KeySet :=
  match paths with
  | [] => inr keys
  | path :: paths =>
      let keyID := TrimSuffix (Base path) (Ext path) in
      if String.eqb keyID "" then inl (Errorf "JWT public key filename must provide a key ID" []) else
      match LoadRSAPublicKey path with
      | inl err => inl (Errorw "load JWT key %q: %w" [keyID] err)
      | inr key => load_keys paths (<[keyID := key]> keys)
      end
  end.

Definition LoadKeySet (directory : string) : error + KeySet :=
  match filepath_Glob (TrimSpace directory) with
  | inl err => inl (Errorw "list JWT public keys: %w" [] err)
  | inr paths =>
      if Nat.eqb (length paths) 0 then inl (Errorf "JWT public key directory contains no PEM keys" [])
      else load_keys paths ∅
  end.

Definition NewFromEnv : error + Signer :=
  let privateKeyPath := TrimSpace (os_Getenv "JWT_PRIVATE_KEY_FILE") in
  if String.eqb privateKeyPath "" then inl (Errorf "JWT_PRIVATE_KEY_FILE is required" []) else
  match LoadRSAPrivateKey privateKeyPath with
  | inl err => inl err
  | inr privateKey =>
      let keyID := TrimSpace (os_Getenv "JWT_ACTIVE_KEY_ID") in
      if String.eqb keyID "" then inl (Errorf "JWT_ACTIVE_KEY_ID is required" []) else
      let publicKeysDirectory := TrimSpace (os_Getenv "JWT_PUBLIC_KEYS_DIR") in
      if String.eqb publicKeysDirectory "" then inl (Errorf "JWT_PUBLIC_KEYS_DIR is required" []) else
      match LoadKeySet publicKeysDirectory with
      | inl err => inl err
      | inr publicKeys =>
          let mismatch := inl (Errorf "active JWT key ID %q must match a public key in JWT_PUBLIC_KEYS_DIR" [keyID]) in
          match publicKeys !! keyID with
          | None => mismatch
          | Some activePublicKey =>
              if negb (pk_E activePublicKey =? pk_E (rsa_Public privateKey)) ||
                 negb (pk_N activePublicKey =? pk_N (rsa_Public privateKey))
              then mismatch else inr (mkSigner privateKey keyID publicKeys)
          end
      end
  end.

(** [Signer.KeySet]. *)
Definition Signer_KeySet (s : Signer) : KeySet := sg_keys s.

(** ** Properties *)

Lemma LoadRSAPublicKey_strong path key : LoadRSAPublicKey path = inr key → 2048 ≤ BitLen (pk_N key).
Proof.
  unfold LoadRSAPublicKey. destruct (os_ReadFile _) as [|c]; [done|]. destruct (pem_Decode c) as [b|]; [|done].
  cbv zeta. destruct (match match x509_ParsePKIXPublicKey b with inr parsed => parsed | inl _ => None end with
    | Some key => Some key | None => _ end) as [k|]; [|done].
  destruct (Z.ltb_spec (BitLen (pk_N k)) 2048); [done|]. by intros [= ->].
Qed.

(** Every key of a loaded set is the strong key of a file named after it. *)
Definition from_file (paths : list string) (keyID : string) (key : rsa_PublicKey) : Prop :=
  keyID ≠ "" ∧ 2048 ≤ BitLen (pk_N key) ∧
  ∃ path, path ∈ paths ∧ keyID = TrimSuffix (Base path) (Ext path) ∧ LoadRSAPublicKey path = inr key.

Lemma load_keys_files all paths keys r :
  paths ⊆ all → map_Forall (from_file all) keys → load_keys paths keys = inr r → map_Forall (from_file all) r.
Proof.
  revert keys. induction paths as [|path paths IH]; intros keys Hs Hk; cbn [load_keys]; [by intros [= <-]|].
  destruct (String.eqb_spec (TrimSuffix (Base path) (Ext path)) "") as [|Hne]; [done|].
  destruct (LoadRSAPublicKey path) as [|key] eqn:El; [done|]. apply IH; [set_solver|].
  apply map_Forall_insert_2; [|done]. split_and!; [done|by eapply LoadRSAPublicKey_strong|].
  exists path. split_and!; [set_solver|done..].
Qed.

Lemma NewFromEnv_inv s :
  NewFromEnv = inr s →
  ∃ paths, filepath_Glob (TrimSpace (os_Getenv "JWT_PUBLIC_KEYS_DIR")) = inr paths ∧
    map_Forall (from_file paths) (Signer_KeySet s) ∧
    sg_keyID s = TrimSpace (os_Getenv "JWT_ACTIVE_KEY_ID") ∧ sg_keyID s ≠ "" ∧
    Signer_KeySet s !! sg_keyID s = Some (rsa_Public (sg_key s)) ∧ rsa_Validate (sg_key s) = None.
Proof.
  unfold NewFromEnv. cbv zeta. destruct (String.eqb _ _); [done|].
  destruct (LoadRSAPrivateKey _) as [|sk] eqn:Esk; [done|].
  destruct (String.eqb_spec (TrimSpace (os_Getenv "JWT_ACTIVE_KEY_ID")) "") as [|Hid]; [done|].
  destruct (String.eqb _ _); [done|]. unfold LoadKeySet. rewrite TrimSpace_idemp.
  destruct (filepath_Glob _) as [|paths] eqn:Eg; [done|]. destruct (Nat.eqb _ _); [done|].
  destruct (load_keys paths ∅) as [|keys] eqn:Ek; [done|]. destruct (keys !! _) as [pk|] eqn:Ep; [|done].
  destruct (_ || _) eqn:Em; [done|]. intros [= <-]. exists paths. cbn [Signer_KeySet sg_keys sg_keyID sg_key].
  apply orb_false_iff in Em as [HE%negb_false_iff%Z.eqb_eq HN%negb_false_iff%Z.eqb_eq].
  split_and!; [done|by eapply load_keys_files; [| |exact Ek]|done|done| |].
  - rewrite Ep. destruct pk as [n e], (rsa_Public sk) as [n' e']. simpl in *. by subst.
  - unfold LoadRSAPrivateKey in Esk. repeat case_match; by simplify_eq.
Qed.
End keys.

Section honoured.
Context `{V : Env} `{UC : UnicodeCase} `{J : JWTLib} `{!JWTLaws J} `{!UUIDLaws L} `{K : !KeyLib}.

(** [serverOptions] of cmd/auth: the interceptor with the signer's own key set. *)
Definition serverOptions {R A} (signer : Signer) (ctx : Ctx) (md : MD) (req : R) (FullMethod : string)
    (handler : Ctx → R → RPC A) : RPC A :=
  AccessTokenUnaryServerInterceptor (Signer_KeySet signer) ctx md req FullMethod handler.

(** C20: a service that started up honours the tokens it issues: whatever key files
    and environment the signer was loaded from, a token it signed, presented as the
    bearer token of an OrgService call from the second of its issue to the second of
    its expiry, reaches the handler, with the subject it was signed for as caller. *)
Theorem issued_tokens_honoured {R A} s subject orgID expires w raw w1 ctx md (req : R) FullMethod
    (handler : Ctx → R → RPC A) w2 :
  NewFromEnv = inr s →
  Signer_SignAccessTokenWithOrg s subject orgID expires w = (Ret raw, w1) →
  bearerToken md = inr raw → HasPrefix FullMethod "/auth.v1.OrgService/" = true →
  NewNumericDate (go_now (w_tick w)) ≤ go_now (w_tick w2) < NewNumericDate expires →
  serverOptions s ctx md req FullMethod handler w2 =
    handler (withCallerID ctx (TrimSpace subject)) req (mkWorld (w_db w2) (w_tx w2) (S (w_tick w2)) (w_sent w2)).
Proof.
  intros (paths & _ & _ & Hid & _ & Hk & _)%NewFromEnv_inv Hs Hb Hm Ht.
  unfold Signer_SignAccessTokenWithOrg, Now, bind, tick, ret, of_sum in Hs.
  destruct (SignAccessTokenWithOrg _ _ _ _ _ _) as [|raw'] eqn:Esign; [done|].
  assert (raw' = raw) as -> by (unfold ret in Hs; congruence).
  apply SignAccessTokenWithOrg_claims in Esign as (Hkid & Hsub & Hraw).
  eapply (ParseAccessToken_signed (go_now (w_tick w2)) raw (Signer_KeySet s)) in Hraw;
    [|by rewrite TrimSpace_idemp|by rewrite Hid, TrimSpace_idemp, <- Hid|done|done|lia|intros i [= <-]; lia|
      simpl; by rewrite TrimSpace_idemp].
  unfold serverOptions, AccessTokenUnaryServerInterceptor. rewrite Hm, Hb. cbn [negb].
  unfold Now, bind, tick, ret. by rewrite Hraw.
Qed.
End honoured.

(** ** A concrete start-up *)

#[local] Existing Instance bits_uuid.
#[local] Existing Instance bits_uuid_laws.
#[local] Existing Instance calm_env.
#[local] Existing Instance ascii_case.
#[local] Existing Instance demo_jwt.
#[local] Existing Instance demo_jwt_laws.

(** One key pair, in two files. *)
Definition demo_files : KeyLib := {|
  os_Getenv name := if String.eqb name "JWT_PRIVATE_KEY_FILE" then "/keys/private.pem"
                    else if String.eqb name "JWT_ACTIVE_KEY_ID" then " k1 " else "/keys/public";
  os_ReadFile _ := inr "pem";
  filepath_Glob _ := inr ["/keys/public/k1.pem"];
  pem_Decode _ := Some "der";
  x509_ParsePKCS8PrivateKey _ := inr (Some big_key);
  x509_ParsePKCS1PrivateKey _ := inl errDemo;
  x509_ParsePKIXPublicKey _ := inr (Some big_key);
  x509_ParsePKCS1PublicKey _ := inl errDemo;
  rsa_Validate _ := None;
|}.
#[local] Existing Instance demo_files.

Example key_file_names : TrimSuffix (Base "/keys/public/k1.pem") (Ext "/keys/public/k1.pem") = "k1".
Proof. reflexivity. Qed.

(** Fifteen minutes after the first reading of the clock. *)
Definition demo_expiry : time := 63871372800000000 + AccessTokenTTL.
Definition demo_jwt_signer : Signer := mkSigner big_key "k1" {[ "k1" := big_key ]}.
Definition signed_run : outcome string * World :=
  Signer_SignAccessTokenWithOrg demo_jwt_signer "alice" "" demo_expiry (start empty_db).
Definition signed_text : string := match signed_run.1 with Ret raw => raw | _ => "" end.
Definition bearer_md : MD := Some {[ "authorization" := ["Bearer " +:+ signed_text] ]}.

Lemma signed_run_text :
  Signer_SignAccessTokenWithOrg demo_jwt_signer "alice" "" demo_expiry (start empty_db) = (Ret signed_text, signed_run.2).
Proof. unfold signed_text, signed_run. by destruct (Signer_SignAccessTokenWithOrg _ _ _ _ _) as [[] ?] eqn:E. Qed.

Lemma bearer_md_token : bearerToken bearer_md = inr signed_text.
Proof. vm_compute. reflexivity. Qed.

Lemma issued_tokens_honoured_witness :
  (serverOptions demo_jwt_signer (mkCtx None None) bearer_md () "/auth.v1.OrgService/CreateOrg"
    (λ ctx _, respond (callerIDFromContext ctx)) (start empty_db)).1 = Ret (inr (Some "alice")).
Proof.
  assert (NewFromEnv = inr demo_jwt_signer) as Hs by (vm_compute; reflexivity).
  exact (f_equal fst (issued_tokens_honoured demo_jwt_signer "alice" "" demo_expiry (start empty_db) signed_text signed_run.2
    (mkCtx None None) bearer_md () "/auth.v1.OrgService/CreateOrg" (λ ctx _, respond (callerIDFromContext ctx))
    (start empty_db) Hs signed_run_text bearer_md_token eq_refl ltac:(vm_compute; split; congruence))).
Defined.
