(* ===== verification/ServeMux.v ===== *)
(** The router of net/http as the HTTP API uses it: patterns of literal segments with an
    optional method, the cleaning of paths, and the answers of the mux itself. *)
From S2P Require Import Prelude GoStrings Encodings Urls.
Local Open Scope Z_scope.

(** The parts of a request the router reads; the path is still escaped. *)
Record Request := mkRequest {
  rq_Method : string;
  rq_EscapedPath : string;
  rq_RequestURI : string;
}.

(** ** Paths *)

(** [url.PathUnescape], or the text itself when it is malformed. *)
Fixpoint path_unescape (l : bytes) : option bytes :=
  match l with
  | [] => Some []
  | a :: l' =>
      if bool_decide (a = "%"%char) then
        match l' with
        | h1 :: h2 :: l'' =>
            match unhex h1, unhex h2 with
            | Some n1, Some n2 => cons (byte_of (Z.lor (Z.shiftl n1 4) n2)) <$> path_unescape l''
            | _, _ => None
            end
        | _ => None
        end
      else cons a <$> path_unescape l'
  end.

Definition pathUnescape (l : bytes) : bytes := default l (path_unescape l).

(** The segments of a path after its leading slash; a trailing slash is a segment. *)
Fixpoint segment_list (pieces : list bytes) : list bytes :=
  match pieces with
  | [] => []
  | [[]] => [["/"%char]]
  | p :: pieces => pathUnescape p :: segment_list pieces
  end.

Definition segments (path : string) : list bytes := segment_list (split "/" (tail (to_bytes path))).

(** [path.Clean] of a rooted path: empty and dot segments go, and dot-dot takes the one
    before it. *)
Definition clean_piece (stack : list bytes) (p : bytes) : list bytes :=
  if bool_decide (p = []) || bool_decide (p = ["."%char]) then stack else
  if bool_decide (p = ["."; "."]%char) then tail stack else p :: stack.

Definition path_Clean (p : bytes) : bytes := "/"%char :: join "/" (reverse (foldl clean_piece [] (split "/" p))).

Definition cleanPath (path : string) : string :=
  let p := to_bytes path in
  if bool_decide (p = []) then "/" else
  let p := if bool_decide (head p = Some "/"%char) then p else "/"%char :: p in
  let np := path_Clean p in
  of_bytes (if bool_decide (last p = Some "/"%char) && negb (bool_decide (np = ["/"%char])) then np ++ ["/"%char] else np).

(** ** Routing *)

Record route (H : Type) := mkRoute {
  rt_method : option string;
  rt_segments : list bytes;
  rt_handler : H;
}.
Arguments mkRoute {H} _ _ _.
Arguments rt_method {H} _.
Arguments rt_segments {H} _.
Arguments rt_handler {H} _.

(** A pattern is a path, or a method, a space and a path. *)
Definition Handle {H} (pattern : string) (h : H) (mux : list (route H)) : list (route H) :=
  mux ++ [match cut " " pattern with
          | Some (method, path) => mkRoute (Some method) (segments path) h
          | None => mkRoute None (segments pattern) h
          end].

Section mux.
Context {H : Type} (mux : list (route H)).

Definition find_route (method : option string) (path : string) : option H :=
  rt_handler <$> head (filter (λ r, rt_method r = method ∧ rt_segments r = segments path) mux).

(** A pattern with the method comes first, GET also serves HEAD, and a pattern without a
    method comes last. *)
Definition match_route (method path : string) : option H :=
  match find_route (Some method) path with
  | Some h => Some h
  | None =>
      match (if String.eqb method "HEAD" then find_route (Some "GET") path else None) with
      | Some h => Some h
      | None => find_route None path
      end
  end.

(** The methods some pattern of the path has, in order. *)
Definition matchingMethods (path : string) : list string :=
  let methods : gset string := list_to_set (omap rt_method (filter (λ r, rt_segments r = segments path) mux)) in
  sorted_elements (if bool_decide ("GET" ∈ methods) then {["HEAD"]} ∪ methods else methods).

Inductive dispatch := Serve (h : H) | Redirect (path : string) | MethodNotAllowed (allow : list string) | NotFound | BadRequest.

(** [ServeMux.ServeHTTP] up to the handler it chooses; no pattern ends in a slash, so
    the only redirects are to the cleaned path. *)
Definition ServeHTTP (r : Request) : dispatch :=
  if String.eqb (rq_RequestURI r) "*" then BadRequest else
  let connect := String.eqb (rq_Method r) "CONNECT" in
  let path := if connect then rq_EscapedPath r else cleanPath (rq_EscapedPath r) in
  if negb connect && negb (String.eqb path (rq_EscapedPath r)) then Redirect path else
  match match_route (rq_Method r) path with
  | Some h => Serve h
  | None => match matchingMethods path with [] => NotFound | allowed => MethodNotAllowed allowed end
  end.

Lemma find_route_Some method path h :
  find_route method path = Some h → ∃ r, r ∈ mux ∧ rt_method r = method ∧ rt_segments r = segments path ∧ rt_handler r = h.
Proof.
  unfold find_route. destruct (filter _ mux) as [|r l] eqn:E; [done|]. intros [= <-].
  assert (r ∈ r :: l) as Hr by by left. rewrite <- E, list_elem_of_filter in Hr. exists r. tauto.
Qed.

(** A request is served by a pattern of its path, with its method (GET for HEAD) or with
    none. *)
Lemma ServeHTTP_Serve r h :
  ServeHTTP r = Serve h → ∃ rt, rt ∈ mux ∧ rt_handler rt = h ∧ rt_segments rt = segments (rq_EscapedPath r) ∧
    (rt_method rt = None ∨ rt_method rt = Some (rq_Method r) ∨ rt_method rt = Some "GET" ∧ rq_Method r = "HEAD").
Proof.
  unfold ServeHTTP. destruct (String.eqb (rq_RequestURI r) "*"); [done|]. cbv zeta.
  set (path := if String.eqb _ "CONNECT" then _ else _). assert (∀ o, (if negb (String.eqb (rq_Method r) "CONNECT") &&
    negb (String.eqb path (rq_EscapedPath r)) then Redirect path else o) = Serve h → path = rq_EscapedPath r ∧ o = Serve h) as Hpath.
  { intros o. unfold path. destruct (String.eqb (rq_Method r) "CONNECT"); [done|].
    destruct (String.eqb_spec (cleanPath (rq_EscapedPath r)) (rq_EscapedPath r)); done. }
  intros [-> Hm]%Hpath. unfold match_route in Hm.
  destruct (find_route (Some (rq_Method r)) _) eqn:E1.
  { simplify_eq. apply find_route_Some in E1 as (rt & ? & ? & ? & ?). exists rt. split_and!; auto. }
  destruct (String.eqb_spec (rq_Method r) "HEAD"); [destruct (find_route (Some "GET") _) eqn:E2|].
  { simplify_eq. apply find_route_Some in E2 as (rt & ? & ? & ? & ?). exists rt. split_and!; auto. }
  all: destruct (find_route None _) eqn:E3; [|destruct (matchingMethods _); done]; simplify_eq;
    apply find_route_Some in E3 as (rt & ? & ? & ? & ?); exists rt; split_and!; auto.
Qed.
End mux.
Arguments Serve {H} _.
Arguments Redirect {H} _.
Arguments MethodNotAllowed {H} _.
Arguments NotFound {H}.
Arguments BadRequest {H}.

Example clean_paths :
  cleanPath "/v1/../healthz/./" = "/healthz/" ∧ cleanPath "" = "/" ∧ cleanPath "v1//flags" = "/v1/flags" ∧ cleanPath "/.." = "/".
Proof. vm_compute. auto. Qed.

Example example_routes :
  let mux := Handle "GET /v1/flags" 2%nat (Handle "/healthz" 1%nat []) in
  ServeHTTP mux (mkRequest "HEAD" "/v1/flag%73" "/") = Serve 2%nat ∧
  ServeHTTP mux (mkRequest "POST" "/v1/flags" "/") = MethodNotAllowed ["GET"; "HEAD"] ∧
  ServeHTTP mux (mkRequest "POST" "/healthz" "/") = Serve 1%nat ∧
  ServeHTTP mux (mkRequest "GET" "/healthz/" "/") = NotFound ∧
  ServeHTTP mux (mkRequest "GET" "//healthz" "/") = Redirect "/healthz".
Proof. vm_compute. split_and!; reflexivity. Qed.
