(* ===== verification/HttpApi.v ===== *)
(** internal/infrastructure/httpapi/server.go: the routes of the HTTP API, the public
    listing of feature flags, and the provider of another service that reads it.

    Parameters: the JSON encoder and the RFC 3339 text of an instant; the probe handlers
    and the middleware of orbit-observability, and the adaptor of Fiber. *)
From S2P Require Import Prelude GoStrings Domain Libs Tables Database World Demo Ports Postgres FlagsProvider Token Scenario Service.
From S2P Require Import Urls ServeMux.
Local Open Scope Z_scope.
Local Open Scope orbit_scope.

Record flagItem := mkFlagItem {
  fi_Name : string;
  fi_Enabled : bool;
  fi_Description : string;
}.

Record flagsResponse := mkFlagsResponse {
  fp_Version : string;
  fp_Flags : list flagItem;
}.

(** What the handler writes: status, headers and body. *)
Record Answer := mkAnswer {
  an_status : Z;
  an_headers : gmap string string;
  an_body : string;
}.

(** utf8.ValidString: no overlong form, no surrogate, nothing above U+10FFFF. *)
Definition in_range (lo hi : nat) (a : ascii) : bool := Nat.leb lo (nat_of_ascii a) && Nat.leb (nat_of_ascii a) hi.
Definition cont (a : ascii) : bool := in_range 128 191 a.

Fixpoint utf8_valid (l : bytes) : bool :=
  match l with
  | [] => true
  | a :: l1 =>
      if in_range 0 127 a then utf8_valid l1 else
      match l1 with
      | [] => false
      | b :: l2 =>
          if in_range 194 223 a then cont b && utf8_valid l2 else
          match l2 with
          | [] => false
          | c :: l3 =>
              if byte_eq a 224 then in_range 160 191 b && cont c && utf8_valid l3 else
              if byte_eq a 237 then in_range 128 159 b && cont c && utf8_valid l3 else
              if in_range 225 239 a then cont b && cont c && utf8_valid l3 else
              match l3 with
              | [] => false
              | d :: l4 =>
                  if byte_eq a 240 then in_range 144 191 b && cont c && cont d && utf8_valid l4 else
                  if in_range 241 243 a then cont b && cont c && cont d && utf8_valid l4 else
                  if byte_eq a 244 then in_range 128 143 b && cont c && cont d && utf8_valid l4 else false
              end
          end
      end
  end.

(** The encoder of encoding/json for the two bodies the handler writes. *)
Class FlagsJSON := {
  json_EncodeFlags : flagsResponse → string;
  json_EncodeError : string → string;
  rfc3339nano : time → string;
}.

Definition item_valid (i : flagItem) : Prop :=
  utf8_valid (to_bytes (fi_Name i)) = true ∧ utf8_valid (to_bytes (fi_Description i)) = true.

(** The decoder reads back the records of a response whose texts are valid UTF-8;
    the encoder replaces bytes that are not. *)
Class FlagsJSONLaws (E : FlagsJSON) (F : FlagsLib) : Prop := {
  json_Decode_Encode : ∀ r, Forall item_valid (fp_Flags r) →
    ∃ version, json_DecodeFlags (json_EncodeFlags r) =
      inr (mkFlagsDocument version ((λ i, mkFlagRecord (fi_Name i) (fi_Enabled i) (fi_Description i)) <$> fp_Flags r));
}.

Section httpapi.
Context `{V : Env} `{E : FlagsJSON}.

(** The loop over the sorted flags: the newest change and the items. *)
Definition list_items (listed : list FeatureFlag) : time * list flagItem :=
  foldl (λ acc flag, (if After (ff_UpdatedAt flag) acc.1 then ff_UpdatedAt flag else acc.1,
                      acc.2 ++ [mkFlagItem (ff_Name flag) (ff_Enabled flag) (ff_Description flag)])) (0, []) listed.

(** [sort.Slice] by name, the primary key of the table. *)
Definition sort_flags (listed : list FeatureFlag) : list FeatureFlag :=
  merge_sort (λ a b, String.le (ff_Name a) (ff_Name b)) listed.

Definition listFlags (flags : FeatureFlagStore) : M Answer :=
  let headers := <["Cache-Control" := "no-cache"]> (∅ : gmap string string) in
  r <- try (FeatureFlags_List flags) ;;
  match r with
  | inl _ => ret (mkAnswer 503 (<["Content-Type" := "application/json"]> headers) (json_EncodeError "flags unavailable"))
  | inr listed =>
      let '(newest, items) := list_items (sort_flags listed) in
      let version := if negb (IsZero newest) then rfc3339nano newest else "" in
      ret (mkAnswer 200 (<["Content-Type" := "application/json"]> headers) (json_EncodeFlags (mkFlagsResponse version items)))
  end.

(** ** The routes *)

Abbreviation Handler := (Request → M Answer).

(** Code of orbit-observability and Fiber, and the answer of [http.RedirectHandler]. *)
Class Observability := {
  HealthHandler : Handler;
  ReadinessHandler : Handler;
  HTTPMiddleware : Handler → Handler;
  adaptor_HTTPHandler : Handler → Handler;
  http_Redirect : Request → string → Answer;
}.

(** What the code relies on: the probes answer without the database, and the middleware
    and the adaptor pass requests and answers through unchanged. *)
Class ObservabilityLaws (O : Observability) : Prop := {
  health_answers : ∀ r w, ∃ a, HealthHandler r w = (Ret a, w);
  readiness_answers : ∀ r w, ∃ a, ReadinessHandler r w = (Ret a, w);
  middleware_transparent : ∀ h r, HTTPMiddleware h r = h r;
  adaptor_transparent : ∀ h r, adaptor_HTTPHandler h r = h r;
}.

Section server.
Context `{O : Observability}.

(** The Fiber app: its timeouts, whether it keeps its start-up message to itself, and
    the handler of every request. *)
Record Server := mkServer {
  app_ReadTimeout : duration;
  app_WriteTimeout : duration;
  app_IdleTimeout : duration;
  app_PreventDefault : bool;
  app_Use : Handler;
}.

(** [http.Error]: a line of plain text. *)
Definition http_Error (headers : gmap string string) (text : string) (code : Z) : Answer :=
  mkAnswer code (<["Content-Type" := "text/plain; charset=utf-8"]> (<["X-Content-Type-Options" := "nosniff"]> headers))
    (text +:+ String (ascii_of_nat 10) "").

Definition serve_mux (mux : list (route Handler)) : Handler := λ r,
  match ServeHTTP mux r with
  | Serve h => h r
  | Redirect path => ret (http_Redirect r path)
  | MethodNotAllowed allowed =>
      ret (http_Error {["Allow" := of_bytes (mjoin (match to_bytes <$> allowed with [] => [] | m :: l => m :: (app [","; " "]%char <$> l) end))]} "Method Not Allowed" 405)
  | NotFound => ret (http_Error ∅ "404 page not found" 404)
  | BadRequest => ret (mkAnswer 400 {["Connection" := "close"]} "")
  end.

Definition api_mux (flags : FeatureFlagStore) : list (route Handler) :=
  Handle "GET /v1/flags" (λ _, listFlags flags) (Handle "/readyz" ReadinessHandler (Handle "/healthz" HealthHandler [])).

Definition New (flags : FeatureFlagStore) : Server :=
  mkServer (30 * Second) (30 * Second) (60 * Second) true (adaptor_HTTPHandler (HTTPMiddleware (serve_mux (api_mux flags)))).

Lemma New_serves `{!ObservabilityLaws O} flags r : app_Use (New flags) r = serve_mux (api_mux flags) r.
Proof. simpl. by rewrite adaptor_transparent, middleware_transparent. Qed.
End server.

Lemma list_items_spec listed :
  (list_items listed).2 = (λ flag, mkFlagItem (ff_Name flag) (ff_Enabled flag) (ff_Description flag)) <$> listed.
Proof.
  induction listed as [|flag listed IH] using rev_ind; [done|].
  unfold list_items in *. rewrite foldl_app. simpl. by rewrite IH, fmap_app.
Qed.

Lemma flag_map_lookup l k b :
  NoDup (fr_Name <$> l) → flag_map l !! k = Some b ↔ ∃ r, r ∈ l ∧ fr_Name r = k ∧ fr_Enabled r = b.
Proof.
  induction l as [|r l IH] using rev_ind; [set_solver|]. rewrite fmap_app. intros (Hl & Hd & _)%NoDup_app.
  unfold flag_map in *. rewrite foldl_app. simpl. setoid_rewrite elem_of_app. setoid_rewrite list_elem_of_singleton.
  destruct (decide (fr_Name r = k)) as [<-|Hne].
  - rewrite lookup_insert_eq. split.
    + intros [= <-]. exists r. auto.
    + intros (q & [Hq| ->] & Hn & <-); [|done]. exfalso. apply (Hd (fr_Name q)); [by apply list_elem_of_fmap_2|].
      simpl. rewrite Hn. by left.
  - rewrite lookup_insert_ne, IH by done. split.
    + intros (q & Hq & ?). exists q. auto.
    + intros (q & [Hq| ->] & Hn & ?); [|done]. exists q. auto.
Qed.
End httpapi.

(** ** The listing and a provider that reads it *)

Section consumer.
Context `{V : Env} `{!EnvLaws V} `{E : FlagsJSON} `{F : FlagsLib} `{!FlagsJSONLaws E F}.

(** The texts of the table are valid UTF-8, as Postgres requires of a UTF-8 database. *)
Definition flags_valid (db : DB Envelope) : Prop :=
  map_Forall (λ name row, utf8_valid (to_bytes name) = true ∧ utf8_valid (to_bytes (fr_description row)) = true) (feature_flags db).

(** The flags of the table, by name. *)
Definition table_flags (db : DB Envelope) : gmap string bool := fr_enabled <$> feature_flags db.

(** A row as the statement returns it. *)
Definition flag_of (kr : string * FlagRow) : FeatureFlag :=
  mkFeatureFlag kr.1 (fr_enabled kr.2) (fr_description kr.2) (fr_updated_at kr.2).

Definition record_of (flag : FeatureFlag) : flagRecord :=
  mkFlagRecord (ff_Name flag) (ff_Enabled flag) (ff_Description flag).

(** The map of a listing in any order is the table. *)
Lemma flag_map_table (db : DB Envelope) listed :
  listed ≡ₚ flag_of <$> map_to_list (feature_flags db) → flag_map (record_of <$> listed) = table_flags db.
Proof.
  intros Hp. assert (NoDup (fr_Name <$> (record_of <$> listed))) as Hnd.
  { rewrite Hp, <- !list_fmap_compose. exact (NoDup_fst_map_to_list (feature_flags db)). }
  apply map_eq. intros k. apply option_eq. intros b. rewrite flag_map_lookup by done.
  unfold table_flags. rewrite lookup_fmap, fmap_Some. split.
  - intros (r & (flag & -> & Hf)%list_elem_of_fmap & <- & <-). rewrite Hp in Hf.
    apply list_elem_of_fmap in Hf as ([k row] & -> & Hk%elem_of_map_to_list). by exists row.
  - intros (row & Hk & ->). exists (record_of (flag_of (k, row))). split; [|done].
    apply list_elem_of_fmap_2. rewrite Hp. apply list_elem_of_fmap_2. by apply elem_of_map_to_list.
Qed.

Lemma sort_flags_perm listed : sort_flags listed ≡ₚ listed.
Proof. apply merge_sort_Permutation. Qed.

Lemma listFlags_refresh (w : World) (p : PlatformProvider) :
  flags_NewRequest (p_url p) = None → flags_valid (w_db w) →
  ∃ a w', listFlags ListFeatureFlags w = (Ret a, w') ∧ w_db w' = w_db w ∧ w_tx w' = w_tx w ∧
    refresh (inr (an_status a, an_body a)) p =
      match db_fault (w_tick w) with
      | None => set_flags p (table_flags (w_db w))
      | Some _ => p
      end.
Proof.
  intros Hreq Hv. unfold listFlags, FeatureFlags_List, ListFeatureFlags, bind, try, wrap, run_query.
  destruct (db_fault (w_tick w)).
  { eexists _, _. split; [reflexivity|]. split_and!; [done..|]. unfold refresh, fetch_flags. by rewrite Hreq. }
  cbv zeta beta iota. unfold sql_ListFeatureFlags. fold flag_of. set (listed := flag_of <$> order_by _ _ _).
  assert (sort_flags listed ≡ₚ flag_of <$> map_to_list (feature_flags (w_db w))) as Hp.
  { rewrite sort_flags_perm. unfold listed, order_by. cbn [order]. by rewrite merge_sort_Permutation, db_order_perm. }
  destruct (list_items (sort_flags listed)) as [newest items] eqn:Ei.
  pose proof (list_items_spec (sort_flags listed)) as Hi. rewrite Ei in Hi. simpl in Hi.
  eexists _, _. split; [reflexivity|]. split_and!; [done..|]. unfold refresh, fetch_flags. rewrite Hreq. simpl.
  edestruct json_Decode_Encode as [version ->]; [|].
  - simpl. rewrite Hi, Forall_fmap, Forall_forall. intros flag Hf. rewrite Hp in Hf.
    apply list_elem_of_fmap in Hf as ([k row] & -> & Hk%elem_of_map_to_list). exact (Hv k row Hk).
  - simpl. f_equal. rewrite Hi, <- list_fmap_compose. by apply flag_map_table.
Qed.

Context `{O : !Observability} `{!ObservabilityLaws O}.

(** The listing answers whatever the store does, and changes no table. *)
Lemma listFlags_answers (w : World) :
  ∃ a w', listFlags ListFeatureFlags w = (Ret a, w') ∧ w_db w' = w_db w ∧ w_tx w' = w_tx w ∧ (an_status a = 200 ∨ an_status a = 503).
Proof.
  unfold listFlags, FeatureFlags_List, ListFeatureFlags, bind, try, wrap, run_query. destruct (db_fault (w_tick w)).
  - eexists _, _. split; [reflexivity|]. auto.
  - unfold sql_ListFeatureFlags. cbv zeta beta iota. match goal with |- context [list_items ?l] => destruct (list_items l) end. eexists _, _. split; [reflexivity|]. auto.
Qed.

(** The request of a provider whose URL ends in the path of the listing. *)
Definition flags_request : Request := mkRequest "GET" "/v1/flags" "/v1/flags".

Lemma flags_request_served : app_Use (New ListFeatureFlags) flags_request = listFlags ListFeatureFlags.
Proof. rewrite New_serves. reflexivity. Qed.

(** C26: the flag listing and the provider agree.  The server answers GET /v1/flags and
    changes no table; when the database answers, a provider that fetches the listing
    then holds exactly the flags of the table, and when it does not, the answer is 503
    and the provider keeps the flags it had. *)
Theorem flags_end_to_end (w : World) (p : PlatformProvider) :
  flags_NewRequest (p_url p) = None → flags_valid (w_db w) →
  ∃ a w', app_Use (New ListFeatureFlags) flags_request w = (Ret a, w') ∧ w_db w' = w_db w ∧ w_tx w' = w_tx w ∧
    refresh (inr (an_status a, an_body a)) p =
      match db_fault (w_tick w) with
      | None => set_flags p (table_flags (w_db w))
      | Some _ => p
      end.
Proof. rewrite flags_request_served. apply listFlags_refresh. Qed.

(** C27: the HTTP surface is read-only and never fails.  Every request to the server is
    answered and leaves the tables as they were; only a GET or HEAD request for
    /v1/flags reaches the database at all, and any other that matches no probe is
    answered with an error or a redirect by the router. *)
Theorem http_surface_read_only (r : Request) (w : World) :
  ∃ a w', app_Use (New ListFeatureFlags) r w = (Ret a, w') ∧ w_db w' = w_db w ∧ w_tx w' = w_tx w ∧
    ((w' = w ∧ (segments (rq_EscapedPath r) ∈ [segments "/healthz"; segments "/readyz"] ∨
                an_status a ∈ [400; 404; 405] ∨ ∃ path, a = http_Redirect r path)) ∨
     segments (rq_EscapedPath r) = segments "/v1/flags" ∧ (rq_Method r = "GET" ∨ rq_Method r = "HEAD") ∧
       (an_status a = 200 ∨ an_status a = 503)).
Proof.
  rewrite New_serves. unfold serve_mux. destruct (ServeHTTP _ r) as [h| | | |] eqn:Hserve.
  2-5: eexists _, _; split; [reflexivity|]; split_and!; [done..|]; left; (split; [done|]); right; first [by right; eexists|left; simpl; set_solver].
  apply ServeHTTP_Serve in Hserve as (rt & Hin & <- & Hseg & Hm).
  apply list_elem_of_In in Hin as [<-|[<-|[<-|[]]]]; simpl rt_handler; simpl in Hm.
  - destruct (health_answers r w) as [a ->]. exists a, w. split_and!; [done..|]. left. split; [done|]. left. rewrite <- Hseg. by left.
  - destruct (readiness_answers r w) as [a ->]. exists a, w. split_and!; [done..|]. left. split; [done|]. left. rewrite <- Hseg. right. by left.
  - destruct (listFlags_answers w) as (a & w' & -> & ? & ? & ?). exists a, w'. split_and!; [done..|]. right.
    split_and!; [by rewrite <- Hseg|naive_solver|done].
Qed.
End consumer.

(** ** Example *)

#[local] Existing Instance bits_uuid.
#[local] Existing Instance calm_env.
#[local] Existing Instance calm_laws.

(** Documents written with their fields as text encodings of numbers. *)
Definition item_tuple (i : flagItem) : string * bool * string := (fi_Name i, fi_Enabled i, fi_Description i).
Definition record_tuple (t : string * bool * string) : flagRecord := mkFlagRecord t.1.1 t.1.2 t.2.

Definition demo_json : FlagsJSON := {|
  json_EncodeFlags r := pos_text (encode (item_tuple <$> fp_Flags r));
  json_EncodeError msg := msg;
  rfc3339nano _ := "";
|}.
Definition demo_json_lib : FlagsLib := {|
  flags_NewRequest _ := None;
  json_DecodeFlags body :=
    match pos_of_text body ≫= decode (A:=list (string * bool * string)) with
    | Some l => inr (mkFlagsDocument "" (record_tuple <$> l))
    | None => inl (Errorf "invalid document" [])
    end;
|}.

Lemma demo_json_laws : FlagsJSONLaws demo_json demo_json_lib.
Proof.
  split. intros r _. exists "". simpl. rewrite pos_of_pos_text. simpl. rewrite decode_encode. do 2 f_equal.
  rewrite <- list_fmap_compose. done.
Qed.

#[local] Existing Instance demo_json.
#[local] Existing Instance demo_json_lib.
#[local] Existing Instance demo_json_laws.

Definition flags_db : DB Envelope :=
  mkDB ∅ ∅ ∅ ∅ ∅ ∅ ∅ [] {[ "manova.auth.email_otp" := mkFlagRow true "codes by mail" 5 ]}.

(** Probes that answer ok, and nothing around the handlers. *)
Definition demo_observability : Observability := {|
  HealthHandler _ := ret (mkAnswer 200 ∅ "ok");
  ReadinessHandler _ := ret (mkAnswer 200 ∅ "ok");
  HTTPMiddleware h := h;
  adaptor_HTTPHandler h := h;
  http_Redirect _ path := mkAnswer 301 {["Location" := path]} "";
|}.

Lemma demo_observability_laws : ObservabilityLaws demo_observability.
Proof. split; [intros r w; by eexists..|done|done]. Qed.

#[local] Existing Instance demo_observability.
#[local] Existing Instance demo_observability_laws.

Definition deleting : Request := mkRequest "DELETE" "/v1/flags" "/v1/flags".

Lemma deleting_refused :
  match (app_Use (New ListFeatureFlags) deleting (start flags_db)).1 with
  | Ret a => bool_decide (an_status a = 405 ∧ an_headers a !! "Allow" = Some "GET, HEAD")
  | _ => false
  end = true.
Proof. vm_compute. reflexivity. Qed.

Lemma http_surface_read_only_witness :
  ∃ a w', app_Use (New ListFeatureFlags) deleting (start flags_db) = (Ret a, w') ∧
    (an_status a = 405 ∧ an_headers a !! "Allow" = Some "GET, HEAD") ∧ w_db w' = flags_db.
Proof.
  destruct (http_surface_read_only deleting (start flags_db)) as (a & w' & H & Hdb & _).
  exists a, w'. split; [exact H|]. split; [|exact Hdb]. pose proof deleting_refused as Hr. rewrite H in Hr.
  exact (bool_decide_eq_true_1 _ Hr).
Defined.

Lemma flags_end_to_end_witness :
  ∃ a w', app_Use (New ListFeatureFlags) flags_request (start flags_db) = (Ret a, w') ∧
    refresh (inr (an_status a, an_body a)) (newPlatformProvider "u") =
      set_flags (newPlatformProvider "u") (table_flags flags_db).
Proof.
  destruct (flags_end_to_end (E:=demo_json) (F:=demo_json_lib) (start flags_db) (newPlatformProvider "u") eq_refl) as (a & w' & H1 & _ & _ & H2).
  - apply map_Forall_singleton. vm_compute. split; reflexivity.
  - exists a, w'. exact (conj H1 H2).
Defined.
