(* ===== verification/Startup.v ===== *)
(** cmd/auth/main.go: the process from its environment to a running service.

    [main] is the function up to the servers, over a [Machine]: the migration tables and
    the other tables of the database, and whether the relay goroutine runs.  What
    libraries report (observability, opening the database, the pool, the message bus,
    the port) is an argument; the key files, the environment, the gRPC client, the JSON
    decoder of the demo users, the SQL of the embedded migrations, the batches of the
    outbox relay and the flag evaluator are parameters. *)
From S2P Require Import Prelude Migrations GoStrings Domain Libs Tenancy Tables Database World Demo Ports Postgres Scenario.
From S2P Require Import FlagsProvider Token Jwks Service Adapters Grpc KeyFiles.
Local Open Scope Z_scope.
Local Open Scope orbit_scope.

(** ** NewService *)

Section deps.
Context `{V : Env}.

(** [application.Deps], less the logger. *)
Record Deps := mkDeps {
  d_OTP : option OTPStore;
  d_Users : option UserStore;
  d_Refresh : RefreshTokenStore;
  d_Tokens : APITokenStore;
  d_Orgs : option OrgStore;
  d_Invites : option InviteStore;
  d_Signup : option SignupStore;
  d_Notifier : option Notifier;
  d_Flags : option Flags;
  d_Clock : Clock;
  d_IDs : IDGenerator;
  d_Signer : TokenSigner;
  d_Hasher : Hasher;
  d_Codes : CodeGenerator;
  d_Secrets : SecretGenerator;
  d_SignupOpen : bool;
  d_DemoMode : bool;
  d_DemoUsers : list DemoUser;
  d_AutoSelectSingleOrg : bool;
}.

Definition NewService (deps : Deps) : Service :=
  mkService (d_OTP deps) (d_Users deps) (d_Refresh deps) (d_Tokens deps) (d_Orgs deps) (d_Invites deps) (d_Signup deps)
    (d_Notifier deps) (d_Flags deps) (d_Clock deps) (d_IDs deps) (d_Signer deps) (d_Hasher deps) (d_Codes deps)
    (d_Secrets deps) (d_SignupOpen deps) (d_DemoMode deps) (d_DemoUsers deps) (d_AutoSelectSingleOrg deps).

Context `{UC : UnicodeCase}.

(** The dependencies [main] passes. *)
Definition main_deps (flags : Flags) (signer : TokenSigner) (rfc3339 : time → string) (cfg : Config) : Deps :=
  mkDeps (Some pg_otp) (Some pg_users) pg_refresh pg_tokens (Some pg_orgs) (Some pg_invites) (Some pg_signup)
    (Some (notificationsClient rfc3339)) (Some flags) Now NewID signer bcryptHasher NewCode NewSecret
    (cfg_signupOpen cfg) (cfg_demoMode cfg) (cfg_demoUsers cfg) (cfg_autoSelectSingleOrg cfg).

Lemma NewService_wired flags signer rfc3339 cfg : NewService (main_deps flags signer rfc3339 cfg) = wired flags signer rfc3339 cfg.
Proof. reflexivity. Qed.
End deps.

(** ** main *)

(** [json.Unmarshal] of the demo users, and the dial options of orbit-observability. *)
Class StartupLib `{GrpcDial} := {
  json_DemoUsers : string → error + list DemoUser;
  GRPCDialOptions : list DialOption;
  InternalAuthDialOption : DialOption;
}.

Section startup.
Context `{UC : UnicodeCase} `{J : JWTLib} `{K : !KeyLib} `{GD : GrpcDial} `{SL : !StartupLib}.

Definition demoUsersFromEnv : error + list DemoUser :=
  if negb (String.eqb (os_Getenv "DEMO_MODE") "true") then inr [] else
  if negb (String.eqb (os_Getenv "DEPLOYMENT_ENVIRONMENT") "dev")
  then inl (Errorf "DEMO_MODE is only allowed when DEPLOYMENT_ENVIRONMENT=dev" []) else
  let raw := os_Getenv "AUTH_DEMO_USERS" in
  if String.eqb raw "" then inl (Errorf "AUTH_DEMO_USERS is required when DEMO_MODE=true" []) else
  json_DemoUsers raw.

(** The switches of the service. *)
Definition configFromEnv (demoUsers : list DemoUser) : Config :=
  mkConfig (EqualFold (TrimSpace (os_Getenv "AUTH_SIGNUP")) "open") (String.eqb (os_Getenv "DEMO_MODE") "true") demoUsers
    (negb (EqualFold (envOr os_Getenv "AUTH_AUTO_SELECT_SINGLE_ORG" "true") "false")).

Definition migrateOnStart : bool := negb (EqualFold (envOr os_Getenv "MIGRATE_ON_START" "true") "false").

(** The process once [main] has run: it ended, or it serves. *)
Inductive process :=
  | Exit (code : Z)
  | Serving (signer : Signer) (cfg : Config) (notif : Client) (grpcPort healthPort : string).

(** What the libraries report to [main]. *)
Record Reports := mkReports {
  rp_observability : option error;   (* observability.Configure *)
  rp_opened : option error;          (* migrations.Open *)
  rp_pool : option error;            (* pgxpool.New *)
  rp_bus : option error;             (* transport.FromEnv *)
  rp_listen : option error;          (* net.Listen *)
}.
End startup.

(** The SQL of the embedded migrations, as what a run of the migrator that took the
    version tables from the one state to the other did to the tables of the program; and
    the outbox after what the relay published up to the n-th pause of [main].  The relay
    is about [outbox_events] only. *)
Class BootLib `{V : Env} := {
  mig_tables : MigDB → MigDB → DB Envelope → DB Envelope;
  relay_outbox : nat → list (OutboxRow Envelope) → list (OutboxRow Envelope);
}.

Section boot.
Context `{V : Env} `{UC : UnicodeCase} `{J : JWTLib} `{K : !KeyLib} `{GD : GrpcDial} `{SL : !StartupLib} `{G : Goose} `{BL : !BootLib}.

(** The version tables with the number of interactions the migrator had, the world of
    the service, and the goroutine of the relay. *)
Record Machine := mkMachine {
  mc_tick : nat;
  mc_versions : MigDB;
  mc_world : World;
  mc_relay : bool;
}.

(** A step of [main]; on the left, the process has ended. *)
Definition Boot (A : Type) : Type := Machine → (process + A) * Machine.

Definition bret {A} (a : A) : Boot A := λ m, (inr a, m).
Definition exit {A} (p : process) : Boot A := λ m, (inl p, m).
Definition bbind {A B} (c : Boot A) (k : A → Boot B) : Boot B := λ m,
  match c m with (inr a, m) => k a m | (inl p, m) => (inl p, m) end.

Declare Scope boot_scope.
Local Notation "x <- m ;; k" := (bbind m (λ x, k)) (at level 100, m at next level, right associativity) : boot_scope.
Local Notation "m ;; k" := (bbind m (λ _, k)) (at level 100, right associativity) : boot_scope.
Local Open Scope boot_scope.

(** [if err != nil { os.Exit(code) }]; a panic ends a Go process with status 2. *)
Definition must (code : Z) (err : option error) : Boot unit :=
  match err with Some _ => exit (Exit code) | None => bret () end.
Definition must_have {A} (r : error + A) : Boot A :=
  match r with inl _ => exit (Exit 1) | inr a => bret a end.

Definition on_tables (f : DB Envelope → DB Envelope) (w : World) : World := mkWorld (f (w_db w)) (w_tx w) (w_tick w) (w_sent w).

(** The machine after the migrator ran. *)
Definition migrated (m : Machine) (tick : nat) (versions : MigDB) : Machine :=
  mkMachine tick versions (on_tables (mig_tables (mc_versions m) versions) (mc_world m)) (mc_relay m).

(** [runMigrate] and the end of the process. *)
Definition subcommand {A} (opened : option error) (args : list string) : Boot A := λ m,
  let '(code, tick, versions) := runMigrate opened args (mc_tick m) (mc_versions m) in
  (inl (Exit code), migrated m tick versions).

Definition migrate (opened : option error) : Boot unit := λ m,
  let '(r, tick, versions) := migrateUp opened (mc_tick m) (mc_versions m) in
  (match r with inl _ => inl (Exit 1) | inr _ => inr () end, migrated m tick versions).

(** The goroutine that calls [runEventRelay], and its work up to a pause of [main]. *)
Definition go_relay : Boot unit := λ m, (inr (), mkMachine (mc_tick m) (mc_versions m) (mc_world m) true).
Definition relay_works (n : nat) : Boot unit := λ m,
  (inr (), if mc_relay m
           then mkMachine (mc_tick m) (mc_versions m) (on_tables (set_outbox (relay_outbox n)) (mc_world m)) true else m).

Definition seed (svc : Service) : Boot unit := λ m,
  let '(r, w) := SeedDemoUsers svc (mc_world m) in
  (match r with Ret _ => inr () | Fail _ => inl (Exit 1) | Panic _ => inl (Exit 2) end,
   mkMachine (mc_tick m) (mc_versions m) w (mc_relay m)).

(** [main] up to the pool: the migrations. *)
Definition main_database (rp : Reports) (args : list string) : Boot unit :=
  must 2 (rp_observability rp) ;;
  if String.eqb (os_Getenv "DATABASE_URL") "" then exit (Exit 1) else
  match args with
  | "migrate" :: rest => subcommand (rp_opened rp) rest
  | _ => (if migrateOnStart then migrate (rp_opened rp) else bret ()) ;; must 1 (rp_pool rp)
  end.

(** The checks of the configuration, in the order of the code. *)
Definition main_checks (rp : Reports) : Boot (Signer * Client * list DemoUser) :=
  if String.eqb (os_Getenv "JWT_PRIVATE_KEY_FILE") "" || String.eqb (os_Getenv "JWT_ACTIVE_KEY_ID") "" ||
     String.eqb (os_Getenv "JWT_PUBLIC_KEYS_DIR") "" then exit (Exit 1) else
  signer <- must_have NewFromEnv ;;
  notif <- must_have (NewClient (envOr os_Getenv "NOTIFICATIONS_GRPC_ADDR" "localhost:10012") (GRPCDialOptions ++ [InternalAuthDialOption])) ;;
  demoUsers <- must_have demoUsersFromEnv ;;
  must 1 (rp_bus rp) ;;
  bret (signer, notif, demoUsers).

(** [main] up to the servers; [args] are the arguments of the process. *)
Definition main (rp : Reports) (args : list string) (flags : Flags) (rfc3339 : time → string) (m : Machine) : process * Machine :=
  let boot : Boot process :=
    main_database rp args ;;
    checked <- main_checks rp ;;
    let '(signer, notif, demoUsers) := checked in
    go_relay ;;
    relay_works 0 ;;
    let cfg := configFromEnv demoUsers in
    let svc := NewService (main_deps flags (signer_port signer) rfc3339 cfg) in
    seed svc ;;
    relay_works 1 ;;
    must 1 (rp_listen rp) ;;
    bret (Serving signer cfg notif (envOr os_Getenv "GRPC_PORT" "10010") (envOr os_Getenv "HEALTH_PORT" "10011")) in
  match boot m with (inl p, m) => (p, m) | (inr p, m) => (p, m) end.

(** ** What the parts do *)

(** A run of the migrator, at most. *)
Definition only_migrated (m m' : Machine) : Prop := m' = m ∨ ∃ tick versions, m' = migrated m tick versions.

(** [migrateUp] ran without an error, or was switched off. *)
Definition up_to_date (rp : Reports) (m m' : Machine) : Prop :=
  if migrateOnStart
  then ∃ tick versions, migrateUp (rp_opened rp) (mc_tick m) (mc_versions m) = (inr (), tick, versions) ∧ m' = migrated m tick versions
  else m' = m.

Lemma bbind_cases {A B} (c : Boot A) (k : A → Boot B) m r m' :
  bbind c k m = (r, m') → (∃ p, c m = (inl p, m') ∧ r = inl p) ∨ (∃ a m1, c m = (inr a, m1) ∧ k a m1 = (r, m')).
Proof. unfold bbind. destruct (c m) as [[p|a] m1]; [intros [= <- <-]; left; eauto|eauto]. Qed.

Lemma main_database_spec rp args m r m' :
  main_database rp args m = (r, m') →
  only_migrated m m' ∧ (∀ a b c d e, r ≠ inl (Serving a b c d e)) ∧ (r = inr () → up_to_date rp m m').
Proof.
  unfold main_database, must, exit, bret. intros [(p & H & ->)|([] & m1 & H & Hk)]%bbind_cases.
  - destruct (rp_observability rp); simplify_eq. split_and!; [by left|done..].
  - destruct (rp_observability rp); [done|]. simplify_eq. destruct (String.eqb _ _); [simplify_eq; split_and!; [by left|done..]|].
    assert (∀ r m', ((if migrateOnStart then migrate (rp_opened rp) else λ m, (inr (), m)) ;; must 1 (rp_pool rp)) m1 = (r, m') →
      only_migrated m1 m' ∧ (∀ a b c d e, r ≠ inl (Serving a b c d e)) ∧ (r = inr () → up_to_date rp m1 m')) as Hrest.
    { clear. intros r m' [(p & H & ->)|([] & m2 & H & Hk)]%bbind_cases.
      - destruct migrateOnStart; [|done]. unfold migrate in H. destruct (migrateUp _ _ _) as [[[e|[]] tick] versions]; simplify_eq.
        split_and!; [right; eauto|done..].
      - unfold up_to_date. destruct migrateOnStart.
        + unfold migrate in H. destruct (migrateUp _ _ _) as [[[e|[]] tick] versions] eqn:E; simplify_eq.
          unfold must, exit, bret in Hk. destruct (rp_pool rp); simplify_eq; (split_and!; [right; eauto|done|]); [done|eauto].
        + unfold must, exit, bret in Hk. destruct (rp_pool rp); simplify_eq; (split_and!; [by left|done..]). }
    assert (∀ rest, subcommand (rp_opened rp) rest m1 = (r, m') →
      only_migrated m1 m' ∧ (∀ a b c d e, r ≠ inl (Serving a b c d e)) ∧ (r = inr () → up_to_date rp m1 m')) as Hsub.
    { intros rest. unfold subcommand. destruct (runMigrate _ _ _ _) as [[code tick] versions]. intros [= <- <-].
      split_and!; [right; eauto|done..]. }
    repeat case_match; eauto.
Qed.

Lemma main_checks_spec rp m r m' :
  main_checks rp m = (r, m') → m' = m ∧ (∀ a b c d e, r ≠ inl (Serving a b c d e)) ∧
  ∀ signer notif demoUsers, r = inr (signer, notif, demoUsers) →
    NewFromEnv = inr signer ∧ InternalAuthDialOption ∈ c_opts notif ∧ demoUsersFromEnv = inr demoUsers.
Proof.
  unfold main_checks, must_have, must, exit, bret, bbind, NewClient. destruct (_ || _); [by intros [= <- <-]|].
  destruct NewFromEnv; [by intros [= <- <-]|]. destruct (grpc_NewClient _ _); [by intros [= <- <-]|].
  destruct demoUsersFromEnv; [by intros [= <- <-]|]. destruct (rp_bus rp); intros [= <- <-]; split_and!; try done.
  intros ??? [= <- <- <-]. split_and!; [done|simpl; set_solver|done].
Qed.

(** Outside dev there is no demo mode. *)
Lemma demo_outside_dev demoUsers :
  demoUsersFromEnv = inr demoUsers → os_Getenv "DEPLOYMENT_ENVIRONMENT" ≠ "dev" → cfg_demoMode (configFromEnv demoUsers) = false.
Proof.
  unfold demoUsersFromEnv. simpl. destruct (String.eqb (os_Getenv "DEMO_MODE") "true"); [|done]. simpl.
  intros Hu Henv. by rewrite (proj2 (String.eqb_neq _ _) Henv) in Hu.
Qed.

(** Nothing but the outbox differs, and nothing was sent. *)
Definition only_relayed (w w' : World) : Prop := ∃ rows, w' = on_tables (set_outbox (λ _, rows)) w.

Lemma only_relayed_refl w : only_relayed w w.
Proof. exists (outbox_events (w_db w)). by destruct w as [[] ???]. Qed.

(** The last part of [main], with its configuration checked. *)
Definition main_serves (rp : Reports) (signer : Signer) (notif : Client) (svc : Service) (cfg : Config) : Boot process :=
  go_relay ;; relay_works 0 ;; seed svc ;; relay_works 1 ;; must 1 (rp_listen rp) ;;
  bret (Serving signer cfg notif (envOr os_Getenv "GRPC_PORT" "10010") (envOr os_Getenv "HEALTH_PORT" "10011")).

Lemma main_serves_spec rp signer notif svc cfg m r m' :
  main_serves rp signer notif svc cfg m = (r, m') →
  mc_relay m' = true ∧ mc_tick m' = mc_tick m ∧ mc_versions m' = mc_versions m ∧
  (s_demoMode svc = false → only_relayed (mc_world m) (mc_world m')) ∧
  ((∃ code, r = inl (Exit code)) ∨
   r = inr (Serving signer cfg notif (envOr os_Getenv "GRPC_PORT" "10010") (envOr os_Getenv "HEALTH_PORT" "10011"))).
Proof.
  unfold main_serves, go_relay, relay_works, seed, must, exit, bret, bbind. cbn [mc_relay mc_world mc_tick mc_versions].
  destruct (SeedDemoUsers svc _) as [o w1] eqn:Hseed.
  assert (s_demoMode svc = false → o = Ret () ∧ w1 = on_tables (set_outbox (relay_outbox 0)) (mc_world m)) as Hd.
  { intros Hd. unfold SeedDemoUsers in Hseed. rewrite Hd in Hseed. simpl in Hseed. unfold ret in Hseed. injection Hseed as <- <-. split; reflexivity. }
  destruct o as [[]| |]; [|intros [= <- <-]; split_and!; [done..|intros Hx; by destruct (Hd Hx)|eauto]..].
  destruct (rp_listen rp); intros [= <- <-]; (split_and!; [done..|intros [_ ->]%Hd; by eexists|eauto]).
Qed.
End boot.

Section closed.
Context `{V : Env} `{UC : UnicodeCase} `{J : JWTLib} `{K : !KeyLib} `{GD : GrpcDial} `{SL : !StartupLib} `{G : Goose} `{BL : !BootLib}.

(** The cases of [main]: it ended before the relay was started, or went on from a
    checked configuration. *)
Lemma main_cases rp args flags rfc3339 m p m' :
  main rp args flags rfc3339 m = (p, m') →
  (only_migrated m m' ∧ ∀ a b c d e, p ≠ Serving a b c d e) ∨
  ∃ signer notif demoUsers m1, up_to_date rp m m1 ∧ only_migrated m m1 ∧ NewFromEnv = inr signer ∧
    InternalAuthDialOption ∈ c_opts notif ∧ demoUsersFromEnv = inr demoUsers ∧
    let cfg := configFromEnv demoUsers in
    ∃ r, main_serves rp signer notif (NewService (main_deps flags (signer_port signer) rfc3339 cfg)) cfg m1 = (r, m') ∧
      (r = inl p ∨ r = inr p).
Proof.
  unfold main. cbv zeta. destruct (bbind _ _ m) as [r m2] eqn:E. intros Hp.
  assert (m2 = m' ∧ (r = inl p ∨ r = inr p)) as [-> Hr] by (destruct r; simplify_eq; auto). clear Hp.
  apply bbind_cases in E as [(q & H & ->)|([] & m1 & H & Hk)].
  { destruct (main_database_spec _ _ _ _ _ H) as (? & Hq & _). left. split; [done|]. destruct Hr; simplify_eq. naive_solver. }
  destruct (main_database_spec _ _ _ _ _ H) as (Hm & _ & Hu). specialize (Hu eq_refl). clear H.
  apply bbind_cases in Hk as [(q & H & ->)|([[signer notif] demoUsers] & m3 & H & Hk)]; apply main_checks_spec in H as (-> & Hq & Hc).
  - left. split; [done|]. destruct Hr; simplify_eq. naive_solver.
  - right. destruct (Hc _ _ _ eq_refl) as (? & ? & ?). exists signer, notif, demoUsers, m1. split_and!; [done..|]. eauto.
Qed.

(** C28: start-up fails closed.  A process that serves loaded its keys, sends its
    internal credential with every notification, and either was told not to migrate or
    has run the migrations without an error; unless AUTH_SIGNUP says open, self-serve
    sign-up is refused by every call of its service, without touching the world.  A
    process that ended with its relay not started has changed nothing but by
    migrations.  And outside the dev environment no process is in demo mode, and however
    it goes on, start-up has sent nothing and, apart from the migrations it ran and the
    events its relay took from the outbox, written nothing. *)
Theorem startup_fails_closed rp args (flags : Flags) (rfc3339 : time → string) m p m' :
  main rp args flags rfc3339 m = (p, m') → mc_relay m = false →
  match p with
  | Exit _ => mc_relay m' = false → only_migrated m m'
  | Serving signer cfg notif _ _ =>
      let svc := NewService (main_deps flags (signer_port signer) rfc3339 cfg) in
      mc_relay m' = true ∧ NewFromEnv = inr signer ∧ InternalAuthDialOption ∈ c_opts notif ∧
      (∃ m1, up_to_date rp m m1 ∧ mc_versions m' = mc_versions m1 ∧
        (os_Getenv "DEPLOYMENT_ENVIRONMENT" ≠ "dev" → cfg_demoMode cfg = false ∧ only_relayed (mc_world m1) (mc_world m'))) ∧
      (EqualFold (TrimSpace (os_Getenv "AUTH_SIGNUP")) "open" = false →
        (∀ email password name locale orgName token w,
           RegisterWithEmail svc email password name locale orgName token w = (Fail ErrSignupDisabled, w)) ∧
        (∀ email code password w, VerifySignup svc email code password w = (Fail ErrSignupDisabled, w)))
  end ∧
  (os_Getenv "DEPLOYMENT_ENVIRONMENT" ≠ "dev" →
    ∃ m1, only_migrated m m1 ∧ mc_versions m' = mc_versions m1 ∧ only_relayed (mc_world m1) (mc_world m')).
Proof.
  intros [[Hm Hp]|(signer & notif & users & m1 & Hup & Hm & Hn & Hi & Hu & r & Hs & Hr)]%main_cases _.
  - split; [|intros _; exists m'; split_and!; [done..|apply only_relayed_refl]]. destruct p; [done|]. by destruct (Hp signer cfg notif grpcPort healthPort).
  - set (cfg := configFromEnv users) in *. set (svc := NewService _) in *. apply main_serves_spec in Hs as (Hrelay & _ & Hv & Hw & Hcases).
    assert (os_Getenv "DEPLOYMENT_ENVIRONMENT" ≠ "dev" → cfg_demoMode cfg = false ∧ only_relayed (mc_world m1) (mc_world m')) as Hdev.
    { intros Henv. pose proof (demo_outside_dev users Hu Henv) as Hd. split; [exact Hd|]. by apply Hw. }
    split; [|intros Henv; exists m1; split_and!; [done..|by apply Hdev]].
    destruct p as [code|]; [congruence|]. destruct Hcases as [[code ->]| ->], Hr as [Hr|Hr]; [done..|]. simplify_eq.
    split_and!; [done..|by exists m1|]. intros Hs. split; intros.
    + unfold RegisterWithEmail, svc. cbn [NewService main_deps s_signupOpen d_SignupOpen cfg_signupOpen configFromEnv]. by rewrite Hs.
    + unfold VerifySignup, svc. cbn [NewService main_deps s_signupOpen d_SignupOpen cfg_signupOpen configFromEnv]. by rewrite Hs.
Qed.
End closed.

(** ** Example: a production environment *)

#[local] Existing Instance bits_uuid.
#[local] Existing Instance calm_env.
#[local] Existing Instance ascii_case.
#[local] Existing Instance demo_jwt.
#[local] Existing Instance demo_files.
#[local] Existing Instance demo_goose.

(** Options by their names. *)
Definition demo_dial : GrpcDial := {| DialOption := string; insecure_credentials := "insecure"; grpc_NewClient _ _ := None |}.
#[local] Existing Instance demo_dial.

Definition demo_startup : StartupLib := {|
  json_DemoUsers _ := inl (Errorf "unexpected end of JSON input" []);
  GRPCDialOptions := ["otel"];
  InternalAuthDialOption := "internal-auth";
|}.
#[local] Existing Instance demo_startup.

(** The pending migrations leave the rows as they are, and the relay publishes one event
    up to each pause. *)
Definition demo_boot : BootLib := {| mig_tables _ _ db := db; relay_outbox _ rows := tl rows |}.
#[local] Existing Instance demo_boot.

Definition all_well : Reports := mkReports None None None None None.
Definition production_cfg : Config := mkConfig false false [] true.
Definition production_notif : Client := mkClient "/keys/public" ["insecure"; "otel"; "internal-auth"].

(** A machine with the database of the previous runner: its two files are adopted and
    the third is applied before the process serves. *)
Definition booting : Machine := mkMachine 0 legacy_db (start empty_db) false.
Definition migrated_db : MigDB :=
  mkMigDB (Some (mkVersionRow 0 true :: ((λ v, mkVersionRow v true) <$> [1; 2; 3]))) (schema_migrations legacy_db) true [3].
Definition booted : Machine := mkMachine 11 migrated_db (start empty_db) true.

Lemma booting_migrates : migrateUp None 0%nat legacy_db = (inr (), 11%nat, migrated_db).
Proof. vm_compute. reflexivity. Qed.

Lemma booting_migrateOnStart : migrateOnStart = true.
Proof. vm_compute. reflexivity. Qed.

Lemma booting_database : main_database all_well [] booting = (inr (), mkMachine 11 migrated_db (start empty_db) false).
Proof.
  unfold main_database. assert (String.eqb (os_Getenv "DATABASE_URL") "" = false) as -> by (vm_compute; reflexivity).
  unfold bbind, must, bret. cbn [all_well rp_observability rp_opened rp_pool]. rewrite booting_migrateOnStart.
  unfold migrate, booting. cbn [mc_tick mc_versions]. rewrite booting_migrates. reflexivity.
Qed.

Lemma booting_signer : NewFromEnv = inr demo_jwt_signer.
Proof. vm_compute. reflexivity. Qed.

Lemma booting_notif :
  NewClient (envOr os_Getenv "NOTIFICATIONS_GRPC_ADDR" "localhost:10012") (GRPCDialOptions ++ [InternalAuthDialOption]) = inr production_notif.
Proof. vm_compute. reflexivity. Qed.

Lemma booting_users : demoUsersFromEnv = inr [].
Proof. vm_compute. reflexivity. Qed.

Lemma booting_checks m : main_checks all_well m = (inr (demo_jwt_signer, production_notif, []), m).
Proof.
  unfold main_checks. rewrite booting_signer, booting_notif, booting_users.
  assert (String.eqb (os_Getenv "JWT_PRIVATE_KEY_FILE") "" || String.eqb (os_Getenv "JWT_ACTIVE_KEY_ID") "" ||
    String.eqb (os_Getenv "JWT_PUBLIC_KEYS_DIR") "" = false) as -> by (vm_compute; reflexivity).
  reflexivity.
Qed.

Lemma production_main :
  main all_well [] (λ _ _, ret true) (λ _, "") booting =
    (Serving demo_jwt_signer production_cfg production_notif "/keys/public" "/keys/public", booted).
Proof.
  unfold main, bbind at 1. cbv zeta. rewrite booting_database. unfold bbind at 1. rewrite booting_checks. reflexivity.
Qed.

(** The subcommand ends the process and starts nothing. *)
Example migrate_status : runMigrate None ["status"] 0%nat legacy_db = (0, 17%nat, adopted_db) ∧
  (main all_well ["migrate"; "status"] (λ _ _, ret true) (λ _, "") booting).1 = Exit 0.
Proof. split; [vm_compute|]; reflexivity. Qed.

Lemma startup_fails_closed_witness : cfg_demoMode production_cfg = false ∧ only_relayed (start empty_db) (mc_world booted).
Proof.
  destruct (startup_fails_closed _ _ _ _ _ _ _ production_main eq_refl) as [(_ & _ & _ & (m1 & Hup & _ & Hdev) & _) Hout].
  assert (os_Getenv "DEPLOYMENT_ENVIRONMENT" ≠ "dev") as Henv by (vm_compute; congruence).
  split; [exact (proj1 (Hdev Henv))|]. apply only_relayed_refl.
Defined.
