(* ===== verification/Shutdown.v ===== *)
(** The end of [main] in cmd/auth/main.go: the relay goroutine against the shutdown hooks.

    The hooks and the relay run concurrently; a state of the process has what each does
    next and what is still open.  [observability.WaitForSignal] is third-party code: a
    parameter that runs the hooks it is given. *)
From S2P Require Import Prelude Domain Relay.
From stdpp Require Import relations.

(** What the hooks do. *)
Inductive action := StopRelay | AwaitRelay | CloseBus | ShutdownHTTP | ClosePool.

(** [OnShutdown], each hook as the actions of its body. *)
Definition OnShutdown : list (list action) := [[StopRelay; AwaitRelay]; [CloseBus]; [ShutdownHTTP]; [ClosePool]].

(** The actions of the hooks in the order [WaitForSignal] takes them. *)
Class ShutdownLib := { WaitForSignal : list (list action) → list action }.

(** It runs the hooks of the slice one after the other. *)
Class ShutdownLaws (W : ShutdownLib) : Prop := { hooks_in_order : ∀ hooks, WaitForSignal hooks = mjoin hooks }.

(** Where the relay goroutine is: before a call of [RunOnce], in it, in the [select]
    that waits, or returned, which closes [relayDone]. *)
Inductive relay_pc := Polling | InRunOnce | Waiting | Returned.

#[global] Instance relay_pc_eq_dec : EqDecision relay_pc.
Proof. solve_decision. Defined.

Record Process := mkProcess {
  pr_relay : relay_pc;
  pr_cancelled : bool;       (* relayCtx *)
  pr_expired : bool;         (* the context of the shutdown *)
  pr_bus : bool;
  pr_http : bool;
  pr_pool : bool;
  pr_hooks : list action;    (* what is left of the hooks *)
}.

Definition set_relay (pc : relay_pc) (p : Process) : Process :=
  mkProcess pc (pr_cancelled p) (pr_expired p) (pr_bus p) (pr_http p) (pr_pool p) (pr_hooks p).

(** A step of the relay; [result] is what [RunOnce] returned, and [fired] whether the
    timer was chosen when the context is done as well. *)
Definition relay_step (result : Z * option error) (fired : bool) (p : Process) : option Process :=
  match pr_relay p with
  | Polling => Some (set_relay InRunOnce p)
  | InRunOnce =>
      if pr_cancelled p then Some (set_relay Returned p) else
      match result.2 with
      | Some _ => Some (set_relay Waiting p)
      | None => Some (set_relay (if Z.ltb 0 result.1 then Polling else Waiting) p)
      end
  | Waiting => Some (set_relay (if pr_cancelled p && negb fired then Returned else Polling) p)
  | Returned => None
  end.

(** The next action of the hooks; waiting for the relay ends when it has returned or the
    context of the shutdown is done. *)
Definition hook_step (p : Process) : option Process :=
  match pr_hooks p with
  | [] => None
  | StopRelay :: l => Some (mkProcess (pr_relay p) true (pr_expired p) (pr_bus p) (pr_http p) (pr_pool p) l)
  | AwaitRelay :: l =>
      if bool_decide (pr_relay p = Returned) || pr_expired p
      then Some (mkProcess (pr_relay p) (pr_cancelled p) (pr_expired p) (pr_bus p) (pr_http p) (pr_pool p) l) else None
  | CloseBus :: l => Some (mkProcess (pr_relay p) (pr_cancelled p) (pr_expired p) false (pr_http p) (pr_pool p) l)
  | ShutdownHTTP :: l => Some (mkProcess (pr_relay p) (pr_cancelled p) (pr_expired p) (pr_bus p) false (pr_pool p) l)
  | ClosePool :: l => Some (mkProcess (pr_relay p) (pr_cancelled p) (pr_expired p) (pr_bus p) (pr_http p) false l)
  end.

Definition expire (p : Process) : Process :=
  mkProcess (pr_relay p) (pr_cancelled p) true (pr_bus p) (pr_http p) (pr_pool p) (pr_hooks p).

(** The steps the program takes, and the context of the shutdown running out. *)
Inductive program_step (p p' : Process) : Prop :=
  | step_relay result fired : relay_step result fired p = Some p' → program_step p p'
  | step_hook : hook_step p = Some p' → program_step p p'.

Inductive process_step (p p' : Process) : Prop :=
  | step_program : program_step p p' → process_step p p'
  | step_expire : p' = expire p → process_step p p'.

Section shutdown.
Context `{W : ShutdownLib}.

(** The process when the signal arrives, with the relay anywhere in its loop. *)
Definition signalled (pc : relay_pc) : Process := mkProcess pc false false true true true (WaitForSignal OnShutdown).

Context `{!ShutdownLaws W}.

(** ** The invariant *)

(** What has happened when this much of the hooks is left. *)
Definition progress (p : Process) : Prop :=
  match pr_hooks p with
  | [StopRelay; AwaitRelay; CloseBus; ShutdownHTTP; ClosePool] => pr_cancelled p = false ∧ pr_bus p = true ∧ pr_http p = true ∧ pr_pool p = true
  | [AwaitRelay; CloseBus; ShutdownHTTP; ClosePool] => pr_cancelled p = true ∧ pr_bus p = true ∧ pr_http p = true ∧ pr_pool p = true
  | [CloseBus; ShutdownHTTP; ClosePool] =>
      pr_cancelled p = true ∧ (pr_relay p = Returned ∨ pr_expired p = true) ∧ pr_bus p = true ∧ pr_http p = true ∧ pr_pool p = true
  | [ShutdownHTTP; ClosePool] =>
      pr_cancelled p = true ∧ (pr_relay p = Returned ∨ pr_expired p = true) ∧ pr_bus p = false ∧ pr_http p = true ∧ pr_pool p = true
  | [ClosePool] =>
      pr_cancelled p = true ∧ (pr_relay p = Returned ∨ pr_expired p = true) ∧ pr_bus p = false ∧ pr_http p = false ∧ pr_pool p = true
  | [] =>
      pr_cancelled p = true ∧ (pr_relay p = Returned ∨ pr_expired p = true) ∧ pr_bus p = false ∧ pr_http p = false ∧ pr_pool p = false
  | _ => False
  end.

Ltac hooks_cases p := destruct p as [rpc cancelled expired bus http pool hooks];
  repeat (destruct hooks as [|[] hooks]; try done).

Lemma relay_step_inv result fired p p' :
  relay_step result fired p = Some p' → ∃ pc, p' = set_relay pc p ∧ pr_relay p ≠ Returned ∧
    (pr_cancelled p = true → pc = Returned ∨ (pr_relay p = Polling ∧ pc = InRunOnce) ∨ (pr_relay p = Waiting ∧ pc = Polling)).
Proof. unfold relay_step. intros H. repeat case_match; simplify_eq; eexists; (split; [reflexivity|]); split_and!; naive_solver. Qed.

Lemma process_step_progress p p' : progress p → process_step p p' → progress p'.
Proof.
  intros Hp [[result fired (pc & -> & Hne & _)%relay_step_inv|Hh]| ->].
  - revert Hp Hne. unfold progress. hooks_cases p; simpl; naive_solver.
  - revert Hp Hh. unfold progress, hook_step. hooks_cases p; simpl; try (intros ? [= <-]; simpl; naive_solver).
    destruct (bool_decide_reflect (rpc = Returned)); simpl; [|destruct expired; [|done]]; intros ? [= <-]; simpl; naive_solver.
  - revert Hp. unfold progress. hooks_cases p; simpl; naive_solver.
Qed.

Lemma reachable_progress pc p : rtc process_step (signalled pc) p → progress p.
Proof.
  assert (progress (signalled pc)) as H0 by (unfold signalled, progress; by rewrite hooks_in_order).
  intros H. revert H0. induction H as [|p1 p2 p3 Hs _ IH]; [done|]. intros Hp. apply IH. by eapply process_step_progress.
Qed.

(** ** Termination *)

Definition relay_rank (pc : relay_pc) : nat :=
  match pc with Waiting => 3 | Polling => 2 | InRunOnce => 1 | Returned => 0 end.

(** The steps left once the relay is cancelled. *)
Definition work (p : Process) : nat := relay_rank (pr_relay p) + length (pr_hooks p).

Lemma program_step_work p p' : pr_cancelled p = true → program_step p p' → pr_cancelled p' = true ∧ work p' < work p.
Proof.
  intros Hc [result fired (pc & -> & Hne & Hpc)%relay_step_inv|Hh]; unfold work.
  - simpl. specialize (Hpc Hc). split; [done|]. destruct (pr_relay p); simpl; naive_solver lia.
  - revert Hh. unfold hook_step. destruct (pr_hooks p) as [|[] l]; [done|..]; try (intros [= <-]; simpl; split; [done|lia]).
    destruct (_ || _); [|done]. intros [= <-]. simpl. split; [done|lia].
Qed.

Lemma program_runs_bounded p p' n : pr_cancelled p = true → nsteps program_step n p p' → n + work p' ≤ work p.
Proof.
  intros Hc H. revert Hc. induction H as [|n p1 p2 p3 Hs _ IH]; [lia|]. intros Hc.
  apply program_step_work in Hs as [Hc' Hlt]; [|done]. specialize (IH Hc'). lia.
Qed.

Lemma relay_never_stuck p : pr_relay p ≠ Returned → ∃ p', program_step p p'.
Proof.
  intros H. destruct (relay_step (0%Z, None) false p) as [p'|] eqn:E; [by exists p'; econstructor|].
  unfold relay_step in E. repeat case_match; done.
Qed.

(** C30: the process shuts down in order.  Whatever the relay was doing when the signal
    came and however it is interleaved with the hooks: unless the context of the
    shutdown ran out, the message bus and the pool are closed only after the relay has
    returned, so it never publishes through a closed one; once the relay is cancelled,
    the program takes at most seven more steps; and when it can take none, the relay
    has returned and the bus, the HTTP server and the pool are closed. *)
Theorem shutdown_orderly pc p :
  rtc process_step (signalled pc) p →
  (pr_expired p = false → pr_bus p = false ∨ pr_pool p = false → pr_relay p = Returned) ∧
  (∀ n p', pr_cancelled p = true → nsteps program_step n p p' → n ≤ 7) ∧
  ((∀ p', ¬ program_step p p') → pr_relay p = Returned ∧ pr_bus p = false ∧ pr_http p = false ∧ pr_pool p = false).
Proof.
  intros Hp%reachable_progress. split_and!.
  - revert Hp. unfold progress. hooks_cases p; simpl; naive_solver.
  - intros n p' Hc Hn. pose proof (program_runs_bounded p p' n Hc Hn) as H.
    assert (length (pr_hooks p) ≤ 4).
    { revert Hp Hc. unfold progress. clear. hooks_cases p; simpl; try lia. naive_solver. }
    assert (relay_rank (pr_relay p) ≤ 3) by (destruct (pr_relay p); simpl; lia). unfold work in H. lia.
  - intros Hstuck. destruct (decide (pr_relay p = Returned)) as [Hr|Hr]; [|by destruct (relay_never_stuck p Hr) as [p' []%Hstuck]].
    assert (hook_step p = None) as Hh.
    { destruct (hook_step p) eqn:E; [|done]. exfalso. eapply Hstuck. by apply step_hook. }
    revert Hp Hh Hr. unfold progress, hook_step. clear. hooks_cases p; simpl; naive_solver.
Qed.
End shutdown.

(** ** Example: the signal comes while the relay waits *)

#[local] Instance in_order : ShutdownLib := {| WaitForSignal hooks := mjoin hooks |}.
#[local] Instance in_order_laws : ShutdownLaws in_order.
Proof. done. Qed.

Definition closed_down : Process := mkProcess Returned true false false false false [].

Lemma closed_down_reached : rtc process_step (signalled Waiting) closed_down.
Proof.
  assert (∀ p p', hook_step p = Some p' → process_step p p') as Hh by (intros; by apply step_program, step_hook).
  eapply rtc_l; [by apply Hh|]. eapply rtc_l; [apply step_program, (step_relay _ _ (0%Z, None) false); reflexivity|].
  do 4 (eapply rtc_l; [by apply Hh|]). apply rtc_refl.
Qed.

Lemma shutdown_orderly_witness : pr_relay closed_down = Returned.
Proof.
  destruct (shutdown_orderly Waiting closed_down closed_down_reached) as (H & _ & _). apply H; [reflexivity|left; reflexivity].
Defined.
