(* ===== verification/TestDatabase.v ===== *)
(** internal/testutil/postgres.go: the disposable database of the integration tests.

    A run of [OpenPostgres] acts on a server: the schemas that exist, the pools that are
    open, and the databases anything was sent to.  Which calls fail is an oracle over the
    calls of the run; [t.Skip] and [t.Fatalf] end it.  Parameters: the environment, the
    parser and the printer of net/url (the query string is modelled in [Urls]) and the
    generator of google/uuid. *)
From S2P Require Import Prelude GoStrings Encodings Urls Domain.
Local Open Scope Z_scope.

(** The parts of a [url.URL] the code uses; [url_rest] is everything else. *)
Class URLLib := {
  url_rest : Type;
  url_Parse : string → error + (string * string * url_rest);
  url_String : string * string * url_rest → string;
}.

(** The documented behaviour of [URL.String]: it reassembles the URL into a text that
    parses to it. *)
Class URLLaws (U : URLLib) : Prop := {
  url_Parse_String : ∀ raw path query rest query',
    url_Parse raw = inr (path, query, rest) → url_Parse (url_String (path, Encode query', rest)) = inr (path, Encode query', rest);
}.

Class TestEnv := {
  TEST_DATABASE_URL : string;
  NewString : nat → string;
  call_fails : nat → option error;
}.

Record Server := mkServer {
  sv_schemas : gset string;
  sv_pools : gmap nat string;
  sv_contacted : list string;
}.

(** How the test goes on; [Fatal] has the format of its message. *)
Inductive verdict (A : Type) := Opened (a : A) | Skipped | Fatal (format : string).
Arguments Opened {A} _.
Arguments Skipped {A}.
Arguments Fatal {A} _.

(** The struct: the two pools by their handles. *)
Record Database := mkDatabase {
  Pool : nat;
  URL : string;
  Schema : string;
  basePool : nat;
}.

(** strings.ReplaceAll of one byte by nothing. *)
Definition without (c : ascii) (s : string) : string := of_bytes (filter (λ a, a ≠ c) (to_bytes s)).

Section testutil.
Context `{U : URLLib} `{TE : TestEnv}.

Definition databaseName (rawURL : string) : error + string :=
  match url_Parse rawURL with
  | inl err => inl err
  | inr (path, _, _) =>
      let name := TrimPrefix path "/" in
      if String.eqb name "" then inl (Errorf "database URL has no database name" []) else inr name
  end.

Definition withSearchPath (rawURL schema : string) : error + string :=
  match url_Parse rawURL with
  | inl err => inl err
  | inr (path, rawQuery, rest) =>
      inr (url_String (path, Encode (Values_Set "search_path" (schema +:+ ",public") (Query rawQuery)), rest))
  end.

(** Calls of the driver: the counter, and the server after it. *)
Definition C (A : Type) : Type := nat → Server → A * nat * Server.

(** [pgxpool.New]: a pool, known by the counter. *)
Definition pool_New (url : string) : C (error + nat) := λ n s,
  match call_fails n with
  | Some err => (inl err, S n, s)
  | None => (inr n, S n, mkServer (sv_schemas s) (<[n := url]> (sv_pools s)) (sv_contacted s))
  end.

(** Anything sent through a pool reaches the database of its URL. *)
Definition send (h : nat) (effect : gset string → gset string) : C (option error) := λ n s,
  let contacted := default "" (sv_pools s !! h) :: sv_contacted s in
  match call_fails n with
  | Some err => (Some err, S n, mkServer (sv_schemas s) (sv_pools s) contacted)
  | None => (None, S n, mkServer (effect (sv_schemas s)) (sv_pools s) contacted)
  end.

Definition Ping (h : nat) : C (option error) := send h id.
Definition create_schema (h : nat) (schema : string) : C (option error) := send h (λ l, {[schema]} ∪ l).
Definition drop_schema (h : nat) (schema : string) : C (option error) := send h (λ l, l ∖ {[schema]}).
Definition Close (h : nat) : C unit := λ n s, ((), n, mkServer (sv_schemas s) (delete h (sv_pools s)) (sv_contacted s)).

Definition cret {A} (a : A) : C A := λ n s, (a, n, s).
Definition cbind {A B} (m : C A) (k : A → C B) : C B := λ n s, let '(a, n, s) := m n s in k a n s.
Notation "x <- m ;; k" := (cbind m (λ x, k)) (at level 100, m at next level, right associativity).
Notation "m ;; k" := (cbind m (λ _, k)) (at level 100, right associativity).

(** [uuid.NewString]. *)
Definition uuid_NewString : C string := λ n s, (NewString n, S n, s).

(** The way out once the schema exists. *)
Definition give_back (h : nat) (schema format : string) : C (verdict Database) :=
  drop_schema h schema ;; Close h ;; cret (Fatal format).

Definition OpenPostgres : C (verdict Database) :=
  let rawURL := TrimSpace TEST_DATABASE_URL in
  if String.eqb rawURL "" then cret Skipped else
  match databaseName rawURL with
  | inl _ => cret (Fatal "TEST_DATABASE_URL: %v")
  | inr name =>
      if negb (HasPrefix name "test") then
        cret (Fatal "refusing integration tests against database %q; name must start with test")
      else
      r <- pool_New rawURL ;;
      match r with
      | inl _ => cret (Fatal "connect test database: %v")
      | inr base =>
          e <- Ping base ;;
          if e is Some _ then Close base ;; cret (Fatal "ping test database: %v") else
          id <- uuid_NewString ;;
          let schema := "auth_test_" +:+ without "-" id in
          e <- create_schema base schema ;;
          if e is Some _ then Close base ;; cret (Fatal "create isolated test schema: %v") else
          match withSearchPath rawURL schema with
          | inl _ => give_back base schema "scope test database URL: %v"
          | inr scopedURL =>
              r <- pool_New scopedURL ;;
              match r with
              | inl _ => give_back base schema "connect isolated test schema: %v"
              | inr pool =>
                  e <- Ping pool ;;
                  if e is Some _ then Close pool ;; give_back base schema "ping isolated test schema: %v"
                  else cret (Opened (mkDatabase pool scopedURL schema base))
              end
          end
      end
  end.

(** The function registered with [t.Cleanup]; [Some] when it reports an error. *)
Definition Cleanup (db : Database) : C (option error) :=
  Close (Pool db) ;; e <- drop_schema (basePool db) (Schema db) ;; Close (basePool db) ;; cret e.

(** ** What a run leaves *)

(** A URL of a database whose name starts with test. *)
Definition disposable (url : string) : Prop := ∃ name, databaseName url = inr name ∧ HasPrefix name "test" = true.

(** No handle and no schema name yet to be given is in use. *)
Definition unclaimed (n : nat) (s : Server) : Prop :=
  ∀ m, (n ≤ m)%nat → sv_pools s !! m = None ∧ "auth_test_" +:+ without "-" (NewString m) ∉ sv_schemas s.

(** [s'] is [s] with nothing left over but the databases that were contacted; a schema
    stays only when the last call, which was to drop it, failed. *)
Definition restored (n : nat) (s s' : Server) : Prop :=
  sv_pools s' = sv_pools s ∧
  (sv_schemas s' = sv_schemas s ∨
   is_Some (call_fails (pred n)) ∧ ∃ m, sv_schemas s' = {["auth_test_" +:+ without "-" (NewString m)]} ∪ sv_schemas s) ∧
  ∃ urls, sv_contacted s' = urls ++ sv_contacted s ∧ Forall disposable urls.

Context `{!URLLaws U}.

(** The scoped URL names the same database. *)
Lemma withSearchPath_database rawURL schema url : withSearchPath rawURL schema = inr url → databaseName url = databaseName rawURL.
Proof.
  unfold withSearchPath, databaseName. destruct (url_Parse rawURL) as [|[[path query] rest]] eqn:E; [done|]. intros [= <-].
  by rewrite (url_Parse_String _ _ _ _ _ E).
Qed.

(** The search path of a URL. *)
Definition search_path (url : string) : option (list string) :=
  match url_Parse url with inl _ => None | inr (_, query, _) => Query query !! "search_path" end.

Lemma withSearchPath_isolates rawURL schema url :
  withSearchPath rawURL schema = inr url → search_path url = Some [schema +:+ ",public"].
Proof.
  unfold withSearchPath, search_path. destruct (url_Parse rawURL) as [|[[path query] rest]] eqn:E; [done|]. intros [= <-].
  rewrite (url_Parse_String _ _ _ _ _ E), Query_Encode; [apply lookup_insert_eq|].
  apply map_Forall_insert_2; [done|apply Query_well_formed].
Qed.

(** Dropping the schema and closing the pool restores the server, whether the call fails
    or not. *)
Lemma drop_restores {A} h m n raw urls schemas pools contacted r n' s' (k : option error → A) :
  let x := "auth_test_" +:+ without "-" (NewString m) in
  x ∉ schemas → pools !! h = None → disposable raw → Forall disposable urls →
  cbind (drop_schema h x) (λ e, Close h ;; cret (k e)) n (mkServer ({[x]} ∪ schemas) (<[h := raw]> pools) (urls ++ contacted)) = (r, n', s') →
  (∃ e, r = k e) ∧ restored n' (mkServer schemas pools contacted) s'.
Proof.
  intros x Hx Hh Hraw Hurls. unfold cbind, drop_schema, send, Close, cret. cbn [sv_schemas sv_pools sv_contacted].
  rewrite lookup_insert_eq. simpl. destruct (call_fails n) eqn:E; intros [= <- <- <-]; (split; [by eexists|]).
  all: split_and!; cbn [sv_schemas sv_pools sv_contacted]; [by apply delete_insert_id| |exists (raw :: urls); split; [done|by constructor]].
  - right. simpl. rewrite E. eauto.
  - left. set_solver.
Qed.

(** The integration tests touch nothing but a disposable database, and leave it as it
    was.  Whatever calls fail, everything [OpenPostgres] sends goes to a database whose
    name starts with test; when it gives no database, and after the cleanup of the one
    it gave, every pool it opened is closed and the schema it created is dropped, unless
    the call that drops it failed; and the database it gives looks names up in a schema
    that did not exist before. *)
Theorem OpenPostgres_isolated n s v n' s' :
  unclaimed n s → OpenPostgres n s = (v, n', s') →
  match v with
  | Opened db =>
      disposable (URL db) ∧ search_path (URL db) = Some [Schema db +:+ ",public"] ∧
      (Schema db ∉ sv_schemas s) ∧ (Schema db ∈ sv_schemas s') ∧
      ∀ r n2 s2, Cleanup db n' s' = (r, n2, s2) → restored n2 s s2
  | _ => restored n' s s'
  end.
Proof.
  intros Hfree. assert (∀ m, restored m s s) as Hnil.
  { intros m. split_and!; [done|by left|]. exists []. by split. }
  unfold OpenPostgres. cbv zeta. destruct (String.eqb _ ""); [by intros [= <- <- <-]|].
  destruct (databaseName _) as [|name] eqn:Hname; [by intros [= <- <- <-]|].
  destruct (HasPrefix name "test") eqn:Htest; [|by intros [= <- <- <-]]. cbn [negb].
  set (raw := TrimSpace TEST_DATABASE_URL) in *. assert (disposable raw) as Hraw by by exists name.
  destruct (Hfree n) as [Hpool _]; [lia|]. unfold cbind at 1, pool_New at 1.
  destruct (call_fails n); [by intros [= <- <- <-]|].
  destruct s as [schemas pools contacted]. cbn [sv_schemas sv_pools sv_contacted] in *.
  unfold cbind at 1, Ping at 1, send at 1. cbn [sv_schemas sv_pools sv_contacted]. rewrite lookup_insert_eq. simpl.
  destruct (call_fails (S n)).
  { intros [= <- <- <-]. split_and!; [by apply delete_insert_id|by left|]. exists [raw]. split; [done|]. by constructor. }
  unfold cbind at 1, uuid_NewString at 1. unfold cbind at 1, create_schema at 1, send at 1. cbn [sv_schemas sv_pools sv_contacted].
  rewrite lookup_insert_eq. simpl. set (x := "auth_test_" +:+ without "-" (NewString (S (S n)))).
  destruct (Hfree (S (S n))) as [_ Hx]; [lia|]. fold x in Hx.
  destruct (call_fails (S (S (S n)))).
  { intros [= <- <- <-]. split_and!; [by apply delete_insert_id|by left|]. exists [raw; raw]. split; [done|]. by repeat constructor. }
  destruct (withSearchPath raw x) as [|scoped] eqn:Hs.
  { intros H. apply (drop_restores n (S (S n)) _ raw [raw; raw]) in H as [[_ ->] H]; [done..|by repeat constructor]. }
  destruct (Hfree (S (S (S (S n))))) as [Hpool2 _]; [lia|]. cbn [sv_pools] in Hpool2.
  assert (disposable scoped) as Hscoped by (exists name; by rewrite (withSearchPath_database _ _ _ Hs)).
  unfold cbind at 1, pool_New at 1. destruct (call_fails (S (S (S (S n))))).
  { intros H. apply (drop_restores n (S (S n)) _ raw [raw; raw]) in H as [[_ ->] H]; [done..|by repeat constructor]. }
  cbn [sv_schemas sv_pools sv_contacted]. unfold cbind at 1, Ping at 1, send at 1. cbn [sv_schemas sv_pools sv_contacted].
  rewrite lookup_insert_eq. simpl.
  assert (delete (S (S (S (S n)))) (<[S (S (S (S n))) := scoped]> (<[n := raw]> pools)) = <[n := raw]> pools) as Hclose.
  { apply delete_insert_id. rewrite lookup_insert_ne by lia. done. }
  destruct (call_fails (S (S (S (S (S n)))))).
  { unfold cbind at 1, Close at 1. cbn [sv_schemas sv_pools sv_contacted]. rewrite Hclose.
    intros H. apply (drop_restores n (S (S n)) _ raw [scoped; raw; raw]) in H as [[_ ->] H]; [done..|by repeat constructor]. }
  intros [= <- <- <-]. cbn [URL Schema]. split_and!; [done|by eapply withSearchPath_isolates|done|set_solver|].
  intros r n2 s2. unfold Cleanup, cbind at 1, Close at 1. cbn [Pool basePool Schema sv_schemas sv_pools sv_contacted].
  rewrite Hclose. intros H. by apply (drop_restores n (S (S n)) _ raw [scoped; raw; raw]) in H as [_ H]; [|repeat constructor..].
Qed.
End testutil.

(** ** Example: the second ping fails *)

(** A URL that is a path with a query string. *)
#[local] Instance path_urls : URLLib := {|
  url_rest := unit;
  url_Parse raw := match cut "?" raw with Some (p, q) => inr (p, q, ()) | None => inr (raw, "", ()) end;
  url_String u := if String.eqb u.1.2 "" then u.1.1 else u.1.1 +:+ "?" +:+ u.1.2;
|}.

#[local] Instance path_urls_laws : URLLaws path_urls.
Proof.
  split. intros raw path query [] query'. simpl. intros H.
  assert ("?"%char ∉ to_bytes path) as Hp.
  { destruct (cut "?" raw) as [[p q]|] eqn:E; simplify_eq; [by apply cut_Some in E as [_ ?]|].
    intros Hin. apply list_elem_of_split in Hin as (l & l' & Hl). revert l Hl. induction path as [|c path IH]; intros l Hl; simpl in *.
    - by destruct l.
    - case_bool_decide; [done|]. destruct (cut "?" path) as [[]|]; [done|]. destruct l as [|d l]; simplify_eq/=. by eapply IH. }
  assert (cut "?" path = None) as Hc.
  { destruct (cut "?" path) as [[p' q']|] eqn:E'; [|done]. apply cut_Some in E' as [-> _]. exfalso. apply Hp.
    rewrite to_bytes_app. simpl. set_solver. }
  destruct (String.eqb_spec (Encode query') "") as [->|]; [by rewrite Hc|].
  change ("?" +:+ Encode query') with (String "?" (Encode query')). by rewrite cut_app.
Qed.

#[local] Instance failing_ping : TestEnv := {|
  TEST_DATABASE_URL := " /test_auth?sslmode=off ";
  NewString n := of_bytes (repeat "a"%char n ++ ["-"%char]);
  call_fails n := if decide (n = 5%nat) then Some (Errorf "timeout" []) else None;
|}.

Definition blank : Server := mkServer ∅ ∅ [].

Lemma OpenPostgres_isolated_witness :
  OpenPostgres O blank =
    (Fatal "ping isolated test schema: %v", 7%nat,
     mkServer ∅ ∅ ["/test_auth?sslmode=off"; "/test_auth?search_path=auth_test_aa%2Cpublic&sslmode=off"; "/test_auth?sslmode=off";
       "/test_auth?sslmode=off"]) ∧
  restored 7%nat blank (OpenPostgres O blank).2.
Proof.
  assert (OpenPostgres O blank = (Fatal "ping isolated test schema: %v", 7%nat, (OpenPostgres O blank).2)) as E by (vm_compute; reflexivity).
  split; [vm_compute; reflexivity|].
  refine (OpenPostgres_isolated O blank _ _ _ _ E). intros m _. split; [apply lookup_empty|apply not_elem_of_empty].
Defined.
