(* ===== verification/Writers.v ===== *)
(** The other writers of [Interleaving]: what every method of the store but the purge of
    unverified sign-ups, the removal and the demotion of members leaves as it was.

    A step [outside] of the interleaved transactions stands for any of these methods:
    beyond waiting for the locks, nothing has to be assumed of them. *)
From S2P Require Import Prelude GoStrings Domain OrgSpec InviteSpec Interleaving.
From S2P Require Import Libs Tables Database DatabaseProps World Effects Demo Ports Postgres PostgresProps Exec OrgProps.
Local Open Scope Z_scope.
Local Open Scope orbit_scope.

Section writers.
Context `{V : Env}.

(** Organizations and accounts stay, as do active members and the invitations that are
    no longer pending. *)
Record kept (db db' : DB Envelope) : Prop := {
  kept_orgs : ∀ org, is_Some (organizations db !! org) → is_Some (organizations db' !! org);
  kept_users : ∀ u, is_Some (users db !! u) → is_Some (users db' !! u);
  kept_settled : ∀ id r, organization_invites db !! id = Some r → ir_status r ≠ InvitePending →
    organization_invites db' !! id = Some r;
  kept_active : ∀ k m, organization_memberships db !! k = Some m → mr_status m = MembershipActive →
    organization_memberships db' !! k = Some m;
}.

#[local] Instance kept_preorder : PreOrder kept.
Proof. split; [by split|]. intros db1 db2 db3 [A1 A2 A3 A4] [B1 B2 B3 B4]. split; eauto. Qed.

(** ** Statements *)

Lemma kept_same db db' :
  organizations db' = organizations db → users db' = users db → organization_invites db' = organization_invites db →
  organization_memberships db' = organization_memberships db → kept db db'.
Proof. intros E1 E2 E3 E4. split; by rewrite ?E1, ?E2, ?E3, ?E4. Qed.

Lemma kept_user k x db : kept db (set_users <[k := x]> db).
Proof. split; simpl; auto. intros u Hu. rewrite lookup_insert_is_Some. destruct (decide (k = u)); auto. Qed.
Lemma kept_user_alter k f db : kept db (set_users (alter f k) db).
Proof. split; simpl; auto. intros u Hu. by rewrite lookup_alter_is_Some. Qed.
Lemma kept_org k x db : kept db (set_organizations <[k := x]> db).
Proof. split; simpl; auto. intros u Hu. rewrite lookup_insert_is_Some. destruct (decide (k = u)); auto. Qed.
Lemma kept_member k x db :
  (∀ m, organization_memberships db !! k = Some m → mr_status m ≠ MembershipActive) → kept db (set_memberships <[k := x]> db).
Proof.
  intros Hk. split; simpl; auto. intros k' m Hm Ha. rewrite lookup_insert_ne; [done|]. intros ->. by apply (Hk m).
Qed.
Lemma kept_invite k x db : organization_invites db !! k = None → kept db (set_invites <[k := x]> db).
Proof. intros Hk. split; simpl; auto. intros id r Hr _. rewrite lookup_insert_ne; [done|]. intros ->. congruence. Qed.
Lemma kept_invites_update p f db :
  (∀ k r, p k r = true → ir_status r = InvitePending) → kept db (set_invites (update_where p f) db).
Proof.
  intros Hp. split; simpl; auto. intros id r Hr Hs. rewrite lookup_update_where, Hr. simpl.
  destruct (p id r) eqn:E; [|done]. by apply Hp in E.
Qed.

Definition keeps {A} (q : Database.statement (E:=Envelope) A) : Prop := ∀ s db a db', q s db = inr (a, db') → kept db db'.

Lemma keeps_sound {A} db (q : Database.statement (E:=Envelope) A) : keeps q → sound db_lower (kept db) q.
Proof. intros Hq s db1 a db2 _ Hk E. etrans; [exact Hk|by eapply Hq]. Qed.

Lemma keeps_AddActive o u : keeps (sql_AddActiveOrganizationMembership o u).
Proof.
  intros s db a db'. unfold sql_AddActiveOrganizationMembership, insert_membership.
  destruct (organization_memberships db !! (o, u)) as [r|] eqn:E.
  - case_decide as Hs; intros [= _ <-]; [|reflexivity]. apply kept_member. intros m Hm. simplify_eq. by rewrite Hs.
  - repeat case_match; intros; simplify_eq. apply kept_member. intros m Hm. congruence.
Qed.
Lemma keeps_AddMembership o u st : keeps (sql_AddOrganizationMembership o u st).
Proof.
  intros s db a db'. unfold sql_AddOrganizationMembership, insert_membership.
  destruct (organization_memberships db !! (o, u)) eqn:E; [by intros [= _ <-]|].
  repeat case_match; intros; simplify_eq. apply kept_member. intros m Hm. congruence.
Qed.
Lemma keeps_CreateInvite id o e h inv st t1 t2 : keeps (sql_CreateOrganizationInvite id o e h inv st t1 t2).
Proof.
  intros s db a db'. unfold sql_CreateOrganizationInvite, not_null. destruct t1, t2; try done. cbv zeta.
  destruct (first_where _ _) eqn:Ef; [done|]. destruct (organizations db !! o), (users db !! inv); try done.
  intros [= _ <-]. apply kept_invite. rewrite first_where_None in Ef.
  destruct (organization_invites db !! id) as [r|] eqn:Er; [|done]. specialize (Ef _ _ Er). by rewrite bool_decide_eq_true_2 in Ef.
Qed.
Lemma keeps_RevokePending o e : keeps (sql_RevokePendingOrganizationInvitesForEmail o e).
Proof.
  intros s db a db' [= _ <-]. apply kept_invites_update. intros k r Hk. by apply andb_true_iff in Hk as [_ ?%bool_decide_eq_true_1].
Qed.
Lemma pending_invite_pending id org k r : pending_invite id org k r = true → ir_status r = InvitePending.
Proof. intros Hk. by apply andb_true_iff in Hk as [_ ?%bool_decide_eq_true_1]. Qed.
Lemma keeps_AcceptInvite t id o : keeps (sql_AcceptOrganizationInvite t id o).
Proof. intros s db a db' [= _ <-]. apply kept_invites_update, pending_invite_pending. Qed.
Lemma keeps_RevokeInvite id o : keeps (sql_RevokeOrganizationInvite id o).
Proof. intros s db a db' [= _ <-]. apply kept_invites_update, pending_invite_pending. Qed.

(** The other statements add rows, touch accounts, or are about other tables. *)
Ltac keeps_rows :=
  lazymatch goal with |- keeps ?q => let rec head t := lazymatch t with ?f _ => head f | _ => t end in let f := head q in unfold keeps, f end;
  unfold not_null, insert_user, replace_user; intros; cbv zeta in *; repeat case_match; simplify_eq;
  first [by apply kept_same | apply kept_user | apply kept_user_alter | apply kept_org].

Hint Resolve keeps_AddActive keeps_AddMembership keeps_CreateInvite keeps_RevokePending keeps_AcceptInvite keeps_RevokeInvite : sql.
Hint Extern 3 (keeps _) => keeps_rows : sql.
Hint Extern 3 (sound _ (kept _) _) => apply keeps_sound : sql.

(** ** Methods *)

(** All but the purge and the two interleaved calls that take members away. *)
Definition other_writer (c : store_call) : bool :=
  match c with
  | CallPurgeUnverifiedSignups _ | CallUpdateMemberStatus _ _ _ | CallRemoveMember _ _ => false
  | _ => true
  end.

Lemma kept_emitEvents db events : Steps (keeping (kept db)) (emitEvents Emit events).
Proof. apply keeping_emitEvents. apply keeping_Emit. auto with sql. Qed.
Hint Resolve kept_emitEvents : effects.

Lemma run_call_kept db c : other_writer c = true → Steps (keeping (kept db)) (run_call c).
Proof.
  intros Hc. destruct c; try done; unfold run_call, discard;
  unfold UpsertChallenge, GetLatestChallenge, IncrementAttempts, ConsumeChallenge, DeleteExpiredChallenges,
    FindOrCreateByEmail, FindOrCreateByMobile, FindByEmail, findByEmail, FindByMobile, findByMobile, FindByID, UpdateLastLogin,
    UpsertDemoUser, Store_, FindValid, Revoke, Create, ListByUser, RevokeToken, FindByPrefix, CreateOrg, GetOrg, ListOrgsForUser,
    ListMembers, AddMember, GetMembership, CreateSignupUser, ReissuePendingSignup, rotateChallenge, acceptForPending,
    VerifySignup, CreateInvite, FindInviteByTokenHash, ListInvites, RevokeInvite, AcceptInvite, ListFeatureFlags,
    membershipIDs, inviteIDs, not_found; walk.
Qed.

(** ** As steps of the interleaving *)

Lemma staffed_iff org st : staffed org st ↔ ∃ user, og_members st !! (org, user) = Some MembershipActive.
Proof.
  unfold staffed, active_count. destruct (rows_where (active_member org) (og_members st)) as [|[[o u] x] l] eqn:E; simpl.
  - split; [lia|]. intros [user Hu]. enough (((org, user), MembershipActive) ∈ rows_where (active_member org) (og_members st)) as Hin
      by (rewrite E in Hin; by apply elem_of_nil in Hin).
    apply elem_of_rows_where. split; [done|]. by apply active_member_true.
  - split; [|lia]. intros _. assert (((o, u), x) ∈ rows_where (active_member org) (og_members st)) as Hin by (rewrite E; left).
    apply elem_of_rows_where in Hin as [Hl [-> ->]%active_member_true]. eauto.
Qed.

(** Any other method of the store is a step [outside], and takes no organization its last
    active member, when it waited for the locks. *)
Theorem store_call_outside c w (s : Sys) :
  other_writer c = true → w_tx w = None → sys_book s = book (w_db w) →
  let b := book (w_db (run_call c w).2) in
  (∀ org user, is_Some (sys_locks s !! org) → og_members (bk_orgs b) !! (org, user) = og_members (bk_orgs (sys_book s)) !! (org, user)) →
  (∀ id, id ∈ marks s → bk_invites b !! id = bk_invites (sys_book s) !! id) →
  outside s b ∧ ∀ org, staffed org (bk_orgs (sys_book s)) → staffed org (bk_orgs b).
Proof.
  intros Hc Ht Hb b Hmembers Hmarks.
  assert (kept (w_db w) (w_db (run_call c w).2)) as [K1 K2 K3 K4] by (apply keeping_db; [by apply run_call_kept|done|reflexivity]).
  rewrite Hb in *. subst b. split; [split_and!|].
  - rewrite Hb. intros org. simpl. rewrite !lookup_fmap, !fmap_is_Some. apply K1.
  - by rewrite Hb.
  - rewrite Hb. intros i t status _ _. simpl. rewrite !elem_of_dom. apply K2.
  - rewrite Hb. intros id org status Hi [Hs|Hm]; [|by rewrite Hmarks]. simpl in *. rewrite lookup_fmap, fmap_Some in *.
    destruct Hi as (r & Hr & [= -> ->]). exists r. split; [|done]. by apply K3.
  - intros org. rewrite !staffed_iff. intros [user Hu]. exists user. simpl in *. rewrite lookup_fmap, fmap_Some in *.
    destruct Hu as (m & Hm & Ha). exists m. split; [by apply K4|done].
Qed.
End writers.
