(* ===== verification/ServiceInv.v ===== *)
(** Invariants of the whole application: every use case of the wired service,
    under any failures, keeps what the statements of the store keep. *)
From S2P Require Import Prelude GoStrings Domain Libs Tables Database DatabaseProps World Effects.
From S2P Require Import Demo Ports Postgres PostgresProps Exec OrgSpec Scenario Service Adapters.
Local Open Scope Z_scope.
Local Open Scope orbit_scope.

Create HintDb use_cases.

(** One call of a use case. *)
Inductive service_call :=
  | UseRequestOTP (identifier channel correlationID : string)
  | UseVerifyOTP (identifier channel code : string)
  | UseRefresh (refreshToken : string)
  | UseSelectOrg (userID refreshToken orgID : string)
  | UseLoginWithPassword (identifier password : string)
  | UseCreateApiToken (userID name : string) (scopes : option (list string)) (expiresAt : option time)
  | UseListApiTokens (userID : string)
  | UseRevokeApiToken (userID tokenID : string)
  | UseValidateApiToken (secret : string)
  | UseSeedDemoUsers
  | UseCreateOrg (creatorID name : string)
  | UseListOrgsForUser (userID : string)
  | UseListMembers (orgID : string)
  | UseAddMember (orgID userID : string)
  | UseSuspendMember (orgID userID : string)
  | UseRemoveMember (orgID userID : string)
  | UseIsActiveMember (orgID userID : string)
  | UseInviteMember (orgID inviterID email : string)
  | UseAcceptInvite (userID token : string)
  | UseRevokeInvite (orgID inviteID callerID : string)
  | UseListInvites (orgID : string)
  | UseRegisterWithEmail (email password displayName locale orgName inviteToken : string)
  | UseVerifySignup (email code password : string)
  | UsePurgeUnverifiedSignups (before : time).

Section invariants.
Context `{V : Env} `{UC : UnicodeCase}.

Definition run_use (s : Service) (c : service_call) : M unit :=
  match c with
  | UseRequestOTP i c x => discard (RequestOTP s i c x)
  | UseVerifyOTP i c x => discard (VerifyOTP s i c x)
  | UseRefresh t => discard (Refresh s t)
  | UseSelectOrg u t o => discard (SelectOrg s u t o)
  | UseLoginWithPassword i p => discard (LoginWithPassword s i p)
  | UseCreateApiToken u n sc e => discard (CreateApiToken s u n sc e)
  | UseListApiTokens u => discard (ListApiTokens s u)
  | UseRevokeApiToken u t => discard (RevokeApiToken s u t)
  | UseValidateApiToken x => discard (ValidateApiToken s x)
  | UseSeedDemoUsers => discard (SeedDemoUsers s)
  | UseCreateOrg u n => discard (Service.CreateOrg s u n)
  | UseListOrgsForUser u => discard (Service.ListOrgsForUser s u)
  | UseListMembers o => discard (Service.ListMembers s o)
  | UseAddMember o u => discard (Service.AddMember s o u)
  | UseSuspendMember o u => discard (SuspendMember s o u)
  | UseRemoveMember o u => discard (Service.RemoveMember s o u)
  | UseIsActiveMember o u => discard (IsActiveMember s o u)
  | UseInviteMember o u e => discard (InviteMember s o u e)
  | UseAcceptInvite u t => discard (Service.AcceptInvite s u t)
  | UseRevokeInvite o i u => discard (Service.RevokeInvite s o i u)
  | UseListInvites o => discard (Service.ListInvites s o)
  | UseRegisterWithEmail e p d l o i => discard (RegisterWithEmail s e p d l o i)
  | UseVerifySignup e c p => discard (Service.VerifySignup s e c p)
  | UsePurgeUnverifiedSignups b => discard (Service.PurgeUnverifiedSignups s b)
  end.

Fixpoint run_uses (s : Service) (cs : list service_call) : M unit :=
  match cs with
  | [] => ret ()
  | c :: cs => try (run_use s c) ;; run_uses s cs
  end.

(** Seeding the configured demo accounts, and the store call it makes. *)
Definition seeding_use (c : service_call) : bool := match c with UseSeedDemoUsers => true | _ => false end.
Definition demo_call (c : store_call) : bool := match c with CallUpsertDemoUser _ _ _ _ => true | _ => false end.

(** The use cases that give out tokens, and the store call with which they do. *)
Definition issuing_use (c : service_call) : bool :=
  match c with
  | UseVerifyOTP _ _ _ | UseRefresh _ | UseSelectOrg _ _ _ | UseLoginWithPassword _ _ | UseVerifySignup _ _ _ => true
  | _ => false
  end.
Definition issue_call (c : store_call) : bool := match c with CallStore _ _ _ _ => true | _ => false end.

(** The flag provider and the token signer read and write no table. *)
Class Outside (flags : Flags) (signer : TokenSigner) : Prop := {
  flags_outside : ∀ name d w, w_db (flags name d w).2 = w_db w ∧ w_tx (flags name d w).2 = w_tx w;
  sign_outside : ∀ u e w, w_db (SignAccessToken signer u e w).2 = w_db w ∧ w_tx (SignAccessToken signer u e w).2 = w_tx w;
  signOrg_outside : ∀ u o e w, w_db (SignAccessTokenWithOrg signer u o e w).2 = w_db w ∧
    w_tx (SignAccessTokenWithOrg signer u o e w).2 = w_tx w;
}.

Section keeping.
(** A relation between the worlds before and after that allows everything but writes. *)
Context (R : relation World) `{!PreOrder R} (R_still : ∀ w w', still w w' → R w w').

Lemma keeping_outside {A} (m : M A) :
  (∀ w, w_db (m w).2 = w_db w ∧ w_tx (m w).2 = w_tx w) → Steps R m.
Proof. intros Hm w. apply R_still, Hm. Qed.

Lemma keeping_Send r : Steps R (Send r).
Proof. apply keeping_outside. intros w. unfold Send. by destruct (api_Send _ _). Qed.

(** A store method is allowed when its call is. *)
Lemma keeping_call {A} c (m : M A) : run_call c = discard m → Steps R (run_call c) → Steps R m.
Proof.
  intros Hc Hk w. specialize (Hk w). rewrite Hc in Hk. unfold discard, bind in Hk.
  by destruct (m w) as [[] ?].
Qed.

(** The store calls are allowed, those of the demo seeding when [seeding] says so and the one
    that stores a refresh token when [issuing] says so. *)
Context (seeding issuing : bool).
Context (Hcalls : ∀ c, implb (demo_call c) seeding = true → implb (issue_call c) issuing = true → Steps R (run_call c)).
Context (flags : Flags) (signer : TokenSigner) `{!Outside flags signer}.

Lemma keeping_flags name d : Steps R (flags name d).
Proof. apply keeping_outside, flags_outside. Qed.
Lemma keeping_sign u e : Steps R (SignAccessToken signer u e).
Proof. apply keeping_outside, sign_outside. Qed.
Lemma keeping_signOrg u o e : Steps R (SignAccessTokenWithOrg signer u o e).
Proof. apply keeping_outside, signOrg_outside. Qed.
Lemma keeping_NewID : Steps R NewID.
Proof. by apply keeping_outside. Qed.
Lemma keeping_Hash x : Steps R (Hash bcryptHasher x).
Proof. apply keeping_outside. intros w. simpl. unfold bind, tick, of_sum. by destruct (bcrypt_Generate _ _). Qed.
Lemma keeping_NewCode : Steps R NewCode.
Proof. apply keeping_outside. intros w. unfold NewCode, bind, tick, of_sum. by destruct (rand_Int _ _). Qed.
Lemma keeping_NewSecret : Steps R NewSecret.
Proof. apply keeping_outside. intros w. unfold NewSecret, bind, tick, of_sum. by destruct (rand_Read _ _). Qed.

(** The wired service. *)
Context (rfc3339 : time → string) (cfg : Config).
Abbreviation svc := (wired flags signer rfc3339 cfg).

(** A store method. *)
Ltac store_leaf :=
  match goal with
  | |- Steps _ (UpsertChallenge ?ch) => apply (keeping_call (CallUpsertChallenge ch) _ eq_refl), Hcalls; reflexivity
  | |- Steps _ (GetLatestChallenge ?i ?c) => apply (keeping_call (CallGetLatestChallenge i c) _ eq_refl), Hcalls; reflexivity
  | |- Steps _ (IncrementAttempts ?i) => apply (keeping_call (CallIncrementAttempts i) _ eq_refl), Hcalls; reflexivity
  | |- Steps _ (ConsumeChallenge ?i) => apply (keeping_call (CallConsumeChallenge i) _ eq_refl), Hcalls; reflexivity
  | |- Steps _ (DeleteExpiredChallenges) => apply (keeping_call (CallDeleteExpiredChallenges) _ eq_refl), Hcalls; reflexivity
  | |- Steps _ (FindOrCreateByEmail ?e) => apply (keeping_call (CallFindOrCreateByEmail e) _ eq_refl), Hcalls; reflexivity
  | |- Steps _ (FindOrCreateByMobile ?m) => apply (keeping_call (CallFindOrCreateByMobile m) _ eq_refl), Hcalls; reflexivity
  | |- Steps _ (FindByEmail ?e) => apply (keeping_call (CallFindByEmail e) _ eq_refl), Hcalls; reflexivity
  | |- Steps _ (FindByMobile ?m) => apply (keeping_call (CallFindByMobile m) _ eq_refl), Hcalls; reflexivity
  | |- Steps _ (FindByID ?u) => apply (keeping_call (CallFindByID u) _ eq_refl), Hcalls; reflexivity
  | |- Steps _ (UpdateLastLogin ?u) => apply (keeping_call (CallUpdateLastLogin u) _ eq_refl), Hcalls; reflexivity
  | |- Steps _ (UpsertDemoUser ?e ?m ?p ?d) => apply (keeping_call (CallUpsertDemoUser e m p d) _ eq_refl), Hcalls;
      [match goal with H : seeding = true |- _ => exact H end|reflexivity]
  | |- Steps _ (Store_ ?u ?o ?h ?t) => apply (keeping_call (CallStore u o h t) _ eq_refl), Hcalls;
      [reflexivity|match goal with H : issuing = true |- _ => exact H end]
  | |- Steps _ (FindValid ?h) => apply (keeping_call (CallFindValid h) _ eq_refl), Hcalls; reflexivity
  | |- Steps _ (Revoke ?h) => apply (keeping_call (CallRevoke h) _ eq_refl), Hcalls; reflexivity
  | |- Steps _ (Create ?t) => apply (keeping_call (CallCreate t) _ eq_refl), Hcalls; reflexivity
  | |- Steps _ (ListByUser ?u) => apply (keeping_call (CallListByUser u) _ eq_refl), Hcalls; reflexivity
  | |- Steps _ (RevokeToken ?u ?t) => apply (keeping_call (CallRevokeToken u t) _ eq_refl), Hcalls; reflexivity
  | |- Steps _ (FindByPrefix ?p) => apply (keeping_call (CallFindByPrefix p) _ eq_refl), Hcalls; reflexivity
  | |- Steps _ (Postgres.CreateOrg ?o ?u) => apply (keeping_call (CallCreateOrg o u) _ eq_refl), Hcalls; reflexivity
  | |- Steps _ (GetOrg ?o) => apply (keeping_call (CallGetOrg o) _ eq_refl), Hcalls; reflexivity
  | |- Steps _ (Postgres.ListOrgsForUser ?u) => apply (keeping_call (CallListOrgsForUser u) _ eq_refl), Hcalls; reflexivity
  | |- Steps _ (Postgres.ListMembers ?o) => apply (keeping_call (CallListMembers o) _ eq_refl), Hcalls; reflexivity
  | |- Steps _ (Postgres.AddMember ?o ?u ?s) => apply (keeping_call (CallAddMember o u s) _ eq_refl), Hcalls; reflexivity
  | |- Steps _ (UpdateMemberStatus ?o ?u ?s) => apply (keeping_call (CallUpdateMemberStatus o u s) _ eq_refl), Hcalls; reflexivity
  | |- Steps _ (Postgres.RemoveMember ?o ?u) => apply (keeping_call (CallRemoveMember o u) _ eq_refl), Hcalls; reflexivity
  | |- Steps _ (GetMembership ?o ?u) => apply (keeping_call (CallGetMembership o u) _ eq_refl), Hcalls; reflexivity
  | |- Steps _ (CreateSignupUser ?u ?o ?i ?t) => apply (keeping_call (CallCreateSignupUser u o i t) _ eq_refl), Hcalls; reflexivity
  | |- Steps _ (ReissuePendingSignup ?u ?c ?i ?t) => apply (keeping_call (CallReissuePendingSignup u c i t) _ eq_refl), Hcalls; reflexivity
  | |- Steps _ (Postgres.VerifySignup ?u ?t) => apply (keeping_call (CallVerifySignup u t) _ eq_refl), Hcalls; reflexivity
  | |- Steps _ (Postgres.PurgeUnverifiedSignups ?b) => apply (keeping_call (CallPurgeUnverifiedSignups b) _ eq_refl), Hcalls; reflexivity
  | |- Steps _ (CreateInvite ?i) => apply (keeping_call (CallCreateInvite i) _ eq_refl), Hcalls; reflexivity
  | |- Steps _ (FindInviteByTokenHash ?h) => apply (keeping_call (CallFindInviteByTokenHash h) _ eq_refl), Hcalls; reflexivity
  | |- Steps _ (Postgres.ListInvites ?o) => apply (keeping_call (CallListInvites o) _ eq_refl), Hcalls; reflexivity
  | |- Steps _ (Postgres.RevokeInvite ?o ?i) => apply (keeping_call (CallRevokeInvite o i) _ eq_refl), Hcalls; reflexivity
  | |- Steps _ (Postgres.AcceptInvite ?i ?o ?u ?t) => apply (keeping_call (CallAcceptInvite i o u t) _ eq_refl), Hcalls; reflexivity
  end.

(** Walks a use case, without entering the store's methods. *)
Ltac walk_use :=
  repeat first
    [ progress cbv zeta
    | progress cbn [on s_otp s_users s_refresh s_tokens s_orgs s_invites s_signup s_notifier s_flags s_clock s_ids
        s_signer s_hasher s_codes s_secrets wired pg_otp pg_users pg_signup pg_refresh pg_tokens pg_orgs pg_invites
        notificationsClient
        otp_UpsertChallenge otp_GetLatestChallenge otp_IncrementAttempts otp_ConsumeChallenge otp_DeleteExpiredChallenges
        us_FindOrCreateByEmail us_FindOrCreateByMobile us_FindByEmail us_FindByMobile us_FindByID us_UpdateLastLogin
        us_UpsertDemoUser ss_CreateSignupUser ss_ReissuePendingSignup ss_VerifySignup ss_PurgeUnverifiedSignups
        rs_Store rs_FindValid rs_Revoke ts_Create ts_ListByUser ts_RevokeToken ts_FindByPrefix
        os_CreateOrg os_GetOrg os_ListOrgsForUser os_ListMembers os_AddMember os_UpdateMemberStatus os_RemoveMember
        os_GetMembership is_CreateInvite is_FindInviteByTokenHash is_ListInvites is_RevokeInvite is_AcceptInvite
        SendOTP SendSignupVerification SendOrgInvite Compare]
    | store_leaf
    | assumption
    | match goal with
      | |- Steps _ (bind _ _) => apply steps_bind; [apply _| |intros ?]
      | |- Steps _ (try _) => apply steps_try
      | |- Steps _ (wrap _ _) => apply steps_wrap
      | |- Steps _ (ignore _) => apply steps_ignore
      | |- Steps _ (ret _) => apply steps_ret; apply _
      | |- Steps _ (fail _) => apply steps_fail; apply _
      | |- Steps _ (panic _) => apply steps_panic; apply _
      | |- Steps _ (of_sum _) => apply steps_of_sum; apply _
      | |- Steps _ (match ?x with _ => _ end) => destruct x
      | |- Steps _ Now => by apply keeping_outside
      | |- Steps _ NewID => apply keeping_NewID
      | |- Steps _ NewCode => apply keeping_NewCode
      | |- Steps _ NewSecret => apply keeping_NewSecret
      | |- Steps _ (Hash bcryptHasher _) => apply keeping_Hash
      | |- Steps _ (Compare bcryptHasher _ _) => apply (steps_ret _ (bcrypt_Compare _ _))
      | |- Steps _ (Send _) => apply keeping_Send
      | |- Steps _ (client_SendOTP _ _ _ _) => unfold client_SendOTP
      | |- Steps _ (client_SendSignupVerification _ _ _ _ _) => unfold client_SendSignupVerification
      | |- Steps _ (client_SendOrgInvite _ _) => unfold client_SendOrgInvite
      | |- Steps _ (flags _ _) => apply keeping_flags
      | |- Steps _ (SignAccessToken signer _ _) => apply keeping_sign
      | |- Steps _ (SignAccessTokenWithOrg signer _ _ _) => apply keeping_signOrg
      end
    | solve [auto with use_cases] ].

Lemma keeping_buildOTPChallenge i c : Steps R (buildOTPChallenge svc i c).
Proof. unfold buildOTPChallenge. walk_use. Qed.
Hint Resolve keeping_buildOTPChallenge : use_cases.

Lemma keeping_newOTPChallenge i c : Steps R (newOTPChallenge svc i c).
Proof. unfold newOTPChallenge. walk_use. Qed.
Hint Resolve keeping_newOTPChallenge : use_cases.

Lemma keeping_flag name : Steps R (flag svc name).
Proof. unfold flag. walk_use. Qed.
Hint Resolve keeping_flag : use_cases.

Lemma keeping_IsActiveMember o u : Steps R (IsActiveMember svc o u).
Proof. unfold IsActiveMember. walk_use. Qed.
Hint Resolve keeping_IsActiveMember : use_cases.

Lemma keeping_singleActiveOrg u : Steps R (singleActiveOrg svc u).
Proof. unfold singleActiveOrg. walk_use. Qed.
Hint Resolve keeping_singleActiveOrg : use_cases.

Lemma keeping_issueTokensForOrg u o : issuing = true → Steps R (issueTokensForOrg svc u o).
Proof. intros Hissue. unfold issueTokensForOrg. walk_use. Qed.
Hint Resolve keeping_issueTokensForOrg : use_cases.

Lemma keeping_issueTokens u : issuing = true → Steps R (issueTokens svc u).
Proof. intros Hissue. unfold issueTokens. walk_use. Qed.
Hint Resolve keeping_issueTokens : use_cases.

(** Issuing tokens writes last. *)
Lemma writes_last_issue u o : writes_last (issueTokensForOrg svc u o).
Proof.
  apply writes_last_bind; [by intros w|intros now]. apply writes_last_bind.
  { cbn [s_signer wired]. destruct (String.eqb _ _); intros w; [apply sign_outside|apply signOrg_outside]. }
  intros access. apply writes_last_bind; [by intros w|intros id1]. apply writes_last_bind; [by intros w|intros id2].
  apply (writes_last_then_ret (Store_ _ _ _ _) (λ _, _)), writes_last_Store.
Qed.

Lemma fails_issueTokensForOrg u o : fails_steps R (issueTokensForOrg svc u o).
Proof. intros w Hf. by apply R_still, writes_last_issue. Qed.

Lemma fails_issueTokens u : fails_steps R (issueTokens svc u).
Proof. unfold issueTokens. apply fails_bind; [done|walk_use|intros o; apply fails_issueTokensForOrg]. Qed.

Lemma keeping_activeOrg u o : Steps R (activeOrg svc u o).
Proof. unfold activeOrg. walk_use. Qed.
Hint Resolve keeping_activeOrg : use_cases.

Lemma keeping_signupInvite t e : Steps R (signupInvite svc t e).
Proof. unfold signupInvite. walk_use. Qed.
Hint Resolve keeping_signupInvite : use_cases.

Lemma keeping_retryPendingSignup u i l n : Steps R (retryPendingSignup svc u i l n).
Proof.
  unfold retryPendingSignup, signupCooldownActive, genericInvite, client_SendSignupVerification. walk_use.
Qed.
Hint Resolve keeping_retryPendingSignup : use_cases.

Lemma keeping_seedUsers us : seeding = true → Steps R (seedUsers svc us).
Proof. intros Hseed. induction us; cbn [seedUsers]; walk_use. Qed.
Hint Resolve keeping_seedUsers : use_cases.

Lemma run_use_steps c :
  implb (seeding_use c) seeding = true → implb (issuing_use c) issuing = true → Steps R (run_use svc c).
Proof.
  intros Hc Hi. destruct c; unfold run_use, discard.
  all: unfold RequestOTP, VerifyOTP, Refresh, SelectOrg, LoginWithPassword, CreateApiToken, ListApiTokens,
    RevokeApiToken, ValidateApiToken, SeedDemoUsers, requireUser, Service.CreateOrg, Service.ListOrgsForUser,
    Service.ListMembers, Service.AddMember, SuspendMember, Service.RemoveMember, InviteMember, Service.AcceptInvite,
    Service.RevokeInvite, Service.ListInvites, RegisterWithEmail, Service.VerifySignup,
    Service.PurgeUnverifiedSignups, requireUser, genericInvite, client_SendOTP, client_SendSignupVerification,
    client_SendOrgInvite.
  all: walk_use.
Qed.

(** A use case that gives out tokens stores one as its last step. *)
Ltac walk_fails :=
  repeat first
    [ progress cbv zeta
    | progress cbn [on s_otp s_users s_refresh s_orgs s_signup s_clock s_hasher wired pg_otp pg_users pg_signup pg_refresh pg_orgs]
    | apply fails_issueTokens
    | apply fails_issueTokensForOrg
    | match goal with |- fails_steps _ (match ?x with _ => _ end) => destruct x end
    | apply fails_bind; [apply _|solve [walk_use]|intros ?]
    | apply steps_fails_steps; solve [walk_use] ].

Lemma run_use_fails c : issuing_use c = true → fails_steps R (run_use svc c).
Proof.
  destruct c; try done; intros _; unfold run_use, discard; apply (fails_then_ret _ _ (λ _, ()));
    unfold VerifyOTP, Refresh, SelectOrg, LoginWithPassword, Service.VerifySignup; walk_fails.
Qed.

Lemma run_uses_steps cs :
  Forall (λ c, implb (seeding_use c) seeding = true) cs → issuing = true → Steps R (run_uses svc cs).
Proof.
  intros Hcs Hissue. induction Hcs; cbn [run_uses]; walk_use. apply run_use_steps; [done|]. rewrite Hissue. apply implb_true_r.
Qed.
End keeping.

(** *** What the statements keep *)

Section statements.
Context (P : DB Envelope → Prop) (seeding issuing : bool).
Context (Hcalls : ∀ c, implb (demo_call c) seeding = true → implb (issue_call c) issuing = true → Steps (keeping P) (run_call c)).
Context (flags : Flags) (signer : TokenSigner) `{!Outside flags signer} (rfc3339 : time → string) (cfg : Config).

Lemma run_use_keeping c :
  implb (seeding_use c) seeding = true → implb (issuing_use c) issuing = true →
  Steps (keeping P) (run_use (wired flags signer rfc3339 cfg) c).
Proof. by apply (run_use_steps _ (still_keeping P) _ _ Hcalls). Qed.

Lemma run_uses_keeping cs :
  Forall (λ c, implb (seeding_use c) seeding = true) cs → issuing = true →
  Steps (keeping P) (run_uses (wired flags signer rfc3339 cfg) cs).
Proof. by apply (run_uses_steps _ (still_keeping P) _ _ Hcalls). Qed.
End statements.

(** No use case leaves a transaction open. *)
Lemma run_use_unlocked flags signer `{!Outside flags signer} rfc3339 cfg c :
  Steps unlocked (run_use (wired flags signer rfc3339 cfg) c).
Proof.
  apply (run_use_steps _ still_unlocked true true); [|done|apply implb_true_r..]. intros c1 _ _ w. exact (proj1 (run_call_closes c1 w)).
Qed.
End invariants.

Section theorems.
Context `{V : Env} `{UC : UnicodeCase} (flags : Flags) (signer : TokenSigner) `{!Outside flags signer}
  (rfc3339 : time → string) (cfg : Config).

Abbreviation svc := (wired flags signer rfc3339 cfg).

(** Whatever use cases callers run, in whatever order and with whatever arguments, and
    whichever dependencies fail on the way, the tables satisfy the schema. *)
Theorem use_cases_keep_schema (cs : list service_call) (w : World) :
  w_tx w = None → schema db_lower (w_db w) → schema db_lower (w_db (run_uses svc cs w).2).
Proof.
  intros Ht Hs. apply keeping_db; [|done..]. apply (run_uses_keeping _ true true); [intros c _ _; apply run_call_schema|done| |done].
  apply Forall_forall. intros c _. apply implb_true_r.
Qed.
End theorems.

(** A signer whose tokens are readable, and flags that are on. *)
Definition demo_signer `{V : Env} : TokenSigner := mkTokenSigner
  (λ u _, ret ("access:" +:+ u)) (λ u o _, ret ("access:" +:+ u +:+ "@" +:+ o)).
Definition demo_flags `{V : Env} : Flags := λ _ _, ret true.

#[export] Instance demo_outside `{V : Env} : Outside demo_flags demo_signer.
Proof. by split. Qed.

#[local] Existing Instance bits_uuid.
#[local] Existing Instance calm_env.
#[local] Existing Instance ascii_case.

Definition demo_cfg : Config := mkConfig true false [] true.
Definition demo_svc : Service := wired demo_flags demo_signer (λ _, "") demo_cfg.

Lemma use_cases_keep_schema_witness :
  schema db_lower (w_db (run_uses demo_svc
    [UseRegisterWithEmail "New@B.c" "secret" "N" "" "Acme" ""; UseCreateOrg alice "Orbit"] (world_after two_users)).2).
Proof.
  apply (use_cases_keep_schema demo_flags demo_signer); apply world_after_ready.
Defined.
