(* ===== verification/Credentials.v ===== *)
(** Accounts that have been verified or are not in sign-up keep their address,
    password and status: no use case but the demo seeding changes them. *)
From S2P Require Import Prelude GoStrings Domain Libs Tables Database DatabaseProps World Effects Demo Ports.
From S2P Require Import Postgres PostgresProps Exec Returns OrgSpec Scenario Service Adapters ServiceInv.
Local Open Scope Z_scope.
Local Open Scope orbit_scope.

(** What identifies and authenticates an account. *)
Definition credentials (r : UserRow) : option string * option string * option string * option string * string * option time :=
  (ur_email r, ur_mobile r, ur_password_hash r, ur_display_name r, ur_status r, ur_email_verified_at r).

Lemma pending_row_credentials r r' : credentials r = credentials r' → pending_row r = pending_row r'.
Proof. unfold credentials, pending_row. by intros [= _ _ _ _ -> ->]. Qed.

Section account.
Context `{V : Env} (uid : uuid) (r : UserRow) (settled : pending_row r = false).

(** The account is there with its credentials. *)
Definition stands (db : DB Envelope) : Prop := ∃ r', users db !! uid = Some r' ∧ credentials r' = credentials r.

Lemma stands_users (f : DB Envelope → DB Envelope) db : users (f db) = users db → stands db → stands (f db).
Proof. unfold stands. by intros ->. Qed.

Lemma stands_insert_other db k x : k ≠ uid → stands db → stands (set_users <[k := x]> db).
Proof. intros Hk (r' & Hl & Hc). exists r'. simpl. by rewrite lookup_insert_ne. Qed.

Lemma stands_not_pending db k x : users db !! k = Some x → pending_row x = true → stands db → k ≠ uid.
Proof.
  intros Hx Hp (r' & Hl & Hc) ->. assert (x = r') as -> by congruence. by rewrite (pending_row_credentials _ _ Hc), settled in Hp.
Qed.

Lemma stands_insert_user k x db db' : insert_user k x db = inr db' → stands db → stands db'.
Proof.
  unfold insert_user. intros H Hs. destruct (users db !! k) eqn:E; [done|]. destruct (first_where _ _); simplify_eq.
  apply stands_insert_other; [|done]. intros ->. destruct Hs as (r' & Hl & _). congruence.
Qed.

(** Every statement that leaves the users alone keeps the account. *)
Lemma stands_sound {A} (q : statement (E:=Envelope) A) :
  (∀ s db a db', q s db = inr (a, db') → users db' = users db) → sound db_lower stands q.
Proof. intros Hq s db a db' _ Hs H. unfold stands. rewrite (Hq _ _ _ _ H). exact Hs. Qed.

Ltac other_table := apply stands_sound; intros s db a db' H; revert H;
  unfold not_null, insert_membership; cbv zeta; repeat case_match; intros; simplify_eq; try reflexivity; done.

Lemma stands_CreateSignupUser id e ph dn st v : sound db_lower stands (sql_CreateSignupUser id e ph dn st v).
Proof.
  intros s db a db' _ Hs. unfold sql_CreateSignupUser. destruct (first_where _ _); [by intros [= _ <-]|].
  destruct (insert_user _ _ _) eqn:E; [done|]. intros [= _ <-]. by eapply stands_insert_user.
Qed.
Lemma stands_CreateUserWithEmail id e st : sound db_lower stands (sql_CreateUserWithEmail id e st).
Proof.
  intros s db a db' _ Hs. unfold sql_CreateUserWithEmail. destruct (insert_user _ _ _) eqn:E; [done|].
  intros [= _ <-]. by eapply stands_insert_user.
Qed.
Lemma stands_CreateUserWithMobile id m : sound db_lower stands (sql_CreateUserWithMobile id m).
Proof.
  intros s db a db' _ Hs. unfold sql_CreateUserWithMobile. destruct (insert_user _ _ _) eqn:E; [done|].
  intros [= _ <-]. by eapply stands_insert_user.
Qed.
Lemma stands_Purge b : sound db_lower stands (sql_PurgeUnverifiedSignups b).
Proof.
  intros s db a db' _ (r' & Hl & Hc). unfold sql_PurgeUnverifiedSignups, delete_users. cbv zeta.
  destruct (first_where _ _); [done|]. intros [= _ <-]. exists r'. split; [|done]. simpl.
  apply lookup_delete_where_Some. split; [done|]. unfold purgeable. by rewrite (pending_row_credentials _ _ Hc), settled.
Qed.
Lemma stands_Reissue ph dn e : sound db_lower stands (sql_ReissueSignupUser ph dn e).
Proof.
  intros s db a db' _ Hs. unfold sql_ReissueSignupUser. destruct (first_where _ _) as [[k x]|] eqn:E; [|done].
  intros [= _ <-]. apply first_where_Some in E as [Hx [_ Hp]%andb_true_iff].
  apply stands_insert_other; [by eapply stands_not_pending|done].
Qed.
Lemma stands_UpdateLastLogin id : sound db_lower stands (sql_UpdateLastLogin id).
Proof.
  intros s db a db' _ (r' & Hl & Hc) [= _ <-]. destruct (decide (id = uid)) as [->|Hne].
  - eexists. simpl. rewrite lookup_alter_eq, Hl. split; [reflexivity|]. exact Hc.
  - exists r'. simpl. by rewrite lookup_alter_ne.
Qed.
Lemma stands_VerifySignupUser t id : sound db_lower stands (sql_VerifySignupUser t id).
Proof.
  intros s db a db' _ Hs. unfold sql_VerifySignupUser. destruct (users db !! id) as [x|] eqn:E; [|by intros [= _ <-]].
  destruct (pending_row x) eqn:Ep; [|by intros [= _ <-]]. intros [= _ <-].
  apply stands_insert_other; [by eapply stands_not_pending|done].
Qed.

Lemma stands_ConsumeChallenge id : sound db_lower stands (sql_ConsumeChallenge id).
Proof. unfold sql_ConsumeChallenge. other_table. Qed.
Lemma stands_DeleteChallenges i c : sound db_lower stands (sql_DeleteChallengesForIdentifier i c).
Proof. unfold sql_DeleteChallengesForIdentifier. other_table. Qed.
Lemma stands_DeleteExpired : sound db_lower stands sql_DeleteExpiredChallenges.
Proof. unfold sql_DeleteExpiredChallenges. other_table. Qed.
Lemma stands_Increment id : sound db_lower stands (sql_IncrementChallengeAttempts id).
Proof. unfold sql_IncrementChallengeAttempts. other_table. Qed.
Lemma stands_UpsertChallenge id i c h t1 t2 : sound db_lower stands (sql_UpsertChallenge id i c h t1 t2).
Proof. unfold sql_UpsertChallenge. other_table. Qed.
Lemma stands_RevokeRefresh h : sound db_lower stands (sql_RevokeRefreshToken h).
Proof. unfold sql_RevokeRefreshToken. other_table. Qed.
Lemma stands_StoreRefresh id u o h t : sound db_lower stands (sql_StoreRefreshToken id u o h t).
Proof. unfold sql_StoreRefreshToken. other_table. Qed.
Lemma stands_CreateAPIToken id u n p h sc t : sound db_lower stands (sql_CreateAPIToken id u n p h sc t).
Proof. unfold sql_CreateAPIToken. other_table. Qed.
Lemma stands_RevokeAPIToken id u : sound db_lower stands (sql_RevokeAPIToken id u).
Proof. unfold sql_RevokeAPIToken. other_table. Qed.
Lemma stands_AddMembership o u st : sound db_lower stands (sql_AddOrganizationMembership o u st).
Proof. unfold sql_AddOrganizationMembership. other_table. Qed.
Lemma stands_CreateOrganization id n t1 t2 : sound db_lower stands (sql_CreateOrganization id n t1 t2).
Proof. unfold sql_CreateOrganization. other_table. Qed.
Lemma stands_DeleteEmpty : sound db_lower stands sql_DeleteEmptyOrganizations.
Proof. unfold sql_DeleteEmptyOrganizations. other_table. Qed.
Lemma stands_DeleteMembership o u : sound db_lower stands (sql_DeleteOrganizationMembership o u).
Proof. unfold sql_DeleteOrganizationMembership. other_table. Qed.
Lemma stands_UpdateMembership st o u : sound db_lower stands (sql_UpdateOrganizationMembershipStatus st o u).
Proof. unfold sql_UpdateOrganizationMembershipStatus. other_table. Qed.
Lemma stands_AcceptInvite t id o : sound db_lower stands (sql_AcceptOrganizationInvite t id o).
Proof. unfold sql_AcceptOrganizationInvite. other_table. Qed.
Lemma stands_AddActive o u : sound db_lower stands (sql_AddActiveOrganizationMembership o u).
Proof. unfold sql_AddActiveOrganizationMembership. other_table. Qed.
Lemma stands_CreateInvite id o e h inv st t1 t2 : sound db_lower stands (sql_CreateOrganizationInvite id o e h inv st t1 t2).
Proof. unfold sql_CreateOrganizationInvite. other_table. Qed.
Lemma stands_RevokeInvite id o : sound db_lower stands (sql_RevokeOrganizationInvite id o).
Proof. unfold sql_RevokeOrganizationInvite. other_table. Qed.
Lemma stands_RevokePending o e : sound db_lower stands (sql_RevokePendingOrganizationInvitesForEmail o e).
Proof. unfold sql_RevokePendingOrganizationInvitesForEmail. other_table. Qed.
Lemma stands_InsertOutbox sub env : sound db_lower stands (sql_InsertOutbox sub env).
Proof. unfold sql_InsertOutbox. other_table. Qed.

Hint Resolve stands_CreateSignupUser stands_CreateUserWithEmail stands_CreateUserWithMobile stands_Purge stands_Reissue
  stands_UpdateLastLogin stands_VerifySignupUser stands_ConsumeChallenge stands_DeleteChallenges stands_DeleteExpired
  stands_Increment stands_UpsertChallenge stands_RevokeRefresh stands_StoreRefresh stands_CreateAPIToken
  stands_RevokeAPIToken stands_AddMembership stands_CreateOrganization stands_DeleteEmpty stands_DeleteMembership
  stands_UpdateMembership stands_AcceptInvite stands_AddActive stands_CreateInvite stands_RevokeInvite stands_RevokePending
  stands_InsertOutbox : sql.

Lemma stands_emitEvents events : Steps (keeping stands) (emitEvents Emit events).
Proof. apply keeping_emitEvents. apply keeping_Emit. auto with sql. Qed.
Hint Resolve stands_emitEvents : effects.

Lemma run_call_stands c : demo_call c = false → Steps (keeping stands) (run_call c).
Proof.
  intros Hc. destruct c; unfold run_call, discard; try done.
  all: unfold UpsertChallenge, GetLatestChallenge, IncrementAttempts, ConsumeChallenge, DeleteExpiredChallenges,
    FindOrCreateByEmail, FindOrCreateByMobile, FindByEmail, findByEmail, FindByMobile, findByMobile, FindByID, UpdateLastLogin,
    Store_, FindValid, Revoke, Create, ListByUser, RevokeToken, FindByPrefix, CreateOrg, GetOrg, ListOrgsForUser,
    ListMembers, AddMember, UpdateMemberStatus, RemoveMember, GetMembership, CreateSignupUser, ReissuePendingSignup,
    rotateChallenge, acceptForPending, VerifySignup, PurgeUnverifiedSignups, CreateInvite, FindInviteByTokenHash,
    ListInvites, RevokeInvite, AcceptInvite, ListFeatureFlags, membershipIDs, inviteIDs, not_found.
  all: walk.
Qed.
End account.

Section theorem.
Context `{V : Env} `{UC : UnicodeCase} (flags : Flags) (signer : TokenSigner) `{!Outside flags signer}
  (rfc3339 : time → string) (cfg : Config).

Abbreviation svc := (wired flags signer rfc3339 cfg).

(** C4: an account that is not a pending sign-up keeps its address, mobile number,
    password hash, name, status and verification through any sequence of use cases
    with any arguments and any failures, apart from the demo seeding; in
    particular registering its address again cannot overwrite or delete it. *)
Theorem settled_accounts_stable (cs : list service_call) (w : World) (uid : uuid) (r : UserRow) :
  Forall (λ c, seeding_use c = false) cs → w_tx w = None → users (w_db w) !! uid = Some r → pending_row r = false →
  ∃ r', users (w_db (run_uses svc cs w).2) !! uid = Some r' ∧ credentials r' = credentials r.
Proof.
  intros Hcs Ht Hl Hp. apply (keeping_db (stands uid r)); [|done|by exists r].
  apply (run_uses_keeping _ false true); [|done| |done].
  - intros c Hc _. apply run_call_stands; [done|]. by destruct (demo_call c).
  - eapply Forall_impl; [exact Hcs|]. simpl. by intros c ->.
Qed.
End theorem.

#[local] Existing Instance bits_uuid.
#[local] Existing Instance calm_env.
#[local] Existing Instance ascii_case.

(** Someone registers the address of an existing account with another password. *)
Definition takeover : list service_call := [UseRegisterWithEmail "a@b.c" "mine" "M" "" "" ""; UseVerifySignup "a@b.c" "000000" "mine"].

Lemma settled_accounts_stable_witness :
  ∃ r r', users (w_db (world_after two_users)) !! demo_id 1 = Some r ∧
    users (w_db (run_uses demo_svc takeover (world_after two_users)).2) !! demo_id 1 = Some r' ∧ credentials r' = credentials r.
Proof.
  assert (w_tx (world_after two_users) = None) as Ht by (vm_compute; reflexivity).
  assert (users (w_db (world_after two_users)) !! demo_id 1 =
    Some (mkUserRow (Some "a@b.c") (demo_time + 3) None None None "active" (demo_time + 3) None (Some (demo_time + 3)))) as Hl
    by (vm_compute; reflexivity).
  assert (Forall (λ c, seeding_use c = false) takeover) as Hf by (repeat constructor).
  destruct (settled_accounts_stable demo_flags demo_signer (λ _, "") demo_cfg takeover (world_after two_users) (demo_id 1) _
    Hf Ht Hl eq_refl) as (r' & H1 & H2).
  eexists _, r'. exact (conj Hl (conj H1 H2)).
Defined.
