(* ===== verification/AuthFlows.v ===== *)
(** One-time codes, refresh tokens and organization selection: what a successful
    call proves about the presented credentials, and what it leaves. *)
From S2P Require Import Prelude GoStrings Domain Libs Tables Database DatabaseProps World Effects Demo Ports.
From S2P Require Import Postgres PostgresProps Exec Returns OrgSpec Scenario Service Adapters ServiceInv.
Local Open Scope Z_scope.
Local Open Scope orbit_scope.

(** ** Ordered results *)

Section ordered.
Context `{V : Env} `{!EnvLaws V}.

Lemma order_by_perm n t {A} le (l : list A) : order_by (mkServer t (db_order n) db_lower) le l ≡ₚ l.
Proof. unfold order_by. rewrite merge_sort_Permutation. apply db_order_perm. Qed.

Lemma order_by_head n t {A} (le : A → A → bool) l x l' :
  Total (rel_of le) → Transitive (rel_of le) →
  order_by (mkServer t (db_order n) db_lower) le l = x :: l' → x ∈ l ∧ ∀ y, y ∈ l → le x y = true.
Proof.
  intros Htot Htr E. pose proof (order_by_perm n t le l) as Hp. rewrite E in Hp.
  assert (StronglySorted (rel_of le) (x :: l')) as Hs.
  { rewrite <- E. unfold order_by. by apply (StronglySorted_merge_sort _). }
  apply StronglySorted_inv in Hs as [_ Hall]. split; [rewrite <- Hp; left|].
  intros y. rewrite <- Hp, elem_of_cons. intros [->|Hy].
  - by destruct (Htot x x).
  - rewrite Forall_forall in Hall. by apply Hall.
Qed.

Lemma newest_total {A} (f : A → time) : Total (rel_of (λ a b, f b <=? f a)).
Proof. intros a b. unfold rel_of. rewrite !Z.leb_le. lia. Qed.
Lemma newest_trans {A} (f : A → time) : Transitive (rel_of (λ a b, f b <=? f a)).
Proof. intros a b c. unfold rel_of. rewrite !Z.leb_le. lia. Qed.

(** The newest challenge of an identifier on a channel. *)
Definition latest_challenge (db : DB Envelope) (identifier channel : string) (id : uuid) (r : ChallengeRow) : Prop :=
  otp_challenges db !! id = Some r ∧ cr_identifier r = identifier ∧ cr_channel r = channel ∧
  ∀ id' r', otp_challenges db !! id' = Some r' → cr_identifier r' = identifier → cr_channel r' = channel →
    cr_created_at r' ≤ cr_created_at r.

Lemma for_identifier_iff i c k r : for_identifier i c k r = true ↔ cr_identifier r = i ∧ cr_channel r = c.
Proof. unfold for_identifier. by rewrite andb_true_iff, !String.eqb_eq. Qed.

Lemma sql_GetLatestChallenge_spec n t identifier channel db ch db' :
  sql_GetLatestChallenge identifier channel (mkServer t (db_order n) db_lower) db = inr (ch, db') →
  db' = db ∧ ∃ id r, latest_challenge db identifier channel id r ∧ ch = challenge_columns id r.
Proof.
  unfold sql_GetLatestChallenge. destruct (order_by _ _ _) as [|[id r] l] eqn:E; [done|]. intros [= <- <-].
  split; [done|]. exists id, r. split; [|done].
  apply order_by_head in E as [Hin Hmax]; [|apply newest_total|apply newest_trans].
  apply elem_of_rows_where in Hin as [Hl [Hi Hc]%for_identifier_iff]. split_and!; [done..|].
  intros id' r' Hl' Hi' Hc'. apply Z.leb_le. apply (Hmax (id', r')).
  apply elem_of_rows_where. by rewrite for_identifier_iff.
Qed.

(** A live refresh token. *)
Definition live (db : DB Envelope) (now : time) (hash : string) (r : RefreshRow) : Prop :=
  rr_token_hash r = hash ∧ now < rr_expires_at r ∧ rr_revoked_at r = None.

Lemma live_refresh_iff hash now k r : live_refresh hash now k r = true ↔
  rr_token_hash r = hash ∧ now < rr_expires_at r ∧ rr_revoked_at r = None.
Proof. unfold live_refresh. rewrite !andb_true_iff, String.eqb_eq, Z.ltb_lt, bool_decide_eq_true. tauto. Qed.

Lemma sql_FindValid_spec n t hash db res db' :
  sql_FindValidRefreshToken hash (mkServer t (db_order n) db_lower) db = inr (res, db') →
  db' = db ∧ ∃ id r, refresh_tokens db !! id = Some r ∧ live db t hash r ∧
    res = (uuid_String (rr_user_id r), COALESCE (uuid_String <$> rr_org_id r) "").
Proof.
  unfold sql_FindValidRefreshToken. simpl.
  destruct (scan _ _ _) as [|[id r] l] eqn:E; [done|]. intros [= <- <-]. split; [done|].
  assert ((id, r) ∈ rows_where (live_refresh hash t) (refresh_tokens db)) as Hin.
  { rewrite <- (db_order_perm n). rewrite E. left. }
  apply elem_of_rows_where in Hin as [Hl Hv%live_refresh_iff]. exists id, r. done.
Qed.
End ordered.

Section flows.
Context `{V : Env} `{UC : UnicodeCase} `{!EnvLaws V} `{!UUIDLaws L}.
Context (flags : Flags) (signer : TokenSigner) `{!Outside flags signer} (rfc3339 : time → string) (cfg : Config).

Abbreviation svc := (wired flags signer rfc3339 cfg).

(** [db'] is [db] with one more refresh token, of that user and organization. *)
Definition issued (db db' : DB Envelope) (uid : uuid) (oid : option uuid) (token : string) : Prop :=
  ∃ rid now expires, refresh_tokens db !! rid = None ∧
    db' = set_refresh <[rid := mkRefreshRow uid (HashRefreshToken token) expires None now oid]> db.

(** What the organization argument of a token pair denotes. *)
Definition names_org (o : string) (oid : option uuid) : Prop :=
  if decide (o = "") then oid = None else oid = uuid_Parse o ∧ is_Some oid.

Lemma outside_world {A} (m : M A) db tx n sent a w' :
  w_db (m (mkWorld db tx n sent)).2 = db ∧ w_tx (m (mkWorld db tx n sent)).2 = tx →
  m (mkWorld db tx n sent) = (a, w') → ∃ n' sent', w' = mkWorld db tx n' sent'.
Proof. intros [H1 H2] E. rewrite E in *. simpl in *. destruct w'; simpl in *. subst. eauto. Qed.

Lemma returns_sign u o expires db tx n sent (Φ : string → World → Prop) :
  (∀ a n' sent', Φ a (mkWorld db tx n' sent')) →
  returns (if String.eqb o "" then SignAccessToken signer u expires else SignAccessTokenWithOrg signer u o expires)
    (mkWorld db tx n sent) Φ.
Proof.
  intros H a w' E. destruct (String.eqb o "").
  - apply outside_world in E as (n' & sent' & ->); [apply H|apply sign_outside].
  - apply outside_world in E as (n' & sent' & ->); [apply H|apply signOrg_outside].
Qed.

Lemma returns_NewID db tx n sent (Φ : string → World → Prop) :
  Φ (uuid_String (uuid_New n)) (mkWorld db tx (S n) sent) → returns NewID (mkWorld db tx n sent) Φ.
Proof. intros H. apply returns_bind, returns_NewUUID, returns_ret, H. Qed.

Lemma returns_Store u o h expires db n sent (Φ : unit → World → Prop) :
  (∀ uid oid rid n' t, uuid_Parse u = Some uid → names_org o oid → refresh_tokens db !! rid = None →
     Φ () (mkWorld (set_refresh <[rid := mkRefreshRow uid h expires None t oid]> db) None n' sent)) →
  returns (Store_ u o h expires) (mkWorld db None n sent) Φ.
Proof.
  intros H. unfold Store_. apply returns_bind, returns_parseID. intros uid Hu. apply returns_bind.
  assert (∀ Ψ : option uuid → World → Prop, (∀ oid, names_org o oid → Ψ oid (mkWorld db None n sent)) →
    returns (if negb (String.eqb o "") then parsed <- parseID "postgres: org id %q: %w" o ;; ret (Some parsed) else ret None)
      (mkWorld db None n sent) Ψ) as Horg.
  { intros Ψ HΨ. unfold names_org in *. destruct (String.eqb_spec o "") as [E|E]; simpl.
    - apply returns_ret, HΨ. by rewrite decide_True.
    - apply returns_bind, returns_parseID. intros x Hx. apply returns_ret, HΨ. rewrite decide_False by done. by rewrite Hx. }
  apply Horg. intros oid Ho. apply returns_bind, returns_NewUUID, returns_Pool. intros [] db'.
  unfold sql_StoreRefreshToken, not_null. destruct (timestamptz expires) as [e|] eqn:Ee; [|done].
  destruct (refresh_tokens db !! _) eqn:Er; [done|]. intros [= <-].
  unfold timestamptz in Ee. destruct (IsZero expires); simplify_eq. by apply H.
Qed.

Lemma returns_issueTokensForOrg u o db n sent (Φ : Tokens → World → Prop) :
  (∀ access token expires uid oid db' n' sent', uuid_Parse u = Some uid → names_org o oid →
     issued db db' uid oid token → Φ (access, token, expires) (mkWorld db' None n' sent')) →
  returns (issueTokensForOrg svc u o) (mkWorld db None n sent) Φ.
Proof.
  intros H. unfold issueTokensForOrg. simpl. apply returns_bind, returns_Now, returns_bind, returns_sign.
  intros access n1 sent1. apply returns_bind, returns_NewID, returns_bind, returns_NewID, returns_bind, returns_Store.
  intros uid oid rid n' t Hu Ho Hr. apply returns_ret. eapply H; [done..|]. eexists _, _, _. done.
Qed.

(** Selecting a single organization only reads. *)
Lemma returns_issueTokens u db n sent (Φ : Tokens → World → Prop) :
  (∀ access token expires uid oid db' n' sent', uuid_Parse u = Some uid →
     issued db db' uid oid token → Φ (access, token, expires) (mkWorld db' None n' sent')) →
  returns (issueTokens svc u) (mkWorld db None n sent) Φ.
Proof.
  intros H. unfold issueTokens. apply returns_bind.
  assert (∀ Ψ : string → World → Prop, (∀ o n', Ψ o (mkWorld db None n' sent)) →
    returns (if s_autoSelectSingleOrg svc then singleActiveOrg svc u else ret "") (mkWorld db None n sent) Ψ) as Hsel.
  { intros Ψ HΨ. destruct (s_autoSelectSingleOrg svc); [|by apply returns_ret]. unfold singleActiveOrg. simpl.
    apply returns_bind, returns_try.
    - intros e w' E. assert (∃ n', w' = mkWorld db None n' sent) as [n' ->].
      { unfold Postgres.ListOrgsForUser, bind, parseID, wrap, of_sum, Parse in E.
        destruct (uuid_Parse u); simpl in E; [|simplify_eq; eauto].
        apply Pool_failed in E as ->. eauto. }
      apply returns_ret, HΨ.
    - unfold Postgres.ListOrgsForUser. apply returns_bind, returns_parseID. intros uid _. apply returns_Pool.
      intros l db' [= <- <-]. destruct (_ <$> _) as [|x [|??]]; apply returns_ret, HΨ. }
  apply Hsel. intros o n'. apply returns_issueTokensForOrg. intros. eauto.
Qed.

(** The account a code login uses: it was there, or it was created with its event
    in one transaction. *)
Definition found_or_created (db db' : DB Envelope) (uid : uuid) (r : UserRow) : Prop :=
  (db' = db ∧ users db !! uid = Some r) ∨
  (users db !! uid = None ∧ ∃ rows, db' = set_outbox (λ l, l ++ rows) (set_users <[uid := r]> db)).

Lemma find_failed {A} (q : statement A) db n sent e w' :
  run_query Pool q (mkWorld db None n sent) = (Fail e, w') → w' = mkWorld db None (S n) sent.
Proof. apply Pool_failed. Qed.

Lemma insert_user_Some id r db db' :
  insert_user id r db = inr db' → users db !! id = None ∧ db' = set_users (E:=Envelope) <[id := r]> db.
Proof. unfold insert_user. destruct (users db !! id); [done|]. destruct (first_where _ _); [done|]. by intros [= <-]. Qed.

Lemma returns_FindOrCreateByEmail email db n sent (Φ : User → World → Prop) :
  (∀ user uid r db' n', found_or_created db db' uid r → ur_email r = Some email →
     u_ID user = uuid_String uid → u_Status user = ur_status r → Φ user (mkWorld db' None n' sent)) →
  returns (FindOrCreateByEmail email) (mkWorld db None n sent) Φ.
Proof.
  intros H. unfold FindOrCreateByEmail, findByEmail. apply returns_bind, returns_try.
  - intros e w' ->%find_failed. destruct (negb _); [apply returns_fail|].
    apply returns_bind, returns_NewUUID, returns_bind, returns_of_sum. intros parsed Hp.
    unfold Parse in Hp. rewrite uuid_Parse_String in Hp. injection Hp as <-.
    apply returns_bind, returns_Now, returns_transaction, returns_bind, returns_Tx.
    intros [] txdb Hq. unfold sql_CreateUserWithEmail in Hq. destruct (insert_user _ _ _) as [|db1] eqn:Ei; [done|].
    injection Hq as <-. apply insert_user_Some in Ei as [Hn ->].
    apply returns_bind, returns_emitEvents. intros rows n'. apply returns_bind, returns_wrap, returns_Commit, returns_ret.
    eapply (H _ (uuid_New (S n))); [right; split; [done|]; eexists; reflexivity|done..].
  - apply returns_Pool. intros user db' Hq. unfold sql_FindUserByEmail in Hq.
    destruct (first_where _ _) as [[uid r]|] eqn:E; [|done]. injection Hq as <- <-.
    apply first_where_Some in E as [Hl He%bool_decide_eq_true_1]. apply returns_ret.
    apply (H _ uid r); [by left|done..].
Qed.

Lemma returns_FindOrCreateByMobile mobile db n sent (Φ : User → World → Prop) :
  (∀ user uid r db' n', found_or_created db db' uid r → ur_mobile r = Some mobile →
     u_ID user = uuid_String uid → (u_Status user = ur_status r ∨ ur_status r = "active") →
     Φ user (mkWorld db' None n' sent)) →
  returns (FindOrCreateByMobile mobile) (mkWorld db None n sent) Φ.
Proof.
  intros H. unfold FindOrCreateByMobile, FindByMobile. apply returns_bind, returns_try.
  - intros e w' ->%find_failed. destruct (negb _); [apply returns_fail|].
    apply returns_bind, returns_NewUUID, returns_bind, returns_of_sum. intros parsed Hp.
    unfold Parse in Hp. rewrite uuid_Parse_String in Hp. injection Hp as <-.
    apply returns_bind, returns_Now, returns_transaction, returns_bind, returns_Tx.
    intros [] txdb Hq. unfold sql_CreateUserWithMobile in Hq. destruct (insert_user _ _ _) as [|db1] eqn:Ei; [done|].
    injection Hq as <-. apply insert_user_Some in Ei as [Hn ->].
    apply returns_bind, returns_emitEvents. intros rows n'. apply returns_bind, returns_wrap, returns_Commit, returns_ret.
    eapply (H _ (uuid_New (S n))); [right; split; [done|]; eexists; reflexivity|done|done|by right].
  - apply returns_Pool. intros user db' Hq. unfold sql_FindUserByMobile in Hq.
    destruct (first_where _ _) as [[uid r]|] eqn:E; [|done]. injection Hq as <- <-.
    apply first_where_Some in E as [Hl He%bool_decide_eq_true_1]. apply returns_ret.
    apply (H _ uid r); [by left|done|done|by left].
Qed.

(** The account an identifier names on a channel. *)
Definition account_of (channel identifier : string) (r : UserRow) : Prop :=
  channel = ChannelEmail ∧ ur_email r = Some identifier ∨ channel = ChannelSMS ∧ ur_mobile r = Some identifier.

Lemma returns_find_account channel identifier db n sent (Φ : User → World → Prop) :
  (∀ user uid r db' n', found_or_created db db' uid r → account_of channel identifier r →
     u_ID user = uuid_String uid → (u_Status user = ur_status r ∨ ur_status r = "active") →
     Φ user (mkWorld db' None n' sent)) →
  returns (if String.eqb channel ChannelEmail then FindOrCreateByEmail identifier
           else if String.eqb channel ChannelSMS then FindOrCreateByMobile identifier
           else fail (Errorf "unsupported channel" [])) (mkWorld db None n sent) Φ.
Proof.
  intros H. destruct (String.eqb_spec channel ChannelEmail) as [->|]; [|destruct (String.eqb_spec channel ChannelSMS) as [->|]].
  - apply returns_FindOrCreateByEmail. intros. eapply H; [done|by left|done|by left].
  - apply returns_FindOrCreateByMobile. intros. eapply H; [done|by right|done|done].
  - apply returns_fail.
Qed.

(** What a code login shows of the tables before and after, when the challenge was
    compared with the clock at [now]. *)
Definition logged_in (db db' : DB Envelope) (now : time) (identifier channel code token : string) : Prop :=
  ∃ id ch uid r oid,
    latest_challenge db identifier channel id ch ∧
    now ≤ cr_expires_at ch ∧ cr_attempts ch < MaxOTPAttempts ∧
    bcrypt_Compare (cr_code_hash ch) code = true ∧
    otp_challenges db' = delete id (otp_challenges db) ∧
    users db' !! uid = Some r ∧ account_of channel identifier r ∧
    ur_status r ≠ UserSignupPending ∧
    ∃ db1, issued db1 db' uid oid token ∧ refresh_tokens db1 = refresh_tokens db.

Lemma returns_VerifyOTP identifier channel code db n sent :
  returns (VerifyOTP svc identifier channel code) (mkWorld db None n sent) (λ t w',
    w_tx w' = None ∧ logged_in db (w_db w') (go_now (S n)) (TrimSpace identifier) (TrimSpace channel) code t.1.2).
Proof.
  unfold VerifyOTP. cbv zeta. destruct (_ || _ || _); [apply returns_fail|]. simpl.
  apply returns_bind, returns_try; [intros; apply returns_fail|].
  unfold GetLatestChallenge. apply returns_Pool.
  intros ch0 db0 [-> (id & ch & Hch & ->)]%sql_GetLatestChallenge_spec.
  apply returns_bind, returns_Now. unfold After. cbn [challenge_columns ch_ExpiresAt ch_Attempts ch_CodeHash ch_ID].
  destruct (Z.ltb_spec (cr_expires_at ch) (go_now (S n))); [apply returns_fail|].
  destruct (Z.leb_spec MaxOTPAttempts (cr_attempts ch)); [apply returns_fail|].
  apply returns_bind, returns_ret. destruct (bcrypt_Compare _ _) eqn:Hc; simpl.
  2: { apply returns_bind. intros ???. apply returns_fail. }
  apply returns_bind. unfold ConsumeChallenge. apply returns_bind, returns_parseID. intros id' Hid.
  rewrite uuid_Parse_String in Hid. injection Hid as <-. apply returns_Pool. intros [] db1 [= <-].
  apply returns_bind, returns_find_account. intros user uid r db2 n2 Hf Ha Huid Hst.
  destruct (String.eqb_spec (u_Status user) UserSignupPending) as [|Hne]; [apply returns_fail|].
  apply returns_issueTokens. intros access token expires uid' oid db3 n3 sent3 Hp Hi. rewrite Huid, uuid_Parse_String in Hp.
  injection Hp as <-. split; [done|]. exists id, ch, uid, r, oid.
  destruct Hi as (rid & t & ex & Hrid & ->). simpl.
  assert (otp_challenges db2 = delete id (otp_challenges db) ∧ refresh_tokens db2 = refresh_tokens db ∧
    users db2 !! uid = Some r) as (H1 & H2 & H3).
  { destruct Hf as [[-> Hu]|[_ [rows ->]]]; simpl; [done|]. by rewrite lookup_insert_eq. }
  split_and!; try done; [destruct Hst as [E| ->]; [by rewrite <- E|done]|].
  exists db2. split; [|done]. by exists rid, t, ex.
Qed.

(** C6: a successful code login presented the code of the newest challenge of its
    identifier and channel, not after its expiry by the clock the call read when it had
    found the challenge, and with fewer than five wrong attempts counted; that challenge
    is deleted and no other; the account has that address, exists or is created, and is
    not a pending sign-up; and exactly one refresh token was added, for that account. *)
Theorem VerifyOTP_sound identifier channel code w access token expires w' :
  w_tx w = None → VerifyOTP svc identifier channel code w = (Ret (access, token, expires), w') →
  logged_in (w_db w) (w_db w') (go_now (S (w_tick w))) (TrimSpace identifier) (TrimSpace channel) code token.
Proof.
  destruct w as [db tx n sent]. simpl. intros -> E. by destruct (returns_VerifyOTP identifier channel code db n sent _ _ E).
Qed.
End flows.

(** ** Example: a code is requested, then presented *)

#[local] Existing Instance bits_uuid.
#[local] Existing Instance bits_uuid_laws.
#[local] Existing Instance calm_env.
#[local] Existing Instance calm_laws.
#[local] Existing Instance ascii_case.

(** A run whose result is known. *)
Lemma ran {A B} (p : A * B) a : p.1 = a → p = (a, p.2).
Proof. destruct p. by intros [= ->]. Qed.

Definition world_after_uses (cs : list service_call) (w : World) : World := (run_uses demo_svc cs w).2.

Definition code_sent : World := world_after_uses [UseRequestOTP "a@b.c" "email" "r1"] (world_after two_users).

Definition code_login : outcome Tokens * World := VerifyOTP demo_svc " a@b.c" "email" "000017" code_sent.

Lemma VerifyOTP_sound_witness :
  ∃ id ch, latest_challenge (w_db code_sent) (TrimSpace " a@b.c") (TrimSpace "email") id ch ∧
    bcrypt_Compare (cr_code_hash ch) "000017" = true ∧
    otp_challenges (w_db code_login.2) = delete id (otp_challenges (w_db code_sent)).
Proof.
  assert (w_tx code_sent = None) as Ht by (vm_compute; reflexivity).
  assert (code_login.1 = Ret ("access:" +:+ alice, demo_ID 29 +:+ demo_ID 30, demo_time + 900000028)) as Hr%ran
    by (vm_compute; reflexivity).
  pose proof (VerifyOTP_sound demo_flags demo_signer (λ _, "") demo_cfg " a@b.c" "email" "000017" code_sent
    _ _ _ _ Ht Hr) as H.
  destruct H as (id & ch & uid & r & oid & H1 & _ & _ & H2 & H3 & _).
  exists id, ch. exact (conj H1 (conj H2 H3)).
Defined.
