(* ===== verification/Guesses.v ===== *)
(** How often a one-time code can be guessed: five wrong attempts exhaust a
    challenge, after which even the right code is refused. *)
From S2P Require Import Prelude GoStrings Domain Libs Tables Database DatabaseProps World Effects Demo Ports.
From S2P Require Import Postgres PostgresProps Exec Returns OrgSpec Scenario Service Adapters ServiceInv AuthFlows.
Local Open Scope Z_scope.
Local Open Scope orbit_scope.

Section guesses.
Context `{V : Env} `{UC : UnicodeCase} `{!EnvLaws V} `{!UUIDLaws L}.
Context (flags : Flags) (signer : TokenSigner) (rfc3339 : time → string) (cfg : Config).

Abbreviation svc := (wired flags signer rfc3339 cfg).

(** The identifier has one challenge on the channel. *)
Definition only_challenge (db : DB Envelope) (identifier channel : string) (id : uuid) (r : ChallengeRow) : Prop :=
  otp_challenges db !! id = Some r ∧ cr_identifier r = identifier ∧ cr_channel r = channel ∧
  ∀ id' r', otp_challenges db !! id' = Some r' → cr_identifier r' = identifier → cr_channel r' = channel → id' = id.

Definition with_attempts (k : Z) (r : ChallengeRow) : ChallengeRow :=
  mkChallengeRow (cr_identifier r) (cr_code_hash r) (cr_expires_at r) k (cr_created_at r) (cr_channel r).

(** The world with another count of attempts. *)
Definition attempted (id : uuid) (r : ChallengeRow) (k : Z) (db : DB Envelope) : DB Envelope :=
  set_challenges <[id := with_attempts k r]> db.

Lemma attempted_twice id r k k' db : attempted id r k' (attempted id r k db) = attempted id r k' db.
Proof. unfold attempted, set_challenges. simpl. by rewrite insert_insert_eq. Qed.

Lemma only_attempted db i c id r k :
  only_challenge db i c id r → only_challenge (attempted id r k db) i c id (with_attempts k r).
Proof.
  intros (H1 & H2 & H3 & H4). split_and!; [apply lookup_insert_eq|done..|]. simpl. intros id' r' Hl Hi Hc.
  destruct (decide (id' = id)); [done|]. rewrite lookup_insert_ne in Hl by done. eauto.
Qed.

Lemma sql_GetLatestChallenge_only n t i c db id r :
  only_challenge db i c id r →
  sql_GetLatestChallenge i c (mkServer t (db_order n) db_lower) db = inr (challenge_columns id r, db).
Proof.
  intros (Hr & Hi & Hc & Hu). destruct (sql_GetLatestChallenge i c _ db) as [e|[ch db']] eqn:E.
  - unfold sql_GetLatestChallenge in E. destruct (order_by _ _ _) as [|[id' r'] l] eqn:Eo; [|done].
    assert ((id, r) ∈ rows_where (for_identifier i c) (otp_challenges db)) as Hin
      by by apply elem_of_rows_where; rewrite for_identifier_iff.
    rewrite <- (order_by_perm n t (λ a b, cr_created_at b.2 <=? cr_created_at a.2)), Eo in Hin. by apply elem_of_nil in Hin.
  - apply sql_GetLatestChallenge_spec in E as [-> (id' & r' & (Hl & Hi' & Hc' & _) & ->)].
    pose proof (Hu _ _ Hl Hi' Hc') as ->. by simplify_eq.
Qed.

Lemma run_Pool {A} (q : statement A) db tx n sent a db' :
  db_fault n = None → q (mkServer (db_now n) (db_order n) db_lower) db = inr (a, db') →
  run_query Pool q (mkWorld db tx n sent) = (Ret a, mkWorld db' tx (S n) sent).
Proof. intros Hf Hq. unfold run_query. simpl. by rewrite Hf, Hq. Qed.

Section challenge.
Context (identifier channel : string) (id : uuid) (r : ChallengeRow).
Context (Hident : TrimSpace identifier ≠ "") (Hchannel : TrimSpace channel ≠ "").

(** One step: the challenge is found, and the answer depends on the count and on
    the code. *)
Lemma VerifyOTP_found code k db n sent :
  only_challenge db (TrimSpace identifier) (TrimSpace channel) id (with_attempts k r) → code ≠ "" →
  (k < MaxOTPAttempts → bcrypt_Compare (cr_code_hash r) code = false) → k < maxInt32 → go_now (S n) ≤ cr_expires_at r →
  (∀ m, (n ≤ m ≤ n + 2)%nat → db_fault m = None) →
  VerifyOTP svc identifier channel code (mkWorld db None n sent) =
  if MaxOTPAttempts <=? k then (Fail ErrTooManyOTPAttempts, mkWorld db None (S (S n)) sent)
  else (Fail ErrInvalidOTPCode, mkWorld (attempted id r (k + 1) db) None (S (S (S n))) sent).
Proof.
  intros Hch Hcode Hwrong Hmax Hlive Hf.
  unfold VerifyOTP. cbv zeta.
  apply String.eqb_neq in Hident, Hchannel, Hcode. rewrite Hident, Hchannel, Hcode. cbn [orb].
  unfold bind at 1, try. simpl. unfold GetLatestChallenge.
  erewrite run_Pool; [|apply Hf; lia|by apply sql_GetLatestChallenge_only]. unfold bind at 1, Now. simpl. unfold After.
  rewrite (proj2 (Z.ltb_ge _ _) Hlive). destruct (Z.leb_spec MaxOTPAttempts k); [done|].
  rewrite (Hwrong ltac:(done)). unfold bind. simpl. unfold ignore, IncrementAttempts, bind, parseID, Parse, wrap, of_sum.
  rewrite uuid_Parse_String. simpl. erewrite run_Pool; [reflexivity|apply Hf; lia|]. unfold sql_IncrementChallengeAttempts.
  destruct Hch as (-> & _). simpl. rewrite (proj2 (Z.leb_le (k + 1) maxInt32)) by lia. reflexivity.
Qed.

(** A run of wrong guesses. *)
Lemma wrong_guesses guesses k db n sent :
  only_challenge db (TrimSpace identifier) (TrimSpace channel) id (with_attempts k r) → 0 ≤ k ≤ MaxOTPAttempts →
  Forall (λ g, g ≠ "" ∧ bcrypt_Compare (cr_code_hash r) g = false) guesses →
  (∀ m, (n ≤ m ≤ n + 3 * length guesses)%nat → db_fault m = None ∧ go_now m ≤ cr_expires_at r) →
  ∃ n', (n ≤ n' ≤ n + 3 * length guesses)%nat ∧ (run_uses svc (UseVerifyOTP identifier channel <$> guesses) (mkWorld db None n sent)).2 =
    mkWorld (attempted id r (k `min` MaxOTPAttempts + Z.of_nat (length guesses) `min` (MaxOTPAttempts - k)) db) None n' sent.
Proof.
  intros Hch Hk Hg. revert k db n Hch Hk. induction Hg as [|g guesses [Hne Hw] Hg IH]; intros k db n Hch Hk Hlive.
  - exists n. split; [lia|]. simpl. rewrite Z.min_l, Z.min_l, Z.add_0_r by lia. f_equal. unfold attempted, set_challenges.
    destruct Hch as (Hl & _). rewrite insert_id by done. by destruct db.
  - cbn [fmap list_fmap run_uses]. unfold bind at 1, try, run_use, discard, bind at 1.
    cbn [length] in *. rewrite (VerifyOTP_found g k) by first [done|intros; apply Hlive; lia|unfold MaxOTPAttempts, maxInt32 in *; lia].
    destruct (Z.leb_spec MaxOTPAttempts k) as [Hle|Hlt]; cbn [fst snd].
    + destruct (IH k db (S (S n)) Hch Hk) as (n' & Hn & ->); [intros; apply Hlive; lia|].
      exists n'. split; [lia|]. do 3 f_equal. unfold MaxOTPAttempts in *. lia.
    + destruct (IH (k + 1) (attempted id r (k + 1) db) (S (S (S n)))) as (n' & Hn & ->).
      * by apply (only_attempted _ _ _ _ (with_attempts k r)).
      * lia.
      * intros m Hm. apply Hlive. lia.
      * exists n'. split; [lia|]. rewrite attempted_twice. do 2 f_equal. unfold MaxOTPAttempts in *. lia.
Qed.
End challenge.

(** C3: guesses made one after the other.  When no other call comes between them, the
    database answers them, the challenge is the only one of its identifier and channel
    and has not expired, then after five wrong guesses (fewer if some were already
    counted) nothing is accepted any more, not even the right code: the answer is that
    there were too many attempts, and the guesses changed no table but the count.  What
    concurrent guesses and counts that were lost allow is [Races]. *)
Theorem OTP_guesses_bounded identifier channel guesses code w id r :
  TrimSpace identifier ≠ "" → TrimSpace channel ≠ "" → code ≠ "" → w_tx w = None →
  (∀ m, (w_tick w ≤ m ≤ w_tick w + 3 * length guesses + 2)%nat → db_fault m = None ∧ go_now m ≤ cr_expires_at r) →
  only_challenge (w_db w) (TrimSpace identifier) (TrimSpace channel) id r → 0 ≤ cr_attempts r ≤ MaxOTPAttempts →
  Forall (λ g, g ≠ "" ∧ bcrypt_Compare (cr_code_hash r) g = false) guesses →
  MaxOTPAttempts ≤ cr_attempts r + Z.of_nat (length guesses) →
  let w' := (run_uses svc (UseVerifyOTP identifier channel <$> guesses) w).2 in
  (VerifyOTP svc identifier channel code w').1 = Fail ErrTooManyOTPAttempts ∧
  w_db w' = attempted id r MaxOTPAttempts (w_db w).
Proof.
  intros Hi Hc Hcode Ht Hlive Hch Hk Hg Hlen. destruct w as [db tx n sent]. cbn [w_tx w_db w_tick] in Ht, Hch, Hlive. subst tx. cbv zeta.
  assert (with_attempts (cr_attempts r) r = r) as Hr by by destruct r.
  destruct (wrong_guesses identifier channel id r Hi Hc guesses (cr_attempts r) db n sent) as (n' & Hn & ->);
    [by rewrite Hr|done|done|intros m Hm; apply Hlive; lia|].
  replace (_ + _) with MaxOTPAttempts by (unfold MaxOTPAttempts in *; lia). split; [|done].
  rewrite (VerifyOTP_found identifier channel id r Hi Hc code MaxOTPAttempts); [done| |done|lia|done|apply Hlive; lia|intros m Hm; apply Hlive; lia].
  by apply only_attempted.
Qed.
End guesses.

(** ** Example: five wrong codes *)

#[local] Existing Instance bits_uuid.
#[local] Existing Instance bits_uuid_laws.
#[local] Existing Instance calm_env.
#[local] Existing Instance calm_laws.
#[local] Existing Instance ascii_case.

Definition demo_guesses : list string := ["1"; "2"; "3"; "4"; "5"].
Definition demo_challenge : ChallengeRow := mkChallengeRow "a@b.c" "$000017" (demo_time + 600000019) 0 (demo_time + 19) "email".

Lemma demo_only_challenge : only_challenge (w_db code_sent) (TrimSpace "a@b.c") (TrimSpace "email") (demo_id 20) demo_challenge.
Proof.
  assert (otp_challenges (w_db code_sent) = {[ demo_id 20 := demo_challenge ]}) as E by (vm_compute; reflexivity).
  unfold only_challenge. rewrite E. split_and!; [apply lookup_singleton_eq|vm_compute; reflexivity..|].
  intros id' r' [-> _]%lookup_singleton_Some _ _. reflexivity.
Qed.

Lemma OTP_guesses_bounded_witness :
  (VerifyOTP demo_svc "a@b.c" "email" "000017"
     (run_uses demo_svc (UseVerifyOTP "a@b.c" "email" <$> demo_guesses) code_sent).2).1 = Fail ErrTooManyOTPAttempts.
Proof.
  assert (w_tx code_sent = None) as Ht by (vm_compute; reflexivity).
  assert (w_tick code_sent = 23%nat) as Hn by (vm_compute; reflexivity).
  pose proof (OTP_guesses_bounded demo_flags demo_signer (λ _, "") demo_cfg "a@b.c" "email" demo_guesses
    "000017" code_sent (demo_id 20) demo_challenge) as H.
  refine (proj1 (H _ _ _ Ht _ demo_only_challenge _ _ _)).
  - vm_compute. discriminate.
  - vm_compute. discriminate.
  - discriminate.
  - rewrite Hn. intros m Hm. cbn [demo_challenge cr_expires_at].
    split; [reflexivity|]. assert (go_now m = demo_time + Z.min (Z.of_nat m) 1000000000) as -> by reflexivity.
    change (length demo_guesses) with 5%nat in Hm. lia.
  - unfold MaxOTPAttempts. cbn. lia.
  - unfold demo_guesses. repeat (apply Forall_cons; split; [split; [discriminate|reflexivity]|]). apply Forall_nil_2.
  - unfold MaxOTPAttempts. cbn. lia.
Defined.
