(* ===== verification/Races.v ===== *)
(** Concurrent code logins: [VerifyOTP] of internal/application/service.go statement by
    statement, any number of calls interleaved with each other and with the calls that
    issue and delete challenges.

    Each statement runs on the pool, in a transaction of its own, so that another call
    may act between the read of a challenge and the count of a wrong guess.  The bound
    on guesses is therefore the one of the sequential code plus one for every further
    call in progress at once, and one for every count the database failed to write,
    since the code ignores that error.  By itself a call takes the steps of [VerifyOTP]
    ([lone_VerifyOTP]). *)
From S2P Require Import Prelude GoStrings Domain Libs Tables Database World Demo Ports Postgres Exec Scenario.
From S2P Require Import FlagsProvider Service Adapters AuthFlows.
Local Open Scope Z_scope.
Local Open Scope orbit_scope.

(** The next step of a call: its statements, and the comparison between them. *)
Inductive stage :=
  | Finding
  | Comparing (ch : OTPChallenge)
  | Counting (ch : OTPChallenge)
  | Consuming (ch : OTPChallenge)
  | Returned (result : option error).

Record attempt := mkAttempt {
  at_identifier : string;
  at_channel : string;
  at_code : string;
  at_stage : stage;
}.

Definition goto (a : attempt) (s : stage) : attempt := mkAttempt (at_identifier a) (at_channel a) (at_code a) s.

Section races.
Context `{V : Env}.

(** The table and the calls, with what is counted about each challenge: the wrong guesses
    compared with its code, the counts that were lost, the logins it gave; and the
    identifiers ever used. *)
Record Logins := mkLogins {
  lg_db : DB Envelope;
  lg_calls : gmap nat attempt;
  lg_wrong : list string;
  lg_lost : list string;
  lg_accepted : list string;
  lg_used : gset uuid;
}.

Definition set_call (i : nat) (a : attempt) (s : Logins) : Logins :=
  mkLogins (lg_db s) (<[i := a]> (lg_calls s)) (lg_wrong s) (lg_lost s) (lg_accepted s) (lg_used s).

(** A statement on the pool. *)
Definition query {A} (n : nat) (q : statement A) (db : DB Envelope) : error + A * DB Envelope :=
  match db_fault n with
  | Some what => inl (ErrUnavailable what)
  | None => q (server n (db_now n)) db
  end.

(** A statement that names its challenge by the text of its identifier. *)
Definition by_id (n : nat) (id : string) (q : uuid → statement unit) (db : DB Envelope) : error + unit * DB Envelope :=
  match Parse id with
  | inl err => inl (Errorw "postgres: challenge id %q: %w" [id] err)
  | inr u => query n (q u) db
  end.

(** The next step of call [i], when the oracles are at [n]. *)
Definition login_step (i n : nat) (s : Logins) : option Logins :=
  match lg_calls s !! i with
  | None => None
  | Some a =>
      match at_stage a with
      | Finding =>
          match query n (sql_GetLatestChallenge (at_identifier a) (at_channel a)) (lg_db s) with
          | inl _ => Some (set_call i (goto a (Returned (Some ErrInvalidOTPCode))) s)
          | inr (ch, _) => Some (set_call i (goto a (Comparing ch)) s)
          end
      | Comparing ch =>
          if After (go_now n) (ch_ExpiresAt ch) then Some (set_call i (goto a (Returned (Some ErrInvalidOTPCode))) s) else
          if MaxOTPAttempts <=? ch_Attempts ch then Some (set_call i (goto a (Returned (Some ErrTooManyOTPAttempts))) s) else
          if negb (bcrypt_Compare (ch_CodeHash ch) (at_code a)) then
            Some (mkLogins (lg_db s) (<[i := goto a (Counting ch)]> (lg_calls s)) (ch_ID ch :: lg_wrong s) (lg_lost s)
                    (lg_accepted s) (lg_used s))
          else Some (set_call i (goto a (Consuming ch)) s)
      | Counting ch =>
          let calls := <[i := goto a (Returned (Some ErrInvalidOTPCode))]> (lg_calls s) in
          match by_id n (ch_ID ch) sql_IncrementChallengeAttempts (lg_db s) with
          | inl _ => Some (mkLogins (lg_db s) calls (lg_wrong s) (ch_ID ch :: lg_lost s) (lg_accepted s) (lg_used s))
          | inr (_, db) => Some (mkLogins db calls (lg_wrong s) (lg_lost s) (lg_accepted s) (lg_used s))
          end
      | Consuming ch =>
          match by_id n (ch_ID ch) sql_ConsumeChallenge (lg_db s) with
          | inl err => Some (set_call i (goto a (Returned (Some err))) s)
          | inr (_, db) =>
              Some (mkLogins db (<[i := goto a (Returned None)]> (lg_calls s)) (lg_wrong s) (lg_lost s)
                      (ch_ID ch :: lg_accepted s) (lg_used s))
          end
      | Returned _ => None
      end
  end.

Definition returned (a : attempt) : bool := match at_stage a with Returned _ => true | _ => false end.

(** How many calls satisfy [p]. *)
Definition calls (p : attempt → bool) (s : Logins) : nat := length (rows_where (λ _ a, p a) (lg_calls s)).

(** At most [k] calls are in progress at once; other calls insert challenges with new
    identifiers, and delete them. *)
Inductive login_steps (k : nat) : Logins → Logins → Prop :=
  | login_begin i identifier channel code s :
      lg_calls s !! i = None → (calls (λ a, negb (returned a)) s < k)%nat →
      login_steps k s (set_call i (mkAttempt identifier channel code Finding) s)
  | login_statement i n s s' : login_step i n s = Some s' → login_steps k s s'
  | login_insert id r s :
      id ∉ lg_used s → cr_attempts r = 0 →
      login_steps k s (mkLogins (set_challenges <[id := r]> (lg_db s)) (lg_calls s) (lg_wrong s) (lg_lost s)
                         (lg_accepted s) ({[id]} ∪ lg_used s))
  | login_delete p s :
      login_steps k s (mkLogins (set_challenges (delete_where p) (lg_db s)) (lg_calls s) (lg_wrong s) (lg_lost s)
                         (lg_accepted s) (lg_used s)).

(** How often a challenge is named in a list. *)
Definition times (id : uuid) (l : list string) : nat := length (filter (λ x, x = uuid_String id) l).

(** Before the first call. *)
Definition quiet (db : DB Envelope) : Logins := mkLogins db ∅ [] [] [] (dom (otp_challenges db)).

(** ** Counting calls *)

Lemma filter_sum {A} (p q r : A → bool) (l : list A) :
  (∀ a, p a = true → q a = false ∧ r a = true) → (∀ a, q a = true → r a = true) →
  (length (filter (λ a, p a = true) l) + length (filter (λ a, q a = true) l) ≤ length (filter (λ a, r a = true) l))%nat.
Proof.
  intros Hp Hq. induction l as [|a l IH]; [done|]. rewrite !filter_cons.
  destruct (p a) eqn:Ep; [destruct (Hp a Ep) as [-> ->]|destruct (q a) eqn:Eq; [rewrite (Hq a Eq)|destruct (r a)]]; simpl; lia.
Qed.

Lemma calls_sum p q r s :
  (∀ a, p a = true → q a = false ∧ r a = true) → (∀ a, q a = true → r a = true) → (calls p s + calls q s ≤ calls r s)%nat.
Proof. intros Hp Hq. apply (filter_sum (λ ka, p ka.2) (λ ka, q ka.2) (λ ka, r ka.2)); auto. Qed.

Lemma calls_update p s s' i a a' :
  lg_calls s !! i = Some a → lg_calls s' = <[i := a']> (lg_calls s) →
  (calls p s' + (if p a then 1 else 0) = calls p s + (if p a' then 1 else 0))%nat.
Proof. intros Hi Hs. unfold calls. rewrite Hs. by apply (length_rows_where_update (λ _ a, p a)). Qed.

Lemma calls_insert p s i a :
  lg_calls s !! i = None → calls p (set_call i a s) = ((if p a then 1 else 0) + calls p s)%nat.
Proof. intros Hi. unfold calls. simpl. by apply (length_rows_where_insert (λ _ a, p a)). Qed.

Lemma times_cons id x l : times id (x :: l) = ((if bool_decide (x = uuid_String id) then 1 else 0) + times id l)%nat.
Proof. unfold times. rewrite filter_cons. case_decide; case_bool_decide; done. Qed.

(** ** What every state satisfies *)

Definition stage_challenge (a : attempt) : option OTPChallenge :=
  match at_stage a with Comparing ch | Counting ch | Consuming ch => Some ch | _ => None end.

(** The text of a challenge identifier in use. *)
Definition known (s : Logins) (x : string) : Prop := ∃ u, u ∈ lg_used s ∧ x = uuid_String u.

Record logins_ok (k : nat) (s : Logins) : Prop := {
  ok_table : ∀ id r, otp_challenges (lg_db s) !! id = Some r → id ∈ lg_used s;
  ok_calls : ∀ i a ch, lg_calls s !! i = Some a → stage_challenge a = Some ch → known s (ch_ID ch);
  ok_wrong : Forall (known s) (lg_wrong s);
  ok_accepted : Forall (known s) (lg_accepted s);
  ok_progress : (calls (λ a, negb (returned a)) s ≤ k)%nat;
}.

(** A step that changes one call, with what it counts. *)
Lemma logins_ok_call k s s' i a a' :
  logins_ok k s → lg_calls s !! i = Some a → lg_calls s' = <[i := a']> (lg_calls s) → lg_used s' = lg_used s →
  returned a = false → (∀ ch, stage_challenge a' = Some ch → known s (ch_ID ch)) →
  (∀ id r, otp_challenges (lg_db s') !! id = Some r → is_Some (otp_challenges (lg_db s) !! id)) →
  Forall (known s) (lg_wrong s') → Forall (known s) (lg_accepted s') → logins_ok k s'.
Proof.
  intros [H1 H2 H3 H4 H5] Hi Hc Hu Hr Hch Hdb Hw Ha.
  assert (∀ x, known s x → known s' x) as Hk by (unfold known; by rewrite Hu). split.
  - intros id r [r0 Hr0]%Hdb. rewrite Hu. by eapply H1.
  - intros j b ch. rewrite Hc. destruct (decide (j = i)) as [->|Hne].
    + rewrite lookup_insert_eq. intros [= <-] Hs. by apply Hk, Hch.
    + rewrite lookup_insert_ne by done. intros Hj Hs. by eapply Hk, H2.
  - by eapply Forall_impl.
  - by eapply Forall_impl.
  - pose proof (calls_update (λ a, negb (returned a)) s s' i a a' Hi Hc) as Hn. simpl in Hn. rewrite Hr in Hn. simpl in Hn.
    destruct (negb (returned a')); lia.
Qed.

(** The seven things a step of a call can do. *)
Inductive effect (i : nat) (a : attempt) (s : Logins) : Logins → Prop :=
  | gives_up res : returned a = false → (∀ ch, at_stage a ≠ Counting ch) → effect i a s (set_call i (goto a (Returned res)) s)
  | finds id r : at_stage a = Finding → otp_challenges (lg_db s) !! id = Some r →
      effect i a s (set_call i (goto a (Comparing (challenge_columns id r))) s)
  | is_wrong ch : at_stage a = Comparing ch → ch_Attempts ch < MaxOTPAttempts →
      effect i a s (mkLogins (lg_db s) (<[i := goto a (Counting ch)]> (lg_calls s)) (ch_ID ch :: lg_wrong s) (lg_lost s)
                      (lg_accepted s) (lg_used s))
  | is_right ch : at_stage a = Comparing ch → effect i a s (set_call i (goto a (Consuming ch)) s)
  | loses ch res : at_stage a = Counting ch →
      effect i a s (mkLogins (lg_db s) (<[i := goto a (Returned res)]> (lg_calls s)) (lg_wrong s) (ch_ID ch :: lg_lost s)
                      (lg_accepted s) (lg_used s))
  | counts ch u db res : at_stage a = Counting ch → uuid_Parse (ch_ID ch) = Some u →
      (∀ id, otp_challenges db !! id = (λ r, if bool_decide (id = u) then mkChallengeRow (cr_identifier r) (cr_code_hash r)
         (cr_expires_at r) (cr_attempts r + 1) (cr_created_at r) (cr_channel r) else r) <$> otp_challenges (lg_db s) !! id) →
      effect i a s (mkLogins db (<[i := goto a (Returned res)]> (lg_calls s)) (lg_wrong s) (lg_lost s) (lg_accepted s) (lg_used s))
  | accepts ch u res : at_stage a = Consuming ch → uuid_Parse (ch_ID ch) = Some u →
      effect i a s (mkLogins (set_challenges (delete u) (lg_db s)) (<[i := goto a (Returned res)]> (lg_calls s)) (lg_wrong s)
                      (lg_lost s) (ch_ID ch :: lg_accepted s) (lg_used s)).

Context `{!EnvLaws V} `{!UUIDLaws L}.

Lemma by_id_inr n x q db r : by_id n x q db = inr r → ∃ u, uuid_Parse x = Some u ∧ q u (server n (db_now n)) db = inr r.
Proof. unfold by_id, Parse, query. destruct (uuid_Parse x) as [u|]; [|done]. destruct (db_fault n); [done|]. eauto. Qed.

Lemma login_step_effect i n s s' :
  login_step i n s = Some s' → ∃ a, lg_calls s !! i = Some a ∧ effect i a s s'.
Proof.
  unfold login_step. destruct (lg_calls s !! i) as [a|]; [|done]. intros H. exists a. split; [done|]. revert H.
  destruct (at_stage a) as [|ch|ch|ch|res] eqn:Es; [| | | |done].
  - destruct (query _ _ _) as [e|[ch db]] eqn:Eq; intros [= <-]; [apply gives_up; [unfold returned; by rewrite Es|congruence]|].
    unfold query in Eq. destruct (db_fault n); [done|].
    apply sql_GetLatestChallenge_spec in Eq as [_ (id & r & (Hr & _) & ->)]. by apply finds.
  - destruct (After _ _); [intros [= <-]; apply gives_up; [unfold returned; by rewrite Es|congruence]|].
    destruct (Z.leb_spec MaxOTPAttempts (ch_Attempts ch));
      [intros [= <-]; apply gives_up; [unfold returned; by rewrite Es|congruence]|].
    destruct (negb _); intros [= <-]; [by apply is_wrong|by apply is_right].
  - destruct (by_id _ _ _ _) as [e|[[] db]] eqn:Eq; intros [= <-]; [by apply loses|].
    apply by_id_inr in Eq as (u & Hu & Hq). eapply counts; [done|exact Hu|]. intros id.
    unfold sql_IncrementChallengeAttempts in Hq. destruct (otp_challenges (lg_db s) !! u) as [r|] eqn:Er.
    + destruct (_ <=? _); [|done]. injection Hq as <-. simpl. destruct (decide (id = u)) as [->|Hne].
      * rewrite lookup_insert_eq, Er. simpl. by rewrite bool_decide_eq_true_2.
      * rewrite lookup_insert_ne by done. rewrite bool_decide_eq_false_2 by done. by destruct (_ !! id).
    + injection Hq as <-. case_bool_decide as Hd; [subst; by rewrite Er|]. by destruct (_ !! id).
  - destruct (by_id _ _ _ _) as [e|[[] db]] eqn:Eq; intros [= <-]; [apply gives_up; [unfold returned; by rewrite Es|congruence]|].
    apply by_id_inr in Eq as (u & Hu & [= <-]). by apply accepts.
Qed.

Lemma effect_ok k i a s s' : logins_ok k s → lg_calls s !! i = Some a → effect i a s s' → logins_ok k s'.
Proof.
  intros Hok Hi Heff. pose proof (ok_wrong _ _ Hok). pose proof (ok_accepted _ _ Hok).
  assert (∀ ch, stage_challenge a = Some ch → known s (ch_ID ch)) as Hch by (intros ch; by apply (ok_calls _ _ Hok i)).
  unfold stage_challenge in Hch.
  destruct Heff as [res Hr _|id r Hs Hr|ch Hs _|ch Hs|ch res Hs|ch u db res Hs Hu Hdb|ch u res Hs Hu];
    (eapply logins_ok_call; [exact Hok|exact Hi|reflexivity|reflexivity|..]);
    rewrite ?Hs in Hch; unfold returned, stage_challenge; rewrite ?Hs; cbn [at_stage goto lg_db lg_wrong lg_accepted set_call];
    try done; try (by intros ? [= <-]; auto); try (by eauto); try (by constructor; auto).
  - intros ch [= <-]. exists id. split; [by eapply (ok_table _ _ Hok)|done].
  - intros id r. rewrite Hdb. by destruct (_ !! id).
  - intros id r. simpl. rewrite lookup_delete_Some. by intros [_ ->].
Qed.

Lemma login_steps_ok k s s' : logins_ok k s → login_steps k s s' → logins_ok k s'.
Proof.
  intros Hok Hstep. destruct Hstep as [i identifier channel code s Hi Hk|i n s s' Hs|id r s Hid Hr|p s].
  - destruct Hok as [H1 H2 H3 H4 H5]. split; [done| |done|done|].
    + intros j a ch. simpl. rewrite lookup_insert_Some. intros [[_ <-]|[_ Hj]]; [done|]. by apply (H2 j a).
    + rewrite calls_insert by done. simpl. lia.
  - apply login_step_effect in Hs as (a & Hi & He). by eapply effect_ok.
  - destruct Hok as [H1 H2 H3 H4 H5]. assert (∀ x, known s x → known (mkLogins (set_challenges <[id:=r]> (lg_db s)) (lg_calls s)
      (lg_wrong s) (lg_lost s) (lg_accepted s) ({[id]} ∪ lg_used s)) x) as Hk.
    { intros x (u & Hu & ->). exists u. split; [simpl; set_solver|done]. }
    split; [|by eauto|by eapply Forall_impl|by eapply Forall_impl|done].
    intros id' r'. simpl. rewrite lookup_insert_Some. intros [[<- _]|[_ Hr']]; [set_solver|]. apply H1 in Hr'. set_solver.
  - destruct Hok as [H1 H2 H3 H4 H5]. split; [|done..]. intros id r. simpl. rewrite lookup_delete_where_Some. intros [Hr _]. by eapply H1.
Qed.

(** ** What is counted about one challenge *)

Section challenge.
Context (id : uuid).

Definition names (ch : OTPChallenge) : bool := bool_decide (ch_ID ch = uuid_String id).

(** The calls that may still guess at it, that have a wrong guess to count, that may be accepted. *)
Definition admitted (a : attempt) : bool :=
  match at_stage a with Comparing ch => names ch && (ch_Attempts ch <? MaxOTPAttempts) | _ => false end.
Definition uncounted (a : attempt) : bool := match at_stage a with Counting ch => names ch | _ => false end.
Definition hopeful (a : attempt) : bool := match at_stage a with Comparing ch | Consuming ch => names ch | _ => false end.

Record counted (k : nat) (s : Logins) : Prop := {
  guesses_counted : ∀ r, otp_challenges (lg_db s) !! id = Some r →
    Z.of_nat (times id (lg_wrong s)) ≤ cr_attempts r + Z.of_nat (calls uncounted s + times id (lg_lost s));
  guesses_bounded : (times id (lg_wrong s) + calls admitted s ≤ 4 + k + times id (lg_lost s))%nat;
  fresh_unaccepted : is_Some (otp_challenges (lg_db s) !! id) → times id (lg_accepted s) = 0%nat;
  logins_bounded : (times id (lg_accepted s) + calls hopeful s ≤ k)%nat;
}.

Lemma times_unknown s l : Forall (known s) l → id ∉ lg_used s → times id l = 0%nat.
Proof.
  intros Hl Hid. induction Hl as [|x l (u & Hu & ->) Hl IH]; [done|]. rewrite times_cons, IH.
  case_bool_decide as E; [|done]. apply uuid_String_inj in E as ->. done.
Qed.

Lemma names_columns id' r : names (challenge_columns id' r) = bool_decide (id' = id).
Proof. apply bool_decide_ext. simpl. split; [apply uuid_String_inj|by intros ->]. Qed.

(** The identifier a known text parses to is the one it names. *)
Lemma known_parses s ch u : known s (ch_ID ch) → uuid_Parse (ch_ID ch) = Some u → names ch = bool_decide (u = id).
Proof.
  intros (v & _ & Hv) Hu. rewrite Hv, uuid_Parse_String in Hu. injection Hu as ->. unfold names. rewrite Hv.
  apply bool_decide_ext. split; [apply uuid_String_inj|by intros ->].
Qed.

(** The calls at a challenge are in progress. *)
Lemma in_progress k s : logins_ok k s → (calls uncounted s + calls admitted s ≤ k ∧ calls hopeful s ≤ k)%nat.
Proof.
  intros Hok. pose proof (ok_progress _ _ Hok) as Hk. split.
  - etrans; [|exact Hk]. apply calls_sum; intros b; unfold uncounted, admitted, returned; by destruct (at_stage b).
  - etrans; [|exact Hk]. pose proof (calls_sum hopeful (λ _, false) (λ b, negb (returned b)) s) as H.
    enough (calls hopeful s + calls (λ _, false) s ≤ calls (λ b, negb (returned b)) s)%nat by lia.
    apply H; [|done]. intros b. unfold hopeful, returned. by destruct (at_stage b).
Qed.

Lemma effect_counted k i a s s' :
  logins_ok k s → counted k s → lg_calls s !! i = Some a → effect i a s s' → counted k s'.
Proof.
  intros Hok [C1 C2 C3 C4] Hi Heff. destruct (in_progress _ _ (effect_ok _ _ _ _ _ Hok Hi Heff)) as [Hpq Hj].
  assert (∀ a', lg_calls s' = <[i := a']> (lg_calls s) →
    (calls admitted s' + (if admitted a then 1 else 0) = calls admitted s + (if admitted a' then 1 else 0) ∧
     calls uncounted s' + (if uncounted a then 1 else 0) = calls uncounted s + (if uncounted a' then 1 else 0) ∧
     calls hopeful s' + (if hopeful a then 1 else 0) = calls hopeful s + (if hopeful a' then 1 else 0))%nat) as Hn
    by (intros a' Ha'; split_and!; by eapply calls_update).
  assert (∀ ch, stage_challenge a = Some ch → known s (ch_ID ch)) as Hknown by (intros ch; by apply (ok_calls _ _ Hok i)).
  unfold stage_challenge in Hknown. unfold admitted at 2 4, uncounted at 2 4, hopeful at 2 4 in Hn.
  destruct Heff as [res Hr Hnc|id' r Hs Hr|ch Hs Hatt|ch Hs|ch res Hs|ch u db res Hs Hu Hdb|ch u res Hs Hu];
    destruct (Hn _ eq_refl) as (N1 & N2 & N3); clear Hn; rewrite ?Hs in N1, N2, N3, Hknown;
    cbn [at_stage goto] in N1, N2, N3; cbn [lg_db lg_wrong lg_lost lg_accepted set_call] in *.
  - (* gives up *) assert (calls uncounted (set_call i (goto a (Returned res)) s) = calls uncounted s) as Np
      by (destruct (at_stage a); try lia; by destruct (Hnc ch)).
    split; cbn [lg_db lg_wrong lg_lost lg_accepted set_call]; [intros r Hr'; specialize (C1 r Hr')| |done|]; lia.
  - (* finds *) rewrite names_columns in N1, N3. cbn [challenge_columns ch_Attempts] in N1.
    split; cbn [lg_db lg_wrong lg_lost lg_accepted set_call]; [intros r' Hr'; specialize (C1 r' Hr'); lia| |done|].
    + destruct (bool_decide_reflect (id' = id)) as [->|]; [|simpl in N1; lia].
      destruct (Z.ltb_spec (cr_attempts r) MaxOTPAttempts) as [Hlt|]; [|simpl in N1; lia].
      specialize (C1 r Hr). unfold MaxOTPAttempts in Hlt. lia.
    + destruct (bool_decide_reflect (id' = id)) as [->|]; [|lia]. rewrite C3 by eauto. lia.
  - (* is_wrong *) rewrite (proj2 (Z.ltb_lt _ _) Hatt), andb_true_r in N1.
    split; cbn [lg_db lg_wrong lg_lost lg_accepted]; rewrite ?times_cons; fold (names ch); [|..|done|]; [|destruct (names ch); lia..].
    intros r Hr. specialize (C1 r Hr). destruct (names ch); lia.
  - (* is_right *) split; cbn [lg_db lg_wrong lg_lost lg_accepted set_call]; [intros r Hr; specialize (C1 r Hr); lia| |done|];
      destruct (names ch); simpl in *; lia.
  - (* loses *) split; cbn [lg_db lg_wrong lg_lost lg_accepted]; rewrite ?times_cons; fold (names ch); [|destruct (names ch); lia|done|lia].
    intros r Hr. specialize (C1 r Hr). destruct (names ch); lia.
  - (* counts *) rewrite (known_parses s ch u (Hknown ch eq_refl) Hu) in N2.
    split; cbn [lg_db lg_wrong lg_lost lg_accepted]; [|lia| |lia].
    + intros r. rewrite Hdb. destruct (otp_challenges (lg_db s) !! id) as [r0|] eqn:Er; [|done]. specialize (C1 r0 eq_refl).
      rewrite (bool_decide_ext (id = u) (u = id)) by done. intros [= <-]. destruct (bool_decide (u = id)); simpl; lia.
    + rewrite Hdb. intros Hsome. apply C3. by rewrite fmap_is_Some in Hsome.
  - (* accepts *) pose proof (known_parses s ch u (Hknown ch eq_refl) Hu) as Hnm. rewrite Hnm in N3.
    split; cbn [lg_db lg_wrong lg_lost lg_accepted]; rewrite ?times_cons; fold (names ch); rewrite ?Hnm; [| | |].
    + intros r. simpl. rewrite lookup_delete_Some. intros [_ Hr]. specialize (C1 r Hr). lia.
    + lia.
    + simpl. intros [r [Hne Hr]%lookup_delete_Some]. rewrite bool_decide_eq_false_2 by done. simpl. apply C3. eauto.
    + destruct (bool_decide (u = id)); lia.
Qed.

Lemma login_steps_counted k s s' : logins_ok k s → counted k s → login_steps k s s' → counted k s'.
Proof.
  intros Hok Hc Hstep. destruct Hstep as [i identifier channel code s Hi Hk|i n s s' Hs|id' r s Hid Hr|p s].
  - destruct Hc as [C1 C2 C3 C4]. split; cbn [lg_db lg_wrong lg_lost lg_accepted set_call]; rewrite ?calls_insert by done; simpl; auto.
  - apply login_step_effect in Hs as (a & Hi & He). by eapply effect_counted.
  - destruct Hc as [C1 C2 C3 C4]. split; cbn [lg_db lg_wrong lg_lost lg_accepted]; simpl; [| done | | done].
    + intros r'. rewrite lookup_insert_Some. intros [[-> <-]|[_ Hr']]; [|by apply C1].
      rewrite (times_unknown s _ (ok_wrong _ _ Hok) Hid), Hr. lia.
    + intros [r' [[-> _]|[_ Hr']]%lookup_insert_Some]; [|eauto]. by apply (times_unknown s _ (ok_accepted _ _ Hok)).
  - destruct Hc as [C1 C2 C3 C4]. split; cbn [lg_db lg_wrong lg_lost lg_accepted]; simpl; [| done | | done].
    + intros r'. rewrite lookup_delete_where_Some. intros [Hr _]. by apply C1.
    + intros [r' [Hr _]%lookup_delete_where_Some]. eauto.
Qed.
End challenge.

Lemma calls_quiet p db : calls p (quiet db) = 0%nat.
Proof. unfold calls, rows_where. simpl. by rewrite map_to_list_empty. Qed.

Lemma quiet_ok k db : logins_ok k (quiet db).
Proof.
  split; [|done|done|done|rewrite calls_quiet; lia].
  intros id r Hr. by eapply elem_of_dom_2.
Qed.

(** C12: the guesses at a challenge stay bounded when calls run at once.  With at most
    [k] code logins in progress at a time, however their statements interleave with
    each other and with the calls that issue and delete challenges, at most [4 + k]
    wrong codes are ever compared with one challenge, and one more for each count the
    database failed to write; and one challenge gives at most [k] logins.  With one
    call at a time these are the five guesses and the single use that are meant. *)
Theorem concurrent_guesses_bounded k db s id :
  (∀ id r, otp_challenges db !! id = Some r → 0 ≤ cr_attempts r) → rtc (login_steps k) (quiet db) s →
  (times id (lg_wrong s) ≤ 4 + k + times id (lg_lost s) ∧ times id (lg_accepted s) ≤ k)%nat.
Proof.
  intros Hpos Hrun.
  assert (logins_ok k s ∧ counted id k s) as [_ [_ C2 _ C4]]; [|lia].
  refine (rtc_ind_r (R:=login_steps k) (λ s, logins_ok k s ∧ counted id k s) (quiet db) _ _ s Hrun).
  - split; [apply quiet_ok|]. split; rewrite ?calls_quiet; [|simpl; cbn; lia|done|simpl; cbn; lia].
    intros r Hr. specialize (Hpos id r Hr). cbn. lia.
  - intros s1 s2 _ Hstep [Hok Hc]. split; [by eapply login_steps_ok|by eapply login_steps_counted].
Qed.

(** ** The steps are those of [VerifyOTP] *)

(** Call [i] by itself, its steps at consecutive oracles. *)
Fixpoint lone (fuel i n : nat) (s : Logins) : Logins :=
  match fuel with
  | O => s
  | S fuel => match login_step i n s with Some s => lone fuel i (S n) s | None => s end
  end.

Lemma lone_step fuel i n s s' : login_step i n s = Some s' → lone (S fuel) i n s = lone fuel i (S n) s'.
Proof. intros E. cbn [lone]. by rewrite E. Qed.

Section alone.
Context (flags : Flags) (signer : TokenSigner) (rfc3339 : time → string) (cfg : Config).
Let svc := wired flags signer rfc3339 cfg.

(** The account of an accepted code and its tokens: the rest of the method. *)
Definition log_in (identifier channel : string) : M Tokens :=
  user <- (if String.eqb channel ChannelEmail then FindOrCreateByEmail identifier
           else if String.eqb channel ChannelSMS then FindOrCreateByMobile identifier
           else fail (Errorf "unsupported channel" [])) ;;
  if String.eqb (u_Status user) UserSignupPending then fail ErrInvalidOTPCode else
  issueTokens svc (u_ID user).

(** Exposes the next step of the call; and the end of a call that has returned. *)
Ltac lone_turn :=
  cbn [lone]; unfold login_step at 1; cbn [set_call lg_calls lg_db]; rewrite lookup_insert_eq; cbn [at_stage goto at_identifier at_channel at_code];
  unfold by_id, query, server, Parse; cbn [w_db w_tx w_tick w_sent].
Ltac lone_stop :=
  cbn [lone]; unfold login_step; cbn [set_call lg_calls lg_db]; rewrite ?lookup_insert_eq; cbn [at_stage goto];
  intros [= <- <- _ _ _ _]; rewrite lookup_insert_eq; eexists _, _; split; reflexivity.

(** A call nothing interleaves with takes the steps of [login_step] and returns with
    the result and the table the code has when it is done with the challenge. *)
Lemma lone_VerifyOTP i identifier channel code w s :
  TrimSpace identifier ≠ "" → TrimSpace channel ≠ "" → code ≠ "" → lg_db s = w_db w →
  let s' := lone 3 i (w_tick w) (set_call i (mkAttempt (TrimSpace identifier) (TrimSpace channel) code Finding) s) in
  ∃ res n, at_stage <$> lg_calls s' !! i = Some (Returned res) ∧
    VerifyOTP svc identifier channel code w =
      (match res with Some err => fail err | None => log_in (TrimSpace identifier) (TrimSpace channel) end)
        (mkWorld (lg_db s') (w_tx w) n (w_sent w)).
Proof.
  intros Hi Hc Hk Hdb. cbv zeta. unfold VerifyOTP. cbv zeta.
  rewrite (proj2 (String.eqb_neq _ _) Hi), (proj2 (String.eqb_neq _ _) Hc), (proj2 (String.eqb_neq _ _) Hk). cbn [orb].
  set (ident := TrimSpace identifier). set (chan := TrimSpace channel).
  destruct w as [db tx n sent], s as [db0 calls wrong lost accepted used]. cbn [w_db w_tx w_tick w_sent lg_db] in *. subst db0.
  unfold svc. cbn [wired s_otp s_users s_clock s_hasher on pg_otp otp_GetLatestChallenge otp_IncrementAttempts otp_ConsumeChallenge].
  unfold GetLatestChallenge, IncrementAttempts, ConsumeChallenge, Now, parseID, Parse, wrap, of_sum, try, ignore, bind, run_query, tick, ret.
  cbn [w_db w_tx w_tick w_sent bcryptHasher Compare]. unfold ret.
  destruct (lone _ _ _ _) as [db' calls' wrong' lost' accepted' used'] eqn:E. cbn [lg_db lg_calls]. revert E.
  lone_turn; destruct (db_fault n) as [what|]; [by lone_stop|].
  destruct (sql_GetLatestChallenge _ _ _ db) as [e|[ch db1]] eqn:Eq; [by lone_stop|]. apply sql_GetLatestChallenge_spec in Eq as [-> _].
  lone_turn. destruct (After _ _); [by lone_stop|]. destruct (_ <=? _); [by lone_stop|].
  destruct (bcrypt_Compare _ _); cbn [negb]; lone_turn; (destruct (uuid_Parse (ch_ID ch)); cbn [w_db w_tx w_tick w_sent]; [|by lone_stop]);
    (destruct (db_fault (S (S n))); [by lone_stop|]).
  - destruct (sql_ConsumeChallenge _ _ db) as [e|[[] db2]]; by lone_stop.
  - destruct (sql_IncrementChallengeAttempts _ _ db) as [e|[[] db2]]; by lone_stop.
Qed.
End alone.

(** ** Schedules *)

Inductive turn := Call (i : nat) (identifier channel code : string) | Step (i n : nat).

Definition turn1 (k : nat) (p : turn) (s : Logins) : option Logins :=
  match p with
  | Call i identifier channel code =>
      if bool_decide (lg_calls s !! i = None) && bool_decide (calls (λ a, negb (returned a)) s < k)%nat
      then Some (set_call i (mkAttempt identifier channel code Finding) s) else None
  | Step i n => login_step i n s
  end.

Fixpoint play (k : nat) (ps : list turn) (s : Logins) : option Logins :=
  match ps with
  | [] => Some s
  | p :: ps => match turn1 k p s with Some s => play k ps s | None => None end
  end.

Lemma schedule_steps k ps s s' : play k ps s = Some s' → rtc (login_steps k) s s'.
Proof.
  revert s. induction ps as [|p ps IH]; intros s; simpl; [intros [= ->]; apply rtc_refl|].
  destruct (turn1 k p s) as [s1|] eqn:E; [|done]. intros H. eapply rtc_l; [|by apply IH].
  destruct p as [i identifier channel code|i n]; simpl in E; [|by eapply login_statement].
  destruct (_ && _) eqn:Eb; [|done]. bool_hyps. simplify_eq. by apply login_begin.
Qed.
End races.

(** ** Example: six guesses with two calls at once *)

#[local] Existing Instance bits_uuid.
#[local] Existing Instance bits_uuid_laws.
#[local] Existing Instance calm_env.
#[local] Existing Instance calm_laws.

Definition one_challenge : DB Envelope :=
  set_challenges (λ _, {[ demo_id 7 := mkChallengeRow "a@b.c" "$000017" (demo_time + OTPTTL) 0 demo_time "email" ]}) empty_db.

(** A wrong guess from beginning to end. *)
Definition wrong_guess (i : nat) : list turn := [Call i "a@b.c" "email" "0"; Step i 0; Step i 0; Step i 0].

(** Four one after the other, then two that both read the challenge before either counts. *)
Definition six_guesses : list turn :=
  mjoin (wrong_guess <$> [0; 1; 2; 3]%nat) ++
  [Call 4 "a@b.c" "email" "0"; Call 5 "a@b.c" "email" "0"; Step 4 0; Step 5 0; Step 4 0; Step 5 0; Step 4 0; Step 5 0].

Definition after_guesses : Logins := default (quiet one_challenge) (play 2 six_guesses (quiet one_challenge)).

Lemma after_guesses_reachable : rtc (login_steps 2) (quiet one_challenge) after_guesses.
Proof.
  apply (schedule_steps 2 six_guesses). unfold after_guesses.
  assert (bool_decide (is_Some (play 2 six_guesses (quiet one_challenge))) = true) as [s ->]%bool_decide_eq_true_1
    by (vm_compute; reflexivity).
  reflexivity.
Qed.

(** The bound is met: the sixth wrong code was compared, and the seventh is not. *)
Example six_guesses_compared :
  times (demo_id 7) (lg_wrong after_guesses) = 6%nat ∧
  (at_stage <$> (s ← play 2 [Call 6 "a@b.c" "email" "000017"; Step 6 0; Step 6 0] after_guesses; lg_calls s !! 6%nat)) =
    Some (Returned (Some ErrTooManyOTPAttempts)).
Proof. split; vm_compute; reflexivity. Qed.

Lemma concurrent_guesses_bounded_witness :
  (times (demo_id 7) (lg_wrong after_guesses) ≤ 6 ∧ times (demo_id 7) (lg_accepted after_guesses) ≤ 2)%nat.
Proof.
  apply (concurrent_guesses_bounded 2 one_challenge after_guesses (demo_id 7)).
  - intros id r Hr. unfold one_challenge in Hr. simpl in Hr. apply lookup_singleton_Some in Hr as [_ <-]. simpl. lia.
  - exact after_guesses_reachable.
Defined.
