(* ===== verification/Sessions.v ===== *)
(** Refresh-token rotation, organization selection and password login: what a
    successful call proves about the presented credentials, and what it leaves. *)
From S2P Require Import Prelude GoStrings Domain Libs Tables Database DatabaseProps World Effects Demo Ports.
From S2P Require Import Postgres PostgresProps Exec Returns OrgSpec Scenario Service Adapters ServiceInv AuthFlows.
Local Open Scope Z_scope.
Local Open Scope orbit_scope.

(** ** Calls that only read *)

Section reading.
Context `{V : Env}.

Lemma quiet_world {A} (m : M A) db n sent r w' :
  Steps uncommitted m → Steps closes m → m (mkWorld db None n sent) = (r, w') → ∃ n', w' = mkWorld db None n' sent.
Proof.
  intros H1 H2 E. destruct (H1 (mkWorld db None n sent)) as [Hd Hs]. destruct (H2 (mkWorld db None n sent)) as [Ht _].
  rewrite E in *. simpl in *. destruct w' as [db' tx' n' sent']; simpl in *. rewrite Hd, Hs, Ht by done. by exists n'.
Qed.

Lemma returns_try_quiet {A} (m : M A) db n sent (Φ : error + A → World → Prop) :
  Steps uncommitted m → Steps closes m →
  (∀ e n', Φ (inl e) (mkWorld db None n' sent)) →
  returns m (mkWorld db None n sent) (λ a w', Φ (inr a) w') → returns (try m) (mkWorld db None n sent) Φ.
Proof.
  intros H1 H2 Hf Hr. apply returns_try; [|done]. intros e w' E.
  destruct (quiet_world m db n sent _ _ H1 H2 E) as [n' ->]. apply Hf.
Qed.

Lemma uncommitted_GetMembership o u : Steps uncommitted (GetMembership o u).
Proof.
  unfold GetMembership, membershipIDs. apply steps_bind; [apply _| |intros [org user]; apply uncommitted_getMembership].
  apply steps_bind; [apply _|apply uncommitted_parseID|intros org].
  apply steps_bind; [apply _|apply uncommitted_parseID|intros user]. apply steps_ret, _.
Qed.

Lemma closes_GetMembership o u : Steps closes (GetMembership o u).
Proof.
  intros w. pose proof (run_call_closes (CallGetMembership o u) w) as H. unfold run_call, discard, bind in H.
  by destruct (GetMembership o u w) as [[] ?].
Qed.
End reading.

(** ** Membership *)

Section membership.
Context `{V : Env} `{!UUIDLaws L}.

(** The user is an active member of the organization. *)
Definition member (db : DB Envelope) (org user : uuid) : Prop :=
  ∃ m, organization_memberships db !! (org, user) = Some m ∧ mr_status m = MembershipActive.

Lemma returns_GetMembership o u db n sent (Φ : Membership → World → Prop) :
  (∀ org user m n', uuid_Parse o = Some org → uuid_Parse u = Some user →
     organization_memberships db !! (org, user) = Some m →
     n' = S n → Φ (membership_columns (org, user) m) (mkWorld db None n' sent)) →
  returns (GetMembership o u) (mkWorld db None n sent) Φ.
Proof.
  intros H. unfold GetMembership, membershipIDs.
  apply returns_bind, returns_bind, returns_parseID. intros org Ho.
  apply returns_bind, returns_parseID. intros user Hu. apply returns_ret. unfold getMembership.
  apply returns_bind, returns_try_quiet.
  - apply uncommitted_reads. auto with sql.
  - apply closes_Pool.
  - intros e n'. destruct (errors_Is _ _); apply returns_fail.
  - apply returns_Pool. intros m db'. unfold sql_GetOrganizationMembership.
    destruct (organization_memberships db !! _) eqn:E; [|done]. intros [= <- <-]. apply returns_ret. by apply H.
Qed.
End membership.

Section sessions.
Context `{V : Env} `{UC : UnicodeCase} `{!EnvLaws V} `{!UUIDLaws L}.
Context (flags : Flags) (signer : TokenSigner) `{!Outside flags signer} (rfc3339 : time → string) (cfg : Config).

Abbreviation svc := (wired flags signer rfc3339 cfg).

Lemma returns_IsActiveMember o u db n sent (Φ : bool → World → Prop) :
  (∀ b n', (b = true → n' = S n ∧ ∃ org user, uuid_Parse (TrimSpace o) = Some org ∧ uuid_Parse (TrimSpace u) = Some user ∧
     member db org user) → Φ b (mkWorld db None n' sent)) →
  returns (IsActiveMember svc o u) (mkWorld db None n sent) Φ.
Proof.
  intros H. unfold IsActiveMember. destruct (_ || _); [apply returns_fail|]. simpl.
  apply returns_bind, returns_try_quiet; [apply uncommitted_GetMembership|apply closes_GetMembership| |].
  - intros e n'. destruct (errors_Is _ _); [|apply returns_fail]. by apply returns_ret, H.
  - apply returns_GetMembership. intros org user m n' Ho Hu Hm Hn. apply returns_ret, H.
    intros Ha%bool_decide_eq_true_1. split; [done|]. exists org, user. split_and!; [done..|]. by exists m.
Qed.

Lemma uncommitted_IsActiveMember o u : Steps uncommitted (IsActiveMember svc o u).
Proof.
  unfold IsActiveMember. cbv zeta. destruct (_ || _); [apply steps_fail, _|]. simpl.
  apply steps_bind; [apply _|apply steps_try, uncommitted_GetMembership|].
  intros [e|m]; [destruct (errors_Is _ _)|]; auto with effects typeclass_instances.
Qed.

Lemma closes_IsActiveMember o u : Steps closes (IsActiveMember svc o u).
Proof.
  unfold IsActiveMember. cbv zeta. destruct (_ || _); [apply steps_fail, _|]. simpl.
  apply steps_bind; [apply _|apply steps_try, closes_GetMembership|].
  intros [e|m]; [destruct (errors_Is _ _)|]; auto with effects typeclass_instances.
Qed.

(** An organization is kept only for its active members. *)
Lemma returns_activeOrg uid oid db n sent (Φ : string → World → Prop) :
  (∀ o n', o = "" ∨ (∃ org, oid = Some org ∧ o = uuid_String org ∧ member db org uid) →
     Φ o (mkWorld db None n' sent)) →
  returns (activeOrg svc (uuid_String uid) (COALESCE (uuid_String <$> oid) "")) (mkWorld db None n sent) Φ.
Proof.
  intros H. unfold activeOrg. destruct (_ || _) eqn:E; [apply returns_ret, H; by left|].
  destruct oid as [org|]; [|done]. simpl in *.
  apply returns_bind, returns_try_quiet; [apply uncommitted_IsActiveMember|apply closes_IsActiveMember| |].
  - intros e n'. apply returns_ret, H. by left.
  - apply returns_IsActiveMember. intros b n' Hb. destruct b; apply returns_ret, H; [right|by left].
    destruct Hb as (_ & org' & user' & H1 & H2 & Hm); [done|]. rewrite TrimSpace_uuid_String, uuid_Parse_String in H1, H2.
    simplify_eq. by exists org'.
Qed.

(** Revoking marks every row of the hash. *)
Definition revoke_all (hash : string) (t : time) : DB Envelope → DB Envelope :=
  set_refresh (update_where (λ _ r, String.eqb (rr_token_hash r) hash)
    (λ r, mkRefreshRow (rr_user_id r) (rr_token_hash r) (rr_expires_at r) (Some t) (rr_created_at r) (rr_org_id r))).

(** The tables after [_ = s.refresh.Revoke(ctx, hash)], the [n]th effect: the error of a
    database that did not answer is dropped. *)
Definition after_revoke (hash : string) (n : nat) (db : DB Envelope) : DB Envelope :=
  match db_fault n with None => revoke_all hash (db_now n) db | Some _ => db end.

Lemma returns_ignore_Revoke hash db n sent (Φ : unit → World → Prop) :
  Φ () (mkWorld (after_revoke hash n db) None (S n) sent) →
  returns (ignore (Revoke hash)) (mkWorld db None n sent) Φ.
Proof.
  intros H [] w'. unfold ignore, Revoke, run_query, after_revoke in *. simpl. by destruct (db_fault n); intros [= <-].
Qed.

(** Every row of [db] with this hash is revoked in [db']. *)
Definition revoked_in (db db' : DB Envelope) (hash : string) : Prop :=
  ∀ rid r, refresh_tokens db !! rid = Some r → rr_token_hash r = hash →
    ∃ r', refresh_tokens db' !! rid = Some r' ∧ is_Some (rr_revoked_at r').

Lemma revoke_all_revoked hash t db db' uid oid token :
  issued (revoke_all hash t db) db' uid oid token → revoked_in db db' hash.
Proof.
  intros (rid & now & ex & Hn & ->) rid' r Hr Hh. simpl.
  assert (update_where (λ _ r, String.eqb (rr_token_hash r) hash)
    (λ r, mkRefreshRow (rr_user_id r) (rr_token_hash r) (rr_expires_at r) (Some t) (rr_created_at r) (rr_org_id r))
    (refresh_tokens db) !! rid' = Some (mkRefreshRow (rr_user_id r) (rr_token_hash r) (rr_expires_at r) (Some t)
      (rr_created_at r) (rr_org_id r))) as Hu.
  { rewrite lookup_update_where, Hr. simpl. by rewrite (proj2 (String.eqb_eq _ _) Hh). }
  simpl in *. eexists. rewrite lookup_insert_ne; [by rewrite Hu|]. intros ->. simpl in Hn. congruence.
Qed.

(** What a rotation whose revocation is the [n]th effect leaves: one new token of that
    user and organization, and the presented one revoked, unless the database did not
    answer that statement. *)
Definition rotated (db db' : DB Envelope) (hash : string) (n : nat) (uid : uuid) (oid : option uuid) (token : string) : Prop :=
  issued (after_revoke hash n db) db' uid oid token ∧ (db_fault n = None → revoked_in db db' hash).

Lemma issued_rotated db db' hash n uid oid token :
  issued (after_revoke hash n db) db' uid oid token → rotated db db' hash n uid oid token.
Proof. intros Hi. split; [done|]. unfold after_revoke in Hi. intros Hf. rewrite Hf in Hi. by eapply revoke_all_revoked. Qed.

Lemma returns_rotate hash u o db n sent (Φ : Tokens → World → Prop) (check : M string) :
  (∀ n1, returns check (mkWorld (after_revoke hash n db) None n1 sent) (λ o' w',
     ∃ n2, w' = mkWorld (after_revoke hash n db) None n2 sent ∧ o o')) →
  (∀ access token expires uid o' oid db' n' sent', uuid_Parse u = Some uid → o o' → names_org o' oid →
     rotated db db' hash n uid oid token → Φ (access, token, expires) (mkWorld db' None n' sent')) →
  returns (ignore (Revoke hash) ;; org <- check ;; issueTokensForOrg svc u org) (mkWorld db None n sent) Φ.
Proof.
  intros Hc H. apply returns_bind, returns_ignore_Revoke, returns_bind. eapply returns_mono; [apply Hc|].
  intros o' w' (n2 & -> & Ho). apply (returns_issueTokensForOrg flags signer).
  intros access token expires uid oid db' n' sent' Hu Hn Hi. eapply H; [done|exact Ho|done|]. by apply issued_rotated.
Qed.

Lemma member_after_revoke hash n db org user : member (after_revoke hash n db) org user ↔ member db org user.
Proof. unfold after_revoke. by destruct (db_fault n). Qed.

Lemma returns_FindValid hash db n sent (Φ : string * string → World → Prop) :
  (∀ rid r, refresh_tokens db !! rid = Some r → live db (db_now n) hash r →
     Φ (uuid_String (rr_user_id r), COALESCE (uuid_String <$> rr_org_id r) "") (mkWorld db None (S n) sent)) →
  returns (FindValid hash) (mkWorld db None n sent) Φ.
Proof.
  intros H. unfold FindValid. apply returns_Pool. intros res db' [-> (rid & r & Hr & Hl & ->)]%sql_FindValid_spec.
  by eapply H.
Qed.

(** What a successful refresh shows of the tables before and after, when the presented
    token was looked up by the [n]th effect and revoked by the next. *)
Definition refreshed (db db' : DB Envelope) (n : nat) (hash token : string) : Prop :=
  ∃ rid r oid, refresh_tokens db !! rid = Some r ∧ live db (db_now n) hash r ∧
    (oid = None ∨ ∃ org, oid = Some org ∧ rr_org_id r = Some org ∧ member db org (rr_user_id r)) ∧
    rotated db db' hash (S n) (rr_user_id r) oid token.

Lemma returns_Refresh refreshToken db n sent :
  returns (Refresh svc refreshToken) (mkWorld db None n sent) (λ t w',
    w_tx w' = None ∧ refreshed db (w_db w') n (HashRefreshToken refreshToken) t.1.2).
Proof.
  unfold Refresh. cbv zeta. simpl. apply returns_bind, returns_try; [intros; apply returns_fail|].
  apply returns_FindValid. intros rid r Hrow Hlive.
  apply (returns_rotate _ _ (λ o, o = "" ∨ ∃ org, rr_org_id r = Some org ∧ o = uuid_String org ∧ member db org (rr_user_id r))).
  - intros n1. apply returns_activeOrg. setoid_rewrite member_after_revoke. eauto.
  - intros access token expires uid o' oid db' n' sent' Hu Ho Hn Hrot.
    rewrite uuid_Parse_String in Hu. injection Hu as <-. split; [done|]. exists rid, r, oid. split_and!; [done..| |done].
    unfold names_org in Hn. destruct Ho as [->|(org & Eo & -> & Hm)]; [by left|]. right. exists org.
    rewrite decide_False, uuid_Parse_String in Hn by apply uuid_String_nonempty. by destruct Hn as [-> _].
Qed.

(** C5: a successful refresh presented a token that was issued, and that was neither
    expired nor revoked when the call looked it up; the new pair belongs to the same
    user; it names an organization only if the old token named it and the user is still
    an active member; and the presented token is revoked, unless the database did not
    answer that very statement, an error the code drops. *)
Theorem Refresh_sound refreshToken w access token expires w' :
  w_tx w = None → Refresh svc refreshToken w = (Ret (access, token, expires), w') →
  refreshed (w_db w) (w_db w') (w_tick w) (HashRefreshToken refreshToken) token.
Proof. destruct w as [db tx n sent]. simpl. intros -> E. by destruct (returns_Refresh refreshToken db n sent _ _ E). Qed.

(** What a successful selection shows, when the membership was read by the [n]th effect,
    the presented token looked up by the next and revoked by the one after. *)
Definition selected (db db' : DB Envelope) (n : nat) (userID orgID hash token : string) : Prop :=
  ∃ rid r org, refresh_tokens db !! rid = Some r ∧ live db (db_now (S n)) hash r ∧
    userID = uuid_String (rr_user_id r) ∧ uuid_Parse orgID = Some org ∧ member db org (rr_user_id r) ∧
    rotated db db' hash (S (S n)) (rr_user_id r) (Some org) token.

Lemma returns_SelectOrg userID refreshToken orgID db n sent :
  returns (SelectOrg svc userID refreshToken orgID) (mkWorld db None n sent) (λ t w',
    w_tx w' = None ∧ selected db (w_db w') n (TrimSpace userID) (TrimSpace orgID) (HashRefreshToken refreshToken) t.1.2).
Proof.
  unfold SelectOrg. cbv zeta. destruct (_ || _) eqn:Eg; [apply returns_fail|].
  apply orb_false_iff in Eg as [_ Hne%String.eqb_neq]. cbn [s_orgs wired].
  apply returns_bind, returns_IsActiveMember. intros b n1 Hb. destruct b; [|apply returns_fail]. cbn [negb].
  destruct Hb as (-> & org & user & Ho & Hu & Hm); [done|]. rewrite TrimSpace_idemp in Ho, Hu.
  apply returns_bind, returns_try; [intros; apply returns_fail|]. cbn [s_refresh wired pg_refresh rs_FindValid].
  apply returns_FindValid. intros rid r Hrow Hlive. destruct (String.eqb_spec (uuid_String (rr_user_id r)) (TrimSpace userID)) as [Eu|];
    [|apply returns_fail]. cbn [negb]. rewrite <- Eu, uuid_Parse_String in Hu. injection Hu as <-.
  intros [[access token] expires] w' E.
  assert (returns (ignore (Revoke (HashRefreshToken refreshToken)) ;; o <- ret (TrimSpace orgID) ;; issueTokensForOrg svc (TrimSpace userID) o)
    (mkWorld db None (S (S n)) sent) (λ t w', w_tx w' = None ∧ rotated db (w_db w') (HashRefreshToken refreshToken) (S (S n)) (rr_user_id r) (Some org) t.1.2)) as Hrot.
  { apply (returns_rotate _ _ (λ o, o = TrimSpace orgID)).
    - intros n2. apply returns_ret. by exists n2.
    - intros access' token' expires' uid o' oid db' n' sent' Hu -> Hn Hrot. split; [done|].
      rewrite <- Eu, uuid_Parse_String in Hu. injection Hu as <-. unfold names_org in Hn.
      rewrite decide_False, Ho in Hn by done. by destruct Hn as [-> _]. }
  destruct (Hrot _ _ E) as [Htx Hrot']. split; [done|]. by exists rid, r, org.
Qed.

(** C38: selecting an organization succeeds only for an active member of it who
    presents an own refresh token that was issued, and that was neither expired nor
    revoked when the call looked it up; the new pair is for exactly that user and
    organization, and the presented token is revoked, unless the database did not answer
    that very statement, an error the code drops. *)
Theorem SelectOrg_sound userID refreshToken orgID w access token expires w' :
  w_tx w = None → SelectOrg svc userID refreshToken orgID w = (Ret (access, token, expires), w') →
  selected (w_db w) (w_db w') (w_tick w) (TrimSpace userID) (TrimSpace orgID) (HashRefreshToken refreshToken) token.
Proof. destruct w as [db tx n sent]. simpl. intros -> E. by destruct (returns_SelectOrg userID refreshToken orgID db n sent _ _ E). Qed.

(** The account a password login names. *)
Definition login_account (identifier : string) (r : UserRow) : Prop :=
  if IsE164 identifier then ur_mobile r = Some identifier else ur_email r = Some (ToLower identifier).

Lemma returns_find_login identifier db n sent (Φ : User → World → Prop) :
  (∀ uid r, users db !! uid = Some r → login_account identifier r → Φ (user_columns uid r) (mkWorld db None (S n) sent)) →
  returns (if IsE164 identifier then FindByMobile identifier else FindByEmail (ToLower identifier))
    (mkWorld db None n sent) Φ.
Proof.
  intros H. unfold login_account in H. destruct (IsE164 identifier); unfold FindByMobile, findByMobile, FindByEmail, findByEmail; apply returns_Pool;
    intros user db'; [unfold sql_FindUserByMobile|unfold sql_FindUserByEmail];
    destruct (first_where _ _) as [[uid r]|] eqn:E; try done; intros [= <- <-];
    apply first_where_Some in E as [Hl He%bool_decide_eq_true_1]; by apply H.
Qed.

(** [db1] is [db], possibly with a login recorded. *)
Definition login_recorded (db db1 : DB Envelope) (uid : uuid) : Prop :=
  db1 = db ∨ ∃ t, db1 = set_users (alter (λ r, mkUserRow (ur_email r) (ur_created_at r) (ur_mobile r) (ur_password_hash r)
    (ur_display_name r) (ur_status r) t (Some t) (ur_email_verified_at r)) uid) db.

Lemma returns_ignore_UpdateLastLogin uid db n sent (Φ : unit → World → Prop) :
  (∀ db1, login_recorded db db1 uid → Φ () (mkWorld db1 None (S n) sent)) →
  returns (ignore (UpdateLastLogin (uuid_String uid))) (mkWorld db None n sent) Φ.
Proof.
  intros H [] w'. unfold ignore, UpdateLastLogin, parseID, Parse, wrap, bind, of_sum. rewrite uuid_Parse_String. simpl.
  unfold run_query. simpl. destruct (db_fault n); intros [= <-]; apply H; [by left|right; by eexists].
Qed.

Lemma returns_LoginWithPassword identifier password db n sent :
  returns (LoginWithPassword svc identifier password) (mkWorld db None n sent) (λ t w', w_tx w' = None ∧ ∃ uid r h oid,
    users db !! uid = Some r ∧ login_account (TrimSpace identifier) r ∧
    ur_status r ≠ UserSignupPending ∧ ur_status r ≠ UserDisabled ∧
    ur_password_hash r = Some h ∧ bcrypt_Compare h password = true ∧
    ∃ db1, login_recorded db db1 uid ∧ issued db1 (w_db w') uid oid t.1.2).
Proof.
  unfold LoginWithPassword. cbv zeta. destruct (_ || _); [apply returns_fail|].
  apply returns_bind, returns_try; [intros; apply returns_fail|]. simpl.
  apply returns_find_login. intros uid r Hu Ha. simpl.
  destruct (String.eqb_spec (ur_status r) UserSignupPending); [apply returns_fail|].
  destruct (String.eqb_spec (ur_status r) UserDisabled); [apply returns_fail|]. apply returns_bind.
  destruct (ur_password_hash r) as [h|] eqn:Eh; simpl; [|apply returns_ret; apply returns_fail].
  destruct (String.eqb_spec h ""); apply returns_ret; [apply returns_fail|].
  destruct (bcrypt_Compare h password) eqn:Ec; simpl; [|apply returns_fail].
  apply returns_bind, returns_ignore_UpdateLastLogin. intros db1 Hdb1.
  apply (returns_issueTokens flags signer). intros access token expires uid' oid db' n' sent' Hp Hi.
  rewrite uuid_Parse_String in Hp. injection Hp as <-. split; [done|]. exists uid, r, h, oid. split_and!; try done. by exists db1.
Qed.
(** C39: a password login succeeds only for an existing account with that mobile
    number or lower-cased address which is neither pending nor disabled and whose
    stored hash matches the password; nothing changes but the login time and the
    one refresh token issued to that account. *)
Theorem LoginWithPassword_sound identifier password w access token expires w' :
  w_tx w = None → LoginWithPassword svc identifier password w = (Ret (access, token, expires), w') →
  let db := w_db w in
  ∃ uid r h oid, users db !! uid = Some r ∧ login_account (TrimSpace identifier) r ∧
    ur_status r ≠ UserSignupPending ∧ ur_status r ≠ UserDisabled ∧
    ur_password_hash r = Some h ∧ bcrypt_Compare h password = true ∧
    ∃ db1, login_recorded db db1 uid ∧ issued db1 (w_db w') uid oid token.
Proof. destruct w as [db tx n sent]. simpl. intros -> E. by destruct (returns_LoginWithPassword identifier password db n sent _ _ E). Qed.
End sessions.

(** ** Examples *)

#[local] Existing Instance bits_uuid.
#[local] Existing Instance bits_uuid_laws.
#[local] Existing Instance calm_env.
#[local] Existing Instance calm_laws.
#[local] Existing Instance ascii_case.

(** The session of [code_login] is refreshed. *)
Definition refresh_run : outcome Tokens * World := Refresh demo_svc (demo_ID 29 +:+ demo_ID 30) code_login.2.

Lemma Refresh_sound_witness :
  ∃ rid r, refresh_tokens (w_db code_login.2) !! rid = Some r ∧
    revoked_in (w_db code_login.2) (w_db refresh_run.2) (HashRefreshToken (demo_ID 29 +:+ demo_ID 30)).
Proof.
  assert (w_tx code_login.2 = None) as Ht by (vm_compute; reflexivity).
  assert (refresh_run.1 = Ret ("access:" +:+ alice, "u101001u011001", demo_time + 900000035)) as Hr%ran
    by (vm_compute; reflexivity).
  pose proof (Refresh_sound demo_flags demo_signer (λ _, "") demo_cfg (demo_ID 29 +:+ demo_ID 30) code_login.2
    _ _ _ refresh_run.2 Ht Hr) as (rid & r & oid & H1 & _ & _ & _ & H2). exists rid, r. exact (conj H1 (H2 eq_refl)).
Defined.

(** A member of two_members logs in with a code and chooses the organization. *)
Definition in_two_members : World := world_after_uses [UseRequestOTP "a@b.c" "email" "r1"] (world_after two_members).
Definition member_login : outcome Tokens * World := VerifyOTP demo_svc "a@b.c" "email" "000033" in_two_members.

(** With a single organization the session is already scoped to it. *)
Example member_login_token :
  member_login.1 = Ret ("access:" +:+ alice +:+ "@" +:+ o_ID orbit, "u011101u111101", demo_time + 900000044).
Proof. vm_compute. reflexivity. Qed.

Definition select_run : outcome Tokens * World := SelectOrg demo_svc alice "u011101u111101" (o_ID orbit) member_login.2.

Lemma SelectOrg_sound_witness :
  ∃ rid r org, refresh_tokens (w_db member_login.2) !! rid = Some r ∧ member (w_db member_login.2) org (rr_user_id r).
Proof.
  assert (w_tx member_login.2 = None) as Ht by (vm_compute; reflexivity).
  assert (select_run.1 = Ret ("access:" +:+ alice +:+ "@" +:+ o_ID orbit, "u011011u111011", demo_time + 900000052)) as Hr%ran
    by (vm_compute; reflexivity).
  pose proof (SelectOrg_sound demo_flags demo_signer (λ _, "") demo_cfg alice "u011101u111101" (o_ID orbit) member_login.2
    _ _ _ select_run.2 Ht Hr) as (rid & r & org & H1 & _ & _ & _ & H2 & _). exists rid, r, org. exact (conj H1 H2).
Defined.

Definition with_password : World := world_after [CallUpsertDemoUser "p@q.r" "" "$secret" "P"].
Definition password_login : outcome Tokens * World := LoginWithPassword demo_svc " P@q.r" "secret" with_password.

Lemma LoginWithPassword_sound_witness :
  ∃ uid r, users (w_db with_password) !! uid = Some r ∧ login_account (TrimSpace " P@q.r") r.
Proof.
  assert (w_tx with_password = None) as Ht by (vm_compute; reflexivity).
  assert (password_login.1 = Ret ("access:u11", "u1011u0111", demo_time + 900000011)) as Hr%ran
    by (vm_compute; reflexivity).
  pose proof (LoginWithPassword_sound demo_flags demo_signer (λ _, "") demo_cfg " P@q.r" "secret" with_password
    _ _ _ password_login.2 Ht Hr) as H. cbv zeta in H.
  destruct H as (uid & r & h & oid & H1 & H2 & _). exists uid, r. exact (conj H1 H2).
Defined.
