(* ===== verification/Rotations.v ===== *)
(** Concurrent use of one refresh token: [Refresh] and [SelectOrg] of
    internal/application/service.go cut at their calls to the store, any number of
    calls with the same token interleaved with each other and with other work on the
    tables.

    Looking the token up and revoking it are two statements, and an error of the
    second is ignored: a token may be exchanged once for every call that is in
    progress at the same time, and once more for each revocation that failed. *)
From S2P Require Import Prelude GoStrings Domain Libs Tables Database DatabaseProps World Effects Demo Ports.
From S2P Require Import Postgres PostgresProps Exec Returns OrgSpec Scenario Service Adapters ServiceInv AuthFlows Sessions.
Local Open Scope Z_scope.
Local Open Scope orbit_scope.

(** The two use cases that exchange a refresh token. *)
Inductive request := RequestRefresh | RequestSelectOrg (userID orgID : string).

(** The call to the store a use case makes next, with what it has read. *)
Inductive exchange :=
  | CheckingMember
  | FindingToken
  | RevokingToken (userID orgID : string)
  | KeepingOrg (userID orgID : string)
  | IssuingPair (userID orgID : string)
  | Answered (result : outcome Tokens).

Section rotations.
Context `{V : Env} (s : Service) (refreshToken : string).

Abbreviation hash := (HashRefreshToken refreshToken).

(** Before the first call to the store. *)
Definition present (rq : request) : exchange :=
  match rq with
  | RequestRefresh => FindingToken
  | RequestSelectOrg userID orgID =>
      if String.eqb (TrimSpace userID) "" || String.eqb (TrimSpace orgID) "" then Answered (Fail ErrInvalidRefresh) else
      match s_orgs s with
      | None => Answered (Fail ErrNotMember)
      | Some _ => CheckingMember
      end
  end.

(** One call to the store, and where its result leads. *)
Definition call_then {A} (m : M A) (k : error + A → exchange) : World → exchange * World := λ w,
  match m w with
  | (Ret a, w) => (k (inr a), w)
  | (Fail e, w) => (k (inl e), w)
  | (Panic p, w) => (Answered (Panic p), w)
  end.

Definition rotation_step (rq : request) (x : exchange) : option (World → exchange * World) :=
  match x, rq with
  | CheckingMember, RequestRefresh => None
  | CheckingMember, RequestSelectOrg userID orgID =>
      Some (call_then (IsActiveMember s (TrimSpace orgID) (TrimSpace userID)) (λ r,
        match r with
        | inl e => Answered (Fail e)
        | inr active => if negb active then Answered (Fail ErrNotMember) else FindingToken
        end))
  | FindingToken, _ =>
      Some (call_then (rs_FindValid (s_refresh s) hash) (λ r,
        match r, rq with
        | inl _, _ => Answered (Fail ErrInvalidRefresh)
        | inr (userID, orgID), RequestRefresh => RevokingToken userID orgID
        | inr (tokenUserID, _), RequestSelectOrg userID orgID =>
            if negb (String.eqb tokenUserID (TrimSpace userID)) then Answered (Fail ErrInvalidRefresh)
            else RevokingToken (TrimSpace userID) (TrimSpace orgID)
        end))
  | RevokingToken userID orgID, _ =>
      Some (call_then (rs_Revoke (s_refresh s) hash) (λ _,
        match rq with
        | RequestRefresh => KeepingOrg userID orgID
        | RequestSelectOrg _ _ => IssuingPair userID orgID
        end))
  | KeepingOrg userID orgID, _ =>
      Some (call_then (activeOrg s userID orgID) (λ r,
        match r with inl e => Answered (Fail e) | inr org => IssuingPair userID org end))
  | IssuingPair userID orgID, _ =>
      Some (call_then (issueTokensForOrg s userID orgID) (λ r,
        Answered (match r with inl e => Fail e | inr tokens => Ret tokens end)))
  | Answered _, _ => None
  end.

(** A call nothing interleaves with. *)
Fixpoint alone (fuel : nat) (rq : request) (x : exchange) (w : World) : option (outcome Tokens * World) :=
  match x, fuel with
  | Answered r, _ => Some (r, w)
  | _, O => None
  | _, S fuel => match rotation_step rq x with None => None | Some f => let '(x, w) := f w in alone fuel rq x w end
  end.

(** ** The steps are those of the code *)

Lemma alone_step fuel rq x w f : rotation_step rq x = Some f → alone (S fuel) rq x w = alone fuel rq (f w).1 (f w).2.
Proof. intros E. destruct x; cbn [alone]; try (rewrite E; by destruct (f w)). by destruct rq. Qed.

Lemma alone_answered fuel rq r w : alone fuel rq (Answered r) w = Some (r, w).
Proof. by destruct fuel. Qed.

(** Nothing is left out between the calls, and four or five of them are enough. *)
Lemma alone_issue fuel rq userID orgID w :
  alone (S fuel) rq (IssuingPair userID orgID) w = Some (issueTokensForOrg s userID orgID w).
Proof.
  erewrite alone_step by reflexivity. unfold call_then. destruct (issueTokensForOrg s userID orgID w) as [[]?]; apply alone_answered.
Qed.

Lemma alone_Refresh w : alone 4 RequestRefresh (present RequestRefresh) w = Some (Refresh s refreshToken w).
Proof.
  simpl present. erewrite alone_step by reflexivity. unfold Refresh, bind, try, call_then, ignore.
  destruct (rs_FindValid _ _ w) as [[[u o]|e|p] w1]; simpl fst; simpl snd; [|apply alone_answered..].
  erewrite alone_step by reflexivity. unfold call_then. destruct (rs_Revoke _ _ w1) as [[[]|e|p] w2]; simpl fst; simpl snd; [| |apply alone_answered].
  all: erewrite alone_step by reflexivity; unfold call_then; destruct (activeOrg s u o w2) as [[o'|e'|p'] w3]; simpl fst; simpl snd;
    [apply alone_issue|apply alone_answered..].
Qed.

Lemma alone_SelectOrg userID orgID w :
  alone 4 (RequestSelectOrg userID orgID) (present (RequestSelectOrg userID orgID)) w = Some (SelectOrg s userID refreshToken orgID w).
Proof.
  unfold SelectOrg. cbv zeta. unfold present. destruct (_ || _); [apply alone_answered|].
  destruct (s_orgs s) as [orgs|]; [|apply alone_answered].
  erewrite alone_step by reflexivity. unfold bind, try, call_then, ignore.
  destruct (IsActiveMember _ _ _ w) as [[[]|e|p] w1]; simpl fst; simpl snd; cbn [negb]; cbv beta iota; [|apply alone_answered..].
  erewrite alone_step by reflexivity. unfold call_then. destruct (rs_FindValid _ _ w1) as [[[u o]|e|p] w2]; simpl fst; simpl snd; [|apply alone_answered..].
  destruct (negb _); [apply alone_answered|].
  erewrite alone_step by reflexivity. unfold call_then. destruct (rs_Revoke _ _ w2) as [[[]|e|p] w3]; simpl fst; simpl snd; [apply alone_issue..|apply alone_answered].
Qed.

(** ** Interleaving *)

(** The calls with this token, how often one found it valid to exchange it, and how
    many revocations failed. *)
Record Exchanges := mkExchanges {
  ex_world : World;
  ex_calls : gmap nat (request * exchange);
  ex_found : nat;
  ex_lost : nat;
}.

Definition finds (x x' : exchange) : bool := match x, x' with FindingToken, RevokingToken _ _ => true | _, _ => false end.

(** The error of [Revoke], which the code ignores. *)
Definition loses (x : exchange) (w : World) : bool :=
  match x, rs_Revoke (s_refresh s) hash w with
  | RevokingToken _ _, (Fail _, _) => true
  | _, _ => false
  end.

Definition exchange_step (i : nat) (st : Exchanges) : option Exchanges :=
  match ex_calls st !! i with
  | None => None
  | Some (rq, x) =>
      match rotation_step rq x with
      | None => None
      | Some f =>
          let '(x', w) := f (ex_world st) in
          Some (mkExchanges w (<[i := (rq, x')]> (ex_calls st)) ((if finds x x' then 1 else 0) + ex_found st)
                  ((if loses x (ex_world st) then 1 else 0) + ex_lost st))
      end
  end.

Definition running (c : request * exchange) : bool := match c.2 with Answered _ => false | _ => true end.
Definition revoking (c : request * exchange) : bool := match c.2 with RevokingToken _ _ => true | _ => false end.
(** A call that got tokens, or may. *)
Definition exchanging (c : request * exchange) : bool :=
  match c.2 with RevokingToken _ _ | KeepingOrg _ _ | IssuingPair _ _ | Answered (Ret _) => true | _ => false end.
Definition paid (c : request * exchange) : bool := match c.2 with Answered (Ret _) => true | _ => false end.

Definition how_many (p : request * exchange → bool) (st : Exchanges) : nat := length (rows_where (λ _ c, p c) (ex_calls st)).

(** Every row of the token has been revoked. *)
Definition spent (h : string) (db : DB Envelope) : Prop :=
  ∀ id r, refresh_tokens db !! id = Some r → rr_token_hash r = h → is_Some (rr_revoked_at r).

(** A call gave out another token than the one presented. *)
Definition other_token (x : exchange) : bool :=
  match x with Answered (Ret (_, token, _)) => negb (String.eqb (HashRefreshToken token) hash) | _ => true end.

Definition begin_call (i : nat) (rq : request) (st : Exchanges) : Exchanges :=
  mkExchanges (ex_world st) (<[i := (rq, present rq)]> (ex_calls st)) (ex_found st) (ex_lost st).

(** At most [k] calls run at once.  A call may make its next call to the store, where
    the identifiers it draws do not make the token again.  Anything may happen to the
    tables in between, but a revoked token stays revoked. *)
Inductive exchange_steps (k : nat) : Exchanges → Exchanges → Prop :=
  | exchange_begin i rq st :
      ex_calls st !! i = None → (how_many running st < k)%nat → exchange_steps k st (begin_call i rq st)
  | exchange_statement i st st' :
      exchange_step i st = Some st' → (∀ c, ex_calls st' !! i = Some c → other_token c.2 = true) → exchange_steps k st st'
  | exchange_outside w st :
      w_tx w = None → (spent hash (w_db (ex_world st)) → spent hash (w_db w)) →
      exchange_steps k st (mkExchanges w (ex_calls st) (ex_found st) (ex_lost st)).

(** Before the first of these calls. *)
Definition unexchanged (w : World) : Exchanges := mkExchanges w ∅ 0 0.

(** ** Schedules *)

Inductive move := Present (i : nat) (rq : request) | Proceed (i : nat).

Definition move1 (k : nat) (m : move) (st : Exchanges) : option Exchanges :=
  match m with
  | Present i rq =>
      if bool_decide (ex_calls st !! i = None) && bool_decide (how_many running st < k)%nat then Some (begin_call i rq st) else None
  | Proceed i =>
      match exchange_step i st with
      | None => None
      | Some st' => if if ex_calls st' !! i is Some c then other_token c.2 else true then Some st' else None
      end
  end.

Fixpoint moves (k : nat) (ms : list move) (st : Exchanges) : option Exchanges :=
  match ms with
  | [] => Some st
  | m :: ms => match move1 k m st with Some st => moves k ms st | None => None end
  end.

Lemma moves_steps k ms st st' : moves k ms st = Some st' → rtc (exchange_steps k) st st'.
Proof.
  revert st. induction ms as [|m ms IH]; intros st; simpl; [intros [= ->]; apply rtc_refl|].
  destruct (move1 k m st) as [st1|] eqn:E; [|done]. intros Hms. eapply rtc_l; [|by apply IH].
  destruct m as [i rq|i]; simpl in E.
  - destruct (_ && _) eqn:Eb; [|done]. bool_hyps. simplify_eq. by apply exchange_begin.
  - destruct (exchange_step i st) as [st2|] eqn:Es; [|done]. assert (st2 = st1 ∧ ∀ c, ex_calls st2 !! i = Some c → other_token c.2 = true) as [-> Ho];
      [|by eapply exchange_statement].
    revert E. destruct (ex_calls st2 !! i) as [c|]; [destruct (other_token c.2) eqn:Eo; [|done]|]; intros [= <-]; (split; [done|]); by intros c' [= <-].
Qed.
End rotations.

(** ** One call to the store *)

Section proofs.
Context `{V : Env} `{UC : UnicodeCase} `{!EnvLaws V} `{!UUIDLaws L}.
Context (flags : Flags) (signer : TokenSigner) `{!Outside flags signer} (rfc3339 : time → string) (cfg : Config).
Context (refreshToken : string).

Abbreviation svc := (wired flags signer rfc3339 cfg).
Abbreviation hash := (HashRefreshToken refreshToken).

Lemma spent_issued h db db' uid oid token :
  issued db db' uid oid token → HashRefreshToken token ≠ h → spent h db → spent h db'.
Proof.
  intros (rid & now & t & _ & ->) Hne Hs id r. simpl. rewrite lookup_insert_Some. intros [[_ <-]|[_ Hr]]; [done|by eapply Hs].
Qed.

(** Issuing a pair leaves a revoked token revoked. *)
Lemma issue_spent u o w r w' :
  w_tx w = None → issueTokensForOrg svc u o w = (r, w') →
  (∀ access token expires, r = Ret (access, token, expires) → HashRefreshToken token ≠ hash) →
  w_tx w' = None ∧ (spent hash (w_db w) → spent hash (w_db w')).
Proof.
  intros Ht E Hr. destruct r as [[[access token] expires]|e|p].
  2,3: pose proof (writes_last_issue flags signer rfc3339 cfg u o w) as Hw; rewrite E in Hw; destruct (Hw I) as [Hd Hx]; simpl in *; by rewrite Hd, Hx.
  destruct w as [db tx n sent]; simpl in *. subst tx. revert E.
  enough (returns (issueTokensForOrg svc u o) (mkWorld db None n sent) (λ t w1, HashRefreshToken t.1.2 ≠ hash →
    w_tx w1 = None ∧ (spent hash db → spent hash (w_db w1)))) as Hq
    by (intros E; apply (Hq _ _ E); by eapply Hr).
  apply (returns_issueTokensForOrg flags signer). intros a t x uid oid db' n' sent' _ _ Hi Hne. split; [done|].
  by eapply spent_issued.
Qed.

Lemma uncommitted_activeOrg u o : Steps uncommitted (activeOrg svc u o).
Proof.
  unfold activeOrg. destruct (_ || _); [apply steps_ret, _|]. apply steps_bind; [apply _|apply steps_try, uncommitted_IsActiveMember|].
  intros [e|[]]; apply steps_ret, _.
Qed.

Lemma closes_activeOrg u o : Steps closes (activeOrg svc u o).
Proof.
  unfold activeOrg. destruct (_ || _); [apply steps_ret, _|]. apply steps_bind; [apply _|apply steps_try, closes_IsActiveMember|].
  intros [e|[]]; apply steps_ret, _.
Qed.

Lemma quiet_call {A} (m : M A) w r w' :
  Steps uncommitted m → Steps closes m → w_tx w = None → m w = (r, w') → w_db w' = w_db w ∧ w_tx w' = None.
Proof.
  intros Hu Hc Ht E. destruct (Hu w) as [Hd _], (Hc w) as [Hx _]. rewrite E in *. auto.
Qed.

(** A token that was found is not revoked. *)
Lemma FindValid_unspent w res w' : FindValid hash w = (Ret res, w') → ¬ spent hash (w_db w).
Proof.
  unfold FindValid, run_query. destruct (db_fault _); [done|].
  destruct (sql_FindValidRefreshToken _ _ _) as [e|[a db]] eqn:Eq; [done|]. intros _ Hs.
  apply sql_FindValid_spec in Eq as [_ (id & r & Hr & (Hh & _ & Hn) & _)]. destruct (Hs id r Hr Hh) as [t Ht]. congruence.
Qed.

(** Revoking writes every row of the token, or fails and writes nothing. *)
Lemma Revoke_cases w :
  (∃ w', Revoke hash w = (Ret (), w') ∧ w_tx w' = w_tx w ∧ spent hash (w_db w')) ∨
  (∃ e w', Revoke hash w = (Fail e, w') ∧ still w w').
Proof.
  unfold Revoke, run_query. destruct (db_fault _); [right; eexists _, _; split; [done|by split]|]. left. eexists. split; [done|]. split; [done|].
  intros id r. simpl. rewrite lookup_update_where. destruct (_ !! id) as [r0|]; [|done]. simpl. intros [= <-].
  destruct (String.eqb_spec (rr_token_hash r0) hash); [by eexists|done].
Qed.

(** What one call to the store does. *)
Record step_does (x : exchange) (w : World) (x' : exchange) (w' : World) : Prop := {
  does_close : w_tx w' = None;
  does_keep : spent hash (w_db w) → spent hash (w_db w');
  does_find : finds x x' = true → ¬ spent hash (w_db w) ∧ revoking (RequestRefresh, x) = false;
  does_revoke : revoking (RequestRefresh, x) = true → loses svc refreshToken x w = true ∨ spent hash (w_db w');
  does_lose : loses svc refreshToken x w = true → revoking (RequestRefresh, x) = true;
  does_reach : revoking (RequestRefresh, x') = finds x x';
  does_pay : exchanging (RequestRefresh, x') = true → finds x x' = true ∨ exchanging (RequestRefresh, x) = true;
  does_run : running (RequestRefresh, x) = true;
}.

Lemma loses_revoking x w : loses svc refreshToken x w = true → revoking (RequestRefresh, x) = true.
Proof. unfold loses. destruct x; try done; by destruct (rs_Revoke _ _ _) as [[]?]. Qed.

(** A call that only reads and neither finds nor revokes the token. *)
Lemma step_reads {A} (m : M A) k x w x' w' :
  Steps uncommitted m → Steps closes m → w_tx w = None → call_then m k w = (x', w') →
  (∀ x'', finds x x'' = false) → revoking (RequestRefresh, x) = false → running (RequestRefresh, x) = true →
  (∀ r, revoking (RequestRefresh, k r) = false ∧ (exchanging (RequestRefresh, k r) = true → exchanging (RequestRefresh, x) = true)) →
  step_does x w x' w'.
Proof.
  intros Hu Hc Ht E Hf Hr Hn Hk. unfold call_then in E.
  assert (w_db w' = w_db w ∧ w_tx w' = None) as [Hd Hx].
  { destruct (m w) as [[a|e|p] w1] eqn:Em; injection E as <- <-; by eapply quiet_call. }
  assert (revoking (RequestRefresh, x') = false ∧ (exchanging (RequestRefresh, x') = true → exchanging (RequestRefresh, x) = true)) as [Hx1 Hx2]
    by (destruct (m w) as [[a|e|p] w1]; injection E as <- <-; [apply Hk..|done]).
  pose proof (loses_revoking x w). split; rewrite ?Hd, ?Hf; auto; congruence.
Qed.

Lemma step_finds rq w x' w' f :
  w_tx w = None → rotation_step svc refreshToken rq FindingToken = Some f → f w = (x', w') → step_does FindingToken w x' w'.
Proof.
  intros Ht [= <-]. unfold call_then. cbn [s_refresh wired pg_refresh rs_FindValid].
  destruct (FindValid hash w) as [r w1] eqn:E. assert (w_db w1 = w_db w ∧ w_tx w1 = None) as [Hd Hx].
  { eapply quiet_call; [|apply closes_Pool|done|exact E]. apply uncommitted_reads. auto with sql. }
  pose proof (loses_revoking FindingToken w). destruct r as [[tokenUser tokenOrg]|e|p].
  - pose proof (FindValid_unspent _ _ _ E) as Hs. intros [= <- <-].
    split; rewrite ?Hd; auto; destruct rq as [|u o]; try destruct (negb _); by auto.
  - intros [= <- <-]. by split; rewrite ?Hd.
  - intros [= <- <-]. by split; rewrite ?Hd.
Qed.

Lemma step_revokes rq u o w x' w' f :
  w_tx w = None → rotation_step svc refreshToken rq (RevokingToken u o) = Some f → f w = (x', w') →
  step_does (RevokingToken u o) w x' w'.
Proof.
  intros Ht [= <-]. unfold call_then. cbn [s_refresh wired pg_refresh rs_Revoke].
  destruct (Revoke_cases w) as [(w1 & -> & Hx & Hs)|(e & w1 & Er & Hd & Hx)].
  - intros [= <- <-]. split; rewrite ?Hx; auto; by destruct rq.
  - rewrite Er. intros [= <- <-]. split; rewrite ?Hd, ?Hx; auto; try by destruct rq.
    intros _. left. unfold loses. cbn [s_refresh wired pg_refresh rs_Revoke]. by rewrite Er.
Qed.

Lemma step_issues rq u o w x' w' f :
  w_tx w = None → rotation_step svc refreshToken rq (IssuingPair u o) = Some f → f w = (x', w') →
  other_token refreshToken x' = true → step_does (IssuingPair u o) w x' w'.
Proof.
  intros Ht [= <-] E Ho. unfold call_then in E. destruct (issueTokensForOrg svc u o w) as [r w1] eqn:Ei.
  assert (x' = Answered r ∧ w' = w1) as [-> ->] by (destruct r; by injection E as <- <-).
  destruct (issue_spent u o w r w1 Ht Ei) as [Hx Hs].
  { intros access token t ->. cbn [other_token] in Ho. apply negb_true_iff, String.eqb_neq in Ho. exact Ho. }
  pose proof (loses_revoking (IssuingPair u o) w). by split; auto.
Qed.

Lemma rotation_step_does rq x f w x' w' :
  w_tx w = None → rotation_step svc refreshToken rq x = Some f → f w = (x', w') → other_token refreshToken x' = true →
  step_does x w x' w'.
Proof.
  intros Ht Hf E Ho. destruct x as [| |u o|u o|u o|r]; [| |by eapply step_revokes| |by eapply step_issues|done].
  - destruct rq as [|u o]; [done|]. injection Hf as <-.
    eapply step_reads; [apply uncommitted_IsActiveMember|apply closes_IsActiveMember|done|exact E|done..|].
    intros [e|[]]; done.
  - by eapply step_finds.
  - injection Hf as <-. eapply step_reads; [apply uncommitted_activeOrg|apply closes_activeOrg|done|exact E|done..|].
    intros [e|org]; done.
Qed.

(** ** Counting *)

Lemma how_many_update p st st' i c c' :
  ex_calls st !! i = Some c → ex_calls st' = <[i := c']> (ex_calls st) →
  (how_many p st' + (if p c then 1 else 0) = how_many p st + (if p c' then 1 else 0))%nat.
Proof. intros Hi Hs. unfold how_many. rewrite Hs. by apply (length_rows_where_update (λ _ c, p c)). Qed.

Lemma how_many_begin p i rq st :
  ex_calls st !! i = None →
  how_many p (begin_call svc i rq st) = ((if p (rq, present svc rq) then 1 else 0) + how_many p st)%nat.
Proof. intros Hi. by apply (length_rows_where_insert (λ _ c, p c)). Qed.

Lemma how_many_le p q st : (∀ c, p c = true → q c = true) → (how_many p st ≤ how_many q st)%nat.
Proof.
  intros Hpq. unfold how_many, rows_where. induction (map_to_list (ex_calls st)) as [|[i c] l IH]; [done|].
  rewrite !filter_cons. simpl. destruct (p c) eqn:Ep; [rewrite (Hpq c Ep)|destruct (q c)]; simpl; lia.
Qed.

Lemma how_many_unexchanged p w : how_many p (unexchanged w) = 0%nat.
Proof. unfold how_many, rows_where. simpl. by rewrite map_to_list_empty. Qed.

(** What every state satisfies: until the token is revoked, every call that found it
    has failed to revoke it or is about to. *)
Record exchanges_ok (k : nat) (st : Exchanges) : Prop := {
  ok_closed : w_tx (ex_world st) = None;
  ok_running : (how_many running st ≤ k)%nat;
  ok_unspent : ¬ spent hash (w_db (ex_world st)) → ex_found st = (ex_lost st + how_many revoking st)%nat;
  ok_found : (ex_found st ≤ ex_lost st + k)%nat;
  ok_paid : (how_many exchanging st ≤ ex_found st)%nat;
}.

(** Before its first call to the store a use case has neither found nor revoked anything. *)
Lemma present_idle rq : revoking (rq, present svc rq) = false ∧ exchanging (rq, present svc rq) = false.
Proof. destruct rq as [|u o]; [done|]. unfold present. by destruct (_ || _). Qed.

Lemma exchange_step_ok k i st st' :
  exchanges_ok k st → exchange_step svc refreshToken i st = Some st' →
  (∀ c, ex_calls st' !! i = Some c → other_token refreshToken c.2 = true) → exchanges_ok k st'.
Proof.
  intros [Hc Hr Hu Hf Hp] E Ho. unfold exchange_step in E. destruct (ex_calls st !! i) as [[rq x]|] eqn:Ei; [|done].
  destruct (rotation_step _ _ _ _) as [f|] eqn:Ef; [|done]. destruct (f (ex_world st)) as [x' w'] eqn:Ew. injection E as <-.
  simpl in Ho. assert (other_token refreshToken x' = true) as Hx' by (apply (Ho (rq, x')), lookup_insert_eq).
  destruct (rotation_step_does _ _ _ _ _ _ Hc Ef Ew Hx') as [D1 D2 D3 D4 D5 D6 D7 D8].
  set (st' := mkExchanges _ _ _ _). assert (ex_calls st' = <[i := (rq, x')]> (ex_calls st)) as Es by done.
  pose proof (how_many_update running _ _ _ _ _ Ei Es) as N1. pose proof (how_many_update revoking _ _ _ _ _ Ei Es) as N2.
  pose proof (how_many_update exchanging _ _ _ _ _ Ei Es) as N3.
  pose proof (how_many_le revoking running st' ltac:(by intros [? []])) as N4.
  change (running (rq, ?y)) with (running (RequestRefresh, y)) in *. change (revoking (rq, ?y)) with (revoking (RequestRefresh, y)) in *.
  change (exchanging (rq, ?y)) with (exchanging (RequestRefresh, y)) in *.
  rewrite D8 in N1. rewrite D6 in N2. split; cbn [ex_world ex_calls ex_found ex_lost st'].
  - exact D1.
  - destruct (running (RequestRefresh, x')); lia.
  - intros Hns. specialize (Hu (λ Hs, Hns (D2 Hs))). fold st'.
    destruct (revoking (RequestRefresh, x)) eqn:Ex.
    + destruct D4 as [->|]; [done| |done]. destruct (finds x x') eqn:Efi; [by destruct D3|]. lia.
    + destruct (loses svc refreshToken x (ex_world st)); [by discriminate D5|]. destruct (finds x x'); lia.
  - fold st' in N4. destruct (finds x x') eqn:Efi; [|lia]. destruct D3 as [Hns Ex]; [done|]. specialize (Hu Hns).
    rewrite Ex in N2. destruct (running (RequestRefresh, x')); lia.
  - fold st'. destruct (exchanging (RequestRefresh, x')); [|lia]. destruct (D7 eq_refl) as [Efi|Ex]; [rewrite Efi|rewrite Ex in N3]; lia.
Qed.

Lemma exchange_steps_ok k st st' : exchanges_ok k st → exchange_steps svc refreshToken k st st' → exchanges_ok k st'.
Proof.
  intros Hok Hstep. destruct Hstep as [i rq st Hi Hk|i st st' Hs Ho|w st Ht Hw]; [|by eapply exchange_step_ok|].
  - destruct Hok as [Hc Hr Hu Hf Hp], (present_idle rq) as [E1 E2].
    split; rewrite ?how_many_begin, ?E1, ?E2 by done; simpl; auto. destruct (running _); lia.
  - destruct Hok as [Hc Hr Hu Hf Hp]. by split; auto.
Qed.

(** C13: a refresh token is exchanged at most once for every call that was in progress
    at the same time, and once more for every revocation that failed, however the
    calls to the store made by [Refresh] and [SelectOrg] interleave with each other
    and with other work that leaves a revoked token revoked.  With one call at a time
    and no failure this is the rotation that is meant: one pair for one token. *)
Theorem concurrent_rotations_bounded k w st :
  w_tx w = None → rtc (exchange_steps svc refreshToken k) (unexchanged w) st →
  (how_many paid st ≤ k + ex_lost st)%nat.
Proof.
  intros Ht Hrun. assert (exchanges_ok k st) as [_ _ _ Hf Hp].
  { refine (rtc_ind_r (R:=exchange_steps svc refreshToken k) (exchanges_ok k) (unexchanged w) _ _ st Hrun).
    - split; rewrite ?how_many_unexchanged; simpl; auto; lia.
    - intros s1 s2 _ Hstep Hok. by eapply exchange_steps_ok. }
  pose proof (how_many_le paid exchanging st ltac:(intros [? []]; done)). lia.
Qed.
End proofs.

(** ** Other work leaves a revoked token revoked *)

(** A statement of another table. *)
Definition refresh_alone `{V : Env} {A} (q : statement (E:=Envelope) A) : Prop :=
  ∀ s db a db', q s db = inr (a, db') → refresh_tokens db' = refresh_tokens db.

(** Unfolds the statement and looks at each of its outcomes. *)
Ltac head_of t := lazymatch t with ?f _ => head_of f | _ => t end.
Ltac other_table :=
  lazymatch goal with |- refresh_alone ?q => let f := head_of q in unfold refresh_alone, f end;
  unfold not_null, insert_user, replace_user, insert_membership, delete_users; intros; cbv zeta in *; repeat case_match; by simplify_eq/=.

Section spent.
Context `{V : Env} (h : string).

Lemma spent_other {A} (q : statement (E:=Envelope) A) : refresh_alone q → sound db_lower (spent h) q.
Proof. intros Hq s db a db' _ Hs H. unfold spent. rewrite (Hq _ _ _ _ H). exact Hs. Qed.

Lemma spent_RevokeRefresh h' : sound db_lower (spent h) (sql_RevokeRefreshToken h').
Proof.
  intros s db a db' _ Hs [= _ <-] id r. simpl. rewrite lookup_update_where. destruct (_ !! id) as [r0|] eqn:E; [|done].
  simpl. intros [= <-]. destruct (String.eqb _ h'); [by eexists|]. by apply (Hs id).
Qed.

Lemma spent_StoreRefresh id u o h' t : h' ≠ h → sound db_lower (spent h) (sql_StoreRefreshToken id u o h' t).
Proof.
  intros Hne s db a db' _ Hs. unfold sql_StoreRefreshToken, not_null. destruct t; [|done].
  destruct (refresh_tokens db !! id); [done|]. intros [= _ <-] id' r. simpl.
  rewrite lookup_insert_Some. intros [[_ <-]|[_ Hr]]; [done|by apply (Hs id')].
Qed.

Hint Resolve spent_RevokeRefresh spent_StoreRefresh : sql.
Hint Extern 2 (sound _ (spent _) _) => apply spent_other; other_table : sql.

(** Whether a call to the store adds a row for this token. *)
Definition stores (c : store_call) : bool := match c with CallStore _ _ h' _ => String.eqb h' h | _ => false end.

Lemma spent_emitEvents events : Steps (keeping (spent h)) (emitEvents Emit events).
Proof. apply keeping_emitEvents. apply keeping_Emit. auto with sql. Qed.
Hint Resolve spent_emitEvents : effects.

(** Every method of the store keeps the token revoked, but for storing it again. *)
Lemma store_calls_keep_spent c : stores c = false → Steps (keeping (spent h)) (run_call c).
Proof.
  intros Hc. destruct c; try (apply String.eqb_neq in Hc).
  all: unfold run_call, discard.
  all: unfold UpsertChallenge, GetLatestChallenge, IncrementAttempts, ConsumeChallenge, DeleteExpiredChallenges,
    FindOrCreateByEmail, FindOrCreateByMobile, FindByEmail, findByEmail, FindByMobile, findByMobile, FindByID, UpdateLastLogin,
    UpsertDemoUser, Store_, FindValid, Revoke, Create, ListByUser, RevokeToken, FindByPrefix, CreateOrg, GetOrg, ListOrgsForUser,
    ListMembers, AddMember, UpdateMemberStatus, RemoveMember, GetMembership, CreateSignupUser, ReissuePendingSignup,
    rotateChallenge, acceptForPending, VerifySignup, PurgeUnverifiedSignups, CreateInvite, FindInviteByTokenHash,
    ListInvites, RevokeInvite, AcceptInvite, ListFeatureFlags, membershipIDs, inviteIDs, not_found.
  all: walk.
Qed.
End spent.

(** ** Example: one token, two sessions *)

#[local] Existing Instance bits_uuid.
#[local] Existing Instance bits_uuid_laws.
#[local] Existing Instance calm_env.
#[local] Existing Instance calm_laws.
#[local] Existing Instance ascii_case.

(** The refresh token of [code_login], presented twice before either call revokes it. *)
Definition login_token : string := demo_ID 29 +:+ demo_ID 30.

Definition two_at_once : list move :=
  [Present 0 RequestRefresh; Present 1 RequestRefresh; Proceed 0; Proceed 1; Proceed 0; Proceed 1; Proceed 0; Proceed 1;
   Proceed 0; Proceed 1].

Definition after_rotations : Exchanges :=
  default (unexchanged code_login.2) (moves demo_svc login_token 2 two_at_once (unexchanged code_login.2)).

Lemma after_rotations_reachable : rtc (exchange_steps demo_svc login_token 2) (unexchanged code_login.2) after_rotations.
Proof.
  apply (moves_steps demo_svc login_token 2 two_at_once). unfold after_rotations.
  assert (bool_decide (is_Some (moves demo_svc login_token 2 two_at_once (unexchanged code_login.2))) = true)
    as [st Hst]%bool_decide_eq_true_1 by (vm_compute; reflexivity).
  rewrite Hst. reflexivity.
Qed.

(** Both get tokens; a third call, after them, gets none. *)
Example two_pairs_for_one_token :
  how_many paid after_rotations = 2%nat ∧ ex_lost after_rotations = 0%nat ∧
  (snd <$> (st ← moves demo_svc login_token 2 [Present 2 RequestRefresh; Proceed 2] after_rotations; ex_calls st !! 2%nat)) =
    Some (Answered (Fail ErrInvalidRefresh)).
Proof. split_and!; vm_compute; reflexivity. Qed.

Lemma concurrent_rotations_bounded_witness : (how_many paid after_rotations ≤ 2 + ex_lost after_rotations)%nat.
Proof.
  assert (w_tx code_login.2 = None) as Ht by (vm_compute; reflexivity).
  exact (concurrent_rotations_bounded demo_flags demo_signer (λ _, "") demo_cfg login_token 2 code_login.2 after_rotations Ht
    after_rotations_reachable).
Defined.
