(* ===== verification/SignupFlows.v ===== *)
(** Sign-up: what completing one proves, and what registering answers. *)
From S2P Require Import Prelude GoStrings Domain Libs Tables Database DatabaseProps World Effects Demo Ports.
From S2P Require Import Postgres PostgresProps Exec Returns OrgSpec Scenario Service Adapters ServiceInv AuthFlows Sessions.
Local Open Scope Z_scope.
Local Open Scope orbit_scope.

Section signup.
Context `{V : Env} `{UC : UnicodeCase} `{!EnvLaws V} `{!UUIDLaws L}.
Context (flags : Flags) (signer : TokenSigner) `{!Outside flags signer} (rfc3339 : time → string) (cfg : Config).

Abbreviation svc := (wired flags signer rfc3339 cfg).

(** The row a completed sign-up leaves. *)
Definition activated (r : UserRow) (verified : option time) (now : time) : UserRow :=
  mkUserRow (ur_email r) (ur_created_at r) (ur_mobile r) (ur_password_hash r) (ur_display_name r) "active" now
    (ur_last_login_at r) verified.

Lemma returns_store_VerifySignup uid at_ db n sent (Φ : unit → World → Prop) :
  (∀ r t, users db !! uid = Some r → pending_row r = true →
     Φ () (mkWorld (set_users <[uid := activated r (timestamptz at_) t]> db) None (S n) sent)) →
  returns (Postgres.VerifySignup (uuid_String uid) at_) (mkWorld db None n sent) Φ.
Proof.
  intros H. unfold Postgres.VerifySignup. apply returns_bind, returns_parseID. intros u Hu.
  rewrite uuid_Parse_String in Hu. injection Hu as <-. apply returns_bind, returns_wrap, returns_Pool. intros a db'.
  unfold sql_VerifySignupUser. destruct (users db !! uid) as [r|] eqn:E; [|intros [= <- <-]; apply returns_fail].
  destruct (pending_row r) eqn:Ep; intros [= <- <-]; [|apply returns_fail]. apply returns_ret. by apply H.
Qed.

(** What a completed sign-up shows of the tables before and after. *)
Definition completed (db db' : DB Envelope) (email code password token : string) : Prop :=
  ∃ id ch n uid r h oid t,
    latest_challenge db email ChannelEmail id ch ∧ go_now n ≤ cr_expires_at ch ∧ cr_attempts ch < MaxOTPAttempts ∧
    bcrypt_Compare (cr_code_hash ch) code = true ∧
    users db !! uid = Some r ∧ ur_email r = Some email ∧ pending_row r = true ∧
    ur_password_hash r = Some h ∧ bcrypt_Compare h password = true ∧
    issued (set_users <[uid := activated r (timestamptz (go_now n)) t]> (set_challenges (delete id) db)) db' uid oid token.

Lemma returns_VerifySignup email code password db n sent :
  returns (Service.VerifySignup svc email code password) (mkWorld db None n sent) (λ t w',
    w_tx w' = None ∧ cfg_signupOpen cfg = true ∧ completed db (w_db w') (NormalizeEmail email) (TrimSpace code) password t.1.2).
Proof.
  unfold Service.VerifySignup. cbn [s_signupOpen wired]. destruct (cfg_signupOpen cfg); [|apply returns_fail].
  cbn [negb s_signup s_users s_otp wired]. rewrite !bool_decide_eq_false_2 by done. cbv zeta. cbn [orb].
  destruct (_ || _); [apply returns_fail|]. apply returns_bind, returns_try; [intros; apply returns_fail|].
  cbn [on pg_otp otp_GetLatestChallenge]. unfold GetLatestChallenge. apply returns_Pool.
  intros ch0 db0 [-> (id & ch & Hch & ->)]%sql_GetLatestChallenge_spec.
  apply returns_bind, returns_Now. unfold After. cbn [challenge_columns ch_ExpiresAt ch_Attempts ch_CodeHash ch_ID].
  destruct (Z.ltb_spec (cr_expires_at ch) (go_now (S n))); [apply returns_fail|].
  destruct (Z.leb_spec MaxOTPAttempts (cr_attempts ch)); [apply returns_fail|].
  apply returns_bind, returns_ret. destruct (bcrypt_Compare _ (TrimSpace code)) eqn:Hc; cbn [negb].
  2: { apply returns_bind. intros ???. apply returns_fail. }
  apply returns_bind, returns_try; [intros; apply returns_bind; intros ???; apply returns_fail|].
  cbn [pg_users us_FindByEmail]. unfold FindByEmail. apply returns_Pool. intros user db1. unfold sql_FindUserByEmail.
  destruct (first_where _ _) as [[uid r]|] eqn:Ef; [|done]. intros [= <- <-].
  apply first_where_Some in Ef as [Hu He%bool_decide_eq_true_1].
  cbn [user_columns u_Status u_EmailVerified u_PasswordHash u_ID]. apply returns_bind.
  destruct (_ || _ || _) eqn:Eg.
  { apply returns_ret. cbn [negb]. apply returns_bind. intros ???. apply returns_fail. }
  apply orb_false_iff in Eg as [[Hst%negb_false_iff Hv]%orb_false_iff Hh].
  destruct (ur_password_hash r) as [h|] eqn:Eh; [|done]. change (COALESCE (Some h) "") with h in *. apply returns_ret.
  destruct (bcrypt_Compare h password) eqn:Hpw; cbn [negb].
  2: { apply returns_bind. intros ???. apply returns_fail. }
  apply returns_bind. cbn [otp_ConsumeChallenge]. unfold ConsumeChallenge. apply returns_bind, returns_parseID. intros id' Hid.
  rewrite uuid_Parse_String in Hid. injection Hid as <-. apply returns_Pool. intros [] db2 [= <-].
  apply returns_bind, returns_try; [intros e w' _; destruct (errors_Is _ _); apply returns_fail|].
  cbn [pg_signup ss_VerifySignup]. apply returns_store_VerifySignup. intros r2 t Hr2 Hp2. cbn [set_challenges users] in Hr2.
  assert (r2 = r) as -> by congruence. apply (returns_issueTokens flags signer).
  intros access token expires uid' oid db3 n3 sent3 Hp Hi. rewrite uuid_Parse_String in Hp. injection Hp as <-.
  split_and!; [done..|]. by exists id, ch, (S n), uid, r, h, oid, t.
Qed.

(** C7: completing a sign-up requires that sign-up is open, the code of the newest
    challenge of the address, unexpired and with fewer than five wrong attempts,
    and the password chosen at registration; the account was pending with that
    address and becomes active and verified at that moment, the challenge is
    deleted, and one refresh token is issued to that account. *)
Theorem VerifySignup_sound email code password w access token expires w' :
  w_tx w = None → Service.VerifySignup svc email code password w = (Ret (access, token, expires), w') →
  cfg_signupOpen cfg = true ∧ completed (w_db w) (w_db w') (NormalizeEmail email) (TrimSpace code) password token.
Proof. destruct w as [db tx n sent]. simpl. intros -> E. by destruct (returns_VerifySignup email code password db n sent _ _ E). Qed.

(** ** Registering an address that has an account *)

(** A call that reads, or draws from the oracles, and leaves everything as it was. *)
Lemma wp_quiet {A} (m : M A) db n sent (Q : outcome A → World → Prop) :
  Steps uncommitted m → Steps closes m → (∀ r n', (m (mkWorld db None n sent)).1 = r → Q r (mkWorld db None n' sent)) →
  wp m (mkWorld db None n sent) Q.
Proof.
  intros Hu Hc HQ. unfold wp. destruct (m (mkWorld db None n sent)) as [r w'] eqn:E.
  destruct (quiet_world m db n sent r w' Hu Hc E) as [n' ->]. by apply HQ.
Qed.

Lemma uncommitted_signupInvite token email : Steps uncommitted (signupInvite svc token email).
Proof. unfold signupInvite. cbn [s_invites s_clock wired pg_invites is_FindInviteByTokenHash]. unfold FindInviteByTokenHash. walk. Qed.
Lemma closes_signupInvite token email : Steps closes (signupInvite svc token email).
Proof. unfold signupInvite. cbn [s_invites s_clock wired pg_invites is_FindInviteByTokenHash]. unfold FindInviteByTokenHash. walk. Qed.
Lemma uncommitted_cooldown email now : Steps uncommitted (signupCooldownActive svc email now).
Proof. unfold signupCooldownActive. cbn [on s_otp wired pg_otp otp_GetLatestChallenge]. unfold GetLatestChallenge. walk. Qed.
Lemma closes_cooldown email now : Steps closes (signupCooldownActive svc email now).
Proof. unfold signupCooldownActive. cbn [on s_otp wired pg_otp otp_GetLatestChallenge]. unfold GetLatestChallenge. walk. Qed.
Lemma uncommitted_build i c : Steps uncommitted (buildOTPChallenge svc i c).
Proof. unfold buildOTPChallenge. cbn [s_codes s_hasher s_clock s_ids wired bcryptHasher Hash]. unfold NewCode, NewID. walk. Qed.
Lemma closes_build i c : Steps closes (buildOTPChallenge svc i c).
Proof. unfold buildOTPChallenge. cbn [s_codes s_hasher s_clock s_ids wired bcryptHasher Hash]. unfold NewCode, NewID. walk. Qed.

(** An address with a settled account. *)
Section settled.
Context (email : string) (uid : uuid) (r : UserRow) (db : DB Envelope) (sent : list SendRequest).
Context (Hs : schema db_lower db) (Hu : users db !! uid = Some r) (He : ur_email r = Some email) (Hp : pending_row r = false).

Lemma wp_CreateSignupUser_duplicate user org invite at_ n (Q : outcome bool → World → Prop) id :
  uuid_Parse (u_ID user) = Some id → u_Email user = email →
  (¬ Fair V → ∀ e n', Q (Fail e) (mkWorld db None n' sent)) → (∀ n', Q (Ret false) (mkWorld db None n' sent)) →
  wp (CreateSignupUser user org invite at_) (mkWorld db None n sent) Q.
Proof.
  intros Hid Hemail Hfault HQ. unfold CreateSignupUser. apply wp_bind, wp_parseID. rewrite Hid. cbv zeta.
  apply wp_bind, wp_wrap. unfold wp, Begin. simpl. destruct (db_fault n) eqn:F1; simpl; [eapply Hfault, fault_unfair, F1|].
  fold (wp (A:=bool)). apply wp_deferRollback. unfold wp, bind, wrap, run_query. simpl.
  destruct (db_fault (S n)) eqn:F2; simpl; [eapply Hfault, fault_unfair, F2|]. unfold sql_CreateSignupUser. rewrite Hemail.
  destruct (first_where _ _) eqn:Ef.
  2: { rewrite first_where_None in Ef. specialize (Ef _ _ Hu). by apply bool_decide_eq_false_1 in Ef. }
  simpl. unfold Commit, ret. simpl. destruct (db_fault (S (S n))) eqn:F3; simpl; [eapply Hfault, fault_unfair, F3|apply HQ].
Qed.

Lemma wp_Reissue_settled user challenge invite at_ n (Q : outcome (string * bool) → World → Prop) :
  u_Email user = email →
  (¬ Fair V → ∀ e n', Q (Fail e) (mkWorld db None n' sent)) → (∀ n', Q (Ret ("", false)) (mkWorld db None n' sent)) →
  wp (ReissuePendingSignup user challenge invite at_) (mkWorld db None n sent) Q.
Proof.
  intros Hemail Hfault HQ. unfold ReissuePendingSignup.
  apply wp_bind, wp_wrap. unfold wp, Begin. simpl. destruct (db_fault n) eqn:F1; simpl; [eapply Hfault, fault_unfair, F1|].
  fold (wp (A:=string * bool)). apply wp_deferRollback. unfold wp, bind, try, run_query. simpl.
  destruct (db_fault (S n)) eqn:F2; simpl; [eapply Hfault, fault_unfair, F2|]. unfold sql_ReissueSignupUser. rewrite Hemail.
  destruct (first_where _ _) as [[k x]|] eqn:Ef; simpl; [|apply HQ].
  apply first_where_Some in Ef as [Hx [Hm%bool_decide_eq_true_1 Hpx]%andb_true_iff].
  assert (k = uid) as -> by (eapply (proj1 (sch_users _ _ Hs)); eauto). congruence.
Qed.

Lemma wp_FindByEmail n (Q : outcome User → World → Prop) :
  (¬ Fair V → ∀ e, Q (Fail e) (mkWorld db None (S n) sent)) → Q (Ret (user_columns uid r)) (mkWorld db None (S n) sent) →
  wp (FindByEmail email) (mkWorld db None n sent) Q.
Proof.
  intros Hfault HQ. unfold FindByEmail, findByEmail. apply wp_Pool; [by intros U what; apply Hfault|]. unfold sql_FindUserByEmail.
  rewrite (first_where_unique _ _ uid r); [done|done|by apply bool_decide_eq_true_2|].
  intros k v Hk Hv%bool_decide_eq_true_1. eapply (proj1 (sch_users _ _ Hs)); eauto.
Qed.

Lemma settled_columns : negb (String.eqb (u_Status (user_columns uid r)) UserSignupPending) || u_EmailVerified (user_columns uid r) = true.
Proof.
  cbn [user_columns u_Status u_EmailVerified]. unfold pending_row in Hp.
  destruct (String.eqb (ur_status r) UserSignupPending); cbn [negb orb andb] in *; [|done].
  apply bool_decide_eq_false_1 in Hp. rewrite bool_decide_eq_true_2; [done|]. by destruct (ur_email_verified_at r).
Qed.

(** The retry of a registration answers and does nothing. *)
Lemma wp_retry_settled user invite locale now n (Q : outcome unit → World → Prop) :
  u_Email user = email →
  (¬ Fair V → ∀ res n', Q res (mkWorld db None n' sent)) → (∀ n', Q (Ret ()) (mkWorld db None n' sent)) →
  wp (retryPendingSignup svc user invite locale now) (mkWorld db None n sent) Q.
Proof.
  intros Hemail Hfault HQ. unfold retryPendingSignup. cbn [on s_signup s_users s_notifier wired pg_signup pg_users ss_ReissuePendingSignup us_FindByEmail].
  destruct invite as [invite|].
  - apply wp_bind, wp_try, wp_Reissue_settled; [done| |intros n'; apply wp_ret, HQ].
    intros U e n'. unfold genericInvite. destruct (errors_Is _ _); apply wp_fail, Hfault, U.
  - apply wp_bind, wp_try. rewrite Hemail. apply wp_FindByEmail; [|rewrite settled_columns; apply wp_ret, HQ].
    intros U e. cbv iota. apply wp_bind, wp_quiet; [apply uncommitted_cooldown|apply closes_cooldown|].
    intros [[]|e'|p] n1 _; [| |by apply Hfault..].
    + apply wp_bind, wp_Reissue_settled; [done|by intros; apply Hfault|intros n2; apply wp_ret, HQ].
    + apply wp_bind, wp_quiet; [apply uncommitted_build|apply closes_build|]. intros [[ch code]|e'|p] n2 _; [|by apply Hfault..].
      apply wp_bind, wp_Reissue_settled; [done|by intros; apply Hfault|intros n3; apply wp_ret, HQ].
Qed.
End settled.

(** C40: registering an address that already has a verified or otherwise settled account
    changes no table and sends nothing, whatever invitation is presented with it and
    whatever fails on the way; and when sign-up is open, the address and the password
    are acceptable and no dependency fails, the answer is the one the invitation token
    alone decides, success when there is none, so it does not depend on the account. *)
Theorem RegisterWithEmail_existing_silent email password displayName locale orgName inviteToken w uid r :
  ready w → users (w_db w) !! uid = Some r → ur_email r = Some (NormalizeEmail email) → pending_row r = false →
  let run := RegisterWithEmail svc email password displayName locale orgName inviteToken w in
  w_db run.2 = w_db w ∧ w_sent run.2 = w_sent w ∧
  (Fair V → cfg_signupOpen cfg = true → IsEmail (NormalizeEmail email) = true → TrimSpace password ≠ "" →
   (∀ n, ∃ h, bcrypt_Generate n password = inr h) →
   run.1 = match (signupInvite svc inviteToken (NormalizeEmail email) w).1 with
           | Ret _ => Ret ()
           | Fail e => Fail e
           | Panic p => Panic p
           end).
Proof.
  destruct w as [db tx n sent]. intros [Ht Hs] Hu He Hp. simpl in Ht, Hs, Hu. subst tx. cbv zeta.
  set (answer := match _ with Ret _ => Ret () | Fail e => Fail e | Panic p => Panic p end).
  set (Q := λ (res : outcome unit) (w' : World), w_db w' = db ∧ w_sent w' = sent ∧
    (Fair V → cfg_signupOpen cfg = true → IsEmail (NormalizeEmail email) = true → TrimSpace password ≠ "" →
     (∀ n, ∃ h, bcrypt_Generate n password = inr h) → res = answer)).
  change (wp (RegisterWithEmail svc email password displayName locale orgName inviteToken) (mkWorld db None n sent) Q).
  unfold RegisterWithEmail. cbn [s_signupOpen s_signup s_users s_notifier s_otp wired].
  destruct (cfg_signupOpen cfg); [|apply wp_fail; split_and!; [done..|congruence]]. cbn [negb].
  rewrite !bool_decide_eq_false_2 by done. cbn [orb]. cbv zeta.
  destruct (IsEmail (NormalizeEmail email)) eqn:Eem; [|apply wp_fail; split_and!; [done..|congruence]]. cbn [negb].
  destruct (String.eqb_spec (TrimSpace password) ""); [apply wp_fail; by split_and!|].
  apply wp_bind, wp_quiet; [apply uncommitted_signupInvite|apply closes_signupInvite|]. intros inv n1 Einv.
  assert (answer = match inv with Ret _ => Ret () | Fail e => Fail e | Panic p => Panic p end) as Hans by (subst answer; by rewrite Einv).
  clearbody answer. destruct inv as [invite|e|p]; [|by split_and!..].
  assert (∀ n', Q (Ret ()) (mkWorld db None n' sent)) as HQ by (intros; by split_and!).
  assert (¬ Fair V → ∀ res n', Q res (mkWorld db None n' sent)) as Hfault by (intros; by split_and!).
  apply wp_bind. cbn [s_hasher wired bcryptHasher Hash]. apply wp_bind, wp_tick, wp_of_sum.
  destruct (bcrypt_Generate n1 password) as [e|h] eqn:Eh.
  { split_and!; [done..|]. intros _ _ _ _ Hall. destruct (Hall n1) as [h Hh]. congruence. }
  apply wp_bind, wp_Now, wp_bind. unfold NewID. cbn [s_ids wired]. apply wp_bind, wp_NewUUID, wp_ret.
  match goal with |- wp (bind ?orgm _) _ _ =>
    assert (∃ org n', orgm (mkWorld db None (S (S (S n1))) sent) = (Ret org, mkWorld db None n' sent)) as (org & n2 & Eorg) end.
  { destruct invite; [unfold ret; eauto|]. destruct (negb _); unfold bind, NewID, NewUUID, tick, ret; simpl; eauto. }
  apply wp_bind. unfold wp at 1. rewrite Eorg. cbn [fst snd].
  apply wp_bind, wp_try. cbn [on pg_signup ss_CreateSignupUser].
  eapply (wp_CreateSignupUser_duplicate _ uid r db sent Hu He); [by destruct invite; apply uuid_Parse_String|by destruct invite| |].
  - intros U e n3. unfold genericInvite. destruct (errors_Is _ _); apply wp_fail, Hfault, U.
  - intros n3. cbn [negb]. eapply (wp_retry_settled _ uid r db sent Hs Hu He Hp); [by destruct invite|exact Hfault|exact HQ].
Qed.
End signup.

(** ** Example: registration and its completion *)

#[local] Existing Instance bits_uuid.
#[local] Existing Instance bits_uuid_laws.
#[local] Existing Instance calm_env.
#[local] Existing Instance calm_laws.
#[local] Existing Instance calm_fair.
#[local] Existing Instance ascii_case.

Definition registered : World :=
  world_after_uses [UseRegisterWithEmail " New@b.c" "secret" "N" "" "Acme" ""] (world_after two_users).
Definition verify_run : outcome Tokens * World := Service.VerifySignup demo_svc "new@B.c" "000032 " "secret" registered.

Example registered_state :
  ((λ kr, (ur_email kr.2, ur_status kr.2)) <$> map_to_list (users (w_db registered)), w_sent registered) =
  ([(Some "d@e.f", "active"); (Some "new@b.c", "signup_pending"); (Some "a@b.c", "active")],
   [mkSendRequest "signup_verify" "email" "new@b.c" (demo_ID 18)
      [("code", "000032"); ("expires_in_minutes", "10"); ("locale", "en")]]).
Proof. vm_compute. reflexivity. Qed.

Lemma VerifySignup_sound_witness :
  ∃ uid r, users (w_db registered) !! uid = Some r ∧ pending_row r = true ∧ ur_email r = Some (NormalizeEmail "new@B.c").
Proof.
  assert (w_tx registered = None) as Ht by (vm_compute; reflexivity).
  assert (Service.VerifySignup (wired demo_flags demo_signer (λ _, "") demo_cfg) "new@B.c" "000032 " "secret" registered =
    (Ret ("access:u11001@u00101", "u011101u111101", demo_time + 900000044), verify_run.2)) as Hr
    by (apply (ran verify_run); vm_compute; reflexivity).
  pose proof (VerifySignup_sound demo_flags demo_signer (λ _, "") demo_cfg "new@B.c" "000032 " "secret" registered
    _ _ _ verify_run.2 Ht Hr) as (_ & id & ch & n & uid & r & h & oid & t & _ & _ & _ & _ & H1 & H2 & H3 & _).
  exists uid, r. exact (conj H1 (conj H3 H2)).
Defined.

Definition again_run : outcome unit * World :=
  RegisterWithEmail demo_svc "A@b.c" "other" "X" "" "" "" (world_after two_users).

Lemma RegisterWithEmail_existing_silent_witness :
  again_run.1 = Ret () ∧ w_sent again_run.2 = w_sent (world_after two_users).
Proof.
  assert (users (w_db (world_after two_users)) !! demo_id 1 =
    Some (mkUserRow (Some "a@b.c") (demo_time + 3) None None None "active" (demo_time + 3) None (Some (demo_time + 3)))) as Hl
    by (vm_compute; reflexivity).
  assert (IsEmail (NormalizeEmail "A@b.c") = true) as He by (vm_compute; reflexivity).
  assert (Some "a@b.c" = Some (NormalizeEmail "A@b.c")) as Ha by (vm_compute; reflexivity).
  pose proof (RegisterWithEmail_existing_silent demo_flags demo_signer (λ _, "") demo_cfg "A@b.c" "other" "X" "" "" ""
    (world_after two_users) (demo_id 1) _ (world_after_ready two_users) Hl Ha eq_refl) as H.
  cbv zeta in H. destruct H as (_ & H2 & H3).
  exact (conj (H3 calm_fair eq_refl He ltac:(discriminate) (λ _, ex_intro _ _ eq_refl)) H2).
Defined.
