(* ===== verification/Verified.v ===== *)
(** No session before verification: whatever use cases run, every refresh token in the
    table belongs to an account that is there and is not a pending sign-up.

    The statements of the store keep the accounts of the tokens; the one that adds a
    token is reached only from the use cases that sign somebody in, and those have
    looked at the account first. *)
From S2P Require Import Prelude GoStrings Domain Libs Tables Database DatabaseProps World Effects Demo Ports.
From S2P Require Import Postgres PostgresProps Exec Returns OrgSpec OrgRefinement Scenario Service Adapters ServiceInv.
From S2P Require Import Credentials AuthFlows Sessions SignupFlows Rotations.
Local Open Scope Z_scope.
Local Open Scope orbit_scope.

Section settled.
Context `{V : Env}.

(** An account that is no pending sign-up. *)
Definition settled (uid : uuid) (db : DB Envelope) : Prop := ∃ r, users db !! uid = Some r ∧ pending_row r = false.

Definition sessions_verified (db : DB Envelope) : Prop :=
  ∀ rid t, refresh_tokens db !! rid = Some t → settled (rr_user_id t) db.

(** ** Statements *)

Lemma settled_stands {A} uid (q : statement (E:=Envelope) A) :
  (∀ r, pending_row r = false → sound db_lower (stands uid r) q) → sound db_lower (settled uid) q.
Proof.
  intros Hq s db a db' Hl (r & Hu & Hp) E. destruct (Hq r Hp s db a db' Hl ltac:(by exists r) E) as (r' & Hu' & Hc).
  exists r'. split; [done|]. by rewrite (pending_row_credentials _ _ Hc).
Qed.

Lemma settled_insert k x uid db : pending_row x = false → settled uid db → settled uid (set_users <[k := x]> db).
Proof.
  intros Hx (r & Hu & Hp). unfold settled. simpl. destruct (decide (k = uid)) as [->|Hne].
  - exists x. by rewrite lookup_insert_eq.
  - exists r. by rewrite lookup_insert_ne.
Qed.

Lemma demo_update_settled e m p d t r : pending_row (demo_update e m p d t r) = false.
Proof. done. Qed.
Lemma demo_insert_settled e m p d t : pending_row (demo_insert e m p d t) = false.
Proof. done. Qed.

Ltac seeded := intros s db a db' _ Hs; unfold sql_UpsertDemoUserByEmail, sql_UpsertDemoUserByMobile, replace_user, insert_user;
  repeat case_match; intros; simplify_eq; by apply settled_insert.

Lemma settled_UpsertDemoUserByEmail uid id e m p d : sound db_lower (settled uid) (sql_UpsertDemoUserByEmail id e m p d).
Proof. seeded. Qed.
Lemma settled_UpsertDemoUserByMobile uid id e m p d : sound db_lower (settled uid) (sql_UpsertDemoUserByMobile id e m p d).
Proof. seeded. Qed.

(** The tokens a statement leaves are those it found, some perhaps revoked. *)
Definition no_new_tokens {A} (q : statement (E:=Envelope) A) : Prop :=
  ∀ s db a db', q s db = inr (a, db') → ∀ rid t', refresh_tokens db' !! rid = Some t' →
    ∃ t, refresh_tokens db !! rid = Some t ∧ rr_user_id t' = rr_user_id t.

Lemma alone_no_new {A} (q : statement (E:=Envelope) A) : refresh_alone q → no_new_tokens q.
Proof. intros Hq s db a db' E rid t' Ht. rewrite (Hq _ _ _ _ E) in Ht. by exists t'. Qed.

Lemma Revoke_no_new h : no_new_tokens (sql_RevokeRefreshToken h).
Proof.
  intros s db a db' [= _ <-] rid t'. simpl. rewrite lookup_update_where. destruct (_ !! rid) as [t|]; [|done].
  intros [= <-]. exists t. split; [done|]. by destruct (String.eqb _ h).
Qed.

Lemma verified_sound {A} (q : statement (E:=Envelope) A) :
  (∀ uid, sound db_lower (settled uid) q) → no_new_tokens q → sound db_lower sessions_verified q.
Proof.
  intros Hs Hn s db a db' Hl Hv E rid t' Ht. destruct (Hn _ _ _ _ E rid t' Ht) as (t & Hr & ->).
  eapply Hs; [exact Hl|by eapply Hv|exact E].
Qed.

(** ** Store methods *)

Hint Resolve stands_CreateSignupUser stands_CreateUserWithEmail stands_CreateUserWithMobile stands_Purge stands_Reissue
  stands_UpdateLastLogin stands_VerifySignupUser stands_ConsumeChallenge stands_DeleteChallenges stands_DeleteExpired
  stands_Increment stands_UpsertChallenge stands_RevokeRefresh stands_StoreRefresh stands_CreateAPIToken
  stands_RevokeAPIToken stands_AddMembership stands_CreateOrganization stands_DeleteEmpty stands_DeleteMembership
  stands_UpdateMembership stands_AcceptInvite stands_AddActive stands_CreateInvite stands_RevokeInvite stands_RevokePending
  stands_InsertOutbox settled_UpsertDemoUserByEmail settled_UpsertDemoUserByMobile Revoke_no_new : sql.
Hint Extern 3 (sound _ (settled _) _) => apply settled_stands; intros : sql.
Hint Extern 3 (no_new_tokens _) => apply alone_no_new; other_table : sql.
Hint Extern 3 (sound _ sessions_verified _) => apply verified_sound; [intros ?|] : sql.

Lemma settled_emitEvents uid events : Steps (keeping (settled uid)) (emitEvents Emit events).
Proof. apply keeping_emitEvents. apply keeping_Emit. auto with sql. Qed.
Lemma verified_emitEvents events : Steps (keeping sessions_verified) (emitEvents Emit events).
Proof. apply keeping_emitEvents. apply keeping_Emit. intros. apply verified_sound; auto with sql. Qed.
Hint Resolve settled_emitEvents verified_emitEvents : effects.

Ltac store_methods :=
  unfold run_call, discard;
  unfold UpsertChallenge, GetLatestChallenge, IncrementAttempts, ConsumeChallenge, DeleteExpiredChallenges,
    FindOrCreateByEmail, FindOrCreateByMobile, FindByEmail, findByEmail, FindByMobile, findByMobile, FindByID, UpdateLastLogin,
    UpsertDemoUser, Store_, FindValid, Revoke, Create, ListByUser, RevokeToken, FindByPrefix, CreateOrg, GetOrg, ListOrgsForUser,
    ListMembers, AddMember, UpdateMemberStatus, RemoveMember, GetMembership, CreateSignupUser, ReissuePendingSignup,
    rotateChallenge, acceptForPending, VerifySignup, PurgeUnverifiedSignups, CreateInvite, FindInviteByTokenHash,
    ListInvites, RevokeInvite, AcceptInvite, ListFeatureFlags, membershipIDs, inviteIDs, not_found.

(** Every method keeps an account settled. *)
Lemma run_call_settled uid c : Steps (keeping (settled uid)) (run_call c).
Proof. destruct c; store_methods; walk. Qed.

(** Every method but the one that stores a refresh token keeps the accounts of the tokens. *)
Lemma run_call_verified c : issue_call c = false → Steps (keeping sessions_verified) (run_call c).
Proof. destruct c; try done; intros _; store_methods; walk. Qed.
End settled.

(** ** Use cases *)

Section sessions.
Context `{V : Env} `{UC : UnicodeCase} `{!EnvLaws V} `{!UUIDLaws L}.
Context (flags : Flags) (signer : TokenSigner) `{!Outside flags signer} (rfc3339 : time → string) (cfg : Config).

Abbreviation svc := (wired flags signer rfc3339 cfg).

(** A token added for a settled account. *)
Lemma verified_issued db db1 db' uid oid token :
  sessions_verified db → (∀ rid t', refresh_tokens db1 !! rid = Some t' →
    ∃ t, refresh_tokens db !! rid = Some t ∧ rr_user_id t' = rr_user_id t) →
  (∀ u, settled u db → settled u db') → issued db1 db' uid oid token → settled uid db' → sessions_verified db'.
Proof.
  intros Hv Hold Hset (rid & now & ex & _ & ->) Huid k t. simpl. rewrite lookup_insert_Some. intros [[<- <-]|[_ Hk]]; [done|].
  destruct (Hold k t Hk) as (t0 & H0 & ->). by eapply Hset, Hv.
Qed.

Lemma after_revoke_tokens hash n db rid t' :
  refresh_tokens (after_revoke hash n db) !! rid = Some t' →
  ∃ t, refresh_tokens db !! rid = Some t ∧ rr_user_id t' = rr_user_id t.
Proof.
  unfold after_revoke. destruct (db_fault n); [by eauto|].
  by apply (Revoke_no_new hash (mkServer (db_now n) (db_order n) db_lower) db ()).
Qed.

Lemma status_settled r : ur_status r ≠ UserSignupPending → pending_row r = false.
Proof. intros Hs. unfold pending_row. by rewrite (proj2 (String.eqb_neq _ _) Hs). Qed.

Lemma run_use_settled c w uid : w_tx w = None → settled uid (w_db w) → settled uid (w_db (run_use svc c w).2).
Proof.
  intros Ht Hs. apply keeping_db; [|done..].
  apply (run_use_keeping _ true true); [intros; apply run_call_settled|done|apply implb_true_r..].
Qed.

(** A use case that succeeded in giving out tokens gave them to a settled account. *)
Lemma issued_verified {A} (m : M A) c w a w' db1 uid oid token :
  run_use svc c = discard m → m w = (Ret a, w') → w_tx w = None → sessions_verified (w_db w) →
  issued db1 (w_db w') uid oid token →
  (∀ rid t', refresh_tokens db1 !! rid = Some t' → ∃ t, refresh_tokens (w_db w) !! rid = Some t ∧ rr_user_id t' = rr_user_id t) →
  settled uid (w_db w) ∨ settled uid (w_db w') → sessions_verified (w_db w').
Proof.
  intros Hc E Ht Hv Hi Hold Huid.
  assert (∀ u, settled u (w_db w) → settled u (w_db w')) as Hset.
  { intros u Hu. pose proof (run_use_settled c w u Ht Hu) as H. by rewrite Hc, discard_world, E in H. }
  eapply verified_issued; [exact Hv|exact Hold|exact Hset|exact Hi|]. destruct Huid as [Hu|Hu]; [by apply Hset|exact Hu].
Qed.

(** When a use case fails, it has stored no token. *)
Lemma failed_verified {A} (m : M A) c w :
  run_use svc c = discard m → issuing_use c = true → failed (m w).1 → w_tx w = None → sessions_verified (w_db w) →
  sessions_verified (w_db (m w).2).
Proof.
  intros Hc Hi Hf Ht Hv.
  assert (fails_steps (keeping sessions_verified) (run_use svc c)) as Hk.
  { refine (run_use_fails _ (still_keeping _) true false _ flags signer rfc3339 cfg c Hi).
    intros c' _ Hc'. apply run_call_verified. by destruct (issue_call c'). }
  specialize (Hk w). rewrite Hc, discard_world in Hk. apply Hk; [|split; [done|by rewrite Ht]].
  unfold discard, bind. by destruct (m w) as [[]?].
Qed.

Lemma run_use_verified c w :
  w_tx w = None → sessions_verified (w_db w) → sessions_verified (w_db (run_use svc c w).2).
Proof.
  intros Ht Hv. destruct (issuing_use c) eqn:Hi.
  2: { apply keeping_db; [|done..]. apply (run_use_keeping _ true false); [|done|apply implb_true_r|by rewrite Hi].
       intros c' _ Hc'. apply run_call_verified. by destruct (issue_call c'). }
  pose proof (λ (m : M Tokens) Hc Hf, failed_verified m c w Hc Hi Hf Ht Hv) as Hfail.
  destruct c as [|i ch code|token|u token o|i p| | | | | | | | | | | | | | | | | |e code p|]; try done;
    cbn [run_use]; rewrite discard_world;
    match goal with |- sessions_verified (w_db (?m w).2) =>
      destruct (m w) as [[a|err|msg] w'] eqn:E;
        [|specialize (Hfail m eq_refl); rewrite E in Hfail; by apply Hfail..] end;
    clear Hfail; simpl; destruct w as [db tx n sent]; simpl in Ht, Hv; subst tx.
  - destruct (returns_VerifyOTP flags signer rfc3339 cfg i ch code db n sent _ _ E)
      as [_ (id & r & uid & row & oid & _ & _ & _ & _ & _ & Hu & _ & Hst & db1 & Hiss & Hdb1)].
    eapply (issued_verified _ (UseVerifyOTP i ch code)); [done|exact E|done|done|exact Hiss|by rewrite Hdb1; eauto|].
    right. exists row. split; [done|by apply status_settled].
  - destruct (returns_Refresh flags signer rfc3339 cfg token db n sent _ _ E) as [_ (rid & r & oid & Hr & _ & _ & Hiss & _)].
    eapply (issued_verified _ (UseRefresh token)); [done|exact E|done|done|exact Hiss|apply after_revoke_tokens|].
    left. by eapply Hv.
  - destruct (returns_SelectOrg flags signer rfc3339 cfg u token o db n sent _ _ E) as [_ (rid & r & org & Hr & _ & _ & _ & _ & Hiss & _)].
    eapply (issued_verified _ (UseSelectOrg u token o)); [done|exact E|done|done|exact Hiss|apply after_revoke_tokens|].
    left. by eapply Hv.
  - destruct (returns_LoginWithPassword flags signer rfc3339 cfg i p db n sent _ _ E)
      as [_ (uid & r & h & oid & Hu & _ & Hst & _ & _ & _ & db1 & Hrec & Hiss)].
    eapply (issued_verified _ (UseLoginWithPassword i p)); [done|exact E|done|done|exact Hiss| |].
    + destruct Hrec as [->|[t ->]]; eauto.
    + left. exists r. split; [done|by apply status_settled].
  - destruct (returns_VerifySignup flags signer rfc3339 cfg e code p db n sent _ _ E)
      as (_ & _ & id & r & m & uid & row & h & oid & t & _ & _ & _ & _ & _ & _ & _ & _ & _ & Hiss).
    eapply (issued_verified _ (UseVerifySignup e code p)); [done|exact E|done|done|exact Hiss|by eauto|].
    right. destruct Hiss as (rid & now & ex & _ & ->). eexists. simpl. by rewrite lookup_insert_eq.
Qed.

(** C1: no session before verification.  Whatever use cases callers run, in whatever
    order and with whatever arguments, and whichever dependencies fail on the way, every
    refresh token belongs to an account that exists and is not a pending sign-up, if it
    was so at the start: the code, the password, the refresh and the selection of an
    organization sign nobody in whose address has not been verified. *)
Theorem no_session_before_verification (cs : list service_call) (w : World) :
  w_tx w = None → sessions_verified (w_db w) → sessions_verified (w_db (run_uses svc cs w).2).
Proof.
  revert w. induction cs as [|c cs IH]; intros w Ht Hv; [done|]. cbn [run_uses]. unfold bind, try.
  pose proof (run_use_verified c w Ht Hv) as Hv'. pose proof (run_use_unlocked flags signer rfc3339 cfg c w Ht) as Ht'.
  by destruct (run_use svc c w) as [[]?]; [apply IH..|].
Qed.
End sessions.

(** ** Example: the code of a sign-up signs nobody in, its completion does *)

#[local] Existing Instance bits_uuid.
#[local] Existing Instance bits_uuid_laws.
#[local] Existing Instance calm_env.
#[local] Existing Instance calm_laws.
#[local] Existing Instance ascii_case.

Definition shortcut : list service_call := [UseVerifyOTP "new@b.c" "email" "000032"].
Definition proper : list service_call := [UseVerifySignup "new@b.c" "000032" "secret"].

Example shortcut_refused :
  size (refresh_tokens (w_db (world_after_uses shortcut registered))) = 0%nat ∧
  size (refresh_tokens (w_db (world_after_uses proper registered))) = 1%nat.
Proof. split; vm_compute; reflexivity. Qed.

Lemma no_session_before_verification_witness :
  sessions_verified (w_db (run_uses (wired demo_flags demo_signer (λ _, "") demo_cfg) proper registered).2).
Proof.
  apply (no_session_before_verification demo_flags demo_signer (λ _, "") demo_cfg).
  - vm_compute. reflexivity.
  - assert (refresh_tokens (w_db registered) = ∅) as E by (vm_compute; reflexivity).
    intros rid t H. rewrite E in H. discriminate H.
Defined.
