(* ===== verification/GrpcProps.v ===== *)
(** The gRPC surface: who the caller is, which calls a non-member can make, and
    what a failing call answers. *)
From S2P Require Import Prelude GoStrings Domain Libs Tenancy Tables Database DatabaseProps World Effects Demo Ports.
From S2P Require Import Postgres PostgresProps Exec Returns OrgSpec Scenario Service Adapters ServiceInv AuthFlows Sessions.
From S2P Require Import Token Grpc.
Local Open Scope Z_scope.
Local Open Scope orbit_scope.

(** A call of OrgService or SignupService. *)
Inductive org_rpc :=
  | RpcListMembers (orgID : string)
  | RpcAddMember (orgID userID : string)
  | RpcRemoveMember (orgID userID : string)
  | RpcSuspendMember (orgID userID : string)
  | RpcInviteMember (orgID email : string)
  | RpcRevokeInvite (orgID inviteID : string)
  | RpcListInvites (orgID : string)
  | RpcSelectOrg (orgID refreshToken : string).

Inductive any_rpc :=
  | RpcGated (c : org_rpc)
  | RpcCreateOrg (name : string)
  | RpcListMyOrgs
  | RpcAcceptInvite (token : string)
  | RpcRegisterWithEmail (email password displayName locale orgName inviteToken : string)
  | RpcVerifySignup (email code password : string).

Section rpc.
Context `{V : Env} `{UC : UnicodeCase} `{J : JWTLib} (rfc3339 : time → string) (s : Service).

Definition done_ {A} (m : RPC A) : RPC unit := andThen m (λ _, respond ()).

(** The organization a call is about. *)
Definition rpc_org (c : org_rpc) : string :=
  match c with
  | RpcListMembers o | RpcAddMember o _ | RpcRemoveMember o _ | RpcSuspendMember o _ | RpcInviteMember o _
  | RpcRevokeInvite o _ | RpcListInvites o | RpcSelectOrg o _ => o
  end.

Definition run_gated (ctx : Ctx) (c : org_rpc) : RPC unit :=
  match c with
  | RpcListMembers o => done_ (OrgServer_ListMembers rfc3339 s ctx o)
  | RpcAddMember o u => OrgServer_AddMember s ctx o u
  | RpcRemoveMember o u => OrgServer_RemoveMember s ctx o u
  | RpcSuspendMember o u => OrgServer_SuspendMember s ctx o u
  | RpcInviteMember o e => done_ (OrgServer_InviteMember rfc3339 s ctx o e)
  | RpcRevokeInvite o i => OrgServer_RevokeInvite s ctx o i
  | RpcListInvites o => done_ (OrgServer_ListInvites rfc3339 s ctx o)
  | RpcSelectOrg o t => done_ (OrgServer_SelectOrg rfc3339 s ctx o t)
  end.

Definition run_rpc (ctx : Ctx) (c : any_rpc) : RPC unit :=
  match c with
  | RpcGated c => run_gated ctx c
  | RpcCreateOrg n => done_ (OrgServer_CreateOrg rfc3339 s ctx n)
  | RpcListMyOrgs => done_ (OrgServer_ListMyOrgs rfc3339 s ctx)
  | RpcAcceptInvite t => done_ (OrgServer_AcceptInvite rfc3339 s ctx t)
  | RpcRegisterWithEmail e p d l o i => SignupServer_RegisterWithEmail s e p d l o i
  | RpcVerifySignup e c p => done_ (SignupServer_VerifySignup rfc3339 s e c p)
  end.

(** ** Errors *)

(** A status with a classified code; an internal error says nothing more. *)
Definition classified (e : rpc_error) : Prop :=
  ∃ code msg, e = Status code msg ∧ (code = Internal → msg = Text "internal error").

(** A handler that answers, or panics, and whose errors are classified. *)
Definition tidy {A} (m : RPC A) : Prop :=
  ∀ w, match (m w).1 with
       | Ret (inl e) => classified e
       | Ret (inr _) => True
       | Fail _ => False
       | Panic _ => True
       end.

Lemma tidy_respond {A} (a : A) : tidy (respond a).
Proof. by intros w. Qed.

Lemma tidy_reject {A} e : classified e → tidy (reject (A:=A) e).
Proof. by intros H w. Qed.

Lemma tidy_andThen {A B} (m : RPC A) (k : A → RPC B) : tidy m → (∀ a, tidy (k a)) → tidy (andThen m k).
Proof.
  intros Hm Hk w. specialize (Hm w). unfold andThen, bind. destruct (m w) as [[[e|a]|e|p] w']; simpl in *; [done| |done|done].
  apply Hk.
Qed.

Lemma tidy_calling {A} f (m : M A) : (∀ e, classified (f e)) → tidy (calling f m).
Proof. intros Hf w. unfold calling, bind, try. destruct (m w) as [[a|e|p] w']; simpl; [done|apply Hf|done]. Qed.

Lemma classified_text code t : code ≠ Internal → classified (Status code t).
Proof. intros H. by exists code, t. Qed.

Lemma classified_orgError e : classified (orgError e).
Proof. unfold orgError, classified. repeat case_match; eexists _, _; done. Qed.

Lemma classified_signupError e : classified (signupError e).
Proof. unfold signupError, classified. repeat case_match; eexists _, _; done. Qed.

Lemma tidy_caller ctx : tidy (caller ctx).
Proof. unfold caller. destruct (callerIDFromContext ctx); [apply tidy_respond|by apply tidy_reject, classified_text]. Qed.

Lemma tidy_requireActiveMember ctx o us : tidy (requireActiveMember s ctx o us).
Proof.
  unfold requireActiveMember. apply tidy_andThen; [apply tidy_caller|]. intros callerID. cbv zeta.
  destruct (negb _); [by apply tidy_reject, classified_text|]. apply tidy_andThen.
  - destruct us; [apply tidy_respond|]. destruct (negb _); [by apply tidy_reject, classified_text|apply tidy_respond].
  - intros userID. apply tidy_andThen; [apply tidy_calling, classified_orgError|]. intros active.
    destruct (negb _); [by apply tidy_reject, classified_text|apply tidy_respond].
Qed.

Ltac tidy_walk :=
  repeat first
    [ apply tidy_requireActiveMember | apply tidy_caller | apply tidy_respond
    | apply tidy_calling; intros ?; first [apply classified_orgError | apply classified_signupError | idtac]
    | apply tidy_andThen; [|intros ?]
    | progress cbv zeta
    | match goal with
      | |- tidy (match ?x with _ => _ end) => destruct x
      | |- tidy (reject _) => by apply tidy_reject, classified_text
      end ].

(** Every call of OrgService and SignupService that fails answers a gRPC
    status; one with the code Internal carries a fixed text, so no database or
    library error reaches the caller through it. *)
Theorem rpc_errors_classified ctx c : tidy (run_rpc ctx c).
Proof.
  destruct c as [[]| | | | |]; unfold run_rpc, run_gated, done_, OrgServer_ListMembers, OrgServer_AddMember,
    OrgServer_RemoveMember, OrgServer_SuspendMember, OrgServer_InviteMember, OrgServer_RevokeInvite, OrgServer_ListInvites,
    OrgServer_SelectOrg, OrgServer_CreateOrg, OrgServer_ListMyOrgs, OrgServer_AcceptInvite, SignupServer_RegisterWithEmail,
    SignupServer_VerifySignup; tidy_walk.
  - destruct (errors_Is _ ErrInvalidRefresh); [by apply classified_text|apply classified_orgError].
  - destruct (errors_Is _ ErrSignupDisabled); [by apply classified_text|]. destruct (_ || _); [by apply classified_text|].
    by eexists _, _.
Qed.
End rpc.

(** ** Who calls *)

Section authentication.
Context `{V : Env} `{UC : UnicodeCase} `{J : JWTLib}.

(** C31: a call of OrgService reaches its handler only with a bearer token that
    verifies at the time the call reads, and the caller the handler sees is the subject of that token,
    whatever the request says; every other call is answered Unauthenticated and
    touches no table. *)
Theorem interceptor_authenticates {R A} (keys : KeySet) ctx md (req : R) FullMethod (handler : Ctx → R → RPC A) w :
  HasPrefix FullMethod "/auth.v1.OrgService/" = true →
  let out := AccessTokenUnaryServerInterceptor keys ctx md req FullMethod handler w in
  (∃ raw claims w1, bearerToken md = inr raw ∧ ParseAccessToken (go_now (w_tick w)) raw keys = inr claims ∧
     callerIDFromContext (withCallerID ctx (Subject claims)) = Some (TrimSpace (Subject claims)) ∧
     out = handler (withCallerID ctx (Subject claims)) req w1 ∧ w_db w1 = w_db w ∧ w_tx w1 = w_tx w) ∨
  (∃ msg, out.1 = Ret (inl (Status Unauthenticated msg)) ∧ w_db out.2 = w_db w ∧ w_sent out.2 = w_sent w).
Proof.
  intros Hp. cbv zeta. unfold AccessTokenUnaryServerInterceptor. rewrite Hp. cbn [negb].
  destruct (bearerToken md) as [e|raw] eqn:Eb; [right; by eexists|].
  unfold bind, Now, bind, tick, ret. destruct (ParseAccessToken (go_now (w_tick w)) raw keys) as [e|claims] eqn:Ep.
  - right. by eexists.
  - left. exists raw, claims. eexists. split_and!; [done|exact Ep| |reflexivity|done|done].
    apply ParseAccessToken_inv in Ep as (_ & _ & _ & _ & _ & Hs).
    unfold callerIDFromContext, withCallerID. simpl. by rewrite (proj2 (String.eqb_neq _ _) Hs).
Qed.
End authentication.

(** ** Membership gates *)

Section gates.
Context `{V : Env} `{UC : UnicodeCase} `{J : JWTLib} `{!EnvLaws V} `{!UUIDLaws L}.
Context (flags : Flags) (signer : TokenSigner) (fmt : time → string) (rfc3339 : time → string) (cfg : Config).

Abbreviation svc := (wired flags signer rfc3339 cfg).

(** The caller is an active member of the organization named in the request. *)
Definition caller_is_member (db : DB Envelope) (ctx : Ctx) (orgID : string) : Prop :=
  ∃ callerID org user, callerIDFromContext ctx = Some callerID ∧ uuid_Parse (TrimSpace orgID) = Some org ∧
    uuid_Parse callerID = Some user ∧ member db org user.

(** A call that was turned away left everything as it was. *)
Definition turned_away {A} (out : outcome (rpc_error + A) * World) (w : World) : Prop :=
  (∃ e, out.1 = Ret (inl e)) ∧ w_db out.2 = w_db w ∧ w_sent out.2 = w_sent w.

Lemma callerID_trimmed ctx callerID : callerIDFromContext ctx = Some callerID → TrimSpace callerID = callerID.
Proof.
  unfold callerIDFromContext. destruct (ctx_callerID ctx); [|done]. cbv zeta. destruct (String.eqb _ _); [done|].
  intros [= <-]. apply TrimSpace_idemp.
Qed.

(** Code that does not panic. *)
Definition no_panic {A} (m : M A) : Prop := ∀ w p, (m w).1 ≠ Panic p.

Lemma no_panic_bind {A B} (m : M A) (k : A → M B) : no_panic m → (∀ a, no_panic (k a)) → no_panic (bind m k).
Proof.
  intros Hm Hk w p. specialize (Hm w). unfold bind. destruct (m w) as [[a|e|q] w']; simpl in *; [apply Hk|done|].
  intros _. by apply (Hm q).
Qed.
Lemma no_panic_try {A} (m : M A) : no_panic m → no_panic (try m).
Proof. intros Hm w p. specialize (Hm w). unfold try. destruct (m w) as [[a|e|q] w']; simpl in *; [done|done|].
  intros _. by apply (Hm q). Qed.
Lemma no_panic_query {A} h (q : statement A) : no_panic (run_query h q).
Proof. intros w p. unfold run_query. destruct (db_fault _); [done|]. destruct h; [by destruct (q _ _) as [|[??]]|].
  destruct (w_tx w) as [[??]|]; [|done]. by destruct (q _ _) as [|[??]]. Qed.
Lemma no_panic_parseID f x : no_panic (parseID f x).
Proof. intros w p. unfold parseID, wrap, Parse, of_sum. by destruct (uuid_Parse x). Qed.

Lemma no_panic_IsActiveMember o u : no_panic (IsActiveMember svc o u).
Proof.
  unfold IsActiveMember. cbv zeta. destruct (_ || _); [by intros w p|]. cbn [s_orgs wired on pg_orgs os_GetMembership].
  apply no_panic_bind; [apply no_panic_try|intros [e|m]; [destruct (errors_Is _ _)|]; by intros w p].
  apply no_panic_bind.
  - apply no_panic_bind; [apply no_panic_parseID|]. intros org. apply no_panic_bind; [apply no_panic_parseID|]. by intros user w p.
  - intros [org user]. apply no_panic_bind; [apply no_panic_try, no_panic_query|].
    intros [e|m]; [destruct (errors_Is _ _)|]; by intros w p.
Qed.

(** The membership question answers without a write or a panic. *)
Lemma calling_IsActiveMember o u db n sent :
  ∃ r n', calling orgError (IsActiveMember svc o u) (mkWorld db None n sent) = (Ret r, mkWorld db None n' sent) ∧
    (r = inr true → ∃ org user, uuid_Parse (TrimSpace o) = Some org ∧ uuid_Parse (TrimSpace u) = Some user ∧ member db org user).
Proof.
  destruct (IsActiveMember svc o u (mkWorld db None n sent)) as [res w'] eqn:E.
  destruct (quiet_world _ _ _ _ _ _ (uncommitted_IsActiveMember flags signer rfc3339 cfg o u)
    (closes_IsActiveMember flags signer rfc3339 cfg o u) E) as [n' ->].
  unfold calling, bind, try. rewrite E. destruct res as [b|e|p].
  - exists (inr b), n'. split; [done|]. intros [= ->].
    pose proof (returns_IsActiveMember flags signer rfc3339 cfg o u db n sent
      (λ b w', b = true → ∃ org user, uuid_Parse (TrimSpace o) = Some org ∧ uuid_Parse (TrimSpace u) = Some user ∧ member db org user))
      as Hr. eapply Hr; [by intros b n1 Hb Ht; destruct (Hb Ht)|exact E|done].
  - by exists (inl (orgError e)), n'.
  - destruct (no_panic_IsActiveMember o u (mkWorld db None n sent) p). by rewrite E.
Qed.

Lemma andThen_respond {A B} (a : A) (k : A → RPC B) w : andThen (respond a) k w = k a w.
Proof. done. Qed.

(** The gate: it lets members through, and turns the others away. *)
Lemma requireActiveMember_spec ctx o us db n sent :
  let out := requireActiveMember svc ctx o us (mkWorld db None n sent) in
  (∃ n' u, out = (Ret (inr (TrimSpace o, u)), mkWorld db None n' sent) ∧ caller_is_member db ctx o) ∨
  (∃ n' e, out = (Ret (inl e), mkWorld db None n' sent)).
Proof.
  cbv zeta. unfold requireActiveMember, caller. destruct (callerIDFromContext ctx) as [callerID|] eqn:Ec.
  2: { right. by eexists _, _. }
  rewrite andThen_respond. cbv zeta. destruct (isUUID (TrimSpace o)); cbn [negb].
  2: { right. by eexists _, _. }
  match goal with |- context [andThen ?m _ (mkWorld db None n sent)] =>
    assert ((∃ u, m = respond u) ∨ (∃ e, m = reject e)) as [[u ->]|[e ->]] end.
  { destruct us; [left; eexists; reflexivity|]. cbv zeta.
    destruct (isUUID _); cbn [negb]; [left|right]; eexists; reflexivity. }
  2: { right. by eexists _, _. }
  rewrite andThen_respond.
  unfold andThen, bind. destruct (calling_IsActiveMember (TrimSpace o) callerID db n sent) as (r & n' & -> & Hr).
  destruct r as [e|[]]; cbn [negb]; [right; eexists _, _; reflexivity| |right; eexists _, _; reflexivity].
  left. exists n', u. split; [reflexivity|].
  destruct Hr as (org & user & H1 & H2 & H3); [done|]. rewrite TrimSpace_idemp in H1. rewrite (callerID_trimmed _ _ Ec) in H2.
  by exists callerID, org, user.
Qed.

Lemma gate {A} ctx o us (k : string * string → RPC A) w :
  w_tx w = None →
  caller_is_member (w_db w) ctx o ∨ turned_away (andThen (requireActiveMember svc ctx o us) k w) w.
Proof.
  destruct w as [db tx n sent]. simpl. intros ->. unfold andThen, bind.
  destruct (requireActiveMember_spec ctx o us db n sent) as [(n' & u & -> & H)|(n' & e & ->)]; [by left|right].
  split; [by eexists|done].
Qed.

Lemma turned_away_done {A} (m : RPC A) w : turned_away (m w) w → turned_away (done_ m w) w.
Proof.
  intros ([e He] & Hd & Hs). unfold done_, andThen, bind. destruct (m w) as [r w'] eqn:E. simpl in *. subst r.
  split; [by eexists|done].
Qed.

(** C10: the calls that name an organization (listing members, adding, removing or
    suspending one, inviting, revoking and listing invitations, and selecting it; all but
    creating one, listing the own ones and accepting an invitation) are for active members
    of that organization: any other caller, also for an organization that does
    not exist, is turned away before anything is written or sent. *)
Theorem gated_calls_require_membership ctx c w :
  w_tx w = None →
  caller_is_member (w_db w) ctx (rpc_org c) ∨ turned_away (run_gated fmt svc ctx c w) w.
Proof.
  intros Ht. destruct c; unfold run_gated, rpc_org;
    match goal with
    | |- _ ∨ turned_away (done_ ?m w) w => assert (caller_is_member (w_db w) ctx orgID ∨ turned_away (m w) w) as [|Ha];
        [by apply gate|by left|right; by apply turned_away_done]
    | _ => by apply gate
    end.
Qed.

(** The user a call names, if it names one. *)
Definition rpc_users (c : org_rpc) : list string :=
  match c with
  | RpcAddMember _ u | RpcRemoveMember _ u | RpcSuspendMember _ u => [u]
  | _ => []
  end.

Lemma uuid_Parse_nonempty o org : uuid_Parse o = Some org → o ≠ "".
Proof. intros H ->. by rewrite uuid_Parse_empty in H. Qed.

Lemma IsActiveMember_other o u org user db n sent :
  db_fault n = None → TrimSpace o = o → TrimSpace u = u →
  uuid_Parse o = Some org → uuid_Parse u = Some user → ¬ member db org user →
  IsActiveMember svc o u (mkWorld db None n sent) = (Ret false, mkWorld db None (S n) sent).
Proof.
  intros Hf Ho Hu Hpo Hpu Hm. unfold IsActiveMember. cbv zeta. rewrite Ho, Hu.
  pose proof (uuid_Parse_nonempty _ _ Hpo) as Hne1. pose proof (uuid_Parse_nonempty _ _ Hpu) as Hne2.
  apply String.eqb_neq in Hne1, Hne2. rewrite Hne1, Hne2. cbn [orb s_orgs wired on pg_orgs os_GetMembership].
  unfold GetMembership, membershipIDs, getMembership, bind, try, parseID, wrap, Parse, of_sum. rewrite Hpo, Hpu. simpl.
  unfold run_query. simpl. rewrite Hf. unfold sql_GetOrganizationMembership.
  destruct (organization_memberships db !! (org, user)) as [m|] eqn:E; [|done]. simpl.
  rewrite bool_decide_eq_false_2; [done|]. intros Ha. destruct Hm. by exists m.
Qed.

(** To an authenticated caller who is not an active member, an organization
    that exists and one that does not look the same: every gated call with
    well-formed identifiers answers that the organization was not found. *)
Theorem non_member_sees_not_found ctx c w callerID org user :
  (∀ n, db_fault n = None) → w_tx w = None →
  callerIDFromContext ctx = Some callerID → uuid_Parse callerID = Some user →
  uuid_Parse (TrimSpace (rpc_org c)) = Some org → Forall (λ u, is_Some (uuid_Parse (TrimSpace u))) (rpc_users c) →
  ¬ member (w_db w) org user →
  (run_gated fmt svc ctx c w).1 = Ret (inl (Status NotFound (Text "organization not found"))).
Proof.
  destruct w as [db tx n sent]. simpl. intros Hf -> Hc Hu Ho Hus Hm.
  assert (∀ us, Forall (λ u, is_Some (uuid_Parse (TrimSpace u))) us →
    requireActiveMember svc ctx (rpc_org c) us (mkWorld db None n sent) =
    (Ret (inl (Status NotFound (Text "organization not found"))), mkWorld db None (S n) sent)) as Hreq.
  { intros us Hall. unfold requireActiveMember, caller. rewrite Hc, andThen_respond. cbv zeta.
    unfold isUUID at 1. rewrite bool_decide_eq_true_2 by (by rewrite Ho). cbn [negb].
    match goal with |- context [andThen ?m _ (mkWorld db None n sent)] => assert (∃ u, m = respond u) as [u ->] end.
    { destruct Hall as [|u us Hparse _]; [eexists; reflexivity|]. cbv zeta. unfold isUUID.
      rewrite bool_decide_eq_true_2 by done. eexists. reflexivity. }
    rewrite andThen_respond. unfold andThen, bind, calling, bind, try.
    rewrite (IsActiveMember_other _ _ org user); [done|done|apply TrimSpace_idemp|by eapply callerID_trimmed|done..]. }
  destruct c; unfold run_gated, done_, OrgServer_ListMembers, OrgServer_AddMember, OrgServer_RemoveMember,
    OrgServer_SuspendMember, OrgServer_InviteMember, OrgServer_RevokeInvite, OrgServer_ListInvites, OrgServer_SelectOrg;
    unfold andThen, bind; cbn [rpc_org rpc_users] in *; by rewrite Hreq.
Qed.
End gates.

(** ** Examples *)

#[local] Existing Instance bits_uuid.
#[local] Existing Instance bits_uuid_laws.
#[local] Existing Instance calm_env.
#[local] Existing Instance calm_laws.
#[local] Existing Instance ascii_case.
#[local] Existing Instance demo_jwt.
#[local] Existing Instance demo_jwt_laws.

Definition as_user (id : string) : Ctx := mkCtx None (Some id).

Lemma interceptor_authenticates_witness :
  let out := AccessTokenUnaryServerInterceptor (A:=unit) demo_keys (mkCtx None None) None () "/auth.v1.OrgService/CreateOrg"
    (λ ctx _, respond ()) (start empty_db) in
  (∃ msg, out.1 = Ret (inl (Status Unauthenticated msg))).
Proof.
  destruct (interceptor_authenticates demo_keys (mkCtx None None) None () "/auth.v1.OrgService/CreateOrg"
    (λ ctx _, respond ()) (start empty_db)) as [(raw & claims & w1 & H & _)|(msg & H & _)];
    [vm_compute; reflexivity|discriminate H|].
  exists msg. exact H.
Defined.

(** The second account is not in the organization of the first. *)
Definition one_member_world : World := world_after (two_users ++ [CallCreateOrg orbit alice]).
Lemma one_member_world_ready : ready one_member_world.
Proof. apply world_after_ready. Qed.

Lemma gated_calls_require_membership_witness :
  caller_is_member (w_db one_member_world) (as_user bob) (o_ID orbit) ∨
  turned_away (run_gated (λ _, "") demo_svc (as_user bob) (RpcListMembers (o_ID orbit)) one_member_world) one_member_world.
Proof.
  exact (gated_calls_require_membership demo_flags demo_signer (λ _, "") (λ _, "") demo_cfg (as_user bob)
    (RpcListMembers (o_ID orbit)) one_member_world (proj1 one_member_world_ready)).
Defined.

Lemma non_member_sees_not_found_witness :
  (run_gated (λ _, "") demo_svc (as_user bob) (RpcListMembers (o_ID orbit)) one_member_world).1 =
  Ret (inl (Status NotFound (Text "organization not found"))).
Proof.
  assert (organization_memberships (w_db one_member_world) !! (demo_id 100, demo_id 9) = None) as Hn by (vm_compute; reflexivity).
  apply (non_member_sees_not_found demo_flags demo_signer (λ _, "") (λ _, "") demo_cfg (as_user bob)
    (RpcListMembers (o_ID orbit)) one_member_world bob (demo_id 100) (demo_id 9) (λ _, eq_refl)
    (proj1 one_member_world_ready)); [vm_compute; reflexivity..|apply Forall_nil_2|].
  intros (m & Hm & _). rewrite Hn in Hm. discriminate Hm.
Defined.
