(* ===== verification/ApiTokens.v ===== *)
(** API tokens: the text of a token, what validation accepts, and that a created
    token validates until it expires or is revoked. *)
From S2P Require Import Prelude GoStrings Encodings Domain Libs Tables Database DatabaseProps World Effects Demo Ports.
From S2P Require Import Postgres PostgresProps Exec Returns OrgSpec Scenario Service Adapters ServiceInv AuthFlows.
Local Open Scope Z_scope.
Local Open Scope orbit_scope.

(** ** The text *)

Definition token_text (raw : string) : string :=
  APITokenScheme +:+ slice_to APITokenPrefixLength raw +:+ "." +:+ slice_from APITokenPrefixLength raw.

Lemma base64url_plain a : base64url a = true → plain_byte a = true.
Proof. by destruct a as [[] [] [] [] [] [] [] []]. Qed.

Lemma base64url_dot a : base64url a = true → a ≠ "."%char.
Proof. by intros H ->. Qed.

Lemma forallb_take_drop {A} (f : A → bool) n l :
  forallb f l = true → forallb f (take n l) = true ∧ forallb f (drop n l) = true.
Proof. intros H. rewrite <- (take_drop n l), forallb_app in H. by apply andb_true_iff in H. Qed.

Lemma forallb_plain l : forallb base64url l = true → forallb plain_byte l = true.
Proof. rewrite !forallb_iff. eauto using base64url_plain. Qed.

Lemma token_text_parses raw :
  len raw = 43%nat → forallb base64url (to_bytes raw) = true →
  SplitN2 "." (TrimPrefix (TrimSpace (token_text raw)) APITokenScheme) =
    [slice_to APITokenPrefixLength raw; slice_from APITokenPrefixLength raw] ∧
  len (slice_to APITokenPrefixLength raw) = APITokenPrefixLength ∧
  slice_from APITokenPrefixLength raw ≠ "".
Proof.
  intros Hl Hb. destruct (forallb_take_drop _ APITokenPrefixLength _ Hb) as [H1 H2].
  assert (forallb plain_byte (to_bytes (token_text raw)) = true) as Hp.
  { unfold token_text, slice_to, slice_from. rewrite !to_bytes_app, !to_of_bytes, !forallb_app.
    rewrite (forallb_plain _ H1), (forallb_plain _ H2). reflexivity. }
  rewrite TrimSpace_plain by done. unfold token_text. rewrite TrimPrefix_app. split_and!.
  - unfold SplitN2. change ("." +:+ slice_from APITokenPrefixLength raw) with (String "." (slice_from APITokenPrefixLength raw)).
    rewrite cut_app; [done|].
    unfold slice_to. rewrite to_of_bytes. intros Hin. rewrite forallb_iff in H1.
    by apply (base64url_dot "."%char); [apply H1|].
  - apply len_slice_to. unfold APITokenPrefixLength. lia.
  - intros E. apply (f_equal len) in E. unfold len, slice_from in E. rewrite to_of_bytes, length_drop in E.
    unfold len in Hl. unfold APITokenPrefixLength in E. cbn in E. lia.
Qed.

Section tokens.
Context `{V : Env} `{UC : UnicodeCase} `{!EnvLaws V} `{!UUIDLaws L}.
Context (flags : Flags) (signer : TokenSigner) (rfc3339 : time → string) (cfg : Config).

Abbreviation svc := (wired flags signer rfc3339 cfg).

(** The newest token with a prefix among those not revoked. *)
Lemma sql_FindAPITokenByPrefix_spec n t prefix (db : DB Envelope) tok db' :
  sql_FindAPITokenByPrefix prefix (mkServer t (db_order n) db_lower) db = inr (tok, db') →
  db' = db ∧ ∃ id r, api_tokens db !! id = Some r ∧ ar_prefix r = prefix ∧ ar_revoked_at r = None ∧
    tok = api_token_columns id r.
Proof.
  unfold sql_FindAPITokenByPrefix. destruct (order_by _ _ _) as [|[id r] l] eqn:E; [done|]. intros [= <- <-].
  split; [done|]. exists id, r.
  apply order_by_head in E as [Hin _]; [|apply newest_total|apply newest_trans].
  apply elem_of_rows_where in Hin as [Hl [Hp%String.eqb_eq Hr%bool_decide_eq_true_1]%andb_true_iff]. done.
Qed.

(** C37: a token is accepted only when a stored token has its first eight
    characters as prefix, is not revoked, has not passed its expiry by the clock the
    call read, and its hash matches the whole secret; the answer is that token's owner
    and scopes, and nothing is written. *)
Theorem ValidateApiToken_sound secret w userID scopes w' :
  w_tx w = None → ValidateApiToken svc secret w = (Ret (userID, scopes), w') →
  w_db w' = w_db w ∧
  ∃ prefix rest id r, cut "." (TrimPrefix (TrimSpace secret) APITokenScheme) = Some (prefix, rest) ∧
    len prefix = APITokenPrefixLength ∧ rest ≠ "" ∧
    api_tokens (w_db w) !! id = Some r ∧ ar_prefix r = prefix ∧ ar_revoked_at r = None ∧
    (∀ e, ar_expires_at r = Some e → go_now (S (w_tick w)) ≤ e) ∧
    bcrypt_Compare (ar_token_hash r) (prefix +:+ rest) = true ∧
    userID = uuid_String (ar_user_id r) ∧ scopes = Some (ar_scopes r).
Proof.
  destruct w as [db tx n sent]. simpl. intros ->. revert userID scopes w'.
  enough (returns (ValidateApiToken svc secret) (mkWorld db None n sent) (λ t w', w_db w' = db ∧
    ∃ prefix rest id r, cut "." (TrimPrefix (TrimSpace secret) APITokenScheme) = Some (prefix, rest) ∧
    len prefix = APITokenPrefixLength ∧ rest ≠ "" ∧
    api_tokens db !! id = Some r ∧ ar_prefix r = prefix ∧ ar_revoked_at r = None ∧
    (∀ e, ar_expires_at r = Some e → go_now (S n) ≤ e) ∧
    bcrypt_Compare (ar_token_hash r) (prefix +:+ rest) = true ∧
    t.1 = uuid_String (ar_user_id r) ∧ t.2 = Some (ar_scopes r))) as Hr.
  { intros userID scopes w' E. by apply (Hr (userID, scopes)). }
  unfold ValidateApiToken. cbv zeta. unfold SplitN2.
  destruct (cut "." _) as [[prefix rest]|]; [|apply returns_fail].
  destruct (_ || _) eqn:Eg; [apply returns_fail|]. bool_hyps. apply Nat.eqb_eq in H.
  apply returns_bind, returns_try; [intros; apply returns_fail|]. simpl. unfold FindByPrefix.
  apply returns_Pool. intros tok db' [-> (id & r & Hl & Hp & Hrev & ->)]%sql_FindAPITokenByPrefix_spec.
  simpl. rewrite Hrev. apply returns_bind.
  assert (∀ n1, (∀ e, ar_expires_at r = Some e → go_now (S n) ≤ e) →
    returns (ok <- ret (bcrypt_Compare (ar_token_hash r) (prefix +:+ rest)) ;;
      if negb ok then fail ErrInvalidToken else ret (uuid_String (ar_user_id r), Some (ar_scopes r)))
      (mkWorld db None n1 sent) (λ t w', w_db w' = db ∧ ∃ prefix0 rest0 id r, Some (prefix, rest) = Some (prefix0, rest0) ∧
      len prefix0 = APITokenPrefixLength ∧ rest0 ≠ "" ∧
      api_tokens db !! id = Some r ∧ ar_prefix r = prefix0 ∧ ar_revoked_at r = None ∧
      (∀ e, ar_expires_at r = Some e → go_now (S n) ≤ e) ∧
      bcrypt_Compare (ar_token_hash r) (prefix0 +:+ rest0) = true ∧
      t.1 = uuid_String (ar_user_id r) ∧ t.2 = Some (ar_scopes r))) as Hend.
  { intros n1 He. apply returns_bind, returns_ret. destruct (bcrypt_Compare _ _) eqn:Ec; [|apply returns_fail].
    apply returns_ret. split; [done|]. exists prefix, rest, id, r. done. }
  destruct (ar_expires_at r) as [e|] eqn:Ee.
  - apply returns_bind, returns_Now, returns_ret. unfold After.
    destruct (Z.ltb_spec e (go_now (S n))); [apply returns_fail|]. apply Hend. by intros e' [= <-].
  - apply returns_ret. by apply Hend.
Qed.

Context `{!CredentialLaws V}.

(** What a created token leaves. *)
Lemma returns_CreateApiToken userID name scopes expiresAt db n sent :
  returns (CreateApiToken svc userID name scopes expiresAt) (mkWorld db None n sent) (λ res w',
    ∃ raw uid tid h t sc, len raw = 43%nat ∧ forallb base64url (to_bytes raw) = true ∧
      uuid_Parse userID = Some uid ∧ bcrypt_Compare h raw = true ∧ scopes = Some sc ∧
      res = (uuid_String tid, slice_to APITokenPrefixLength raw, token_text raw) ∧ api_tokens db !! tid = None ∧
      w_tx w' = None ∧
      w_db w' = set_api_tokens <[tid := mkApiTokenRow uid name (slice_to APITokenPrefixLength raw) h sc expiresAt None t]> db).
Proof.
  unfold CreateApiToken. destruct (_ || _); [apply returns_fail|]. apply returns_bind. simpl.
  intros raw w1 E. pose proof (NewSecret_spec _ _ _ E) as [Hl Hb].
  assert (w1 = mkWorld db None (S n) sent) as ->.
  { unfold NewSecret, bind, tick, of_sum in E. simpl in E. destruct (rand_Read n 32); [done|]. by injection E as <- <-. }
  clear E. revert raw Hl Hb. intros raw Hl Hb. case_bool_decide; [apply returns_panic|].
  apply returns_bind, returns_bind, returns_tick, returns_of_sum. intros h Hh.
  apply returns_bind, returns_bind, returns_NewUUID, returns_ret, returns_bind. unfold Create. simpl.
  apply returns_bind, returns_parseID. intros tid Ht. rewrite uuid_Parse_String in Ht. injection Ht as <-.
  apply returns_bind, returns_parseID. intros uid Hu. apply returns_Pool. intros [] db'. unfold sql_CreateAPIToken, not_null.
  destruct scopes as [sc|]; [|done]. destruct (api_tokens db !! _) eqn:En; [done|].
  destruct (users db !! uid); [|done]. intros [= <-]. apply returns_ret.
  eexists raw, uid, _, h, _, sc. split_and!; [done..|by eapply bcrypt_correct|done|done|exact En|done|reflexivity].
Qed.

(** The only live token with its prefix is found. *)
Lemma sql_FindAPITokenByPrefix_only n t prefix (db : DB Envelope) id r :
  api_tokens db !! id = Some r → live_prefix prefix id r = true →
  (∀ id' r', api_tokens db !! id' = Some r' → live_prefix prefix id' r' = true → id' = id) →
  sql_FindAPITokenByPrefix prefix (mkServer t (db_order n) db_lower) db = inr (api_token_columns id r, db).
Proof.
  intros Hr Hl Hu. unfold sql_FindAPITokenByPrefix. destruct (order_by _ _ _) as [|[id' r'] l] eqn:E.
  - assert ((id, r) ∈ rows_where (live_prefix prefix) (api_tokens db)) as Hin by by apply elem_of_rows_where.
    rewrite <- (order_by_perm n t (λ a b, ar_created_at b.2 <=? ar_created_at a.2)), E in Hin.
    by apply elem_of_nil in Hin.
  - assert ((id', r') ∈ rows_where (live_prefix prefix) (api_tokens db)) as Hin.
    { rewrite <- (order_by_perm n t (λ a b, ar_created_at b.2 <=? ar_created_at a.2)), E. left. }
    apply elem_of_rows_where in Hin as [H1 H2]. pose proof (Hu _ _ H1 H2) as ->. by simplify_eq.
Qed.

Lemma run_Pool_calm {A} (q : statement A) db tx n sent a db' :
  db_fault n = None → q (mkServer (db_now n) (db_order n) db_lower) db = inr (a, db') →
  run_query Pool q (mkWorld db tx n sent) = (Ret a, mkWorld db' tx (S n) sent).
Proof. intros Hf Hq. unfold run_query. simpl. by rewrite Hf, Hq. Qed.

(** C36: a token that was just created validates: its text is accepted and the
    answer is the owner and the scopes it was created with, provided no other
    live token happens to have the same eight-character prefix, its expiry has
    not passed and the database answers. *)
Theorem ApiToken_roundtrip userID name scopes expiresAt w id prefix secret w' :
  (∀ n, db_fault n = None) → w_tx w = None →
  CreateApiToken svc userID name scopes expiresAt w = (Ret (id, prefix, secret), w') →
  (∀ k r, api_tokens (w_db w) !! k = Some r → live_prefix prefix k r = false) →
  (∀ e, expiresAt = Some e → go_now (S (w_tick w')) ≤ e) →
  ∃ uid, uuid_Parse userID = Some uid ∧
    (ValidateApiToken svc secret w').1 = Ret (uuid_String uid, scopes) ∧
    w_db (ValidateApiToken svc secret w').2 = w_db w'.
Proof.
  destruct w as [db tx n sent]. simpl. intros Hf -> E Hfresh Hexp.
  destruct (returns_CreateApiToken _ _ _ _ _ _ _ _ _ E)
    as (raw & uid & tid & h & t & sc & Hl & Hb & Hu & Hc & -> & Hres & Hn & Htx & Hdb). simplify_eq.
  exists uid. split; [done|]. destruct (token_text_parses raw Hl Hb) as (Hs & Hlen & Hne).
  destruct w' as [db' tx' n' sent']. simpl in Htx, Hdb, Hexp. subst tx' db'.
  match goal with |- (?run).1 = _ ∧ w_db _ = ?db' =>
    enough (∃ n2, run = (Ret (uuid_String uid, Some sc), mkWorld db' None n2 sent')) as [n2 ->]; [done|] end.
  unfold ValidateApiToken. cbv zeta. rewrite Hs. apply String.eqb_neq in Hne. rewrite Hlen, Nat.eqb_refl, Hne.
  cbn [negb orb]. unfold bind at 1, try. cbn [s_tokens wired pg_tokens ts_FindByPrefix]. unfold FindByPrefix.
  erewrite run_Pool_calm; [|done|].
  2: { eapply (sql_FindAPITokenByPrefix_only _ _ _ _ tid); simpl; [apply lookup_insert_eq| |].
       - unfold live_prefix. simpl. by rewrite String.eqb_refl.
       - intros k r Hk Hlp. destruct (decide (k = tid)) as [|Hkt]; [done|].
         rewrite lookup_insert_ne in Hk by done. rewrite (Hfresh _ _ Hk) in Hlp. done. }
  cbn [api_token_columns at_RevokedAt at_ExpiresAt at_TokenHash at_UserID at_Scopes ar_revoked_at ar_expires_at ar_token_hash
    ar_user_id ar_scopes].
  rewrite slice_join. unfold bind, Compare. cbn [s_hasher s_clock wired bcryptHasher].
  destruct expiresAt as [e|]; simpl.
  - unfold Now, bind, tick. simpl. unfold After. rewrite (proj2 (Z.ltb_ge _ _) (Hexp e eq_refl)). simpl. rewrite Hc.
    by eexists.
  - rewrite Hc. by eexists.
Qed.

Lemma nil_scopes_reads id uid name prefix h e : readonly (E:=Envelope) (sql_CreateAPIToken id uid name prefix h None e).
Proof. by intros s db a db'. Qed.

Lemma uncommitted_nil_scopes userID name expiresAt : Steps uncommitted (CreateApiToken svc userID name None expiresAt).
Proof.
  pose proof nil_scopes_reads. unfold CreateApiToken. simpl. unfold NewSecret, NewID, Create. walk.
  all: apply uncommitted_parseID.
Qed.

(** Without a scopes slice no token is ever created: the nil slice is stored
    as NULL in a column that refuses it, so the call fails and writes nothing. *)
Theorem CreateApiToken_nil_scopes userID name expiresAt w :
  w_tx w = None →
  failed (CreateApiToken svc userID name None expiresAt w).1 ∧
  w_db (CreateApiToken svc userID name None expiresAt w).2 = w_db w.
Proof.
  intros Ht. split; [|apply uncommitted_nil_scopes]. destruct w as [db tx n sent]. simpl in Ht. subst tx.
  destruct (CreateApiToken svc userID name None expiresAt (mkWorld db None n sent)) as [[res|e|p] w'] eqn:E; [|done..].
  destruct (returns_CreateApiToken _ _ _ _ _ _ _ _ _ E) as (raw & uid & tid & h & t & sc & _ & _ & _ & _ & ? & _). done.
Qed.

(** A user revokes only own tokens: after a revocation that succeeds the named
    token, if the caller owns it, is revoked for good, and every other token is
    as it was. *)
Theorem RevokeApiToken_owner_only userID tokenID w w' :
  w_tx w = None → RevokeApiToken svc userID tokenID w = (Ret (), w') →
  ∃ uid tid, uuid_Parse userID = Some uid ∧ uuid_Parse tokenID = Some tid ∧
    (∀ id r, api_tokens (w_db w) !! id = Some r → id ≠ tid ∨ ar_user_id r ≠ uid → api_tokens (w_db w') !! id = Some r) ∧
    (∀ r, api_tokens (w_db w) !! tid = Some r → ar_user_id r = uid →
       ∃ r', api_tokens (w_db w') !! tid = Some r' ∧ is_Some (ar_revoked_at r')).
Proof.
  destruct w as [db tx n sent]. simpl. intros ->. revert w'.
  enough (returns (RevokeApiToken svc userID tokenID) (mkWorld db None n sent) (λ _ w', ∃ uid tid,
    uuid_Parse userID = Some uid ∧ uuid_Parse tokenID = Some tid ∧
    (∀ id r, api_tokens db !! id = Some r → id ≠ tid ∨ ar_user_id r ≠ uid → api_tokens (w_db w') !! id = Some r) ∧
    (∀ r, api_tokens db !! tid = Some r → ar_user_id r = uid →
       ∃ r', api_tokens (w_db w') !! tid = Some r' ∧ is_Some (ar_revoked_at r')))) as Hr.
  { intros w' E. by apply (Hr ()). }
  unfold RevokeApiToken. destruct (_ || _); [apply returns_fail|]. simpl. unfold RevokeToken.
  apply returns_bind, returns_parseID. intros uid Hu. apply returns_bind, returns_parseID. intros tid Ht.
  apply returns_Pool. intros [] db' [= <-]. exists uid, tid. simpl. split_and!; [done..| |].
  - intros id r Hr Hne. rewrite lookup_update_where, Hr. simpl.
    assert (bool_decide (id = tid) && bool_decide (ar_user_id r = uid) = false) as ->; [|done].
    rewrite andb_false_iff, !bool_decide_eq_false. tauto.
  - intros r Hr Hown. rewrite lookup_update_where, Hr. simpl. eexists. split; [reflexivity|].
    rewrite !bool_decide_eq_true_2 by done. simpl. case_bool_decide as Hn; [by eexists|].
    by destruct (ar_revoked_at r).
Qed.
End tokens.

(** ** Examples *)

#[local] Existing Instance bits_uuid.
#[local] Existing Instance bits_uuid_laws.
#[local] Existing Instance calm_env.
#[local] Existing Instance calm_laws.
#[local] Existing Instance ascii_case.

#[export] Instance demo_credentials : CredentialLaws calm_env.
Proof.
  split.
  - intros n secret h [= <-]. apply String.eqb_refl.
  - intros n max v Hmax [= <-]. by apply Z.mod_pos_bound.
  - intros n k b [= <-]. apply repeat_length.
Qed.

Definition code_run : outcome string * World := NewCode (mkWorld empty_db None 5 []).

Lemma NewCode_format_witness :
  ∃ v, rand_Int 5 1000000 = inr v ∧ len "000005" = 6%nat ∧ decimal_value (to_bytes "000005") = v.
Proof.
  assert (code_run.1 = Ret "000005") as Hr%ran by (vm_compute; reflexivity).
  destruct (NewCode_format (mkWorld empty_db None 5 []) code_run.2 "000005" Hr) as (v & H1 & _ & H2 & _ & H3).
  exists v. exact (conj H1 (conj H2 H3)).
Defined.

(** A token created for the first account. *)
Definition create_run : outcome (string * string * string) * World :=
  CreateApiToken demo_svc alice "ci" (Some ["read"]) None (world_after two_users).
Definition created_secret : string :=
  match create_run.1 with Ret (_, _, secret) => secret | _ => "" end.
Definition validate_run : outcome (string * option (list string)) * World :=
  ValidateApiToken demo_svc created_secret create_run.2.

Example validate_run_result :
  (created_secret, validate_run.1) =
  ("oat_QUFBQUFB.QUFBQUFBQUFBQUFBQUFBQUFBQUFBQUFBQUE", Ret (alice, Some ["read"])).
Proof. vm_compute. reflexivity. Qed.

Lemma ValidateApiToken_sound_witness : w_db validate_run.2 = w_db create_run.2.
Proof.
  assert (w_tx create_run.2 = None) as Ht by (vm_compute; reflexivity).
  assert (validate_run.1 = Ret (alice, Some ["read"])) as Hr%ran by (vm_compute; reflexivity).
  pose proof (ValidateApiToken_sound demo_flags demo_signer (λ _, "") demo_cfg created_secret create_run.2
    _ _ validate_run.2 Ht Hr) as [H _]. exact H.
Defined.

Lemma ApiToken_roundtrip_witness :
  ∃ uid, uuid_Parse alice = Some uid ∧ validate_run.1 = Ret (uuid_String uid, Some ["read"]).
Proof.
  assert (w_tx (world_after two_users) = None) as Ht by (vm_compute; reflexivity).
  assert (create_run.1 = Ret (demo_ID 18, "QUFBQUFB", created_secret)) as Hr%ran by (vm_compute; reflexivity).
  assert (api_tokens (w_db (world_after two_users)) = ∅) as Hn by (vm_compute; reflexivity).
  pose proof (ApiToken_roundtrip demo_flags demo_signer (λ _, "") demo_cfg alice "ci" (Some ["read"]) None
    (world_after two_users) (demo_ID 18) "QUFBQUFB" created_secret create_run.2 (λ _, eq_refl) Ht Hr) as H.
  destruct H as (uid & H1 & H2 & _).
  - intros k r Hk. rewrite Hn, lookup_empty in Hk. discriminate Hk.
  - intros e He. discriminate He.
  - exists uid. exact (conj H1 H2).
Defined.

Definition nil_run : outcome (string * string * string) * World :=
  CreateApiToken demo_svc alice "ci" None None (world_after two_users).

Lemma CreateApiToken_nil_scopes_witness : failed nil_run.1.
Proof.
  assert (w_tx (world_after two_users) = None) as Ht by (vm_compute; reflexivity).
  exact (proj1 (CreateApiToken_nil_scopes demo_flags demo_signer (λ _, "") demo_cfg alice "ci" None (world_after two_users) Ht)).
Defined.

Definition revoke_run : outcome unit * World := RevokeApiToken demo_svc alice (demo_ID 18) create_run.2.

Lemma RevokeApiToken_owner_only_witness :
  ∃ uid tid, uuid_Parse alice = Some uid ∧ uuid_Parse (demo_ID 18) = Some tid ∧
    ∀ r, api_tokens (w_db create_run.2) !! tid = Some r → ar_user_id r = uid →
      ∃ r', api_tokens (w_db revoke_run.2) !! tid = Some r' ∧ is_Some (ar_revoked_at r').
Proof.
  assert (w_tx create_run.2 = None) as Ht by (vm_compute; reflexivity).
  assert (revoke_run.1 = Ret ()) as Hr%ran by (vm_compute; reflexivity).
  pose proof (RevokeApiToken_owner_only demo_flags demo_signer (λ _, "") demo_cfg alice (demo_ID 18) create_run.2
    revoke_run.2 Ht Hr) as (uid & tid & H1 & H2 & _ & H3).
  exists uid, tid. exact (conj H1 (conj H2 H3)).
Defined.

(** Afterwards the token is refused. *)
Example revoked_refused : (ValidateApiToken demo_svc created_secret revoke_run.2).1 = Fail ErrInvalidToken.
Proof. vm_compute. reflexivity. Qed.
