(* ===== verification/InviteFlows.v ===== *)
(** Invitations: who can send and who can accept one, and that it works once. *)
From S2P Require Import Prelude GoStrings Domain Libs Tables Database DatabaseProps World Effects Demo Ports.
From S2P Require Import Postgres PostgresProps Exec Returns OrgSpec OrgRefinement Scenario InviteSpec Service Adapters ServiceInv AuthFlows Sessions.
Local Open Scope Z_scope.
Local Open Scope orbit_scope.

Section store.
Context `{V : Env} `{!UUIDLaws L}.

Lemma Tx_failed {A} (q : statement A) db t txdb n sent e w' :
  run_query Tx q (mkWorld db (Some (t, txdb)) n sent) = (Fail e, w') → w' = mkWorld db (Some (t, txdb)) (S n) sent.
Proof.
  unfold run_query. simpl. destruct (db_fault n); [by intros [= <- <-]|].
  destruct (q _ _) as [?|[??]]; [by intros [= <- <-]|done].
Qed.

Lemma returns_lockOrganization org db t txdb n sent (Φ : unit → World → Prop) :
  (∀ n', is_Some (organizations txdb !! org) → Φ () (mkWorld db (Some (t, txdb)) n' sent)) →
  returns (lockOrganization Tx org) (mkWorld db (Some (t, txdb)) n sent) Φ.
Proof.
  intros H. unfold lockOrganization. apply returns_bind, returns_try.
  - intros e w' _. destruct (errors_Is _ _); apply returns_fail.
  - apply returns_Tx. intros a txdb'. unfold sql_LockOrganization.
    destruct (organizations txdb !! org) eqn:E; [|done]. intros [= <- <-]. apply returns_ret, H. done.
Qed.

(** The membership the transaction sees, if there is one. *)
Lemma returns_try_getMembership org user db t txdb n sent (Φ : error + Membership → World → Prop) :
  (∀ e n', errors_Is e ErrNotMember = true → organization_memberships txdb !! (org, user) = None →
     Φ (inl e) (mkWorld db (Some (t, txdb)) n' sent)) →
  (∀ e n', errors_Is e ErrNotMember = false → Φ (inl e) (mkWorld db (Some (t, txdb)) n' sent)) →
  (∀ m n', organization_memberships txdb !! (org, user) = Some m →
     Φ (inr (membership_columns (org, user) m)) (mkWorld db (Some (t, txdb)) n' sent)) →
  returns (try (getMembership Tx org user)) (mkWorld db (Some (t, txdb)) n sent) Φ.
Proof.
  intros H1 H2 H3 res w'. unfold try, getMembership, bind, try, run_query. simpl.
  destruct (db_fault n); [simpl; intros [= <- <-]; by apply H2|]. unfold sql_GetOrganizationMembership.
  destruct (organization_memberships txdb !! (org, user)) as [m|] eqn:E; simpl; intros [= <- <-]; [by apply H3|by apply H1].
Qed.

(** The membership an accepted invitation leaves. *)
Lemma sql_AddActive_spec s org user (db : DB Envelope) db' :
  sql_AddActiveOrganizationMembership org user s db = inr ((), db') →
  (∀ m, organization_memberships db !! (org, user) = Some m → mr_status m ≠ MembershipSuspended) →
  member db' org user ∧ organization_invites db' = organization_invites db ∧ users db' = users db ∧
  ∀ k, k ≠ (org, user) → organization_memberships db' !! k = organization_memberships db !! k.
Proof.
  unfold sql_AddActiveOrganizationMembership, insert_membership. intros H Hs.
  destruct (organization_memberships db !! (org, user)) as [m|] eqn:E.
  - destruct (decide _) as [Hi|Hi]; simplify_eq.
    + split_and!; [eexists; split; [apply lookup_insert_eq|done]|done..|].
      intros k Hk. simpl. by rewrite lookup_insert_ne.
    + split_and!; [|done..]. exists m. split; [done|]. specialize (Hs m eq_refl). by destruct (mr_status m).
  - destruct (organizations db !! org), (users db !! user); simplify_eq.
    split_and!; [eexists; split; [apply lookup_insert_eq|done]|done..|]. intros k Hk. simpl. by rewrite lookup_insert_ne.
Qed.

(** What a store-level acceptance leaves. *)
Definition accepted (db db' : DB Envelope) (id org user : uuid) (r : InviteRow) (at_ : option time) : Prop :=
  organization_invites db !! id = Some r ∧ ir_org_id r = org ∧ ir_status r = InvitePending ∧
  organization_invites db' = <[id := with_status InviteAccepted at_ r]> (organization_invites db) ∧
  member db' org user ∧ users db' = users db ∧
  ∀ k, k ≠ (org, user) → organization_memberships db' !! k = organization_memberships db !! k.

Lemma returns_AcceptInvite inviteID orgID userID at_ db n sent (Φ : unit → World → Prop) :
  (∀ id org user r db' n', uuid_Parse inviteID = Some id → uuid_Parse orgID = Some org → uuid_Parse userID = Some user →
     accepted db db' id org user r (timestamptz at_) → Φ () (mkWorld db' None n' sent)) →
  returns (Postgres.AcceptInvite inviteID orgID userID at_) (mkWorld db None n sent) Φ.
Proof.
  intros H. unfold Postgres.AcceptInvite, inviteIDs.
  apply returns_bind, returns_bind, returns_parseID. intros org Ho.
  apply returns_bind, returns_parseID. intros id Hi. apply returns_ret.
  apply returns_bind, returns_parseID. intros user Hu.
  apply returns_transaction, returns_bind, returns_lockOrganization. intros n1 _.
  assert (∀ n2, (∀ m, organization_memberships db !! (org, user) = Some m → mr_status m ≠ MembershipSuspended) →
    returns (affected <- wrap (Errorw "postgres: accept invite: %w" [])
      (run_query Tx (sql_AcceptOrganizationInvite (timestamptz at_) id org)) ;;
      if affected =? 0 then fail ErrInviteNotFound else
      wrap (Errorw "postgres: add invited member: %w" []) (run_query Tx (sql_AddActiveOrganizationMembership org user)) ;;
      emitEvents Emit [NewMembershipAddedEvent orgID userID MembershipActive at_] ;;
      wrap (Errorw "postgres: commit accept invite: %w" []) Commit)
    (mkWorld db (Some (db_now n, db)) n2 sent)
    (λ a w', Φ a (mkWorld (w_db w') None (w_tick w') (w_sent w')))) as Hrest.
  { intros n2 Hns. apply returns_bind, returns_wrap, returns_Tx. intros a txdb [= <- <-].
    destruct (_ =? 0) eqn:Ea; [apply returns_fail|]. apply (pending_rows _ _ (with_status InviteAccepted (timestamptz at_))) in Ea as (r & Hr & Hor & Hst & Hup).
    apply returns_bind, returns_wrap, returns_Tx. intros [] txdb' Hadd.
    apply sql_AddActive_spec in Hadd as (Hm & Hinv & Hus & Hk); [|exact Hns].
    apply returns_bind, returns_emitEvents. intros rows n3. apply returns_wrap, returns_Commit. simpl.
    eapply H; [done..|]. split_and!; [done|done|done| |done|done|done]. simpl. rewrite Hinv. simpl. exact Hup. }
  apply returns_bind, returns_try_getMembership.
  - intros e n' He Hn. rewrite He. cbn [negb]. apply returns_bind, returns_ret, Hrest. by rewrite Hn.
  - intros e n' He. rewrite He. cbn [negb]. apply returns_bind, returns_fail.
  - intros m n' Hm. cbn [membership_columns m_Status]. case_bool_decide; apply returns_bind; [apply returns_fail|].
    apply returns_ret, Hrest. rewrite Hm. by intros m' [= <-].
Qed.

Lemma returns_FindByID u db n sent (Φ : User → World → Prop) :
  (∀ uid r n', uuid_Parse u = Some uid → users db !! uid = Some r → Φ (user_columns uid r) (mkWorld db None n' sent)) →
  returns (FindByID u) (mkWorld db None n sent) Φ.
Proof.
  intros H. unfold FindByID. apply returns_bind, returns_parseID. intros uid Hu. apply returns_bind, returns_try.
  - intros e w' _. destruct (errors_Is _ _); apply returns_fail.
  - apply returns_Pool. intros user db'. unfold sql_FindUserByID. destruct (users db !! uid) eqn:E; [|done].
    intros [= <- <-]. apply returns_ret. by apply H.
Qed.

Lemma returns_FindInvite h db n sent (Φ : Invite → World → Prop) :
  (∀ id r n', organization_invites db !! id = Some r → ir_token_hash r = h →
     Φ (invite_columns id r) (mkWorld db None n' sent)) →
  returns (FindInviteByTokenHash h) (mkWorld db None n sent) Φ.
Proof.
  intros H. unfold FindInviteByTokenHash. apply returns_bind, returns_try.
  - intros e w' _. destruct (errors_Is _ _); apply returns_fail.
  - apply returns_Pool. intros inv db'. unfold sql_FindOrganizationInviteByTokenHash.
    destruct (first_where _ _) as [[id r]|] eqn:E; [|done]. apply first_where_Some in E as [Hl Hh%String.eqb_eq].
    intros [= <- <-]. apply returns_ret. by apply H.
Qed.
End store.

Section service.
Context `{V : Env} `{UC : UnicodeCase} `{!EnvLaws V} `{!UUIDLaws L}.
Context (flags : Flags) (signer : TokenSigner) (rfc3339 : time → string) (cfg : Config).

Abbreviation svc := (wired flags signer rfc3339 cfg).

(** An account that may accept an invitation sent to [email]. *)
Definition recipient (r : UserRow) (email : string) : Prop :=
  ur_status r = UserActive ∧ is_Some (ur_email_verified_at r) ∧
  ∃ e, ur_email r = Some e ∧ EqualFold e email = true.

Lemma inviteRecipientMatches_recipient uid r email :
  inviteRecipientMatches (user_columns uid r) email = true → recipient r email.
Proof.
  unfold inviteRecipientMatches, recipient. simpl. intros H. bool_hyps. split_and!; [done..|].
  destruct (ur_email r) as [e|]; simpl in *; [|done]. by exists e.
Qed.

Lemma returns_use_AcceptInvite userID token db n sent :
  returns (Service.AcceptInvite svc userID token) (mkWorld db None n sent) (λ inv w',
    w_tx w' = None ∧ i_TokenHash inv = "" ∧
    ∃ id r uid u now, ir_token_hash r = HashInviteToken (TrimSpace token) ∧ now < ir_expires_at r ∧ (∃ n, now = go_now n) ∧
      uuid_Parse (TrimSpace userID) = Some uid ∧ users db !! uid = Some u ∧ recipient u (ir_email r) ∧
      accepted db (w_db w') id (ir_org_id r) uid r (timestamptz now)).
Proof.
  unfold Service.AcceptInvite. cbv zeta. destruct (_ || _); [apply returns_fail|]. cbn [s_invites wired].
  apply returns_bind, returns_try; [intros e w' _; destruct (errors_Is _ _); apply returns_fail|].
  cbn [pg_invites is_FindInviteByTokenHash]. apply returns_FindInvite. intros id r n1 Hr Hh.
  apply returns_bind, returns_Now. cbn [invite_columns i_Status i_ExpiresAt i_Email i_ID i_OrgID].
  destruct (_ || _) eqn:Eg; [apply returns_fail|]. apply orb_false_iff in Eg as [_ Hexp%negb_false_iff%Z.ltb_lt].
  apply returns_bind, returns_try; [intros e w' _; destruct (errors_Is _ _); apply returns_fail|].
  cbn [s_users wired on pg_users us_FindByID]. apply returns_FindByID. intros uid u n2 Hu Hul.
  destruct (inviteRecipientMatches _ _) eqn:Em; [|apply returns_fail]. cbn [negb].
  apply inviteRecipientMatches_recipient in Em.
  apply returns_bind, returns_try; [intros e w' _; destruct (errors_Is _ _); apply returns_fail|].
  cbn [is_AcceptInvite pg_invites]. apply returns_AcceptInvite. intros id' org' uid' r' db' n' Hi Ho Hu' Hacc.
  apply returns_ret. rewrite uuid_Parse_String in Hi, Ho. injection Hi as <-. injection Ho as <-.
  pose proof Hacc as (Hr' & _). assert (uid' = uid) as -> by congruence. assert (r' = r) as -> by congruence.
  split; [done|]. split; [done|]. exists id, r, uid, u, (go_now n1). split_and!; try done. by exists n1.
Qed.

(** C8: an invitation is accepted only with its token, while it is pending and
    before its expiry, by an active account whose verified address is the invited
    one; then exactly that invitation is marked accepted, that account is an
    active member of its organization, no other membership and no account changed,
    and the caller does not get the token hash. *)
Theorem AcceptInvite_sound userID token w inv w' :
  w_tx w = None → Service.AcceptInvite svc userID token w = (Ret inv, w') →
  i_TokenHash inv = "" ∧
  ∃ id r uid u now, ir_token_hash r = HashInviteToken (TrimSpace token) ∧ now < ir_expires_at r ∧ (∃ n, now = go_now n) ∧
    uuid_Parse (TrimSpace userID) = Some uid ∧ users (w_db w) !! uid = Some u ∧ recipient u (ir_email r) ∧
    accepted (w_db w) (w_db w') id (ir_org_id r) uid r (timestamptz now).
Proof.
  destruct w as [db tx n sent]. simpl. intros ->. intros E. by destruct (returns_use_AcceptInvite _ _ _ _ _ _ _ E) as [_ H].
Qed.

(** An invitation works once: after it was accepted, accepting the same token
    again fails, whoever tries. *)
Theorem AcceptInvite_once userID userID' token w inv w' :
  w_tx w = None → schema db_lower (w_db w) → Service.AcceptInvite svc userID token w = (Ret inv, w') →
  failed (Service.AcceptInvite svc userID' token w').1.
Proof.
  destruct w as [db tx n sent]. simpl. intros -> Hs E.
  destruct (returns_use_AcceptInvite _ _ _ _ _ _ _ E) as (Htx & _ & id & r & uid & u & now & Hh & _ & _ & _ & _ & _ & Hacc).
  destruct Hacc as (Hr & _ & _ & Hinv & _). destruct w' as [db' tx' n' sent']. simpl in Htx, Hinv. subst tx'.
  destruct (Service.AcceptInvite svc userID' token _) as [[inv'|e|p] w2] eqn:E2; [|done..].
  destruct (returns_use_AcceptInvite _ _ _ _ _ _ _ E2) as (_ & _ & id2 & r2 & uid2 & u2 & now2 & Hh2 & _ & _ & _ & _ & _ & Hacc2).
  destruct Hacc2 as (Hr2 & _ & Hp2 & _). rewrite Hinv in Hr2.
  destruct (decide (id2 = id)) as [->|Hne]; [rewrite lookup_insert_eq in Hr2; by simplify_eq|].
  rewrite lookup_insert_ne in Hr2 by done. destruct Hne.
  eapply (proj1 (sch_invites_unique _ _ Hs)); [exact Hr2|exact Hr|congruence].
Qed.

(** The caller's own memberships decide who may invite. *)
Lemma returns_GetOrg o db n sent (Φ : Organization → World → Prop) :
  (∀ org r n', uuid_Parse o = Some org → organizations db !! org = Some r →
     Φ (organization_columns org r) (mkWorld db None n' sent)) →
  returns (GetOrg o) (mkWorld db None n sent) Φ.
Proof.
  intros H. unfold GetOrg. apply returns_bind, returns_parseID. intros org Ho. apply returns_bind, returns_try.
  - intros e w' _. destruct (errors_Is _ _); apply returns_fail.
  - apply returns_Pool. intros x db'. unfold sql_GetOrganization. destruct (organizations db !! org) eqn:E; [|done].
    intros [= <- <-]. apply returns_ret. by apply H.
Qed.

(** The rows a new invitation leaves: earlier pending ones to the address revoked. *)
Definition invited (db db' : DB Envelope) (id : uuid) (r : InviteRow) : Prop :=
  organization_invites db' =
    <[id := r]> (update_where (λ k i, bool_decide (ir_org_id i = ir_org_id r) &&
        String.eqb (db_lower (ir_email i)) (db_lower (ir_email r)) && bool_decide (ir_status i = InvitePending))
      (λ i, with_status InviteRevoked (ir_accepted_at i) i) (organization_invites db)) ∧
  users db' = users db ∧ organization_memberships db' = organization_memberships db.

Lemma returns_CreateInvite inv db n sent (Φ : unit → World → Prop) :
  (∀ id org inviter e c db' n', uuid_Parse (i_ID inv) = Some id → uuid_Parse (i_OrgID inv) = Some org →
     uuid_Parse (i_InviterID inv) = Some inviter → timestamptz (i_ExpiresAt inv) = Some e →
     timestamptz (i_CreatedAt inv) = Some c →
     invited db db' id (mkInviteRow org (i_Email inv) (i_TokenHash inv) inviter (i_Status inv) e None c) →
     Φ () (mkWorld db' None n' sent)) →
  returns (CreateInvite inv) (mkWorld db None n sent) Φ.
Proof.
  intros H. unfold CreateInvite. apply returns_bind, returns_parseID. intros id Hi.
  apply returns_bind, returns_parseID. intros org Ho. apply returns_bind, returns_parseID. intros inviter Hv.
  apply returns_transaction, returns_bind, returns_lockOrganization. intros n1 _.
  apply returns_bind, returns_wrap, returns_Tx. intros a txdb [= <- <-].
  apply returns_bind, returns_wrap, returns_Tx. intros b txdb. unfold sql_CreateOrganizationInvite, not_null.
  destruct (timestamptz (i_ExpiresAt inv)) as [e|] eqn:Ee; [|done].
  destruct (timestamptz (i_CreatedAt inv)) as [c|] eqn:Ec; [|done]. cbv zeta.
  destruct (first_where _ _); [done|]. destruct (organizations _ !! org); [|done]. destruct (users _ !! inviter); [|done].
  intros [= <- <-]. apply returns_wrap, returns_Commit. by eapply H.
Qed.

Lemma returns_NewSecret db tx n sent (Φ : string → World → Prop) :
  (∀ token, Φ token (mkWorld db tx (S n) sent)) → returns NewSecret (mkWorld db tx n sent) Φ.
Proof. intros H. apply returns_bind, returns_tick, returns_bind, returns_of_sum. intros b _. apply returns_ret, H. Qed.

Lemma returns_try_Send req db tx n sent (Φ : error + unit → World → Prop) :
  (∀ e, Φ (inl e) (mkWorld db tx (S n) sent)) → Φ (inr ()) (mkWorld db tx (S n) (sent ++ [req])) →
  returns (try (Send req)) (mkWorld db tx n sent) Φ.
Proof. intros H1 H2 a w'. unfold try, Send. simpl. destruct (api_Send n req); intros [= <- <-]; [apply H1|apply H2]. Qed.

(** Only an active member of an organization can invite to it, and only a
    well-formed address; the new invitation is pending, earlier pending ones to
    the same address are revoked, the table holds the hash of the token, and the
    token itself leaves only in the one message sent to the invited address. *)
Theorem InviteMember_sound orgID inviterID email w inv w' :
  w_tx w = None → InviteMember svc orgID inviterID email w = (Ret inv, w') →
  IsEmail (NormalizeEmail email) = true ∧ i_TokenHash inv = "" ∧
  ∃ org inviter id token expires created req,
    uuid_Parse (TrimSpace orgID) = Some org ∧ uuid_Parse (TrimSpace inviterID) = Some inviter ∧
    member (w_db w) org inviter ∧ i_ID inv = uuid_String id ∧
    invited (w_db w) (w_db w') id
      (mkInviteRow org (NormalizeEmail email) (HashInviteToken token) inviter InvitePending expires None created) ∧
    w_sent w' = w_sent w ++ [req] ∧ Recipient req = NormalizeEmail email ∧ ("accept_token", token) ∈ Vars req.
Proof.
  destruct w as [db tx n sent]. simpl. intros ->. revert inv w'.
  change (returns (InviteMember svc orgID inviterID email) (mkWorld db None n sent) (λ inv w',
    IsEmail (NormalizeEmail email) = true ∧ i_TokenHash inv = "" ∧
    ∃ org inviter id token expires created req,
      uuid_Parse (TrimSpace orgID) = Some org ∧ uuid_Parse (TrimSpace inviterID) = Some inviter ∧
      member db org inviter ∧ i_ID inv = uuid_String id ∧
      invited db (w_db w') id
        (mkInviteRow org (NormalizeEmail email) (HashInviteToken token) inviter InvitePending expires None created) ∧
      w_sent w' = sent ++ [req] ∧ Recipient req = NormalizeEmail email ∧ ("accept_token", token) ∈ Vars req)).
  unfold InviteMember. cbv zeta. destruct (_ || _); [apply returns_fail|].
  destruct (IsEmail (NormalizeEmail email)) eqn:Ee; [|apply returns_fail]. cbn [negb s_invites wired].
  apply returns_bind, (returns_IsActiveMember flags signer). intros b n1 Hb. destruct b; [|apply returns_fail]. cbn [negb].
  destruct Hb as (_ & org & inviter & Ho & Hv & Hm); [done|]. rewrite TrimSpace_idemp in Ho, Hv.
  apply returns_bind. cbn [s_orgs wired on pg_orgs os_GetOrg]. apply returns_GetOrg. intros org' orow n2 _ _.
  apply returns_bind. cbn [s_users wired on pg_users us_FindByID]. apply returns_FindByID. intros uid u n3 _ _.
  apply returns_bind. cbn [s_secrets wired]. apply returns_NewSecret. intros token.
  apply returns_bind, returns_Now, returns_bind, returns_NewID, returns_bind.
  cbn [pg_invites is_CreateInvite]. apply returns_CreateInvite. cbn [i_ID i_OrgID i_InviterID i_ExpiresAt i_CreatedAt i_Email
    i_TokenHash i_Status]. intros id org2 inviter2 e c db' n4 Hi Ho2 Hv2 _ _ Hinv.
  rewrite uuid_Parse_String in Hi. injection Hi as <-. assert (org2 = org) as -> by congruence.
  assert (inviter2 = inviter) as -> by congruence.
  apply returns_bind. cbn [s_notifier wired on notificationsClient SendOrgInvite]. unfold client_SendOrgInvite.
  apply returns_try_Send.
  - intros err. apply returns_bind. intros [] ? _; apply returns_fail.
  - apply returns_ret. split; [done|]. split; [done|]. eexists org, inviter, _, token, e, c, _.
    split_and!; [done..|exact Hinv|reflexivity|reflexivity|]. cbn [Vars in_AcceptToken]. set_solver.
Qed.
End service.

(** ** Example: an invitation is sent and accepted *)

#[local] Existing Instance bits_uuid.
#[local] Existing Instance bits_uuid_laws.
#[local] Existing Instance calm_env.
#[local] Existing Instance calm_laws.
#[local] Existing Instance ascii_case.

Definition one_member : World := world_after (two_users ++ [CallCreateOrg orbit alice]).
Lemma one_member_ready : ready one_member.
Proof. apply world_after_ready. Qed.
Definition invite_run : outcome Invite * World := InviteMember demo_svc (o_ID orbit) alice "D@e.f " one_member.
Definition demo_invite : Invite := match invite_run.1 with Ret i => i | _ => mkInvite "" "" "" "" "" InvitePending 0 None 0 end.
Definition demo_token : string := "QUFBQUFBQUFBQUFBQUFBQUFBQUFBQUFBQUFBQUFBQUE".
Definition accept_run : outcome Invite * World := Service.AcceptInvite demo_svc bob demo_token invite_run.2.
Definition accepted_invite : Invite := match accept_run.1 with Ret i => i | _ => demo_invite end.

Lemma invite_run_ret :
  InviteMember (wired demo_flags demo_signer (λ _, "") demo_cfg) (o_ID orbit) alice "D@e.f " one_member =
  (Ret demo_invite, invite_run.2).
Proof. apply (ran invite_run). vm_compute. reflexivity. Qed.

Lemma accept_run_ret :
  Service.AcceptInvite (wired demo_flags demo_signer (λ _, "") demo_cfg) bob demo_token invite_run.2 =
  (Ret accepted_invite, accept_run.2).
Proof. apply (ran accept_run). vm_compute. reflexivity. Qed.

Lemma InviteMember_sound_witness :
  i_TokenHash demo_invite = "" ∧ ∃ req, w_sent invite_run.2 = w_sent one_member ++ [req] ∧ Recipient req = NormalizeEmail "D@e.f ".
Proof.
  pose proof (proj1 one_member_ready) as Ht.
  pose proof (InviteMember_sound demo_flags demo_signer (λ _, "") demo_cfg (o_ID orbit) alice "D@e.f " one_member
    demo_invite invite_run.2 Ht invite_run_ret) as (_ & H1 & org & v & id & token & e & c & req & _ & _ & _ & _ & _ & H2 & H3 & _).
  split; [exact H1|]. exists req. exact (conj H2 H3).
Defined.

Lemma AcceptInvite_sound_witness :
  ∃ id r uid, uuid_Parse (TrimSpace bob) = Some uid ∧ member (w_db accept_run.2) (ir_org_id r) uid ∧
    organization_invites (w_db invite_run.2) !! id = Some r.
Proof.
  assert (w_tx invite_run.2 = None) as Ht by (vm_compute; reflexivity).
  pose proof (AcceptInvite_sound demo_flags demo_signer (λ _, "") demo_cfg bob demo_token invite_run.2
    accepted_invite accept_run.2 Ht accept_run_ret)
    as (_ & id & r & uid & u & now & _ & _ & _ & H1 & _ & _ & H2 & _ & _ & _ & H3 & _).
  exists id, r, uid. exact (conj H1 (conj H3 H2)).
Defined.

Lemma invite_run_schema : schema db_lower (w_db invite_run.2).
Proof.
  pose proof (keeping_db (schema db_lower) (run_use demo_svc (UseInviteMember (o_ID orbit) alice "D@e.f ")) one_member
    (run_use_keeping _ true true (λ c _ _, run_call_schema c) demo_flags demo_signer (λ _, "") demo_cfg
      (UseInviteMember (o_ID orbit) alice "D@e.f ") eq_refl eq_refl)) as H.
  pose proof (proj1 one_member_ready) as Ht.
  pose proof (discard_world (InviteMember demo_svc (o_ID orbit) alice "D@e.f ") one_member) as E.
  unfold invite_run. rewrite <- E.
  exact (H Ht (proj2 one_member_ready)).
Qed.

Lemma AcceptInvite_once_witness : failed (Service.AcceptInvite demo_svc bob demo_token accept_run.2).1.
Proof.
  assert (w_tx invite_run.2 = None) as Ht by (vm_compute; reflexivity).
  exact (AcceptInvite_once demo_flags demo_signer (λ _, "") demo_cfg bob bob demo_token invite_run.2
    accepted_invite accept_run.2 Ht invite_run_schema accept_run_ret).
Defined.
