(* ===== verification/Completes.v ===== *)
(** Sign-in completes: when no dependency fails, a requested code is sent, presenting it
    gives a session, and the session can be refreshed.

    The other flow theorems say what a success proves; these say that the success comes.
    They are total: the calls return a value, neither an error nor a panic. *)
From S2P Require Import Prelude GoStrings Domain Libs Tables Database DatabaseProps World Effects Demo Ports.
From S2P Require Import Postgres PostgresProps Exec Returns OrgSpec Scenario Service Adapters ServiceInv AuthFlows ApiTokens.
Local Open Scope Z_scope.
Local Open Scope orbit_scope.

(** The dependencies work: bcrypt hashes what fits its 72 bytes, randomness is there,
    messages are accepted, time does not run backwards, identifiers are never given
    twice, the email code flag is on and access tokens are signed. *)
Class Healthy `{V : Env} (flags : Flags) (signer : TokenSigner) : Prop := {
  healthy_hash : ∀ n s, (len s ≤ 72)%nat → ∃ h, bcrypt_Generate n s = inr h;
  healthy_rand : ∀ n max, 0 < max → ∃ v, rand_Int n max = inr v;
  healthy_send : ∀ n req, api_Send n req = None;
  healthy_clock : ∀ n m, (n ≤ m)%nat → 0 < go_now n ≤ go_now m;
  healthy_ids : ∀ n m, uuid_New n = uuid_New m → n = m;
  healthy_flag : ∀ w, ∃ n', flags "manova.auth.email_otp" false w = (Ret true, mkWorld (w_db w) (w_tx w) n' (w_sent w)) ∧
    (w_tick w ≤ n')%nat;
  healthy_sign : ∀ u e w, ∃ a n', SignAccessToken signer u e w = (Ret a, mkWorld (w_db w) (w_tx w) n' (w_sent w)) ∧
    (w_tick w ≤ n')%nat;
  healthy_signOrg : ∀ u o e w, ∃ a n',
    SignAccessTokenWithOrg signer u o e w = (Ret a, mkWorld (w_db w) (w_tx w) n' (w_sent w)) ∧ (w_tick w ≤ n')%nat;
}.

Section completes.
Context `{V : Env} `{UC : UnicodeCase} `{!EnvLaws V} `{!UUIDLaws L} `{!Fair V} `{!CredentialLaws V}.
Context (flags : Flags) (signer : TokenSigner) `{!Healthy flags signer} (rfc3339 : time → string) (cfg : Config).

Abbreviation svc := (wired flags signer rfc3339 cfg).

(** The call returns a value. *)
Definition completes {A} (m : M A) (w : World) (Φ : A → World → Prop) : Prop :=
  wp m w (λ r w', match r with Ret a => Φ a w' | _ => False end).

(** No identifier yet to be given is in use. *)
Definition unused (n : nat) (db : DB Envelope) : Prop :=
  ∀ m, (n ≤ m)%nat →
    users db !! uuid_New m = None ∧ otp_challenges db !! uuid_New m = None ∧ refresh_tokens db !! uuid_New m = None.

(** ** Rules *)

Lemma completes_bind {A B} (m : M A) (k : A → M B) w (Φ : B → World → Prop) :
  completes m w (λ a w', completes (k a) w' Φ) → completes (bind m k) w Φ.
Proof. unfold completes. intros H. apply wp_bind. eapply wp_mono; [exact H|]. by intros [] w'. Qed.

Lemma completes_ret {A} (a : A) w (Φ : A → World → Prop) : Φ a w → completes (ret a) w Φ.
Proof. done. Qed.

Lemma completes_try {A} (m : M A) w (Φ : error + A → World → Prop) :
  completes m w (λ a w', Φ (inr a) w') → completes (try m) w Φ.
Proof. unfold completes. intros H. apply wp_try. eapply wp_mono; [exact H|]. by intros [] w'. Qed.

Lemma completes_wrap {A} f (m : M A) w (Φ : A → World → Prop) : completes m w Φ → completes (wrap f m) w Φ.
Proof. unfold completes. intros H. apply wp_wrap. eapply wp_mono; [exact H|]. by intros [] w'. Qed.

Lemma completes_eq {A} (m : M A) w a w' (Φ : A → World → Prop) : m w = (Ret a, w') → Φ a w' → completes m w Φ.
Proof. unfold completes, wp. by intros ->. Qed.

Lemma completes_Pool {A} (q : statement A) db tx n sent a db' (Φ : A → World → Prop) :
  q (server n (db_now n)) db = inr (a, db') → Φ a (mkWorld db' tx (S n) sent) →
  completes (run_query Pool q) (mkWorld db tx n sent) Φ.
Proof. intros Hq HΦ. apply wp_Pool; [by intros []|]. by rewrite Hq. Qed.

Lemma completes_parseID f s u w (Φ : uuid → World → Prop) :
  uuid_Parse s = Some u → Φ u w → completes (parseID f s) w Φ.
Proof. intros Hs HΦ. apply wp_parseID. by rewrite Hs. Qed.

Lemma completes_Now db tx n sent (Φ : time → World → Prop) :
  Φ (go_now n) (mkWorld db tx (S n) sent) → completes Now (mkWorld db tx n sent) Φ.
Proof. done. Qed.

Lemma completes_NewUUID db tx n sent (Φ : uuid → World → Prop) :
  Φ (uuid_New n) (mkWorld db tx (S n) sent) → completes NewUUID (mkWorld db tx n sent) Φ.
Proof. done. Qed.

Lemma completes_NewID db tx n sent (Φ : string → World → Prop) :
  Φ (uuid_String (uuid_New n)) (mkWorld db tx (S n) sent) → completes NewID (mkWorld db tx n sent) Φ.
Proof. done. Qed.

Lemma completes_mono {A} (m : M A) w (Φ Ψ : A → World → Prop) :
  completes m w Φ → (∀ a w', Φ a w' → Ψ a w') → completes m w Ψ.
Proof. unfold completes. intros H HΦ. eapply wp_mono; [exact H|]. intros [] w'; auto. Qed.

Lemma completes_run {A} (m : M A) w (Φ : A → World → Prop) : completes m w Φ → ∃ a w', m w = (Ret a, w') ∧ Φ a w'.
Proof. unfold completes, wp. destruct (m w) as [[] w'] eqn:E; [|done..]. eauto. Qed.

(** The clock shows a time that the schema stores. *)
Lemma stored_time n d : 0 ≤ d → timestamptz (Add (go_now n) d) = Some (Add (go_now n) d).
Proof.
  intros Hd. destruct (healthy_clock n n) as [Hn _]; [done|]. unfold timestamptz, IsZero, Add.
  destruct (Z.eqb_spec (go_now n + d) 0); [lia|done].
Qed.

Lemma stored_now n : IsZero (go_now n) = false.
Proof. destruct (healthy_clock n n) as [Hn _]; [done|]. unfold IsZero. apply Z.eqb_neq. lia. Qed.

(** ** Requesting a code *)

Lemma completes_NewCode db tx n sent (Φ : string → World → Prop) :
  (∀ code, len code = 6%nat → forallb digit (to_bytes code) = true → Φ code (mkWorld db tx (S n) sent)) →
  completes NewCode (mkWorld db tx n sent) Φ.
Proof.
  intros HΦ. destruct (healthy_rand n 1000000) as [v Hv]; [done|].
  assert (NewCode (mkWorld db tx n sent) = (Ret (Sprintf06d v), mkWorld db tx (S n) sent)) as E.
  { unfold NewCode, bind, tick, of_sum. simpl. by rewrite Hv. }
  eapply completes_eq; [exact E|]. destruct (NewCode_format _ _ _ E) as (_ & _ & _ & ? & ? & _). by apply HΦ.
Qed.

Lemma completes_Hash secret db tx n sent (Φ : string → World → Prop) :
  (len secret ≤ 72)%nat → (∀ h, bcrypt_Compare h secret = true → Φ h (mkWorld db tx (S n) sent)) →
  completes (Hash bcryptHasher secret) (mkWorld db tx n sent) Φ.
Proof.
  intros Hl HΦ. destruct (healthy_hash n secret Hl) as [h Hh]. eapply completes_eq; [|apply HΦ; by eapply bcrypt_correct].
  simpl. unfold bind, tick, of_sum. simpl. by rewrite Hh.
Qed.

Lemma completes_UpsertChallenge ident channel h m id db n sent (Φ : unit → World → Prop) :
  otp_challenges db !! id = None →
  Φ () (mkWorld (set_challenges <[id := mkChallengeRow ident h (Add (go_now m) OTPTTL) 0 (go_now m) channel]> db) None (S n) sent) →
  completes (UpsertChallenge (mkOTPChallenge (uuid_String id) ident channel h (Add (go_now m) OTPTTL) (go_now m) 0))
    (mkWorld db None n sent) Φ.
Proof.
  intros Hid HΦ. unfold UpsertChallenge. cbn [ch_ID ch_CreatedAt ch_ExpiresAt ch_Identifier ch_Channel ch_CodeHash].
  apply completes_bind. eapply completes_parseID; [apply uuid_Parse_String|].
  rewrite (stored_now m). apply completes_bind, completes_ret. eapply completes_Pool; [|exact HΦ].
  unfold sql_UpsertChallenge. rewrite stored_time by done. unfold timestamptz. rewrite (stored_now m). simpl. by rewrite Hid.
Qed.

(** A new challenge for an address, with the code it was made for. *)
Lemma completes_newOTPChallenge ident db n sent (Φ : OTPChallenge * string → World → Prop) :
  (∀ m, (n ≤ m)%nat → otp_challenges db !! uuid_New m = None) →
  (∀ expired code h m n', (n ≤ m)%nat → (S m < n')%nat → bcrypt_Compare h code = true → len code = 6%nat →
     forallb digit (to_bytes code) = true →
     Φ (mkOTPChallenge (uuid_String (uuid_New (S m))) ident ChannelEmail h (Add (go_now m) OTPTTL) (go_now m) 0, code)
       (mkWorld (set_challenges (λ t, <[uuid_New (S m) := mkChallengeRow ident h (Add (go_now m) OTPTTL) 0 (go_now m) ChannelEmail]>
                     (delete_where expired t)) db) None n' sent)) →
  completes (newOTPChallenge svc ident ChannelEmail) (mkWorld db None n sent) Φ.
Proof.
  intros Hfresh HΦ. unfold newOTPChallenge. apply completes_bind. eapply completes_eq.
  { unfold ignore. simpl. unfold DeleteExpiredChallenges, run_query. simpl. rewrite fair_db. reflexivity. }
  apply completes_bind. unfold buildOTPChallenge. simpl. apply completes_bind, completes_NewCode. intros code Hlen Hdig.
  apply completes_bind, completes_Hash; [lia|]. intros h Hh. apply completes_bind, completes_Now, completes_bind, completes_NewID.
  apply completes_ret, completes_bind, completes_UpsertChallenge.
  { simpl. unfold delete_where. apply map_lookup_filter_None. left. by apply Hfresh; lia. }
  apply completes_ret. eapply HΦ; [..|exact Hh|exact Hlen|exact Hdig]; lia.
Qed.

(** What requesting a code by email leaves: the challenge, made after the call began, and
    the message with the code. *)
Lemma completes_RequestOTP identifier corr db n sent :
  unused n db → TrimSpace identifier ≠ "" →
  completes (RequestOTP svc identifier ChannelEmail corr) (mkWorld db None n sent) (λ expires w,
    ∃ expired code h id m n', (n ≤ m < n')%nat ∧ id = uuid_New (S m) ∧ (S m < n')%nat ∧ expires = Add (go_now m) OTPTTL ∧
      bcrypt_Compare h code = true ∧ code ≠ "" ∧
      w = mkWorld (set_challenges (λ t, <[id := mkChallengeRow (TrimSpace identifier) h expires 0 (go_now m) ChannelEmail]>
                     (delete_where expired t)) db) None n'
            (sent ++ [mkSendRequest "otp_login" ChannelEmail (TrimSpace identifier) corr [("code", code)]])).
Proof.
  intros Hfresh Hid. unfold RequestOTP. cbv zeta. change (TrimSpace ChannelEmail) with ChannelEmail.
  apply String.eqb_neq in Hid. rewrite Hid. cbn [orb String.eqb]. change (String.eqb ChannelEmail "") with false.
  change (String.eqb ChannelEmail ChannelEmail) with true. cbv iota.
  apply completes_bind. apply completes_bind. destruct (healthy_flag (flags:=flags) (signer:=signer) (mkWorld db None n sent)) as (n1 & Ef & Hn1).
  eapply completes_eq; [exact Ef|]. cbn [w_db w_tx w_sent w_tick] in Hn1 |- *. apply completes_ret.
  apply completes_bind, completes_newOTPChallenge; [intros m Hm; apply Hfresh; lia|].
  intros expired code h m n2 Hm Hn2 Hh Hlen _. apply completes_bind. cbn [s_notifier wired on notificationsClient SendOTP]. eapply completes_eq.
  { unfold client_SendOTP, Send. simpl. by rewrite healthy_send. }
  apply completes_ret. eexists expired, code, h, _, m, _.
  split_and!; [| |reflexivity| |reflexivity|exact Hh| |reflexivity]; [lia..|]. by intros ->.
Qed.

(** ** Issuing tokens *)

Lemma completes_issueTokensForOrg u uid o db n sent :
  (∀ m, (n ≤ m)%nat → refresh_tokens db !! uuid_New m = None) → uuid_Parse u = Some uid → (o = "" ∨ is_Some (uuid_Parse o)) →
  completes (issueTokensForOrg svc u o) (mkWorld db None n sent) (λ t w,
    ∃ rid oid m created n', (n ≤ m < n')%nat ∧ t.2 = Add (go_now m) AccessTokenTTL ∧
      w = mkWorld (set_refresh <[rid := mkRefreshRow uid (HashRefreshToken t.1.2) (Add (go_now m) RefreshTokenTTL) None created
            (if String.eqb o "" then None else oid)]> db) None n' sent ∧
      (∃ k, rid = uuid_New k ∧ (n ≤ k < n')%nat)).
Proof.
  intros Hfresh Hu Ho. unfold issueTokensForOrg. simpl. apply completes_bind, completes_Now, completes_bind.
  assert (∃ a n1, (if String.eqb o "" then SignAccessToken signer u (Add (go_now n) AccessTokenTTL)
    else SignAccessTokenWithOrg signer u o (Add (go_now n) AccessTokenTTL)) (mkWorld db None (S n) sent)
    = (Ret a, mkWorld db None n1 sent) ∧ (S n ≤ n1)%nat) as (a & n1 & Es & Hn1).
  { destruct (String.eqb o "").
    - apply (healthy_sign (flags:=flags) u _ (mkWorld db None (S n) sent)).
    - apply (healthy_signOrg (flags:=flags) u o _ (mkWorld db None (S n) sent)). }
  eapply completes_eq; [exact Es|]. apply completes_bind, completes_NewID, completes_bind, completes_NewID.
  apply completes_bind. unfold Store_. apply completes_bind. eapply completes_parseID; [exact Hu|]. apply completes_bind.
  assert (∃ oid, (if negb (String.eqb o "") then parsed <- parseID "postgres: org id %q: %w" o ;; ret (Some parsed) else ret None)
    (mkWorld db None (S (S n1)) sent) = (Ret (if String.eqb o "" then None else oid), mkWorld db None (S (S n1)) sent)) as [oid Eo].
  { destruct (String.eqb_spec o ""); simpl; [by exists None|]. destruct Ho as [|[x Hx]]; [done|]. exists (Some x).
    unfold bind, parseID, wrap, of_sum, Parse. by rewrite Hx. }
  eapply completes_eq; [exact Eo|]. apply completes_bind, completes_NewUUID. eapply completes_Pool.
  { unfold sql_StoreRefreshToken. rewrite stored_time by done. simpl.
    rewrite Hfresh by lia. reflexivity. }
  apply completes_ret. eexists _, oid, n, _, _. split_and!; [| |reflexivity|reflexivity|]; [lia..|].
  eexists. split; [reflexivity|]. lia.
Qed.

(** The single organization of a user, if any, is named by its identifier. *)
Lemma completes_selectOrg u uid db n sent (Φ : string → World → Prop) :
  uuid_Parse u = Some uid →
  (∀ o n', (n ≤ n')%nat → (o = "" ∨ is_Some (uuid_Parse o)) → Φ o (mkWorld db None n' sent)) →
  completes (if s_autoSelectSingleOrg svc then singleActiveOrg svc u else ret "") (mkWorld db None n sent) Φ.
Proof.
  intros Hu HΦ. destruct (s_autoSelectSingleOrg svc); [|apply completes_ret, HΦ; [lia|by left]].
  unfold singleActiveOrg. simpl. apply completes_bind, completes_try. unfold Postgres.ListOrgsForUser.
  apply completes_bind. eapply completes_parseID; [exact Hu|]. eapply completes_Pool; [reflexivity|].
  destruct (order_by _ _ _) as [|[oid r] [|]]; simpl; apply completes_ret, HΦ; [lia|by left|lia| |lia|by left].
  right. by rewrite uuid_Parse_String.
Qed.

(** ** The account *)

(** The counter of the oracles never goes back. *)
Definition advances (w w' : World) : Prop := (w_tick w ≤ w_tick w')%nat.
#[local] Instance advances_preorder : PreOrder advances.
Proof. split; [by intros w; unfold advances|]. intros w1 w2 w3. unfold advances. lia. Qed.

Lemma advances_tick : Steps advances tick.
Proof. intros w. unfold advances. simpl. lia. Qed.
Lemma advances_Now : Steps advances Now.
Proof. intros w. unfold advances. simpl. lia. Qed.
Lemma advances_NewUUID : Steps advances NewUUID.
Proof. intros w. unfold advances. simpl. lia. Qed.
Lemma advances_query {A} h (q : statement A) : Steps advances (run_query h q).
Proof. intros w. unfold run_query, advances. repeat case_match; simplify_eq/=; lia. Qed.
Lemma advances_Begin : Steps advances Begin.
Proof. intros w. unfold Begin, advances. case_match; simpl; lia. Qed.
Lemma advances_Commit : Steps advances Commit.
Proof. intros w. unfold Commit, advances. repeat case_match; simplify_eq/=; lia. Qed.
Lemma advances_deferRollback {A} (m : M A) : Steps advances m → Steps advances (deferRollback m).
Proof. intros Hm w. specialize (Hm w). unfold deferRollback. by destruct (m w). Qed.
#[local] Hint Resolve advances_tick advances_Now advances_NewUUID advances_query advances_Begin advances_Commit : effects.

Lemma advances_emitEvents evs : Steps advances (emitEvents Emit evs).
Proof.
  induction evs as [|e evs IH]; [apply steps_ret, _|]. apply steps_bind; [apply _| |intros _; exact IH].
  unfold Emit. walk.
Qed.
#[local] Hint Resolve advances_emitEvents : effects.

Lemma advances_FindOrCreateByEmail email : Steps advances (FindOrCreateByEmail email).
Proof. unfold FindOrCreateByEmail, findByEmail. walk. apply advances_deferRollback. walk. Qed.

Lemma advances_CreateSignupUser user org at_ : Steps advances (CreateSignupUser user org None at_).
Proof. unfold CreateSignupUser. walk. apply advances_deferRollback. walk. Qed.

Lemma completes_advances {A} (m : M A) w (Φ : A → World → Prop) :
  Steps advances m → completes m w (λ a w', (w_tick w ≤ w_tick w')%nat → Φ a w') → completes m w Φ.
Proof. intros Hm. specialize (Hm w). unfold completes, wp, advances in *. destruct (m w) as [[] w']; simpl in *; auto. Qed.

(** In a fair run a failed dependency needs no answer. *)
Lemma fair_tolerates {A} (Q : outcome A → World → Prop) : tolerates Q.
Proof. by intros []. Qed.

Lemma completes_create_user email occurredAt id db n sent (Φ : User → World → Prop) :
  users db !! id = None → first_where (has_email email) (users db) = None → marshalable occurredAt →
  (∀ row rows n', Φ (mkUser (uuid_String id) email "" "" "" UserActive false)
     (mkWorld (appended rows (set_users <[id := row]> db)) None n' sent)) →
  completes (wrap (Errorw "postgres: begin create user: %w" []) Begin ;;
    deferRollback (
      run_query Tx (sql_CreateUserWithEmail id email UserActive) ;;
      emitEvents Emit [NewUserCreatedEvent (uuid_String id) occurredAt] ;;
      wrap (Errorw "postgres: commit create user: %w" []) Commit ;;
      ret (mkUser (uuid_String id) email "" "" "" UserActive false))) (mkWorld db None n sent) Φ.
Proof.
  intros Hid Hnone Hm HΦ. apply wp_transaction; [apply fair_tolerates|]. apply wp_bind, wp_Tx; [by intros []|].
  assert (∀ r, ur_email r = Some email → ur_mobile r = None → first_where (user_conflict id r) (users db) = None) as Hc.
  { intros r He Hmo. apply first_where_None. rewrite first_where_None in Hnone. intros k r' Hk. unfold user_conflict.
    rewrite He, Hmo, (Hnone k r' Hk). by rewrite orb_false_r, andb_false_r. }
  unfold sql_CreateUserWithEmail, insert_user. rewrite Hid, Hc by done. apply wp_bind, wp_emitEvents.
  - apply fair_tolerates.
  - apply Forall_singleton. by intros _.
  - intros rows n' _. apply wp_bind, wp_wrap, wp_Commit; [by intros []|]. apply wp_ret. cbn [w_db w_tick w_sent]. apply HΦ.
Qed.

(** An address without a pending sign-up has an account in the end. *)
Lemma completes_FindOrCreateByEmail email db n sent (Φ : User → World → Prop) :
  unused n db →
  (∀ id r, users db !! id = Some r → ur_email r = Some email → ur_status r ≠ UserSignupPending) →
  (∀ user uid db' n', (n ≤ n')%nat → u_ID user = uuid_String uid → u_Status user ≠ UserSignupPending →
     refresh_tokens db' = refresh_tokens db → Φ user (mkWorld db' None n' sent)) →
  completes (FindOrCreateByEmail email) (mkWorld db None n sent) Φ.
Proof.
  intros Hfresh Hpend HΦ. apply completes_advances; [apply advances_FindOrCreateByEmail|].
  unfold FindOrCreateByEmail, findByEmail. apply completes_bind.
  destruct (first_where (has_email email) (users db)) as [[uid r]|] eqn:E.
  - apply completes_try. eapply completes_Pool; [unfold sql_FindUserByEmail; by rewrite E|].
    apply first_where_Some in E as [Hr He%bool_decide_eq_true_1]. apply completes_ret. simpl. intros Hn.
    eapply (HΦ _ uid); [done|done| |done]. by apply (Hpend uid r).
  - eapply completes_eq.
    { unfold try, run_query. simpl. rewrite fair_db. unfold sql_FindUserByEmail. rewrite E. reflexivity. }
    change (errors_Is ErrNoRows ErrNoRows) with true. cbn [negb]. apply completes_bind, completes_NewUUID. cbv zeta.
    apply completes_bind. unfold Parse. rewrite uuid_Parse_String. apply completes_ret, completes_bind, completes_Now.
    apply completes_create_user; [by apply Hfresh; lia|done|apply fair_clock|]. simpl. intros row rows n' Hn.
    by apply (HΦ _ (uuid_New (S n))).
Qed.
(** ** Presenting the code *)

(** A challenge newer than all the others of its address is found. *)
Lemma newest_challenge_found n t i c (db : DB Envelope) id r :
  otp_challenges db !! id = Some r → cr_identifier r = i → cr_channel r = c →
  (∀ id' r', otp_challenges db !! id' = Some r' → cr_identifier r' = i → cr_channel r' = c → id' ≠ id →
     cr_created_at r' < cr_created_at r) →
  sql_GetLatestChallenge i c (server n t) db = inr (challenge_columns id r, db).
Proof.
  intros Hr Hi Hc Hnew. destruct (sql_GetLatestChallenge i c (server n t) db) as [e|[ch db']] eqn:E.
  - exfalso. unfold sql_GetLatestChallenge in E. destruct (order_by _ _ _) as [|[]] eqn:Eo; [|done].
    pose proof (order_by_perm n t (λ a b, cr_created_at b.2 <=? cr_created_at a.2)
      (rows_where (for_identifier i c) (otp_challenges db))) as Hp. unfold server in Eo. rewrite Eo in Hp.
    apply (elem_of_nil (id, r)). rewrite Hp. apply elem_of_rows_where. by rewrite for_identifier_iff.
  - apply sql_GetLatestChallenge_spec in E as [-> (id' & r' & (Hr' & Hi' & Hc' & Hmax) & ->)].
    destruct (decide (id' = id)) as [->|Hne]; [by simplify_eq|].
    specialize (Hnew id' r' Hr' Hi' Hc' Hne). specialize (Hmax id r Hr Hi Hc). lia.
Qed.

(** What the code login leaves: a live refresh token, and room for more. *)
Definition session (token : string) (issue : time) (w : World) : Prop :=
  w_tx w = None ∧ (∀ m, (w_tick w ≤ m)%nat → refresh_tokens (w_db w) !! uuid_New m = None) ∧
  ∃ rid r, refresh_tokens (w_db w) !! rid = Some r ∧ rr_token_hash r = HashRefreshToken token ∧
    rr_expires_at r = Add issue RefreshTokenTTL ∧ rr_revoked_at r = None.

(** Issuing touches the refresh tokens alone. *)
Definition issued (db : DB Envelope) (t : Tokens) (w : World) : Prop :=
  (∃ issue, t.2 = Add issue AccessTokenTTL ∧ session t.1.2 issue w) ∧ ∃ f, w_db w = set_refresh f db.

Lemma completes_issued u uid o db n sent :
  (∀ m, (n ≤ m)%nat → refresh_tokens db !! uuid_New m = None) → uuid_Parse u = Some uid → (o = "" ∨ is_Some (uuid_Parse o)) →
  completes (issueTokensForOrg svc u o) (mkWorld db None n sent) (issued db).
Proof.
  intros Hfresh Hu Ho. eapply completes_mono; [by apply (completes_issueTokensForOrg u uid o)|].
  intros t w (rid & oid & m & created & n2 & Hm & Ht & -> & k & -> & Hk). split; [|by eexists]. exists (go_now m). split; [done|].
  split_and!; [done| |].
  - simpl. intros j Hj. rewrite lookup_insert_ne; [apply Hfresh; lia|]. intros Heq%(healthy_ids (flags:=flags)). lia.
  - simpl. eexists _, _. by rewrite lookup_insert_eq.
Qed.

Lemma issued_session u uid o db n sent :
  (∀ m, (n ≤ m)%nat → refresh_tokens db !! uuid_New m = None) → uuid_Parse u = Some uid → (o = "" ∨ is_Some (uuid_Parse o)) →
  completes (issueTokensForOrg svc u o) (mkWorld db None n sent)
    (λ t w, ∃ issue, t.2 = Add issue AccessTokenTTL ∧ session t.1.2 issue w).
Proof. intros. eapply completes_mono; [by eapply completes_issued|]. by intros t w [? _]. Qed.

Lemma completes_issueTokens u uid db n sent :
  (∀ m, (n ≤ m)%nat → refresh_tokens db !! uuid_New m = None) → uuid_Parse u = Some uid →
  completes (issueTokens svc u) (mkWorld db None n sent) (issued db).
Proof.
  intros Hfresh Hu. unfold issueTokens. apply completes_bind. eapply completes_selectOrg; [exact Hu|]. intros o n1 Hn1 Ho.
  apply (completes_issued u uid o); [intros; apply Hfresh; lia|done..].
Qed.

(** A code that would be accepted until [expires]. *)
Definition challenged (identifier code : string) (expires : time) (w : World) : Prop :=
  w_tx w = None ∧ unused (w_tick w) (w_db w) ∧ code ≠ "" ∧
  (∀ id r, users (w_db w) !! id = Some r → ur_email r = Some identifier → ur_status r ≠ UserSignupPending) ∧
  ∃ id r, otp_challenges (w_db w) !! id = Some r ∧ cr_identifier r = identifier ∧ cr_channel r = ChannelEmail ∧
    (∀ id' r', otp_challenges (w_db w) !! id' = Some r' → cr_identifier r' = identifier → cr_channel r' = ChannelEmail →
       id' ≠ id → cr_created_at r' < cr_created_at r) ∧
    cr_expires_at r = expires ∧ cr_attempts r < MaxOTPAttempts ∧ bcrypt_Compare (cr_code_hash r) code = true.

Lemma RequestOTP_challenges identifier corr db n sent :
  unused n db → TrimSpace identifier ≠ "" →
  (∀ id r, otp_challenges db !! id = Some r → cr_identifier r = TrimSpace identifier → cr_channel r = ChannelEmail →
     cr_created_at r < go_now n) →
  (∀ id r, users db !! id = Some r → ur_email r = Some (TrimSpace identifier) → ur_status r ≠ UserSignupPending) →
  completes (RequestOTP svc identifier ChannelEmail corr) (mkWorld db None n sent) (λ expires w, ∃ code,
    w_sent w = sent ++ [mkSendRequest "otp_login" ChannelEmail (TrimSpace identifier) corr [("code", code)]] ∧
    challenged (TrimSpace identifier) code expires w).
Proof.
  intros Hfresh Hid Hold Hpend. eapply completes_mono; [by apply completes_RequestOTP|].
  intros expires w (expired & code & h & id & m & n1 & Hm & -> & Hn1 & -> & Hh & Hcode & ->). exists code. split; [done|].
  assert (∀ k r, delete_where expired (otp_challenges db) !! k = Some r → otp_challenges db !! k = Some r) as Hdel.
  { intros k r. by rewrite lookup_delete_where_Some; intros []. }
  split_and!; [done| |done|exact Hpend|].
  - intros k Hk. simpl in *. destruct (Hfresh k) as (H1 & H2 & H3); [lia|]. split_and!; [done| |done].
    rewrite lookup_insert_ne; [by rewrite lookup_delete_where, H2|]. intros Heq%(healthy_ids (flags:=flags)). lia.
  - eexists _, _. simpl. rewrite lookup_insert_eq. split_and!; [done..| |done|done|done].
    intros k r Hk Hki Hkc Hne. rewrite lookup_insert_ne in Hk by done. specialize (Hold k r (Hdel k r Hk) Hki Hkc).
    simpl. pose proof (healthy_clock (flags:=flags) n m). lia.
Qed.

Lemma challenged_verifies identifier code expires w :
  TrimSpace identifier ≠ "" → challenged (TrimSpace identifier) code expires w → go_now (S (w_tick w)) ≤ expires →
  completes (VerifyOTP svc identifier ChannelEmail code) w (λ t w', ∃ issue, t.2 = Add issue AccessTokenTTL ∧ session t.1.2 issue w').
Proof.
  destruct w as [db tx n sent]. intros Hid (Htx & Hfresh & Hcode & Hpend & id & r & Hr & Hi & Hc & Hnew & <- & Hatt & Hcmp) Hexp.
  simpl in *. subst tx. unfold VerifyOTP. cbv zeta.
  change (TrimSpace ChannelEmail) with ChannelEmail. rewrite (proj2 (String.eqb_neq _ _) Hid), (proj2 (String.eqb_neq _ _) Hcode).
  change (String.eqb ChannelEmail "") with false. cbn [orb]. simpl.
  apply completes_bind, completes_try. unfold GetLatestChallenge.
  eapply completes_Pool; [by apply (newest_challenge_found _ _ _ _ _ id r)|].
  apply completes_bind, completes_Now. unfold After. cbn [challenge_columns ch_ExpiresAt ch_Attempts ch_CodeHash ch_ID].
  rewrite (proj2 (Z.ltb_ge _ _) Hexp), (proj2 (Z.leb_gt _ _) Hatt). apply completes_bind, completes_ret. rewrite Hcmp. simpl.
  apply completes_bind. unfold ConsumeChallenge. apply completes_bind. eapply completes_parseID; [apply uuid_Parse_String|].
  eapply completes_Pool; [reflexivity|]. apply completes_bind, completes_FindOrCreateByEmail; [|exact Hpend|].
  { intros m Hm. destruct (Hfresh m) as (H1 & H2 & H3); [lia|]. split_and!; [done| |done]. simpl. by apply lookup_delete_None; right. }
  intros user uid db' n' Hn Hu Hs Href. rewrite (proj2 (String.eqb_neq _ _) Hs).
  eapply completes_mono; [apply (completes_issueTokens _ uid)|by intros t w [? _]].
  - intros m Hm. rewrite Href. simpl. apply Hfresh. lia.
  - rewrite Hu. apply uuid_Parse_String.
Qed.
(** ** Refreshing the session *)

(** Asking whether the user is still a member only reads, and answers. *)
Lemma activeOrg_reads u o db n sent :
  ∃ o' n', activeOrg svc u o (mkWorld db None n sent) = (Ret o', mkWorld db None n' sent) ∧ (n ≤ n')%nat ∧ (o' = "" ∨ o' = o).
Proof.
  unfold activeOrg. simpl. destruct (_ || _); [by exists "", n; auto|]. unfold bind, try, IsActiveMember. cbv zeta.
  destruct (_ || _); [exists "", n; auto|]. simpl. unfold bind, GetMembership, membershipIDs, parseID, bind, wrap, of_sum, Parse.
  destruct (uuid_Parse (TrimSpace o)); simpl; [|exists "", n; by repeat case_match; auto].
  destruct (uuid_Parse (TrimSpace u)); simpl; [|exists "", n; by repeat case_match; auto].
  unfold getMembership, bind, try, run_query. simpl. rewrite fair_db.
  destruct (sql_GetOrganizationMembership _ _ _ db) as [e|[mem db']] eqn:Eq; simpl.
  - assert (e = ErrNoRows) as -> by (unfold sql_GetOrganizationMembership in Eq; repeat case_match; congruence).
    simpl. exists "", (S n). split_and!; [done|lia|by left].
  - assert (db' = db) as -> by (unfold sql_GetOrganizationMembership in Eq; repeat case_match; congruence).
    case_bool_decide; simpl; [exists o, (S n)|exists "", (S n)]; (split_and!; [done|lia|auto]).
Qed.

Lemma live_token_found n t hash (db : DB Envelope) rid r :
  refresh_tokens db !! rid = Some r → live db t hash r →
  ∃ user oid, sql_FindValidRefreshToken hash (server n t) db = inr ((uuid_String user, COALESCE (uuid_String <$> oid) ""), db).
Proof.
  intros Hr Hl. destruct (sql_FindValidRefreshToken hash (server n t) db) as [e|[res db']] eqn:E.
  - exfalso. unfold sql_FindValidRefreshToken in E. simpl in E. destruct (scan _ _ _) as [|[]] eqn:Es; [|done].
    apply (elem_of_nil (rid, r)). rewrite <- Es, (db_order_perm n). apply elem_of_rows_where. by rewrite live_refresh_iff.
  - apply sql_FindValid_spec in E as [-> (id & r' & _ & _ & ->)]. eauto.
Qed.

Lemma completes_Refresh token issue w :
  session token issue w → db_now (w_tick w) < Add issue RefreshTokenTTL →
  completes (Refresh svc token) w (λ t w', ∃ issue', t.2 = Add issue' AccessTokenTTL ∧ session t.1.2 issue' w').
Proof.
  destruct w as [db tx n sent]. intros (Htx & Hfresh & rid & r & Hr & Hh & He & Hv) Hnow. simpl in *. subst tx.
  destruct (live_token_found n (db_now n) (HashRefreshToken token) db rid r) as (user & oid & Ef); [done|by rewrite <- He in Hnow|].
  unfold Refresh. cbv zeta. apply completes_bind, completes_try. simpl. unfold FindValid. eapply completes_Pool; [exact Ef|].
  apply completes_bind. eapply completes_eq.
  { unfold ignore, Revoke, run_query. simpl. rewrite fair_db. reflexivity. }
  apply completes_bind. set (db1 := set_refresh _ db). destruct (activeOrg_reads (uuid_String user) (COALESCE (uuid_String <$> oid) "") db1 (S (S n)) sent)
    as (o & n1 & Ea & Hn1 & Ho). eapply completes_eq; [exact Ea|].
  assert (∀ m, (n1 ≤ m)%nat → refresh_tokens db1 !! uuid_New m = None) as Hfresh1.
  { intros m Hm. unfold db1. simpl. rewrite lookup_update_where, Hfresh by lia. done. }
  apply (issued_session _ user o); [exact Hfresh1|apply uuid_Parse_String|].
  destruct Ho as [->| ->]; [by left|]. destruct oid as [x|]; simpl; [right; by rewrite uuid_Parse_String|by left].
Qed.
(** ** The whole sign-in *)

(** The same world, [d] effects of other calls later. *)
Definition later (d : nat) (w : World) : World := mkWorld (w_db w) (w_tx w) (w_tick w + d) (w_sent w).

Lemma session_later token issue d w : session token issue w → session token issue (later d w).
Proof. intros (Ht & Hf & Hr). split_and!; [done| |done]. intros m Hm. apply Hf. simpl in Hm. lia. Qed.

Lemma challenged_later identifier code expires d w :
  challenged identifier code expires w → challenged identifier code expires (later d w).
Proof. intros (Ht & Hf & Hr). split_and!; [done| |apply Hr..]. intros m Hm. apply Hf. simpl in Hm. lia. Qed.

(** C14: signing in completes.  When no dependency fails, requesting a code by email for an address
    without a pending sign-up, later than any earlier request, sends a message to it; presenting the code of that message
    before it expires gives a token pair, whether or not the address had an account; and
    its refresh token can be exchanged for a new pair until thirty days after the login,
    each call with a value and no error. *)
Theorem sign_in_completes identifier corr w :
  w_tx w = None → unused (w_tick w) (w_db w) → TrimSpace identifier ≠ "" →
  (∀ id r, otp_challenges (w_db w) !! id = Some r → cr_identifier r = TrimSpace identifier → cr_channel r = ChannelEmail →
     cr_created_at r < go_now (w_tick w)) →
  (∀ id r, users (w_db w) !! id = Some r → ur_email r = Some (TrimSpace identifier) → ur_status r ≠ UserSignupPending) →
  ∃ expires code w1, RequestOTP svc identifier ChannelEmail corr w = (Ret expires, w1) ∧
    w_sent w1 = w_sent w ++ [mkSendRequest "otp_login" ChannelEmail (TrimSpace identifier) corr [("code", code)]] ∧
    ∀ d, go_now (S (w_tick w1 + d)) ≤ expires →
    ∃ access token until w2, VerifyOTP svc identifier ChannelEmail code (later d w1) = (Ret (access, token, until), w2) ∧
      ∀ d', db_now (w_tick w2 + d') < Add until (RefreshTokenTTL - AccessTokenTTL) →
      ∃ tokens w3, Refresh svc token (later d' w2) = (Ret tokens, w3).
Proof.
  destruct w as [db tx n sent]. simpl. intros -> Hfresh Hid Hold Hpend.
  destruct (completes_run _ _ _ (RequestOTP_challenges identifier corr db n sent Hfresh Hid Hold Hpend))
    as (expires & w1 & E1 & code & Hsent & Hch).
  exists expires, code, w1. split_and!; [done..|]. intros d Hexp.
  destruct (completes_run _ _ _ (challenged_verifies identifier code expires (later d w1) Hid (challenged_later _ _ _ d _ Hch) Hexp))
    as ([[access token] until] & w2 & E2 & issue & Huntil & Hsess). simpl in *. subst until.
  exists access, token, (Add issue AccessTokenTTL), w2. split; [done|]. intros d' Hlive.
  destruct (completes_run _ _ _ (completes_Refresh token issue (later d' w2) (session_later _ _ d' _ Hsess)
    ltac:(unfold Add in *; simpl; lia))) as (tokens & w3 & E3 & _). eauto.
Qed.
End completes.

(** ** Example: an address that has no account yet *)

#[local] Existing Instance bits_uuid.
#[local] Existing Instance bits_uuid_laws.
#[local] Existing Instance calm_env.
#[local] Existing Instance calm_laws.
#[local] Existing Instance calm_fair.
#[local] Existing Instance ascii_case.

#[local] Instance demo_healthy : Healthy demo_flags demo_signer.
Proof.
  split.
  - intros n s _. by eexists.
  - intros n max _. by eexists.
  - done.
  - intros n m Hnm. simpl. lia.
  - intros n m Heq%pos_bits_inj. lia.
  - intros [db tx n sent]. exists n. done.
  - intros u e [db tx n sent]. eexists _, n. done.
  - intros u o e [db tx n sent]. eexists _, n. done.
Qed.

Lemma sign_in_completes_witness :
  ∃ expires code w1, RequestOTP demo_svc "a@b.c " ChannelEmail "r1" (start empty_db) = (Ret expires, w1) ∧
    w_sent w1 = [mkSendRequest "otp_login" ChannelEmail "a@b.c" "r1" [("code", code)]].
Proof.
  destruct (sign_in_completes demo_flags demo_signer (λ _, "") demo_cfg "a@b.c " "r1" (start empty_db))
    as (expires & code & w1 & H1 & H2 & _).
  - reflexivity.
  - intros m _. simpl. by rewrite !lookup_empty.
  - vm_compute. discriminate.
  - intros id r Hr. simpl in Hr. by rewrite lookup_empty in Hr.
  - intros id r Hr. simpl in Hr. by rewrite lookup_empty in Hr.
  - exists expires, code, w1. exact (conj H1 H2).
Defined.
