(* ===== verification/InviteCompletes.v ===== *)
(** Invitations complete: when no dependency fails, an active member's invitation is sent,
    and the recipient who presents its token becomes an active member.

    Sending is run statement by statement as in [Completes]; accepting goes through the
    contract of [InviteSpec]. *)
From S2P Require Import Prelude GoStrings Encodings Domain Libs Tables Database DatabaseProps World Effects Demo Ports.
From S2P Require Import Postgres PostgresProps Exec Returns OrgSpec OrgRefinement Scenario InviteSpec Service Adapters ServiceInv.
From S2P Require Import AuthFlows Sessions ApiTokens InviteFlows Completes.
Local Open Scope Z_scope.
Local Open Scope orbit_scope.

(** Randomness is there for secrets too. *)
Class HealthySecrets `{V : Env} : Prop := { healthy_read : ∀ n, ∃ b, rand_Read n 32 = inr b }.

Section completes.
Context `{V : Env} `{UC : UnicodeCase} `{!EnvLaws V} `{!UUIDLaws L} `{!Fair V} `{!CredentialLaws V} `{!HealthySecrets}.
Context (flags : Flags) (signer : TokenSigner) `{!Healthy flags signer} `{!Outside flags signer} (rfc3339 : time → string) (cfg : Config).

Abbreviation svc := (wired flags signer rfc3339 cfg).

(** ** Rules *)

(** A transition of the contract that is not refused is taken. *)
Lemma completes_refines {S} (v : DB Envelope → S) m spec w b (Φ : unit → World → Prop) :
  refines_to v m spec → ready w → spec (v (w_db w)) = inr b →
  (∀ w', v (w_db w') = b → ready w' → Φ () w') → completes m w Φ.
Proof.
  intros Hm Hw Hs HΦ. unfold completes. eapply wp_mono; [by apply Hm|]. intros r w' ([[[Hf _] _]|Hd] & Hw' & _); [by destruct Hf|].
  rewrite Hs in Hd. destruct Hd as [-> Hv]. by apply HΦ.
Qed.

Lemma completes_NewSecret db tx n sent (Φ : string → World → Prop) :
  (∀ b, rand_Read n 32 = inr b → Φ (of_bytes (RawURLEncode b)) (mkWorld db tx (S n) sent)) →
  completes NewSecret (mkWorld db tx n sent) Φ.
Proof.
  intros HΦ. destruct (healthy_read n) as [b Hb]. eapply completes_eq; [|by apply HΦ].
  unfold NewSecret, bind, tick, of_sum. simpl. by rewrite Hb.
Qed.

(** A secret is text no trimming changes. *)
Lemma secret_text n b : rand_Read n 32 = inr b → TrimSpace (of_bytes (RawURLEncode b)) = of_bytes (RawURLEncode b) ∧ of_bytes (RawURLEncode b) ≠ "".
Proof.
  intros Hb%rand_Read_length. split.
  - apply TrimSpace_plain. rewrite to_of_bytes. apply forallb_plain, RawURLEncode_ok.
  - intros He%(f_equal to_bytes). rewrite to_of_bytes in He. pose proof (length_RawURLEncode b) as Hl. rewrite He, Hb in Hl. done.
Qed.

Lemma completes_IsActiveMember o u org user db n sent (Φ : bool → World → Prop) :
  o ≠ "" → u ≠ "" → TrimSpace o = o → TrimSpace u = u → uuid_Parse o = Some org → uuid_Parse u = Some user → member db org user →
  Φ true (mkWorld db None (S n) sent) → completes (IsActiveMember svc o u) (mkWorld db None n sent) Φ.
Proof.
  intros Ho Hu To Tu Po Pu (m & Hm & Hs) HΦ. unfold IsActiveMember. cbv zeta. rewrite To, Tu.
  rewrite (proj2 (String.eqb_neq _ _) Ho), (proj2 (String.eqb_neq _ _) Hu). cbn [orb]. apply completes_bind, completes_try.
  cbn [s_orgs wired on pg_orgs os_GetMembership]. unfold GetMembership. apply completes_bind. unfold membershipIDs.
  apply completes_bind. eapply completes_parseID; [exact Po|]. apply completes_bind. eapply completes_parseID; [exact Pu|].
  apply completes_ret. unfold getMembership. apply completes_bind, completes_try. eapply completes_Pool.
  { unfold sql_GetOrganizationMembership. rewrite Hm. reflexivity. }
  apply completes_ret. apply completes_ret. simpl. by rewrite Hs.
Qed.

Lemma completes_FindByID u uid r db n sent (Φ : User → World → Prop) :
  uuid_Parse u = Some uid → users db !! uid = Some r → Φ (user_columns uid r) (mkWorld db None (S n) sent) →
  completes (FindByID u) (mkWorld db None n sent) Φ.
Proof.
  intros Pu Hr HΦ. unfold FindByID. apply completes_bind. eapply completes_parseID; [exact Pu|]. apply completes_bind, completes_try.
  eapply completes_Pool; [unfold sql_FindUserByID; by rewrite Hr|]. by apply completes_ret.
Qed.

Lemma completes_GetOrg o org r db n sent (Φ : Organization → World → Prop) :
  uuid_Parse o = Some org → organizations db !! org = Some r → (∀ row, Φ row (mkWorld db None (S n) sent)) →
  completes (GetOrg o) (mkWorld db None n sent) Φ.
Proof.
  intros Po Hr HΦ. unfold GetOrg. apply completes_bind. eapply completes_parseID; [exact Po|]. apply completes_bind, completes_try.
  eapply completes_Pool; [unfold sql_GetOrganization; by rewrite Hr|]. apply completes_ret, HΦ.
Qed.

(** ** Creating the invitation *)

(** No identifier and no secret yet to be given is in use. *)
Definition unused_invites (n : nat) (db : DB Envelope) : Prop :=
  ∀ m, (n ≤ m)%nat → organization_invites db !! uuid_New m = None ∧
    ∀ b id r, rand_Read m 32 = inr b → organization_invites db !! id = Some r →
      ir_token_hash r ≠ HashInviteToken (of_bytes (RawURLEncode b)).

(** The invitations after earlier pending ones to the address are revoked. *)
Definition superseded (org : uuid) (email : string) (db : DB Envelope) : gmap uuid InviteRow :=
  update_where (λ _ r, bool_decide (ir_org_id r = org) && String.eqb (db_lower (ir_email r)) (db_lower email) &&
    bool_decide (ir_status r = InvitePending)) (λ r, with_status InviteRevoked (ir_accepted_at r) r) (organization_invites db).

Lemma completes_CreateInvite id o v email hash org inviter m db n sent (Φ : unit → World → Prop) :
  uuid_Parse o = Some org → uuid_Parse v = Some inviter → is_Some (organizations db !! org) → is_Some (users db !! inviter) →
  organization_invites db !! id = None → (∀ k r, organization_invites db !! k = Some r → ir_token_hash r ≠ hash) →
  Φ () (mkWorld (set_invites (λ _, <[id := mkInviteRow org email hash inviter InvitePending (Add (go_now m) InviteTTL) None (go_now m)]>
                                (superseded org email db)) db) None (S (S (S (S (S n))))) sent) →
  completes (CreateInvite (mkInvite (uuid_String id) o email hash v InvitePending (Add (go_now m) InviteTTL) None (go_now m)))
    (mkWorld db None n sent) Φ.
Proof.
  intros Po Pv [ow How] [vw Hvw] Hid Hhash HΦ. unfold CreateInvite. cbn [i_ID i_OrgID i_InviterID i_Email i_TokenHash i_Status i_ExpiresAt i_CreatedAt].
  apply completes_bind. eapply completes_parseID; [apply uuid_Parse_String|]. apply completes_bind. eapply completes_parseID; [exact Po|].
  apply completes_bind. eapply completes_parseID; [exact Pv|]. apply wp_transaction; [apply fair_tolerates|].
  apply wp_bind. apply wp_lockOrganization; [by intros []|]. rewrite How.
  apply wp_bind, wp_wrap, wp_Tx; [by intros []|]. unfold sql_RevokePendingOrganizationInvitesForEmail.
  apply wp_bind, wp_wrap, wp_Tx; [by intros []|]. unfold sql_CreateOrganizationInvite.
  rewrite (stored_time flags signer) by done. unfold timestamptz. rewrite (stored_now flags signer m). cbn [not_null set_invites organization_invites].
  rewrite (proj2 (first_where_None _ _)).
  - cbn [organizations users set_invites]. rewrite How, Hvw. apply wp_wrap, wp_Commit; [by intros []|]. exact HΦ.
  - intros k r Hk. rewrite lookup_update_where, fmap_Some in Hk. destruct Hk as (r0 & Hk & ->).
    rewrite !orb_false_iff. split_and!.
    + apply bool_decide_eq_false_2. congruence.
    + apply String.eqb_neq. case_match; simpl; by eapply Hhash.
    + rewrite bool_decide_eq_true_2 by done. cbn [andb]. unfold pending_for.
      match goal with |- context [if ?c then _ else _] => destruct c eqn:Ep end; simpl; [|exact Ep].
      apply andb_false_r.
Qed.

(** ** Sending *)

(** The pending invitation to [email] that this token presents, until [expires]. *)
Definition pending (org : uuid) (email token : string) (expires : time) (db : DB Envelope) : Prop :=
  TrimSpace token = token ∧ token ≠ "" ∧
  ∃ id r, organization_invites db !! id = Some r ∧ ir_org_id r = org ∧ ir_email r = email ∧
    ir_token_hash r = HashInviteToken token ∧ ir_status r = InvitePending ∧ ir_expires_at r = expires.

(** A usable account whose verified address is [email]. *)
Definition account_of (r : UserRow) (email : string) : Prop :=
  ur_status r = UserActive ∧ is_Some (ur_email_verified_at r) ∧ ∃ e, ur_email r = Some e ∧ e ≠ "" ∧ EqualFold e email = true.

Lemma completes_InviteMember orgID inviterID email org inviter db n sent :
  schema db_lower db → uuid_Parse (TrimSpace orgID) = Some org → uuid_Parse (TrimSpace inviterID) = Some inviter →
  member db org inviter → IsEmail (NormalizeEmail email) = true → unused_invites n db →
  completes (InviteMember svc orgID inviterID email) (mkWorld db None n sent) (λ inv w, ∃ token req,
    w_sent w = sent ++ [req] ∧ Recipient req = NormalizeEmail email ∧ ("accept_token", token) ∈ Vars req ∧
    users (w_db w) = users db ∧ organization_memberships (w_db w) = organization_memberships db ∧ w_tx w = None ∧
    pending org (NormalizeEmail email) token (i_ExpiresAt inv) (w_db w)).
Proof.
  intros Hs Po Pv Hm Hemail Hfresh.
  assert (∀ t x, uuid_Parse t = Some x → t ≠ "") as Hne by (intros t x Ht ->; by rewrite uuid_Parse_empty in Ht).
  pose proof Hm as (mr & Hmr & _). pose proof (sch_members _ _ Hs _ _ _ Hmr) as [[ow How] [vw Hvw]].
  unfold InviteMember. cbv zeta. rewrite (proj2 (String.eqb_neq _ _) (Hne _ _ Po)), (proj2 (String.eqb_neq _ _) (Hne _ _ Pv)).
  cbn [orb]. rewrite Hemail. cbn [negb s_invites wired]. apply completes_bind.
  apply (completes_IsActiveMember _ _ org inviter); [by eapply Hne|by eapply Hne|apply TrimSpace_idemp|apply TrimSpace_idemp|done|done|done|].
  cbn [negb]. apply completes_bind. cbn [s_orgs wired on pg_orgs os_GetOrg]. apply (completes_GetOrg _ org ow); [done..|]. intros row.
  apply completes_bind. cbn [s_users wired on pg_users us_FindByID]. apply (completes_FindByID _ inviter vw); [done..|].
  apply completes_bind. cbn [s_secrets wired]. apply completes_NewSecret. intros b Hb.
  destruct (secret_text _ b Hb) as [Ht Hn]. set (token := of_bytes (RawURLEncode b)) in *.
  apply completes_bind, completes_Now, completes_bind, completes_NewID, completes_bind. cbn [pg_invites is_CreateInvite].
  apply (completes_CreateInvite _ _ _ _ _ org inviter); [done..|by rewrite How|by rewrite Hvw|by apply Hfresh; lia| |].
  { intros k r Hk. destruct (Hfresh (S (S (S n)))) as [_ Hsec]; [lia|]. by apply (Hsec b k r Hb Hk). }
  apply completes_bind, completes_try. cbn [s_notifier wired on notificationsClient SendOrgInvite]. unfold client_SendOrgInvite.
  eapply completes_eq; [unfold Send; simpl; by rewrite (healthy_send (flags:=flags) (signer:=signer))|].
  apply completes_ret. exists token. eexists. split_and!; [reflexivity|reflexivity|set_solver|reflexivity..|].
  split_and!; [done..|]. eexists _, _. cbn [w_db organization_invites set_invites]. rewrite lookup_insert_eq.
  split_and!; reflexivity.
Qed.

(** ** Accepting *)

Lemma completes_AcceptInvite userID uid r org email token expires w :
  ready w → pending org email token expires (w_db w) → uuid_Parse (TrimSpace userID) = Some uid → users (w_db w) !! uid = Some r →
  account_of r email →
  (∀ m, organization_memberships (w_db w) !! (org, uid) = Some m → mr_status m ≠ MembershipSuspended) →
  go_now (S (w_tick w)) < expires →
  completes (Service.AcceptInvite svc userID token) w (λ inv w',
    i_Status inv = InviteAccepted ∧ member (w_db w') org uid ∧ ready w').
Proof.
  destruct w as [db tx n sent]. intros [Htx Hs] (Ht & Hne & id & i & Hi & Ho & He & Hh & Hp & Hexp) Pu Hu Hrec Hsus Hnow.
  simpl in *. subst tx. assert (TrimSpace userID ≠ "") as Huid by (intros E; by rewrite E, uuid_Parse_empty in Pu).
  unfold Service.AcceptInvite. cbv zeta. rewrite Ht, (proj2 (String.eqb_neq _ _) Huid), (proj2 (String.eqb_neq _ _) Hne).
  cbn [orb s_invites wired]. apply completes_bind, completes_try. cbn [pg_invites is_FindInviteByTokenHash].
  unfold FindInviteByTokenHash. apply completes_bind, completes_try. eapply completes_Pool.
  { unfold sql_FindOrganizationInviteByTokenHash. destruct (first_where _ _) as [[k r']|] eqn:E.
    - apply first_where_Some in E as [Hk Hh'%String.eqb_eq]. assert (k = id) as -> by (eapply (proj1 (sch_invites_unique _ _ Hs)); [exact Hk|exact Hi|congruence]). assert (r' = i) as -> by congruence. reflexivity.
    - exfalso. rewrite first_where_None in E. specialize (E id i Hi). simpl in E. rewrite Hh, String.eqb_refl in E. done. }
  apply completes_ret. apply completes_bind, completes_Now. cbn [invite_columns i_Status i_ExpiresAt i_Email i_ID i_OrgID i_InviterID i_CreatedAt].
  rewrite Hp, (bool_decide_eq_false_2 (InvitePending ≠ _)) by auto. unfold Before. rewrite Hexp, (proj2 (Z.ltb_lt _ _) Hnow). cbn [orb negb].
  apply completes_bind, completes_try. cbn [s_users wired on pg_users us_FindByID]. apply (completes_FindByID _ uid r); [done..|].
  assert (inviteRecipientMatches (user_columns uid r) (ir_email i) = true) as ->.
  { destruct Hrec as (Hst & [t Hver] & e & Hre & Hne' & Hfold). rewrite He. unfold inviteRecipientMatches. simpl.
    rewrite Hre, Hst, Hver. simpl. by rewrite Hfold, (proj2 (String.eqb_neq _ _) Hne'). }
  cbn [negb]. apply completes_bind, completes_try. cbn [pg_invites is_AcceptInvite].
  assert (spec_AcceptInvite (uuid_String id) (uuid_String (ir_org_id i)) (TrimSpace userID) (book db) =
    inr (mkBook (mkOrgs (og_users (view db)) (og_names (view db))
       (if joins (og_members (view db) !! (org, uid)) then <[(org, uid) := MembershipActive]> (og_members (view db)) else og_members (view db))
       (og_events (view db) ++ [(SubjectMembershipAdded, MembershipAddedPayload (uuid_String (ir_org_id i)) (TrimSpace userID) MembershipActive 0)]))
      (<[id := (org, InviteAccepted)]> (bk_invites (book db))))) as Hspec.
  { unfold spec_AcceptInvite, spec_accept, spec_writes. rewrite !uuid_Parse_String, Pu, Ho. cbn [bk_orgs book].
    destruct (sch_invites _ _ Hs _ _ Hi) as [[o Horg] _]. rewrite Ho in Horg. rewrite names_view, Horg. cbn [fmap option_fmap option_map].
    rewrite (bool_decide_eq_false_2 (og_members (view db) !! (org, uid) = _)).
    2: { rewrite members_view. destruct (organization_memberships db !! (org, uid)) as [m|]; simpl; [|done].
         intros [= E]. by apply (Hsus m). }
    rewrite (bool_decide_eq_false_2 (_ ≠ _)) by (simpl; rewrite lookup_fmap, Hi; simpl; unfold invite_view; rewrite Ho, Hp; auto).
    rewrite (bool_decide_eq_false_2 (uid ∉ _)), andb_false_r; [done|]. intros Hno. apply Hno, elem_of_dom. by rewrite Hu. }
  eapply completes_refines; [apply pg_AcceptInvite_refines, fair_clock|by split|exact Hspec|].
  intros w' Hbook Hw'. apply completes_ret. split_and!; [done| |done].
  assert (og_members (view (w_db w')) !! (org, uid) = Some MembershipActive) as Hact.
  { apply (f_equal bk_orgs) in Hbook. cbn [bk_orgs book] in Hbook. rewrite Hbook. cbn [og_members].
    destruct (og_members (view db) !! (org, uid)) as [[]|] eqn:E; cbn [joins]; try apply lookup_insert_eq; [done|].
    exfalso. rewrite members_view in E. destruct (organization_memberships db !! (org, uid)) as [m|]; simplify_eq/=. by apply (Hsus m). }
  rewrite members_view, fmap_Some in Hact. destruct Hact as (m & Hm & Hst). by exists m.
Qed.

(** ** The whole invitation *)

Lemma InviteMember_ready orgID inviterID email inv w w' :
  ready w → InviteMember svc orgID inviterID email w = (Ret inv, w') → w_tx w' = None → ready w'.
Proof.
  intros [Ht Hs] E Ht'. split; [done|].
  pose proof (keeping_db (schema db_lower) (run_use svc (UseInviteMember orgID inviterID email)) w
    (run_use_keeping _ true true (λ c _ _, run_call_schema c) flags signer rfc3339 cfg (UseInviteMember orgID inviterID email) eq_refl eq_refl) Ht Hs) as H'.
  change (schema db_lower (w_db (discard (InviteMember svc orgID inviterID email) w).2)) in H'. by rewrite discard_world, E in H'.
Qed.

(** C29: an invitation completes.  When no dependency fails, an active member who invites a
    well-formed address gets the invitation, and one message with its token goes to that
    address; and whoever presents the token before it expires, with an active account whose
    verified address it is, and who is not a suspended member, becomes an active member
    of the organization; both calls return a value and no error. *)
Theorem invitation_completes orgID inviterID email org inviter w :
  ready w → uuid_Parse (TrimSpace orgID) = Some org → uuid_Parse (TrimSpace inviterID) = Some inviter →
  member (w_db w) org inviter → IsEmail (NormalizeEmail email) = true → unused_invites (w_tick w) (w_db w) →
  ∃ inv token req w1, InviteMember svc orgID inviterID email w = (Ret inv, w1) ∧
    w_sent w1 = w_sent w ++ [req] ∧ Recipient req = NormalizeEmail email ∧ ("accept_token", token) ∈ Vars req ∧
    ∀ d userID user r, uuid_Parse (TrimSpace userID) = Some user → users (w_db w) !! user = Some r →
      account_of r (NormalizeEmail email) →
      (∀ m, organization_memberships (w_db w) !! (org, user) = Some m → mr_status m ≠ MembershipSuspended) →
      go_now (S (w_tick w1 + d)) < i_ExpiresAt inv →
      ∃ inv' w2, Service.AcceptInvite svc userID token (later d w1) = (Ret inv', w2) ∧
        i_Status inv' = InviteAccepted ∧ member (w_db w2) org user.
Proof.
  intros Hready Po Pv Hm Hemail Hfresh. pose proof Hready as [Htx Hs]. destruct w as [db tx n sent]. simpl in *. subst tx.
  destruct (completes_run _ _ _ (completes_InviteMember orgID inviterID email org inviter db n sent Hs Po Pv Hm Hemail Hfresh))
    as (inv & w1 & E1 & token & req & Hsent & Hto & Htok & Hus & Hmem & Htx1 & Hpend).
  exists inv, token, req, w1. split_and!; [done..|]. intros d userID user r Pu Hu Hacc Hsus Hnow.
  pose proof (InviteMember_ready _ _ _ _ _ _ Hready E1 Htx1) as Hready1.
  destruct (completes_run _ _ _ (completes_AcceptInvite userID user r org (NormalizeEmail email) token (i_ExpiresAt inv) (later d w1)
    Hready1 Hpend Pu ltac:(simpl; by rewrite Hus) Hacc ltac:(simpl; by rewrite Hmem) Hnow)) as (inv' & w2 & E2 & Hst & Hmem2 & _).
  exists inv', w2. done.
Qed.
End completes.

(** ** Example: alice invites the address of an account *)

#[local] Existing Instance bits_uuid.
#[local] Existing Instance bits_uuid_laws.
#[local] Existing Instance calm_env.
#[local] Existing Instance calm_laws.
#[local] Existing Instance calm_fair.
#[local] Existing Instance ascii_case.
#[local] Existing Instance demo_healthy.

#[local] Instance demo_secrets : HealthySecrets.
Proof. split. intros n. by eexists. Qed.

Definition orbit_id : uuid := default [] (uuid_Parse (TrimSpace (o_ID orbit))).
Definition alice_id : uuid := default [] (uuid_Parse (TrimSpace alice)).

Lemma alice_is_member : member (w_db one_member) orbit_id alice_id.
Proof.
  assert (bool_decide ((mr_status <$> organization_memberships (w_db one_member) !! (orbit_id, alice_id)) = Some MembershipActive) = true) as H
    by (vm_compute; reflexivity).
  apply bool_decide_eq_true_1, fmap_Some in H as (m & Hm & Hs). exists m. exact (conj Hm (eq_sym Hs)).
Qed.

Lemma invitation_completes_witness :
  ∃ inv token req w1, InviteMember demo_svc (o_ID orbit) alice "D@e.f " one_member = (Ret inv, w1) ∧
    w_sent w1 = w_sent one_member ++ [req] ∧ Recipient req = NormalizeEmail "D@e.f " ∧ ("accept_token", token) ∈ Vars req.
Proof.
  destruct (invitation_completes demo_flags demo_signer (λ _, "") demo_cfg (o_ID orbit) alice "D@e.f " orbit_id alice_id one_member)
    as (inv & token & req & w1 & H1 & H2 & H3 & H4 & _).
  - apply one_member_ready.
  - vm_compute. reflexivity.
  - vm_compute. reflexivity.
  - apply alice_is_member.
  - vm_compute. reflexivity.
  - assert (organization_invites (w_db one_member) = ∅) as E by (vm_compute; reflexivity). intros m _. rewrite E.
    split; [apply lookup_empty|]. intros b id r _ Hr. by rewrite lookup_empty in Hr.
  - exists inv, token, req, w1. exact (conj H1 (conj H2 (conj H3 H4))).
Defined.
