(* ===== verification/SignupCompletes.v ===== *)
(** Sign-up completes: when no dependency fails and sign-up is open, registering a new
    address sends it a code, and presenting the code with the password activates the
    account and gives a session. *)
From S2P Require Import Prelude GoStrings Domain Libs Tables Database DatabaseProps World Effects Demo Ports.
From S2P Require Import Postgres PostgresProps Exec Returns OrgSpec OrgRefinement Scenario Service Adapters ServiceInv AuthFlows Sessions ApiTokens Completes.
Local Open Scope Z_scope.
Local Open Scope orbit_scope.

(** A hash is never the empty text. *)
Class HashText `{V : Env} : Prop := { hash_text : ∀ n s h, bcrypt_Generate n s = inr h → h ≠ "" }.

Section completes.
Context `{V : Env} `{UC : UnicodeCase} `{!EnvLaws V} `{!UUIDLaws L} `{!Fair V} `{!CredentialLaws V} `{HT : !HashText}.
Context (flags : Flags) (signer : TokenSigner) `{!Healthy flags signer} (rfc3339 : time → string) (cfg : Config).

Abbreviation svc := (wired flags signer rfc3339 cfg).

(** ** The account and its organization *)

Definition pending_account (email name hash : string) (now : time) : UserRow :=
  mkUserRow (Some email) now None (Some hash) (Some name) UserSignupPending now None None.

(** The rest of the tables, where the account is new. *)
Definition grown (id : uuid) (row : UserRow) (org : option uuid) (db db' : DB Envelope) : Prop :=
  users db' = <[id := row]> (users db) ∧ otp_challenges db' = otp_challenges db ∧ refresh_tokens db' = refresh_tokens db ∧
  ∀ o, org = Some o → member db' o id.

Lemma completes_CreateSignupUser id email hash name org m db n sent (Φ : bool → World → Prop) :
  schema db_lower db → users db !! id = None → first_where (has_email email) (users db) = None →
  (∀ o t, org = Some (o, t) → organizations db !! o = None) →
  (∀ now db' n', grown id (pending_account email name hash now) (fst <$> org) db db' → Φ true (mkWorld db' None n' sent)) →
  completes (CreateSignupUser (mkUser (uuid_String id) email "" hash name UserSignupPending false)
    ((λ o, mkOrganization (uuid_String o.1) o.2 (go_now m) (go_now m)) <$> org) None (go_now m)) (mkWorld db None n sent) Φ.
Proof.
  intros Hs Hid Hnone Horg HΦ. unfold CreateSignupUser. cbn [u_ID u_EmailVerified u_Email u_PasswordHash u_DisplayName u_Status].
  apply completes_bind. eapply completes_parseID; [apply uuid_Parse_String|]. cbv zeta. apply wp_transaction; [apply fair_tolerates|].
  set (row := pending_account email name hash (db_now n)).
  apply wp_bind, wp_wrap, wp_Tx; [by intros []|]. unfold sql_CreateSignupUser, insert_user. rewrite Hnone, Hid.
  rewrite (proj2 (first_where_None (user_conflict id _) _)).
  2: { rewrite first_where_None in Hnone. intros k r Hk. unfold user_conflict. cbn [ur_email ur_mobile].
       by rewrite (Hnone k r Hk), orb_false_r, andb_false_r. }
  cbn [Z.eqb]. change (NOW (server (S n) (db_now n))) with (db_now n). fold (pending_account email name hash (db_now n)). fold row.
  rewrite (stored_now flags signer m). apply wp_bind, wp_ret, wp_bind, wp_emitEvents; [apply fair_tolerates|apply Forall_singleton; intros _; apply fair_clock|].
  intros rows n1 _. apply wp_bind, wp_ret, wp_bind. destruct org as [[o t]|]; cbn [fmap option_fmap option_map].
  - cbn [o_ID o_Name o_CreatedAt o_UpdatedAt fst snd]. apply wp_bind, wp_parseID. rewrite uuid_Parse_String.
    unfold timestamptz. rewrite (stored_now flags signer m). apply wp_bind, wp_wrap, wp_Tx; [by intros []|]. unfold sql_CreateOrganization.
    cbn [not_null organizations appended set_outbox set_users]. rewrite (Horg o t eq_refl).
    apply wp_bind, wp_wrap, wp_Tx; [by intros []|]. unfold sql_AddOrganizationMembership, insert_membership.
    cbn [organization_memberships organizations users appended set_outbox set_users set_organizations].
    rewrite (schema_no_member db o id Hs (Horg o t eq_refl)), !lookup_insert_eq.
    apply wp_emitEvents; [apply fair_tolerates|repeat (apply Forall_cons; split; [intros _; apply fair_clock|]); constructor|].
    intros rows2 n2 _. apply wp_bind, wp_wrap, wp_Commit; [by intros []|]. apply wp_ret. apply (HΦ (db_now n)).
    split_and!; [done..|]. intros o' [= <-]. eexists. split; [apply lookup_insert_eq|done].
  - apply wp_ret, wp_bind, wp_wrap, wp_Commit; [by intros []|]. apply wp_ret. apply (HΦ (db_now n)). by split_and!.
Qed.

(** ** Registering *)

(** No identifier yet to be given is an organization's. *)
Definition unused_orgs (n : nat) (db : DB Envelope) : Prop := ∀ m, (n ≤ m)%nat → organizations db !! uuid_New m = None.

(** A pending account that this code and password activate until [expires]. *)
Definition registered (email code password : string) (expires : time) (uid : uuid) (w : World) : Prop :=
  w_tx w = None ∧ (∀ m, (w_tick w ≤ m)%nat → refresh_tokens (w_db w) !! uuid_New m = None) ∧
  len code = 6%nat ∧ forallb digit (to_bytes code) = true ∧
  (∃ name hash now, users (w_db w) !! uid = Some (pending_account email name hash now) ∧ hash ≠ "" ∧ bcrypt_Compare hash password = true) ∧
  (∀ k r, users (w_db w) !! k = Some r → ur_email r = Some email → k = uid) ∧
  ∃ id r, otp_challenges (w_db w) !! id = Some r ∧ cr_identifier r = email ∧ cr_channel r = ChannelEmail ∧
    (∀ id' r', otp_challenges (w_db w) !! id' = Some r' → cr_identifier r' = email → cr_channel r' = ChannelEmail →
       id' ≠ id → cr_created_at r' < cr_created_at r) ∧
    cr_expires_at r = expires ∧ cr_attempts r = 0 ∧ bcrypt_Compare (cr_code_hash r) code = true.

(** What registering leaves: the account, its organization if it was named, and the
    message with the code. *)
Definition signed_up (email password orgName : string) (n : nat) (sent : list SendRequest) (w : World) : Prop :=
  ∃ code uid expires req, w_sent w = sent ++ [req] ∧ Recipient req = email ∧ Template req = "signup_verify" ∧ ("code", code) ∈ Vars req ∧
    (TrimSpace orgName ≠ "" → ∃ org, member (w_db w) org uid) ∧
    Add (go_now n) OTPTTL ≤ expires ∧ registered email code password expires uid w.

Lemma completes_RegisterWithEmail email password name locale orgName db n sent :
  cfg_signupOpen cfg = true → schema db_lower db → unused n db → unused_orgs n db →
  IsEmail (NormalizeEmail email) = true → TrimSpace password ≠ "" → (len password ≤ 72)%nat →
  (∀ id r, users db !! id = Some r → ur_email r ≠ Some (NormalizeEmail email)) →
  (∀ id r, otp_challenges db !! id = Some r → cr_identifier r = NormalizeEmail email → cr_channel r = ChannelEmail →
     cr_created_at r < go_now n) →
  completes (RegisterWithEmail svc email password name locale orgName "") (mkWorld db None n sent)
    (λ _ w, signed_up (NormalizeEmail email) password orgName n sent w).
Proof.
  intros Hopen Hs Hfresh Horgs Hemail Hpw Hlen Hnew Hold. unfold RegisterWithEmail. cbn [s_signupOpen wired]. rewrite Hopen.
  cbn [negb s_signup s_users s_notifier s_otp wired]. rewrite !(bool_decide_eq_false_2 (Some _ = None)) by done. cbn [orb]. cbv zeta.
  rewrite Hemail, (proj2 (String.eqb_neq _ _) Hpw). cbn [negb]. apply completes_bind. unfold signupInvite. cbv zeta.
  change (String.eqb (TrimSpace "") "") with true. cbv iota. apply completes_ret, completes_bind. cbn [s_hasher wired].
  destruct (healthy_hash (flags:=flags) (signer:=signer) n password Hlen) as [hash Hh].
  eapply completes_eq; [simpl; unfold bind, tick, of_sum; simpl; rewrite Hh; reflexivity|].
  apply completes_bind, completes_Now, completes_bind, completes_NewID, completes_bind.
  assert (first_where (has_email (NormalizeEmail email)) (users db) = None) as Hnone.
  { apply first_where_None. intros k r Hk. apply bool_decide_eq_false_2. by apply (Hnew k). }
  set (uid := uuid_New (S (S n))).
  assert (∃ org n1, (S (S (S n)) ≤ n1)%nat ∧ (TrimSpace orgName ≠ "" → is_Some (fst <$> org)) ∧
    (∀ o t, org = Some (o, t) → organizations db !! o = None) ∧
    (if negb (String.eqb (TrimSpace orgName) "") then orgID <- s_ids svc ;; ret (Some (mkOrganization orgID (TrimSpace orgName) (go_now (S n)) (go_now (S n))))
     else ret None) (mkWorld db None (S (S (S n))) sent) =
    (Ret ((λ o, mkOrganization (uuid_String o.1) o.2 (go_now (S n)) (go_now (S n))) <$> org), mkWorld db None n1 sent)) as (org & n1 & Hn1 & Hnamed & Hofresh & Eorg).
  { destruct (String.eqb_spec (TrimSpace orgName) ""); cbn [negb].
    - exists None, (S (S (S n))). by split_and!.
    - exists (Some (uuid_New (S (S (S n))), TrimSpace orgName)), (S (S (S (S n)))). split_and!; [lia|by eexists| |reflexivity].
      intros o t [= <- <-]. apply Horgs. lia. }
  eapply completes_eq; [exact Eorg|]. apply completes_bind, completes_try. cbn [s_signup wired on pg_signup ss_CreateSignupUser].
  apply completes_advances; [apply advances_CreateSignupUser|].
  apply (completes_CreateSignupUser uid); [done|by apply Hfresh; lia|done|done|].
  intros now db1 n2 (Hus & Hch & Href & Hmem) Hn2. cbn [w_tick] in Hn2. cbn [negb].
  apply completes_bind, (completes_newOTPChallenge flags signer); [intros m Hm; rewrite Hch; apply Hfresh; lia|].
  intros expired code h m n3 Hm Hn3 Hcode Hl Hd. cbn [s_notifier wired on notificationsClient SendSignupVerification].
  eapply completes_eq.
  { unfold client_SendSignupVerification, Send. cbn [w_tick w_db w_tx w_sent]. rewrite (healthy_send (flags:=flags) (signer:=signer)). reflexivity. }
  exists code, uid, (Add (go_now m) OTPTTL). eexists. split; [reflexivity|]. split_and!; [done|done|set_solver| | |].
  - intros Hne. destruct (Hnamed Hne) as [o Ho]. exists o. by apply (Hmem o Ho).
  - pose proof (healthy_clock (flags:=flags) (signer:=signer) n m). unfold Add. lia.
  - split_and!; [done| |done|done| | |].
    + intros k Hk. cbn [w_tick w_db] in *. cbn [refresh_tokens set_challenges]. rewrite Href. apply Hfresh. lia.
    + exists (TrimSpace name), hash, now. cbn [w_db users set_challenges]. rewrite Hus, lookup_insert_eq.
      split_and!; [done|by eapply hash_text|by eapply bcrypt_correct].
    + intros k r. cbn [w_db users set_challenges]. rewrite Hus, lookup_insert_Some. intros [[<- _]|[_ Hk]] He; [done|].
      by destruct (Hnew k r Hk).
    + eexists _, _. cbn [w_db otp_challenges set_challenges]. rewrite lookup_insert_eq. split_and!; [reflexivity..| |done|done|done].
      intros k r Hk Hi Hc Hne. rewrite lookup_insert_ne in Hk by done. apply lookup_delete_where_Some in Hk as [Hk _].
      rewrite Hch in Hk. specialize (Hold k r Hk Hi Hc). pose proof (healthy_clock (flags:=flags) (signer:=signer) n m). simpl. lia.
Qed.

(** ** Verifying *)

Lemma digits_trim code : forallb digit (to_bytes code) = true → TrimSpace code = code.
Proof.
  intros Hd. apply TrimSpace_plain. rewrite forallb_iff in *. intros a Ha. specialize (Hd a Ha).
  destruct a as [[] [] [] [] [] [] [] []]; first [reflexivity|discriminate Hd].
Qed.

(** The account after it was verified. *)
Definition activated (r : UserRow) : Prop := ur_status r = UserActive ∧ is_Some (ur_email_verified_at r).

Lemma completes_VerifySignup email code password expires uid w :
  cfg_signupOpen cfg = true → registered (NormalizeEmail email) code password expires uid w → NormalizeEmail email ≠ "" →
  go_now (S (w_tick w)) ≤ expires →
  completes (VerifySignup svc email code password) w (λ t w',
    (∃ issue, t.2 = Add issue AccessTokenTTL ∧ session t.1.2 issue w') ∧
    organization_memberships (w_db w') = organization_memberships (w_db w) ∧
    ∃ r, users (w_db w') !! uid = Some r ∧ ur_email r = Some (NormalizeEmail email) ∧ activated r).
Proof.
  destruct w as [db tx n sent]. intros Hopen (Htx & Hfresh & Hlen & Hdig & (name & hash & now & Hu & Hne & Hpw) & Huniq & id & r & Hr & Hi & Hc & Hnew & <- & Hatt & Hcmp) Hem Hexp.
  simpl in *. subst tx. unfold VerifySignup. cbn [s_signupOpen wired]. rewrite Hopen. cbn [negb s_signup s_users s_otp wired].
  rewrite !(bool_decide_eq_false_2 (Some _ = None)) by done. cbn [orb]. cbv zeta. rewrite (digits_trim code Hdig).
  rewrite (proj2 (String.eqb_neq _ _) Hem). assert (code ≠ "") as Hcode by by intros ->.
  rewrite (proj2 (String.eqb_neq _ _) Hcode). cbn [orb].
  apply completes_bind, completes_try. cbn [on pg_otp otp_GetLatestChallenge]. unfold GetLatestChallenge.
  eapply completes_Pool; [by apply (newest_challenge_found _ _ _ _ _ id r)|].
  apply completes_bind, completes_Now. unfold After. cbn [challenge_columns ch_ExpiresAt ch_Attempts ch_CodeHash ch_ID].
  rewrite (proj2 (Z.ltb_ge _ _) Hexp), Hatt. change (MaxOTPAttempts <=? 0) with false. cbv iota.
  apply completes_bind. cbn [s_hasher wired Compare bcryptHasher]. apply completes_ret. rewrite Hcmp. cbn [negb].
  apply completes_bind, completes_try. cbn [pg_users us_FindByEmail]. unfold FindByEmail, findByEmail. eapply completes_Pool.
  { unfold sql_FindUserByEmail. destruct (first_where _ _) as [[k u]|] eqn:E.
    - apply first_where_Some in E as [Hk He%bool_decide_eq_true_1]. assert (k = uid) as -> by eauto.
      assert (u = pending_account (NormalizeEmail email) name hash now) as -> by congruence. reflexivity.
    - exfalso. rewrite first_where_None in E. specialize (E uid _ Hu). unfold has_email in E. simpl in E.
      by rewrite bool_decide_eq_true_2 in E. }
  cbn [user_columns u_Status u_EmailVerified u_PasswordHash u_ID pending_account ur_status ur_email_verified_at ur_password_hash COALESCE].
  change (String.eqb UserSignupPending UserSignupPending) with true.
  change (bool_decide (is_Some (@None time))) with false. change (COALESCE (Some hash) "") with hash. rewrite (proj2 (String.eqb_neq _ _) Hne). cbn [negb orb].
  apply completes_bind, completes_ret. rewrite Hpw. cbn [negb]. apply completes_bind.
  cbn [pg_otp otp_ConsumeChallenge]. unfold ConsumeChallenge. apply completes_bind. eapply completes_parseID; [apply uuid_Parse_String|].
  eapply completes_Pool; [reflexivity|]. apply completes_bind, completes_try. cbn [on pg_signup ss_VerifySignup].
  unfold Postgres.VerifySignup. apply completes_bind. eapply completes_parseID; [apply uuid_Parse_String|].
  apply completes_bind, completes_wrap. eapply completes_Pool.
  { unfold sql_VerifySignupUser. cbn [users set_challenges]. rewrite Hu. change (pending_row (pending_account _ _ _ _)) with true. reflexivity. }
  cbn [Z.eqb]. apply completes_ret. eapply completes_mono; [apply (completes_issueTokens flags signer rfc3339 cfg _ uid)|].
  - intros m Hm. cbn [refresh_tokens set_users set_challenges]. apply Hfresh. lia.
  - apply uuid_Parse_String.
  - intros t w [Hsess [f Hw]]. rewrite Hw. cbn [organization_memberships users set_refresh set_users set_challenges].
    split_and!; [done|done|]. rewrite lookup_insert_eq. eexists. split_and!; [reflexivity|done|]. split; [done|].
    cbn [ur_email_verified_at]. unfold timestamptz. rewrite (stored_now flags signer (S n)). by eexists.
Qed.

(** ** The whole sign-up *)

Lemma registered_later email code password expires uid d w :
  registered email code password expires uid w → registered email code password expires uid (later d w).
Proof. intros (Ht & Hf & Hr). split_and!; [done| |apply Hr..]. intros m Hm. apply Hf. simpl in Hm. lia. Qed.

(** C25: signing up completes.  When sign-up is open and no dependency fails, registering a
    well-formed address that has no account, with a password bcrypt takes and without an
    invitation token (a valid one activates the account at once), sends the address one
    message with a code; presenting the code of that message with the password
    before the code expires activates the account and gives a token pair; and if the
    registration named an organization, the account is its active member; both calls
    return a value and no error. *)
Theorem sign_up_completes email password name locale orgName w :
  cfg_signupOpen cfg = true → ready w → unused (w_tick w) (w_db w) → unused_orgs (w_tick w) (w_db w) →
  IsEmail (NormalizeEmail email) = true → TrimSpace password ≠ "" → (len password ≤ 72)%nat →
  (∀ id r, users (w_db w) !! id = Some r → ur_email r ≠ Some (NormalizeEmail email)) →
  (∀ id r, otp_challenges (w_db w) !! id = Some r → cr_identifier r = NormalizeEmail email → cr_channel r = ChannelEmail →
     cr_created_at r < go_now (w_tick w)) →
  ∃ w1 req code, RegisterWithEmail svc email password name locale orgName "" w = (Ret (), w1) ∧
    w_sent w1 = w_sent w ++ [req] ∧ Recipient req = NormalizeEmail email ∧ ("code", code) ∈ Vars req ∧
    ∀ d, go_now (S (w_tick w1 + d)) ≤ Add (go_now (w_tick w)) OTPTTL →
    ∃ tokens w2 uid r, VerifySignup svc email code password (later d w1) = (Ret tokens, w2) ∧
      users (w_db w2) !! uid = Some r ∧ ur_email r = Some (NormalizeEmail email) ∧ activated r ∧
      (TrimSpace orgName ≠ "" → ∃ org, member (w_db w2) org uid).
Proof.
  destruct w as [db tx n sent]. intros Hopen [Htx Hs] Hfresh Horgs Hemail Hpw Hlen Hnew Hold. simpl in *. subst tx.
  destruct (completes_run _ _ _ (completes_RegisterWithEmail email password name locale orgName db n sent Hopen Hs Hfresh Horgs Hemail Hpw Hlen Hnew Hold))
    as ([] & w1 & E1 & code & uid & expires & req & Hsent & Hto & _ & Hcode & Horg & Hexp & Hreg).
  exists w1, req, code. split_and!; [done..|]. intros d Hd. assert (NormalizeEmail email ≠ "") as Hne by (intros E; by rewrite E in Hemail).
  destruct (completes_run _ _ _ (completes_VerifySignup email code password expires uid (later d w1) Hopen (registered_later _ _ _ _ _ d _ Hreg) Hne
    ltac:(simpl; lia))) as (tokens & w2 & E2 & _ & Hmem & r & Hr & He & Hact).
  exists tokens, w2, uid, r. split_and!; [done..|]. intros Hnamed. destruct (Horg Hnamed) as (org & m & Hm & Hst).
  exists org, m. split; [|done]. by rewrite Hmem.
Qed.
End completes.

(** ** Example: a new address and a new organization *)

#[local] Existing Instance bits_uuid.
#[local] Existing Instance bits_uuid_laws.
#[local] Existing Instance calm_env.
#[local] Existing Instance calm_laws.
#[local] Existing Instance calm_fair.
#[local] Existing Instance ascii_case.
#[local] Existing Instance demo_healthy.

#[local] Instance demo_hash_text : HashText.
Proof. split. by intros n s h [= <-]. Qed.

Lemma sign_up_completes_witness :
  ∃ w1 req code, RegisterWithEmail demo_svc "a@b.c " "secret" "Ann" "" "Acme" "" (start empty_db) = (Ret (), w1) ∧
    w_sent w1 = [req] ∧ Recipient req = NormalizeEmail "a@b.c " ∧ ("code", code) ∈ Vars req.
Proof.
  destruct (sign_up_completes demo_flags demo_signer (λ _, "") demo_cfg "a@b.c " "secret" "Ann" "" "Acme" (start empty_db))
    as (w1 & req & code & H1 & H2 & H3 & H4 & _).
  - reflexivity.
  - split; [done|apply empty_db_schema].
  - intros m _. simpl. by rewrite !lookup_empty.
  - intros m _. simpl. by rewrite lookup_empty.
  - vm_compute. reflexivity.
  - vm_compute. discriminate.
  - vm_compute. lia.
  - intros id r Hr. simpl in Hr. by rewrite lookup_empty in Hr.
  - intros id r Hr. simpl in Hr. by rewrite lookup_empty in Hr.
  - exists w1, req, code. exact (conj H1 (conj H2 (conj H3 H4))).
Defined.
