(* ===== verification/Findings.v ===== *)
(** Runs that show behaviour which differs between parts of the program, or from
    what its comments say. *)
From S2P Require Import Prelude GoStrings Domain Libs Tables Database DatabaseProps World Effects Demo Ports.
From S2P Require Import Postgres PostgresProps Exec Returns OrgSpec Scenario Service Adapters ServiceInv AuthFlows ApiTokens.
Local Open Scope Z_scope.
Local Open Scope orbit_scope.

#[local] Existing Instance bits_uuid.
#[local] Existing Instance calm_env.
#[local] Existing Instance ascii_case.

Definition got_tokens {A} (r : outcome A) : bool := match r with Ret _ => true | _ => false end.

(** An account with a password that an operator has disabled. *)
Definition disable (w : World) : World :=
  mkWorld (set_users (fmap (λ r, mkUserRow (ur_email r) (ur_created_at r) (ur_mobile r) (ur_password_hash r)
    (ur_display_name r) UserDisabled (ur_updated_at r) (ur_last_login_at r) (ur_email_verified_at r))) (w_db w))
    (w_tx w) (w_tick w) (w_sent w).

Definition disabled_world : World := disable (world_after [CallUpsertDemoUser "p@q.r" "" "$secret" "P"]).
Definition disabled_code : World := world_after_uses [UseRequestOTP "p@q.r" "email" ""] disabled_world.
Definition disabled_login : outcome Tokens * World := VerifyOTP demo_svc "p@q.r" "email" "000009" disabled_code.

(** A disabled account is refused with its password, but gets tokens with a
    one-time code, and can refresh them. *)
Example disabled_account_gets_tokens :
  (LoginWithPassword demo_svc "p@q.r" "secret" disabled_world).1 = Fail ErrUserDisabled ∧
  got_tokens disabled_login.1 = true ∧
  match disabled_login.1 with
  | Ret (_, token, _) => got_tokens (Refresh demo_svc token disabled_login.2).1
  | _ => false
  end = true.
Proof. split_and!; vm_compute; reflexivity. Qed.

(** A code login with another spelling of a stored address makes a second
    account. *)
Definition spelled : World :=
  world_after_uses [UseRequestOTP "A@B.c" "email" ""; UseVerifyOTP "A@B.c" "email" "000017"] (world_after two_users).

Example code_login_is_case_sensitive :
  (ur_email ∘ snd) <$> map_to_list (users (w_db (world_after two_users))) = [Some "d@e.f"; Some "a@b.c"] ∧
  (ur_email ∘ snd) <$> map_to_list (users (w_db spelled)) = [Some "A@B.c"; Some "d@e.f"; Some "a@b.c"].
Proof. split; vm_compute; reflexivity. Qed.

(** The scheme of an API token is optional. *)
Example scheme_is_optional :
  created_secret = APITokenScheme +:+ "QUFBQUFB.QUFBQUFBQUFBQUFBQUFBQUFBQUFBQUFBQUE" ∧
  (ValidateApiToken demo_svc "QUFBQUFB.QUFBQUFBQUFBQUFBQUFBQUFBQUFBQUFBQUE" create_run.2).1 = Ret (alice, Some ["read"]).
Proof. split; vm_compute; reflexivity. Qed.
